(** * sql-parser-js: lexer, parser, facade and query analyzer

    A shallow embedding of the JavaScript sources
      src/errors/sql-error.js, src/lexer/token-types.js, src/lexer/lexer.js,
      src/ast/ast-nodes.js, src/parser/parser.js,
      src/analyzer/query-analyzer.js and src/index.js
    together with the properties stated about them.

    Conventions of the embedding.
    - A JavaScript string is a [string]; its characters are the code units
      below 256.  [toUpperCase]/[toLowerCase] act on the ASCII letters: every
      place where the sources compare an upper-cased text does so against a
      pure ASCII word without the pair SS, so the answer of the comparison is
      the one JavaScript computes.
    - [null] and [undefined] of an optional property are [None].
    - A thrown exception is the outcome [Throw].  The engine raises a
      [RangeError] when calls nest deeper than its stack holds.  The parser
      is given a budget [fuel] of nested calls, where a method call and a
      turn of a loop count for one each; no method of the parser catches an
      exception, so a run that exhausts the budget leaves [parse] with
      that error ([Parser.stackOverflow]), and inside the parser the
      exhausted budget is the outcome [NoFuel].  The properties are stated
      for every budget.  A budget of 12 calls for each token, and 3 more,
      is never exhausted ([ProgressFacts.parse_total]), and a larger
      budget changes no other outcome ([ParserFuel.parse_mono]).  The main
      loop of the lexer runs on the length of the text, which it never
      exhausts ([LexerFacts.tokenizeLoop_ok]).
    - A Number is a double of IEEE 754: [parseInt] and [parseFloat] round
      what the text writes to the nearest double, and [toString] prints the
      shortest digits that read back as the same double. *)

From Stdlib Require Import String Ascii List ZArith Lia Bool Arith.
Import ListNotations.
Local Set Warnings "-register-all".
Local Open Scope list_scope.
Local Open Scope string_scope.
Local Open Scope nat_scope.

(* ===================================================================== *)
(** ** JavaScript strings *)
(* ===================================================================== *)

Module JsString.

Definition code (c : ascii) : nat := nat_of_ascii c.

(** [/\d/] *)
Definition isDigit (c : ascii) : bool := (48 <=? code c) && (code c <=? 57).

(** [/[a-zA-Z_]/] *)
Definition isIdentStart (c : ascii) : bool :=
  ((65 <=? code c) && (code c <=? 90))
  || ((97 <=? code c) && (code c <=? 122))
  || (code c =? 95).

(** [/[a-zA-Z0-9_]/] *)
Definition isIdentPart (c : ascii) : bool := isIdentStart c || isDigit c.

(** [/\s/] on the code units below 256: TAB, LF, VT, FF, CR, SPACE, NBSP. *)
Definition isSpace (c : ascii) : bool :=
  ((9 <=? code c) && (code c <=? 13)) || (code c =? 32) || (code c =? 160).

Definition newline : ascii := ascii_of_nat 10.
Definition dquote : ascii := ascii_of_nat 34.
Definition isNewline (c : ascii) : bool := Ascii.eqb c newline.

Definition upperChar (c : ascii) : ascii :=
  if (97 <=? code c) && (code c <=? 122) then ascii_of_nat (code c - 32) else c.

Definition lowerChar (c : ascii) : ascii :=
  if (65 <=? code c) && (code c <=? 90) then ascii_of_nat (code c + 32) else c.

Fixpoint mapString (f : ascii -> ascii) (s : string) : string :=
  match s with
  | EmptyString => EmptyString
  | String c s' => String (f c) (mapString f s')
  end.

Definition toUpperCase : string -> string := mapString upperChar.
Definition toLowerCase : string -> string := mapString lowerChar.

Definition ofChar (c : ascii) : string := String c EmptyString.

Fixpoint ofList (cs : list ascii) : string :=
  match cs with
  | [] => EmptyString
  | c :: cs' => String c (ofList cs')
  end.

Fixpoint toList (s : string) : list ascii :=
  match s with
  | EmptyString => []
  | String c s' => c :: toList s'
  end.

Fixpoint dropSpaces (cs : list ascii) : list ascii :=
  match cs with
  | c :: cs' => if isSpace c then dropSpaces cs' else cs
  | [] => []
  end.

(** [String.prototype.trim] *)
Definition trim (s : string) : string :=
  ofList (rev (dropSpaces (rev (dropSpaces (toList s))))).

(** [String.prototype.includes] for a one-character needle *)
Fixpoint includesChar (s : string) (c : ascii) : bool :=
  match s with
  | EmptyString => false
  | String d s' => Ascii.eqb d c || includesChar s' c
  end.

(** [Array.prototype.includes] on an array of strings *)
Definition includes (l : list string) (s : string) : bool :=
  existsb (String.eqb s) l.

(** [Array.prototype.join] *)
Fixpoint join (sep : string) (l : list string) : string :=
  match l with
  | [] => ""
  | [x] => x
  | x :: l' => x ++ sep ++ join sep l'
  end.

(** a non-empty string is truthy *)
Definition truthy (s : string) : bool :=
  match s with EmptyString => false | _ => true end.

Fixpoint natDigits (fuel n : nat) (acc : string) : string :=
  match fuel with
  | 0 => acc
  | S fuel' =>
      let acc' := String (ascii_of_nat (48 + n mod 10)) acc in
      if n <? 10 then acc' else natDigits fuel' (n / 10) acc'
  end.

(** [String(n)] for a non-negative integer *)
Definition ofNat (n : nat) : string := natDigits (S n) n "".

End JsString.

(* ===================================================================== *)
(** ** src/errors/sql-error.js *)
(* ===================================================================== *)

(** The [code] of an error is a string at every call of the factories; two
    throw sites of the parser call the constructor with the line in the place
    of the code, which makes it a number. *)
Inductive ErrorCode : Type :=
| Code (name : string)
| CodeNumber (n : nat).

Record SQLError : Type := mkSQLError {
  message : string;
  code : ErrorCode;
  err_line : nat;
  err_column : nat;
  context : list (string * string)
}.

Module SQLErr.

Definition syntaxError (msg : string) (l c : nat) : SQLError :=
  mkSQLError msg (Code "SYNTAX_ERROR") l c [].

Definition lexicalError (msg : string) (l c : nat) : SQLError :=
  mkSQLError msg (Code "LEXICAL_ERROR") l c [].

Definition unterminatedString (l c : nat) : SQLError :=
  mkSQLError "Unterminated string literal" (Code "UNTERMINATED_STRING") l c [].

Definition unexpectedToken (expected actual : string) (l c : nat) : SQLError :=
  mkSQLError ("Expected " ++ expected ++ ", but got " ++ actual)
             (Code "UNEXPECTED_TOKEN") l c
             [("expected", expected); ("actual", actual)].

Definition unexpectedEnd (l c : nat) : SQLError :=
  mkSQLError "Unexpected end of input" (Code "UNEXPECTED_END") l c [].

(** [getFormattedMessage] *)
Definition getFormattedMessage (e : SQLError) : string :=
  if (0 <? err_line e) && (0 <? err_column e)
  then message e ++ " at line " ++ JsString.ofNat (err_line e)
       ++ ", column " ++ JsString.ofNat (err_column e)
  else message e.

End SQLErr.

(** What a [throw] carries: an [SQLError], or a runtime error of the
    language itself (a [TypeError] on a property read of [null]). *)
Inductive Exn : Type :=
| ESQL (e : SQLError)
| EJs (name msg : string).

Inductive Outcome (A : Type) : Type :=
| Return (a : A)
| Throw (e : Exn)
| NoFuel.
Arguments Return {A} a.
Arguments Throw {A} e.
Arguments NoFuel {A}.

(* ===================================================================== *)
(** ** src/lexer/token-types.js *)
(* ===================================================================== *)

(** [TokenType] is an object whose values are the names themselves. *)
Definition TokenType := string.

Module TT.
Definition IDENTIFIER : TokenType := "IDENTIFIER".
Definition STRING : TokenType := "STRING".
Definition NUMBER : TokenType := "NUMBER".
Definition BOOLEAN : TokenType := "BOOLEAN".
Definition NULL : TokenType := "NULL".
Definition SELECT : TokenType := "SELECT".
Definition INSERT : TokenType := "INSERT".
Definition UPDATE : TokenType := "UPDATE".
Definition DELETE : TokenType := "DELETE".
Definition FROM : TokenType := "FROM".
Definition WHERE : TokenType := "WHERE".
Definition INTO : TokenType := "INTO".
Definition VALUES : TokenType := "VALUES".
Definition SET : TokenType := "SET".
Definition JOIN : TokenType := "JOIN".
Definition INNER : TokenType := "INNER".
Definition LEFT : TokenType := "LEFT".
Definition RIGHT : TokenType := "RIGHT".
Definition FULL : TokenType := "FULL".
Definition OUTER : TokenType := "OUTER".
Definition CROSS : TokenType := "CROSS".
Definition ON : TokenType := "ON".
Definition GROUP : TokenType := "GROUP".
Definition BY : TokenType := "BY".
Definition HAVING : TokenType := "HAVING".
Definition ORDER : TokenType := "ORDER".
Definition ASC : TokenType := "ASC".
Definition DESC : TokenType := "DESC".
Definition LIMIT : TokenType := "LIMIT".
Definition OFFSET : TokenType := "OFFSET".
Definition UNION : TokenType := "UNION".
Definition ALL : TokenType := "ALL".
Definition ANY : TokenType := "ANY".
Definition DISTINCT : TokenType := "DISTINCT".
Definition WITH : TokenType := "WITH".
Definition RECURSIVE : TokenType := "RECURSIVE".
Definition OVER : TokenType := "OVER".
Definition PARTITION : TokenType := "PARTITION".
Definition ROWS : TokenType := "ROWS".
Definition RANGE : TokenType := "RANGE".
Definition UNBOUNDED : TokenType := "UNBOUNDED".
Definition PRECEDING : TokenType := "PRECEDING".
Definition FOLLOWING : TokenType := "FOLLOWING".
Definition CURRENT : TokenType := "CURRENT".
Definition ROW : TokenType := "ROW".
Definition ROW_NUMBER : TokenType := "ROW_NUMBER".
Definition RANK : TokenType := "RANK".
Definition DENSE_RANK : TokenType := "DENSE_RANK".
Definition LEAD : TokenType := "LEAD".
Definition LAG : TokenType := "LAG".
Definition FIRST_VALUE : TokenType := "FIRST_VALUE".
Definition LAST_VALUE : TokenType := "LAST_VALUE".
Definition NTH_VALUE : TokenType := "NTH_VALUE".
Definition DATE : TokenType := "DATE".
Definition TIME : TokenType := "TIME".
Definition TIMESTAMP : TokenType := "TIMESTAMP".
Definition BOOLEAN_TYPE : TokenType := "BOOLEAN_TYPE".
Definition INTERVAL : TokenType := "INTERVAL".
Definition YEAR : TokenType := "YEAR".
Definition MONTH : TokenType := "MONTH".
Definition DAY : TokenType := "DAY".
Definition HOUR : TokenType := "HOUR".
Definition MINUTE : TokenType := "MINUTE".
Definition SECOND : TokenType := "SECOND".
Definition NOT : TokenType := "NOT".
Definition AND : TokenType := "AND".
Definition OR : TokenType := "OR".
Definition IN : TokenType := "IN".
Definition EXISTS : TokenType := "EXISTS".
Definition BETWEEN : TokenType := "BETWEEN".
Definition LIKE : TokenType := "LIKE".
Definition ILIKE : TokenType := "ILIKE".
Definition IS : TokenType := "IS".
Definition AS : TokenType := "AS".
Definition COUNT : TokenType := "COUNT".
Definition SUM : TokenType := "SUM".
Definition AVG : TokenType := "AVG".
Definition MIN : TokenType := "MIN".
Definition MAX : TokenType := "MAX".
Definition CASE : TokenType := "CASE".
Definition WHEN : TokenType := "WHEN".
Definition THEN : TokenType := "THEN".
Definition ELSE : TokenType := "ELSE".
Definition END : TokenType := "END".
Definition EQUALS : TokenType := "EQUALS".
Definition NOT_EQUALS : TokenType := "NOT_EQUALS".
Definition LESS_THAN : TokenType := "LESS_THAN".
Definition LESS_THAN_EQUALS : TokenType := "LESS_THAN_EQUALS".
Definition GREATER_THAN : TokenType := "GREATER_THAN".
Definition GREATER_THAN_EQUALS : TokenType := "GREATER_THAN_EQUALS".
Definition PLUS : TokenType := "PLUS".
Definition MINUS : TokenType := "MINUS".
Definition MULTIPLY : TokenType := "MULTIPLY".
Definition DIVIDE : TokenType := "DIVIDE".
Definition MODULO : TokenType := "MODULO".
Definition CONCAT : TokenType := "CONCAT".
Definition SEMICOLON : TokenType := "SEMICOLON".
Definition COMMA : TokenType := "COMMA".
Definition DOT : TokenType := "DOT".
Definition LEFT_PAREN : TokenType := "LEFT_PAREN".
Definition RIGHT_PAREN : TokenType := "RIGHT_PAREN".
Definition LEFT_BRACKET : TokenType := "LEFT_BRACKET".
Definition RIGHT_BRACKET : TokenType := "RIGHT_BRACKET".
Definition WHITESPACE : TokenType := "WHITESPACE".
Definition COMMENT : TokenType := "COMMENT".
Definition NEWLINE : TokenType := "NEWLINE".
Definition EOF : TokenType := "EOF".
End TT.

(** [KEYWORDS]: every key maps to the token type of its own name, except
    [BOOLEAN] (the data type), [TRUE], [FALSE] and [NULL]. *)
Definition KEYWORDS : list (string * TokenType) :=
  (map (fun k => (k, k))
    [ "CREATE"; "DROP"; "ALTER"; "TABLE"; "INDEX"; "VIEW"; "DATABASE"; "SCHEMA";
      "SELECT"; "INSERT"; "UPDATE"; "DELETE"; "FROM"; "WHERE"; "INTO"; "VALUES";
      "SET";
      "JOIN"; "INNER"; "LEFT"; "RIGHT"; "FULL"; "OUTER"; "CROSS"; "ON"; "USING";
      "GROUP"; "BY"; "HAVING"; "ORDER"; "ASC"; "DESC"; "LIMIT"; "OFFSET";
      "UNION"; "INTERSECT"; "EXCEPT"; "ALL"; "ANY"; "DISTINCT";
      "WITH"; "RECURSIVE"; "OVER"; "PARTITION"; "WINDOW"; "ROWS"; "RANGE";
      "UNBOUNDED"; "PRECEDING"; "FOLLOWING"; "CURRENT"; "ROW";
      "ROW_NUMBER"; "RANK"; "DENSE_RANK"; "LEAD"; "LAG"; "FIRST_VALUE";
      "LAST_VALUE"; "NTH_VALUE";
      "INT"; "INTEGER"; "VARCHAR"; "CHAR"; "TEXT"; "DECIMAL"; "FLOAT"; "DOUBLE";
      "DATE"; "TIME"; "TIMESTAMP" ]
  ++ [ ("BOOLEAN", TT.BOOLEAN_TYPE) ]
  ++ map (fun k => (k, k))
    [ "INTERVAL"; "YEAR"; "MONTH"; "DAY"; "HOUR"; "MINUTE"; "SECOND";
      "PRIMARY"; "FOREIGN"; "KEY"; "UNIQUE"; "NOT"; "CONSTRAINT"; "CHECK";
      "DEFAULT"; "AUTO_INCREMENT";
      "AND"; "OR"; "IN"; "EXISTS"; "BETWEEN"; "LIKE"; "ILIKE"; "IS"; "AS";
      "COUNT"; "SUM"; "AVG"; "MIN"; "MAX"; "CASE"; "WHEN"; "THEN"; "ELSE";
      "END" ]
  ++ [ ("TRUE", TT.BOOLEAN); ("FALSE", TT.BOOLEAN); ("NULL", TT.NULL) ])%list.

Fixpoint lookupKeyword (table : list (string * TokenType)) (k : string)
  : option TokenType :=
  match table with
  | [] => None
  | (k', t) :: table' => if String.eqb k k' then Some t else lookupKeyword table' k
  end.

Record Token : Type := mkToken {
  type : TokenType;
  value : string;
  line : nat;
  column : nat;
  start : nat;
  end_ : nat
}.

(** [Token.prototype.is] ([is] is a reserved word here) and [isOneOf] *)
Definition tokenIs (t : Token) (ty : TokenType) : bool := String.eqb (type t) ty.
Definition isOneOf (t : Token) (tys : list TokenType) : bool :=
  JsString.includes tys (type t).

(* ===================================================================== *)
(** ** src/lexer/lexer.js *)
(* ===================================================================== *)

Module Lexer.

Record Options : Type := mkOptions {
  includeWhitespace : bool;
  includeComments : bool
}.

(** The counters of the scanner.  The unread input [input.slice(position)]
    travels beside them as a list: [current()] is its head, [peek()] its
    second element, and the loop test [position < input.length] is the test
    that it is not empty. *)
Record Cursor : Type := mkCursor {
  position : nat;
  cline : nat;
  ccolumn : nat
}.

Definition LexState : Type := (list ascii * Cursor)%type.

(** the effect of [advance()] over the character [c] *)
Definition advance (c : ascii) (k : Cursor) : Cursor :=
  if JsString.isNewline c
  then mkCursor (S (position k)) (S (cline k)) 1
  else mkCursor (S (position k)) (cline k) (S (ccolumn k)).

(** [advance()] with its result dropped; it does nothing at the end *)
Definition skip (st : LexState) : LexState :=
  match fst st with
  | [] => st
  | c :: cs' => (cs', advance c (snd st))
  end.

Definition tokenAt (ty : TokenType) (v : string) (k0 k1 : Cursor) : Token :=
  mkToken ty v (cline k0) (ccolumn k0) (position k0) (position k1).

Fixpoint skipWhitespace (cs : list ascii) (k : Cursor) : LexState :=
  match cs with
  | c :: cs' =>
      if JsString.isSpace c && negb (JsString.isNewline c)
      then skipWhitespace cs' (advance c k)
      else (cs, k)
  | [] => (cs, k)
  end.

(** [while (current() && re.test(current())) value += advance()] *)
Fixpoint readWhile (p : ascii -> bool) (cs : list ascii) (k : Cursor)
         (value : string) : string * LexState :=
  match cs with
  | c :: cs' =>
      if p c then readWhile p cs' (advance c k) (value ++ JsString.ofChar c)
      else (value, (cs, k))
  | [] => (value, (cs, k))
  end.

Definition readIdentifier (cs : list ascii) (k : Cursor)
  : SQLError + (Token * LexState) :=
  let startOk :=
    match cs with
    | c :: _ => JsString.isIdentStart c
    | [] => true (* the pattern is tested on the text of null *)
    end in
  if negb startOk
  then inl (SQLErr.lexicalError
              ("Invalid identifier start character: " ++ JsString.ofList (firstn 1 cs))
              (cline k) (ccolumn k))
  else
    let '(value, (cs', k')) := readWhile JsString.isIdentPart cs k "" in
    let upperValue := JsString.toUpperCase value in
    let tokenType :=
      match lookupKeyword KEYWORDS upperValue with
      | Some t => t
      | None => TT.IDENTIFIER
      end in
    inr (tokenAt tokenType value k k', (cs', k')).

(** The loop shared by [readString] and [readQuotedIdentifier]: up to the
    closing quote or the end of the input; a backslash takes the next
    character, passed through [unescape]. *)
Fixpoint readQuoted (unescape : ascii -> ascii) (quote : ascii)
         (cs : list ascii) (k : Cursor) (value : string) : string * LexState :=
  match cs with
  | [] => (value, (cs, k))
  | c :: cs' =>
      if Ascii.eqb c quote then (value, (cs, k))
      else if Ascii.eqb c "\"%char then
        match cs' with
        | [] => (value, ([], advance c k))
        | e :: cs'' =>
            readQuoted unescape quote cs'' (advance e (advance c k))
                       (value ++ JsString.ofChar (unescape e))
        end
      else readQuoted unescape quote cs' (advance c k) (value ++ JsString.ofChar c)
  end.

Definition readQuotedIdentifier (quote : ascii) (cs : list ascii) (k : Cursor)
  : SQLError + (Token * LexState) :=
  let '(cs1, k1) := skip (cs, k) in
  let '(value, (cs2, k2)) := readQuoted (fun e => e) quote cs1 k1 "" in
  match cs2 with
  | [] => inl (SQLErr.lexicalError "Unterminated quoted identifier" (cline k) (ccolumn k))
  | _ :: _ =>
      let '(cs3, k3) := skip (cs2, k2) in
      inr (tokenAt TT.IDENTIFIER value k k3, (cs3, k3))
  end.

(** the [switch (escaped)] of [readString] *)
Definition unescapeChar (e : ascii) : ascii :=
  if Ascii.eqb e "n"%char then ascii_of_nat 10
  else if Ascii.eqb e "t"%char then ascii_of_nat 9
  else if Ascii.eqb e "r"%char then ascii_of_nat 13
  else e.

Definition readString (quote : ascii) (cs : list ascii) (k : Cursor)
  : SQLError + (Token * LexState) :=
  let '(cs1, k1) := skip (cs, k) in
  let '(value, (cs2, k2)) := readQuoted unescapeChar quote cs1 k1 "" in
  match cs2 with
  | [] => inl (SQLErr.unterminatedString (cline k) (ccolumn k))
  | _ :: _ =>
      let '(cs3, k3) := skip (cs2, k2) in
      inr (tokenAt TT.STRING value k k3, (cs3, k3))
  end.

Definition isExponentMark (c : ascii) : bool :=
  Ascii.eqb c "e"%char || Ascii.eqb c "E"%char.
Definition isSign (c : ascii) : bool :=
  Ascii.eqb c "+"%char || Ascii.eqb c "-"%char.

Definition readNumber (cs : list ascii) (k : Cursor)
  : SQLError + (Token * LexState) :=
  (* integer part *)
  let '(v1, (cs1, k1)) := readWhile JsString.isDigit cs k "" in
  (* decimal point, only before a digit *)
  let '(v2, (cs2, k2)) :=
    match cs1 with
    | c :: d :: cs' =>
        if Ascii.eqb c "."%char && JsString.isDigit d
        then readWhile JsString.isDigit (d :: cs') (advance c k1)
                       (v1 ++ JsString.ofChar c)
        else (v1, (cs1, k1))
    | _ => (v1, (cs1, k1))
    end in
  (* scientific notation *)
  match cs2 with
  | c :: cs3 =>
      if isExponentMark c then
        let k3 := advance c k2 in
        let v3 := v2 ++ JsString.ofChar c in
        let '(v4, (cs4, k4)) :=
          match cs3 with
          | s :: cs' =>
              if isSign s then (v3 ++ JsString.ofChar s, (cs', advance s k3))
              else (v3, (cs3, k3))
          | [] => (v3, (cs3, k3))
          end in
        match cs4 with
        | d :: _ =>
            if JsString.isDigit d then
              let '(v5, st5) := readWhile JsString.isDigit cs4 k4 v4 in
              inr (tokenAt TT.NUMBER v5 k (snd st5), st5)
            else inl (SQLErr.lexicalError "Invalid number format" (cline k) (ccolumn k))
        | [] => inl (SQLErr.lexicalError "Invalid number format" (cline k) (ccolumn k))
        end
      else inr (tokenAt TT.NUMBER v2 k k2, (cs2, k2))
  | [] => inr (tokenAt TT.NUMBER v2 k k2, (cs2, k2))
  end.

Definition readSingleLineComment (opts : Options) (cs : list ascii) (k : Cursor)
  : option Token * LexState :=
  let '(cs1, k1) :=
    match cs with
    | c :: _ =>
        if Ascii.eqb c "-"%char then skip (skip (cs, k)) else skip (cs, k)
    | [] => skip (cs, k)
    end in
  let '(value, (cs2, k2)) :=
    readWhile (fun c => negb (JsString.isNewline c)) cs1 k1 "" in
  if includeComments opts
  then (Some (tokenAt TT.COMMENT (JsString.trim value) k k2), (cs2, k2))
  else (None, (cs2, k2)).

(** the loop of [readMultiLineComment]: it stops after the first [*/], or
    at the end of the input *)
Fixpoint readCommentBody (cs : list ascii) (k : Cursor) (value : string)
  : string * LexState :=
  match cs with
  | [] => (value, (cs, k))
  | c :: cs' =>
      if Ascii.eqb c "*"%char then
        match cs' with
        | d :: cs'' =>
            if Ascii.eqb d "/"%char
            then (value, (cs'', advance d (advance c k)))
            else readCommentBody cs' (advance c k) (value ++ JsString.ofChar c)
        | [] => readCommentBody cs' (advance c k) (value ++ JsString.ofChar c)
        end
      else readCommentBody cs' (advance c k) (value ++ JsString.ofChar c)
  end.

Definition readMultiLineComment (opts : Options) (cs : list ascii) (k : Cursor)
  : option Token * LexState :=
  let '(cs1, k1) := skip (skip (cs, k)) in
  let '(value, (cs2, k2)) := readCommentBody cs1 k1 "" in
  if includeComments opts
  then (Some (tokenAt TT.COMMENT (JsString.trim value) k k2), (cs2, k2))
  else (None, (cs2, k2)).

(** [readOperator], called on a non-empty input *)
Definition readOperator (char : ascii) (cs' : list ascii) (k : Cursor)
  : SQLError + (Token * LexState) :=
  let k1 := advance char k in
  let one (ty : TokenType) : SQLError + (Token * LexState) :=
    inr (tokenAt ty (JsString.ofChar char) k k1, (cs', k1)) in
  let two (ty : TokenType) (d : ascii) (cs'' : list ascii) :=
    let k2 := advance d k1 in
    inr (tokenAt ty (String char (String d "")) k k2, (cs'', k2)) in
  let next (d : ascii) : bool :=
    match cs' with c :: _ => Ascii.eqb c d | [] => false end in
  if Ascii.eqb char "="%char then one TT.EQUALS
  else if Ascii.eqb char "<"%char then
    if next "="%char then two TT.LESS_THAN_EQUALS "="%char (tl cs')
    else if next ">"%char then two TT.NOT_EQUALS ">"%char (tl cs')
    else one TT.LESS_THAN
  else if Ascii.eqb char ">"%char then
    if next "="%char then two TT.GREATER_THAN_EQUALS "="%char (tl cs')
    else one TT.GREATER_THAN
  else if Ascii.eqb char "!"%char then
    if next "="%char then two TT.NOT_EQUALS "="%char (tl cs')
    else inl (SQLErr.lexicalError ("Unexpected character: " ++ JsString.ofChar char)
                                  (cline k) (ccolumn k))
  else if Ascii.eqb char "+"%char then one TT.PLUS
  else if Ascii.eqb char "-"%char then one TT.MINUS
  else if Ascii.eqb char "*"%char then one TT.MULTIPLY
  else if Ascii.eqb char "/"%char then one TT.DIVIDE
  else if Ascii.eqb char "%"%char then one TT.MODULO
  else if Ascii.eqb char "|"%char then
    if next "|"%char then two TT.CONCAT "|"%char (tl cs')
    else inl (SQLErr.lexicalError ("Unexpected character: " ++ JsString.ofChar char)
                                  (cline k) (ccolumn k))
  else inl (SQLErr.lexicalError ("Unknown operator: " ++ JsString.ofChar char)
                                (cline k) (ccolumn k)).

(** [readPunctuation], called on a non-empty input *)
Definition readPunctuation (char : ascii) (cs' : list ascii) (k : Cursor)
  : SQLError + (Token * LexState) :=
  let k1 := advance char k in
  let one (ty : TokenType) : SQLError + (Token * LexState) :=
    inr (tokenAt ty (JsString.ofChar char) k k1, (cs', k1)) in
  if Ascii.eqb char ";"%char then one TT.SEMICOLON
  else if Ascii.eqb char ","%char then one TT.COMMA
  else if Ascii.eqb char "."%char then one TT.DOT
  else if Ascii.eqb char "("%char then one TT.LEFT_PAREN
  else if Ascii.eqb char ")"%char then one TT.RIGHT_PAREN
  else if Ascii.eqb char "["%char then one TT.LEFT_BRACKET
  else if Ascii.eqb char "]"%char then one TT.RIGHT_BRACKET
  else inl (SQLErr.lexicalError ("Unknown punctuation: " ++ JsString.ofChar char)
                                (cline k) (ccolumn k)).

Definition pushToken (tokens : list Token) (t : Token) : list Token :=
  (tokens ++ [t])%list.

Definition pushOpt (tokens : list Token) (t : option Token) : list Token :=
  match t with
  | Some tok => pushToken tokens tok
  | None => tokens
  end.

Definition peekIs (cs' : list ascii) (d : ascii) : bool :=
  match cs' with c :: _ => Ascii.eqb c d | [] => false end.

(** The main loop of [tokenize]: one iteration per unit of [fuel]. *)
Fixpoint tokenizeLoop (fuel : nat) (opts : Options) (cs : list ascii)
         (k : Cursor) (tokens : list Token) : Outcome (list Token) :=
  match cs with
  | [] => Return (pushToken tokens (tokenAt TT.EOF "" k k))
  | char :: cs' =>
      match fuel with
      | 0 => NoFuel
      | S fuel' =>
          let continue (r : SQLError + (Token * LexState)) :=
            match r with
            | inl e => Throw (ESQL e)
            | inr (t, (cs1, k1)) => tokenizeLoop fuel' opts cs1 k1 (pushToken tokens t)
            end in
          if JsString.isSpace char && negb (JsString.isNewline char) then
            let '(cs1, k1) := skipWhitespace cs k in
            if includeWhitespace opts then
              let text := JsString.ofList (firstn (position k1 - position k) cs) in
              tokenizeLoop fuel' opts cs1 k1
                           (pushToken tokens (tokenAt TT.WHITESPACE text k k1))
            else tokenizeLoop fuel' opts cs1 k1 tokens
          else if JsString.isNewline char then
            let k1 := advance char k in
            if includeWhitespace opts then
              tokenizeLoop fuel' opts cs' k1
                           (pushToken tokens (tokenAt TT.NEWLINE (JsString.ofChar JsString.newline) k k1))
            else tokenizeLoop fuel' opts cs' k1 tokens
          else if Ascii.eqb char "-"%char && peekIs cs' "-"%char then
            let '(t, (cs1, k1)) := readSingleLineComment opts cs k in
            tokenizeLoop fuel' opts cs1 k1 (pushOpt tokens t)
          else if Ascii.eqb char "#"%char then
            let '(t, (cs1, k1)) := readSingleLineComment opts cs k in
            tokenizeLoop fuel' opts cs1 k1 (pushOpt tokens t)
          else if Ascii.eqb char "/"%char && peekIs cs' "*"%char then
            let '(t, (cs1, k1)) := readMultiLineComment opts cs k in
            tokenizeLoop fuel' opts cs1 k1 (pushOpt tokens t)
          else if Ascii.eqb char "'"%char then continue (readString char cs k)
          else if Ascii.eqb char JsString.dquote || Ascii.eqb char "`"%char then
            continue (readQuotedIdentifier char cs k)
          else if JsString.isDigit char then continue (readNumber cs k)
          else if JsString.isIdentStart char then continue (readIdentifier cs k)
          else if JsString.includesChar "=<>!+-*/%|" char then
            continue (readOperator char cs' k)
          else if JsString.includesChar ";,.()[]" char then
            continue (readPunctuation char cs' k)
          else Throw (ESQL (SQLErr.lexicalError
                              ("Unexpected character: " ++ JsString.ofChar char)
                              (cline k) (ccolumn k)))
      end
  end.

(** [new Lexer(input, options).tokenize()].  Every iteration of the loop
    reads at least one character, so the length of the input bounds the
    number of iterations. *)
Definition tokenize (input : string) (opts : Options) : Outcome (list Token) :=
  let cs := JsString.toList input in
  tokenizeLoop (length cs) opts cs (mkCursor 0 1 1) [].

End Lexer.

(* ===================================================================== *)
(** ** JavaScript numbers of the literals *)
(* ===================================================================== *)

Module JsNumber.

(** A Number is a double of IEEE 754: not a number, an infinity, or
    [Finite negative m e], the number [m * 2^e] with the sign [negative],
    where [m < 2^53], [-1074 <= e] and [m * 2^e < 2^1024].  It is kept with
    [m] odd (and [e = 0] when [m = 0]), so that two equal numbers are equal
    terms; [Finite true 0 0] is [-0]. *)
Inductive t : Type :=
| NaN
| Infinity (negative : bool)
| Finite (negative : bool) (m : Z) (e : Z).

Definition eqb (x y : t) : bool :=
  match x, y with
  | NaN, NaN => true
  | Infinity a, Infinity b => Bool.eqb a b
  | Finite a m e, Finite b m' e' => Bool.eqb a b && (m =? m')%Z && (e =? e')%Z
  | _, _ => false
  end.

Fixpoint stripTwos (fuel : nat) (m e : Z) : Z * Z :=
  match fuel with
  | 0 => (m, e)
  | S fuel' =>
      if (m =? 0)%Z then (0%Z, 0%Z)
      else if Z.even m then stripTwos fuel' (m / 2)%Z (e + 1)%Z
      else (m, e)
  end.

Definition make (negative : bool) (m e : Z) : t :=
  let '(m', e') := stripTwos (S (Z.to_nat (Z.log2 m))) m e in
  Finite negative m' e'.

(** [num / den] divided by [2^q], as a fraction *)
Definition scaled (num den q : Z) : Z * Z :=
  if (0 <=? q)%Z then (num, den * 2 ^ q)%Z else (num * 2 ^ (- q), den)%Z.

(** the [b] with [2^b <= num / den < 2^(b+1)] *)
Definition binade (num den : Z) : Z :=
  let b := (Z.log2 num - Z.log2 den)%Z in
  let '(n, d) := scaled num den b in
  if (n <? d)%Z then (b - 1)%Z else b.

(** The Number value for [num / den] (with [0 <= num] and [0 < den]): the
    double nearest to it, the one with an even significand when two are as
    near.  The significand has 53 bits and its last bit weighs [2^-1074]
    at least; what rounds to [2^1024] is an infinity. *)
Definition nearest (negative : bool) (num den : Z) : t :=
  if (num =? 0)%Z then Finite negative 0 0
  else
    let q := Z.max (binade num den - 52) (-1074) in
    let '(n, d) := scaled num den q in
    let m0 := (n / d)%Z in
    let r := (n mod d)%Z in
    let m := if (2 * r <? d)%Z then m0
             else if (d <? 2 * r)%Z then (m0 + 1)%Z
             else if Z.even m0 then m0 else (m0 + 1)%Z in
    if (m =? 0)%Z then Finite negative 0 0
    else if (1024 <=? Z.log2 m + q)%Z then Infinity negative
    else make negative m q.

(** the Number value for [m * 10^e] *)
Definition ofDecimal (negative : bool) (m e : Z) : t :=
  if (0 <=? e)%Z then nearest negative (m * 10 ^ e) 1
  else nearest negative m (10 ^ (- e)).

(** the Number value for an integer *)
Definition ofZ (z : Z) : t := ofDecimal (z <? 0)%Z (Z.abs z) 0.

Definition digitValue (c : ascii) : Z := Z.of_nat (JsString.code c - 48).

(** the value of a run of decimal digits, continuing [acc] *)
Fixpoint digitsValue (cs : list ascii) (acc : Z) : Z :=
  match cs with
  | [] => acc
  | c :: cs' => digitsValue cs' (10 * acc + digitValue c)%Z
  end.

(** the longest prefix of digits, and what follows it *)
Fixpoint spanDigits (cs : list ascii) : list ascii * list ascii :=
  match cs with
  | c :: cs' =>
      if JsString.isDigit c
      then let '(ds, r) := spanDigits cs' in (c :: ds, r)
      else ([], cs)
  | [] => ([], [])
  end.

Definition readSign (cs : list ascii) : bool * list ascii :=
  match cs with
  | c :: cs' =>
      if Ascii.eqb c "-"%char then (true, cs')
      else if Ascii.eqb c "+"%char then (false, cs')
      else (false, cs)
  | [] => (false, cs)
  end.

Definition signed (negative : bool) (z : Z) : Z :=
  if negative then (- z)%Z else z.

(** [parseInt(s, 10)]: leading white space, a sign, then the digits up to
    the first character that is not one; the Number value for the integer
    that they write, [NaN] when there is no digit. *)
Definition parseInt (s : string) : t :=
  let '(negative, cs) := readSign (JsString.dropSpaces (JsString.toList s)) in
  let '(ds, _) := spanDigits cs in
  match ds with
  | [] => NaN
  | _ => ofDecimal negative (digitsValue ds 0) 0
  end.

Fixpoint startsWith (prefix cs : list ascii) : bool :=
  match prefix, cs with
  | [], _ => true
  | p :: prefix', c :: cs' => Ascii.eqb p c && startsWith prefix' cs'
  | _ :: _, [] => false
  end.

(** the exponent part [e][sign]digits, or 0 when what follows is not one *)
Definition readExponent (cs : list ascii) : Z :=
  match cs with
  | c :: cs' =>
      if Ascii.eqb c "e"%char || Ascii.eqb c "E"%char then
        let '(negative, cs'') := readSign cs' in
        let '(ds, _) := spanDigits cs'' in
        match ds with
        | [] => 0%Z
        | _ => signed negative (digitsValue ds 0)
        end
      else 0%Z
  | [] => 0%Z
  end.

(** [parseFloat(s)]: leading white space, a sign, then the longest prefix
    that is a decimal literal ([Infinity], digits with an optional fraction
    and exponent); the Number value for what it writes, [NaN] when there
    is none. *)
Definition parseFloat (s : string) : t :=
  let '(negative, cs) := readSign (JsString.dropSpaces (JsString.toList s)) in
  if startsWith (JsString.toList "Infinity") cs then Infinity negative
  else
    let '(intDigits, r1) := spanDigits cs in
    let '(fracDigits, r2) :=
      match r1 with
      | c :: r =>
          if Ascii.eqb c "."%char then spanDigits r else ([], r1)
      | [] => ([], r1)
      end in
    match (intDigits ++ fracDigits)%list with
    | [] => NaN
    | ds =>
        ofDecimal negative (digitsValue ds 0)
                  (readExponent r2 - Z.of_nat (length fracDigits))
    end.

(** the decimal digits of a natural number *)
Fixpoint digitsLoop (fuel : nat) (n : Z) (acc : string) : string :=
  let acc := String (ascii_of_nat (48 + Z.to_nat (n mod 10))) acc in
  match fuel with
  | 0 => acc
  | S fuel' => if (n <? 10)%Z then acc else digitsLoop fuel' (n / 10)%Z acc
  end.

Definition digitsOf (n : Z) : string :=
  digitsLoop (Z.to_nat (Z.log2 n)) n EmptyString.

Definition zeros (n : Z) : string :=
  JsString.ofList (repeat "0"%char (Z.to_nat n)).

Fixpoint stripZeros (fuel : nat) (m e : Z) : Z * Z :=
  match fuel with
  | 0 => (m, e)
  | S fuel' =>
      if (m =? 0)%Z then (0%Z, 0%Z)
      else if (m mod 10 =? 0)%Z then stripZeros fuel' (m / 10)%Z (e + 1)%Z
      else (m, e)
  end.

(** the [n] with [10^(n-1) <= num / den < 10^n] *)
Fixpoint magnitude (fuel : nat) (num den : Z) (n : Z) : Z :=
  match fuel with
  | 0 => n
  | S fuel' =>
      if (num <? den)%Z then magnitude fuel' (num * 10)%Z den (n - 1)%Z
      else if (num <? den * 10)%Z then n
      else magnitude fuel' num (den * 10)%Z (n + 1)%Z
  end.

(** The digits of [Number.prototype.toString] for the double [x], which is
    [num / den]: the [s] of [k] digits, with [k] as small as possible, such
    that [s * 10^(n-k)] has [x] for Number value; of two such, the one
    nearer to [x], the even one when they are as near.  Only the two
    multiples of [10^(n-k)] around [x] can be it. *)
Fixpoint shortest (fuel : nat) (x : t) (num den n k : Z) : Z * Z :=
  let g := (n - k)%Z in
  let lo := (if (0 <=? g)%Z then num / (den * 10 ^ g) else (num * 10 ^ (- g)) / den)%Z in
  let hi := (lo + 1)%Z in
  let back (s : Z) : bool := eqb (ofDecimal false s g) x in
  let nearer : Z :=
    match (2 * num * 10 ^ (Z.max (- g) 0) ?= (lo + hi) * den * 10 ^ (Z.max g 0))%Z with
    | Lt => lo
    | Gt => hi
    | Eq => if Z.even lo then lo else hi
    end in
  let found : option Z :=
    match back lo, back hi with
    | true, true => Some nearer
    | true, false => Some lo
    | false, true => Some hi
    | false, false => None
    end in
  match found, fuel with
  | Some s, _ => (s, g)
  | None, S fuel' => shortest fuel' x num den n (k + 1)%Z
  | None, 0 => (lo, g)
  end.

(** [Number.prototype.toString()]: with the [k] digits of the number and
    the decimal point after [n] of them. *)
Definition toString (x : t) : string :=
  match x with
  | NaN => "NaN"
  | Infinity negative => if negative then "-Infinity" else "Infinity"
  | Finite negative m e =>
      if (m =? 0)%Z then "0"
      else
        let '(num, den) := scaled m 1 (- e) in
        let n0 := magnitude (Z.to_nat (Z.log2 num + Z.log2 den) + 1) num den 1 in
        let '(s, g) := shortest 16 (Finite false m e) num den n0 1 in
        let '(s, g) := stripZeros (S (Z.to_nat (Z.log2 s))) s g in
        let sign := if negative then "-" else EmptyString in
        let digits := digitsOf s in
        let k := Z.of_nat (String.length digits) in
        let n := (g + k)%Z in
        if ((k <=? n) && (n <=? 21))%Z then
          sign ++ digits ++ zeros (n - k)
        else if ((0 <? n) && (n <=? 21))%Z then
          sign ++ substring 0 (Z.to_nat n) digits ++ "."
               ++ substring (Z.to_nat n) (Z.to_nat (k - n)) digits
        else if ((-6 <? n) && (n <=? 0))%Z then
          sign ++ "0." ++ zeros (- n) ++ digits
        else
          let ex := (n - 1)%Z in
          let exText := (if (ex <? 0)%Z then "-" else "+") ++ digitsOf (Z.abs ex) in
          if (k =? 1)%Z then sign ++ digits ++ "e" ++ exText
          else sign ++ substring 0 1 digits ++ "."
                    ++ substring 1 (Z.to_nat (k - 1)) digits ++ "e" ++ exText
  end.

End JsNumber.

(* ===================================================================== *)
(** ** src/ast/ast-nodes.js *)
(* ===================================================================== *)

(** the [value] of a [Literal] *)
Inductive LitValue : Type :=
| LString (s : string)
| LNumber (n : JsNumber.t)
| LBoolean (b : bool)
| LNull.

(** One constructor per class of ast-nodes.js, its arguments the properties
    in the order the constructor of the class assigns them.  Three more:
    - [with_], last argument of [SelectStatement] and [UnionStatement], is
      the property the parser adds by [mainQuery.with = ...];
    - [FrameBound] is the object literal [{type, value, unit, direction}]
      that [parseFrameBound] returns;
    - [Aliased n a] is the node [n] after [n.alias = a], for the classes
      that declare no [alias] property of their own. *)
Inductive node : Type :=
| SelectStatement (columns : list node)
    (from where_ groupBy having orderBy limit offset : option node)
    (distinct : bool) (with_ : option node)
| InsertStatement (table : option node) (columns : list string) (values : list node)
| UpdateStatement (table : option node) (set : list node) (where_ : option node)
| DeleteStatement (from where_ : option node)
| UnionStatement (left right : option node) (unionType : string) (all : bool)
    (orderBy limit offset : option node) (with_ : option node)
| WithClause (recursive : bool) (expressions : list node)
| CTEExpression (name : string) (columns : option (list string)) (query : node)
| WindowFunction (function over : option node)
| OverClause (partitionBy orderBy : option (list node)) (frame : option node)
| WindowFrame (frameType : string) (start end_ : option node)
| FrameBound (kind : string) (value : option node) (unit direction : option string)
| BinaryExpression (left : node) (operator : string) (right : node)
| UnaryExpression (operator : string) (operand : node)
| FunctionCall (name : string) (arguments : list node) (distinct isExtract : bool)
| CaseExpression (expression : option node) (whenClauses : list node)
    (elseClause : option node)
| WhenClause (condition result : node)
| Identifier (name : string) (table : option string)
| TableReference (name : string) (alias schema : option string)
| ColumnReference (name : string) (table alias : option string)
| Wildcard
| Literal (value : LitValue) (dataType : string)
| FromClause (tables joins : list node)
| WhereClause (condition : node)
| JoinClause (joinType : string) (table : node) (condition : option node)
| GroupByClause (columns : list node)
| HavingClause (condition : node)
| OrderByClause (columns : list node)
| OrderByColumn (column : node) (direction : string)
| LimitClause (count : node) (offset : option node)
| Assignment (column : string) (value : node)
| ValuesList (values : list node)
| BetweenRange (start end_ : node)
| Interval (value : node) (unit : string)
| SubQuery (query : node) (alias : option string)
| Aliased (n : node) (alias : string).

(** the [type] property; [WindowFrame] passes its own [type] property
    (ROWS or RANGE) to [Object.assign], which overwrites the class name *)
Fixpoint nodeType (n : node) : string :=
  match n with
  | SelectStatement _ _ _ _ _ _ _ _ _ _ => "SelectStatement"
  | InsertStatement _ _ _ => "InsertStatement"
  | UpdateStatement _ _ _ => "UpdateStatement"
  | DeleteStatement _ _ => "DeleteStatement"
  | UnionStatement _ _ _ _ _ _ _ _ => "UnionStatement"
  | WithClause _ _ => "WithClause"
  | CTEExpression _ _ _ => "CTEExpression"
  | WindowFunction _ _ => "WindowFunction"
  | OverClause _ _ _ => "OverClause"
  | WindowFrame frameType _ _ => frameType
  | FrameBound kind _ _ _ => kind
  | BinaryExpression _ _ _ => "BinaryExpression"
  | UnaryExpression _ _ => "UnaryExpression"
  | FunctionCall _ _ _ _ => "FunctionCall"
  | CaseExpression _ _ _ => "CaseExpression"
  | WhenClause _ _ => "WhenClause"
  | Identifier _ _ => "Identifier"
  | TableReference _ _ _ => "TableReference"
  | ColumnReference _ _ _ => "ColumnReference"
  | Wildcard => "Wildcard"
  | Literal _ _ => "Literal"
  | FromClause _ _ => "FromClause"
  | WhereClause _ => "WhereClause"
  | JoinClause _ _ _ => "JoinClause"
  | GroupByClause _ => "GroupByClause"
  | HavingClause _ => "HavingClause"
  | OrderByClause _ => "OrderByClause"
  | OrderByColumn _ _ => "OrderByColumn"
  | LimitClause _ _ => "LimitClause"
  | Assignment _ _ => "Assignment"
  | ValuesList _ => "ValuesList"
  | BetweenRange _ _ => "BetweenRange"
  | Interval _ _ => "Interval"
  | SubQuery _ _ => "SubQuery"
  | Aliased n' _ => nodeType n'
  end.

(** the factory object [AST], with the defaults of the constructors *)
Module AST.

(** [AST.select({distinct, columns, from, where, groupBy, having, ...})]:
    [orderBy], [limit] and [offset] default to [null] *)
Definition select (distinct : bool) (columns : list node)
           (from where_ groupBy having : option node) : node :=
  SelectStatement columns from where_ groupBy having None None None distinct None.

Definition insert (table : node) (columns : list string) (values : list node) : node :=
  InsertStatement (Some table) columns values.

Definition update (table : node) (set : list node) (where_ : option node) : node :=
  UpdateStatement (Some table) set where_.

Definition delete (from : node) (where_ : option node) : node :=
  DeleteStatement (Some from) where_.

Definition union (left right : node) (unionType : string) (all : bool)
           (orderBy limit : option node) : node :=
  UnionStatement (Some left) (Some right) unionType all orderBy limit None None.

Definition with_ (recursive : bool) (expressions : list node) : node :=
  WithClause recursive expressions.
Definition cte := CTEExpression.
Definition windowFunction (function over : node) : node :=
  WindowFunction (Some function) (Some over).
Definition over := OverClause.
Definition windowFrame (frameType : string) (start : node) (end_ : option node) : node :=
  WindowFrame frameType (Some start) end_.

Definition binary := BinaryExpression.
Definition unary := UnaryExpression.
Definition function (name : string) (args : list node) : node :=
  FunctionCall name args false false.
Definition case := CaseExpression.
Definition when := WhenClause.

Definition table (name : string) (alias : option string) : node :=
  TableReference name alias None.
Definition column (name : string) (table : option string) : node :=
  ColumnReference name table None.
Definition wildcard : node := Wildcard.
Definition literal := Literal.

Definition from := FromClause.
Definition where_ := WhereClause.
Definition join := JoinClause.
Definition groupBy := GroupByClause.
Definition having := HavingClause.
Definition orderBy := OrderByClause.
Definition orderByColumn := OrderByColumn.
Definition limit := LimitClause.

Definition assignment := Assignment.
Definition valuesList := ValuesList.
Definition betweenRange := BetweenRange.
Definition interval := Interval.
Definition subquery := SubQuery.

End AST.

(** [expr.alias = alias] *)
Definition setAlias (expr : node) (alias : string) : node :=
  match expr with
  | ColumnReference name table _ => ColumnReference name table (Some alias)
  | TableReference name _ schema => TableReference name (Some alias) schema
  | SubQuery query _ => SubQuery query (Some alias)
  | Aliased n _ => Aliased n alias
  | _ => Aliased expr alias
  end.

(** [node.alias] *)
Definition getAlias (n : node) : option string :=
  match n with
  | ColumnReference _ _ alias => alias
  | TableReference _ alias _ => alias
  | SubQuery _ alias => alias
  | Aliased _ alias => Some alias
  | _ => None
  end.

(** [mainQuery.with = withClause] *)
Definition setWith (q : node) (w : node) : node :=
  match q with
  | SelectStatement c f wh g h o l off d _ =>
      SelectStatement c f wh g h o l off d (Some w)
  | UnionStatement l r ut a o lim off _ =>
      UnionStatement l r ut a o lim off (Some w)
  | _ => q
  end.

(** [left.orderBy = orderByClause; left.limit = limitClause] *)
Definition setOrderLimit (q : node) (orderBy limit : option node) : node :=
  match q with
  | SelectStatement c f wh g h _ _ off d w =>
      SelectStatement c f wh g h orderBy limit off d w
  | _ => q
  end.

(* ===================================================================== *)
(** ** src/parser/parser.js *)
(* ===================================================================== *)

Module Parser.

Record Options : Type := mkOptions {
  strict : bool
}.

(** A method of the parser: from the position before the call to a result
    and the position after it, an exception, or an exhausted budget (the
    [RangeError] of the engine, on its way out of the parser). *)
Definition M (A : Type) : Type := nat -> Outcome (A * nat).

Definition ret {A : Type} (a : A) : M A := fun pos => Return (a, pos).

Definition bind {A B : Type} (m : M A) (f : A -> M B) : M B :=
  fun pos =>
    match m pos with
    | Return (a, pos') => f a pos'
    | Throw e => Throw e
    | NoFuel => NoFuel
    end.

Definition throw {A : Type} (e : Exn) : M A := fun _ => Throw e.

(** a call beyond the budget: the stack has run out *)
Definition overflow {A : Type} : M A := fun _ => NoFuel.

Declare Scope parser_scope.
Delimit Scope parser_scope with parser.
Notation "x <- m ;; k" := (bind m (fun x => k))
  (at level 61, m at next level, right associativity) : parser_scope.
Notation "m ;;; k" := (bind m (fun _ => k))
  (at level 61, right associativity) : parser_scope.
Local Open Scope parser_scope.

(** [x ? Some <$> m : null] *)
Definition whenM {A : Type} (b : bool) (m : M A) : M (option A) :=
  if b then (a <- m ;; ret (Some a)) else ret None.

(** a property read on [null] *)
Definition typeError (property : string) : Exn :=
  EJs "TypeError" ("Cannot read properties of null (reading '" ++ property ++ "')").

(** what the engine raises when calls nest deeper than its stack holds (the
    message is the one of V8, the engine of Node.js) *)
Definition stackOverflow : Exn :=
  EJs "RangeError" "Maximum call stack size exceeded".

(** the constructor's filter of the token array *)
Definition significant (tokens : list Token) : list Token :=
  filter (fun t => negb (isOneOf t [TT.WHITESPACE; TT.NEWLINE; TT.COMMENT])) tokens.

(** [canBeAlias] *)
Definition canBeAlias (token : Token) : bool :=
  if tokenIs token TT.IDENTIFIER then true
  else JsString.includes
         [ TT.DATE; TT.TIME; TT.TIMESTAMP; TT.YEAR; TT.MONTH; TT.DAY; TT.HOUR;
           TT.MINUTE; TT.SECOND; TT.COUNT; TT.SUM; TT.AVG; TT.MIN; TT.MAX;
           TT.ROW_NUMBER; TT.RANK; TT.DENSE_RANK; TT.LEAD; TT.LAG;
           TT.FIRST_VALUE; TT.LAST_VALUE; TT.NTH_VALUE ]
         (type token).

(** [isFunctionKeyword] *)
Definition isFunctionKeyword (token : Token) : bool :=
  JsString.includes
    [ TT.DATE; TT.TIME; TT.TIMESTAMP; TT.COUNT; TT.SUM; TT.AVG; TT.MIN; TT.MAX;
      TT.YEAR; TT.MONTH; TT.DAY;
      TT.ROW_NUMBER; TT.RANK; TT.DENSE_RANK; TT.LEAD; TT.LAG;
      TT.FIRST_VALUE; TT.LAST_VALUE; TT.NTH_VALUE ]
    (type token).

Definition intervalUnits : list string :=
  ["YEAR"; "MONTH"; "DAY"; "HOUR"; "MINUTE"; "SECOND"].

Section WithTokens.

(** [this.tokens] (already filtered) and [this.options] *)
Variable tokens : list Token.
Variable options : Options.

Definition current : M (option Token) :=
  fun pos => Return (nth_error tokens pos, pos).

Definition advance : M unit :=
  fun pos => Return (tt, if pos <? length tokens then S pos else pos).

(** [this.position--] *)
Definition backtrack : M unit := fun pos => Return (tt, pos - 1).

Definition getPosition : M nat := fun pos => Return (pos, pos).

(** [match] ([match] is a reserved word here) *)
Definition matchType (tokenType : TokenType) : M bool :=
  token <- current ;;
  ret (match token with Some t => tokenIs t tokenType | None => false end).

Definition matchAny (tokenTypes : list TokenType) : M bool :=
  token <- current ;;
  ret (match token with Some t => isOneOf t tokenTypes | None => false end).

Definition consume (tokenType : TokenType) : M (option Token) :=
  m <- matchType tokenType ;;
  if m then (token <- current ;; advance ;;; ret token) else ret None.

(** [consume(t) !== null], also the truth value of [consume(t)] *)
Definition consumed (tokenType : TokenType) : M bool :=
  token <- consume tokenType ;;
  ret (match token with Some _ => true | None => false end).

(** [x || 1] for a number *)
Definition orOne (n : nat) : nat := if n =? 0 then 1 else n.

(** [this.tokens[this.tokens.length - 1]?.line || 1], and the column *)
Definition lastLine : nat :=
  match last (map Some tokens) None with Some t => orOne (line t) | None => 1 end.
Definition lastColumn : nat :=
  match last (map Some tokens) None with Some t => orOne (column t) | None => 1 end.

Definition expect (tokenType : TokenType) : M Token :=
  token <- current ;;
  match token with
  | None => throw (ESQL (SQLErr.unexpectedEnd lastLine lastColumn))
  | Some t =>
      if tokenIs t TT.EOF
      then throw (ESQL (SQLErr.unexpectedEnd lastLine lastColumn))
      else if negb (tokenIs t tokenType)
      then throw (ESQL (SQLErr.unexpectedToken tokenType (type t) (line t) (column t)))
      else advance ;;; ret t
  end.

(** [this.current()] where a property of it is read at once *)
Definition currentToken (property : string) : M Token :=
  token <- current ;;
  match token with
  | Some t => ret t
  | None => throw (typeError property)
  end.

(** [new SQLError(msg, this.current()?.line || 1, this.current()?.column || 1)]:
    the line stands where the constructor takes the code, the column where
    it takes the line, and the column is the default 0 *)
Definition misplacedError (msg : string) : M SQLError :=
  token <- current ;;
  let l := match token with Some t => orOne (line t) | None => 1 end in
  let c := match token with Some t => orOne (column t) | None => 1 end in
  ret (mkSQLError msg (CodeNumber l) c 0 []).

(** The methods that call one another, as the object they are called on.
    The fields that end in [Loop] are the loops of the methods: they take
    the variables the loop updates and run from the loop's entry to its
    exit. *)
Record This : Type := mkThis {
  this_parseStatement : M node;
  this_parseUnionStatement : M node;
  this_parseUnionStatementWithoutOrderLimit : M node;
  this_parseSelectStatementWithoutOrderLimit : M node;
  this_parseWithStatement : M node;
  this_withLoop : list node -> M (list node);
  this_identifierLoop : list string -> M (list string);
  this_parseSelectStatement : M node;
  this_parseSelectColumns : M (list node);
  this_selectColumnsLoop : list node -> M (list node);
  this_parseFromClause : M node;
  this_fromLoop : list node -> list node -> M (list node * list node);
  this_joinLoop : list node -> M (list node);
  this_parseTableReference : M node;
  this_parseJoinClause : M node;
  this_parseWhereClause : M node;
  this_parseGroupByClause : M node;
  this_expressionLoop : list node -> M (list node);
  this_parseHavingClause : M node;
  this_parseOrderByClause : M node;
  this_orderByLoop : list node -> M (list node);
  this_parseLimitClause : M node;
  this_parseInsertStatement : M node;
  this_valuesLoop : list node -> M (list node);
  this_parseUpdateStatement : M node;
  this_assignmentLoop : list node -> M (list node);
  this_parseDeleteStatement : M node;
  this_parseExpression : M node;
  this_parseOrExpression : M node;
  this_orLoop : node -> M node;
  this_parseAndExpression : M node;
  this_andLoop : node -> M node;
  this_parseEqualityExpression : M node;
  this_equalityLoop : node -> M node;
  this_parseRelationalExpression : M node;
  this_relationalLoop : node -> M node;
  this_inValuesLoop : list node -> M (list node);
  this_parseAdditiveExpression : M node;
  this_additiveLoop : node -> M node;
  this_parseMultiplicativeExpression : M node;
  this_multiplicativeLoop : node -> M node;
  this_parseUnaryExpression : M node;
  this_parsePrimaryExpression : M node;
  this_argumentLoop : list node -> M (list node);
  this_parseCaseExpression : M node;
  this_whenLoop : list node -> M (list node);
  this_parseOverClause : M node;
  this_parseWindowFrame : M node;
  this_parseFrameBound : M node
}.

Section Methods.

Variable this : This.

Definition parseStatement : M node :=
  token <- current ;;
  match token with
  | None => throw (ESQL (SQLErr.unexpectedEnd 1 1))
  | Some t =>
      if tokenIs t TT.WITH then this_parseWithStatement this
      else if tokenIs t TT.SELECT then this_parseUnionStatement this
      else if tokenIs t TT.INSERT then this_parseInsertStatement this
      else if tokenIs t TT.UPDATE then this_parseUpdateStatement this
      else if tokenIs t TT.DELETE then this_parseDeleteStatement this
      else throw (ESQL (SQLErr.unexpectedToken
                          "WITH, SELECT, INSERT, UPDATE, or DELETE"
                          (type t) (line t) (column t)))
  end.

(** [if (this.match(T)) x = this.parseX()] with [x] initially [null] *)
Definition optionalClause (tokenType : TokenType) (m : M node) : M (option node) :=
  b <- matchType tokenType ;;
  whenM b m.

Definition isSome {A : Type} (o : option A) : bool :=
  match o with Some _ => true | None => false end.

Definition parseUnionStatement : M node :=
  left <- this_parseSelectStatement this ;;
  isUnion <- matchType TT.UNION ;;
  if isUnion then
    advance ;;;
    all <- consumed TT.ALL ;;
    right <- this_parseUnionStatementWithoutOrderLimit this ;;
    orderByClause <- optionalClause TT.ORDER (this_parseOrderByClause this) ;;
    limitClause <- optionalClause TT.LIMIT (this_parseLimitClause this) ;;
    ret (AST.union left right (if all then "UNION ALL" else "UNION") all
                   orderByClause limitClause)
  else
    orderByClause <- optionalClause TT.ORDER (this_parseOrderByClause this) ;;
    limitClause <- optionalClause TT.LIMIT (this_parseLimitClause this) ;;
    if isSome orderByClause || isSome limitClause
    then ret (setOrderLimit left orderByClause limitClause)
    else ret left.

Definition parseUnionStatementWithoutOrderLimit : M node :=
  left <- this_parseSelectStatementWithoutOrderLimit this ;;
  isUnion <- matchType TT.UNION ;;
  if isUnion then
    advance ;;;
    all <- consumed TT.ALL ;;
    right <- this_parseUnionStatementWithoutOrderLimit this ;;
    ret (AST.union left right (if all then "UNION ALL" else "UNION") all None None)
  else ret left.

Definition parseSelectStatementWithoutOrderLimit : M node :=
  expect TT.SELECT ;;;
  distinct <- consumed TT.DISTINCT ;;
  columns <- this_parseSelectColumns this ;;
  fromClause <- optionalClause TT.FROM (this_parseFromClause this) ;;
  whereClause <- optionalClause TT.WHERE (this_parseWhereClause this) ;;
  groupByClause <- optionalClause TT.GROUP (this_parseGroupByClause this) ;;
  havingClause <- optionalClause TT.HAVING (this_parseHavingClause this) ;;
  ret (AST.select distinct columns fromClause whereClause groupByClause havingClause).

(** [do { xs.push(this.expect(IDENTIFIER).value) } while (this.consume(COMMA))],
    the loop of the column lists of a CTE and of INSERT *)
Definition identifierLoop (columns : list string) : M (list string) :=
  t <- expect TT.IDENTIFIER ;;
  let columns := (columns ++ [value t])%list in
  again <- consumed TT.COMMA ;;
  if again then this_identifierLoop this columns else ret columns.

(** the [do ... while] of [parseWithStatement] *)
Definition withLoop (expressions : list node) : M (list node) :=
  nameToken <- expect TT.IDENTIFIER ;;
  let name := value nameToken in
  hasColumns <- matchType TT.LEFT_PAREN ;;
  columns <- whenM hasColumns
               (advance ;;;
                columns <- this_identifierLoop this [] ;;
                expect TT.RIGHT_PAREN ;;;
                ret columns) ;;
  expect TT.AS ;;;
  expect TT.LEFT_PAREN ;;;
  query <- this_parseUnionStatement this ;;
  expect TT.RIGHT_PAREN ;;;
  let expressions := (expressions ++ [AST.cte name columns query])%list in
  again <- consumed TT.COMMA ;;
  if again then this_withLoop this expressions else ret expressions.

Definition parseWithStatement : M node :=
  expect TT.WITH ;;;
  recursive <- consumed TT.RECURSIVE ;;
  expressions <- this_withLoop this [] ;;
  mainQuery <- this_parseUnionStatement this ;;
  let withClause := AST.with_ recursive expressions in
  ret (setWith mainQuery withClause).

Definition parseSelectStatement : M node :=
  expect TT.SELECT ;;;
  distinct <- consumed TT.DISTINCT ;;
  columns <- this_parseSelectColumns this ;;
  fromClause <- optionalClause TT.FROM (this_parseFromClause this) ;;
  whereClause <- optionalClause TT.WHERE (this_parseWhereClause this) ;;
  groupByClause <- optionalClause TT.GROUP (this_parseGroupByClause this) ;;
  havingClause <- optionalClause TT.HAVING (this_parseHavingClause this) ;;
  ret (AST.select distinct columns fromClause whereClause groupByClause havingClause).

(** the [do ... while] of [parseSelectColumns] *)
Definition selectColumnsLoop (columns : list node) : M (list node) :=
  star <- matchType TT.MULTIPLY ;;
  columns <-
    (if star then
       advance ;;; ret (columns ++ [AST.wildcard])%list
     else
       expr <- this_parseExpression this ;;
       hasAs <- matchType TT.AS ;;
       alias <-
         (if hasAs then
            advance ;;;
            t <- currentToken "is" ;;
            if canBeAlias t then advance ;;; ret (Some (value t))
            else throw (ESQL (SQLErr.unexpectedToken "alias identifier"
                                (type t) (line t) (column t)))
          else
            t <- currentToken "is" ;;
            if canBeAlias t then advance ;;; ret (Some (value t))
            else ret None) ;;
       let expr :=
         match alias with
         | Some a => if JsString.truthy a then setAlias expr a else expr
         | None => expr
         end in
       ret (columns ++ [expr])%list) ;;
  again <- consumed TT.COMMA ;;
  if again then this_selectColumnsLoop this columns else ret columns.

Definition parseSelectColumns : M (list node) :=
  this_selectColumnsLoop this [].

(** the inner [while] of [parseFromClause] *)
Definition joinLoop (joins : list node) : M (list node) :=
  more <- matchAny [TT.JOIN; TT.INNER; TT.LEFT; TT.RIGHT; TT.FULL; TT.CROSS] ;;
  if more then
    join <- this_parseJoinClause this ;;
    this_joinLoop this (joins ++ [join])%list
  else ret joins.

(** the [do ... while] of [parseFromClause] *)
Definition fromLoop (tables joins : list node) : M (list node * list node) :=
  table <- this_parseTableReference this ;;
  let tables := (tables ++ [table])%list in
  joins <- this_joinLoop this joins ;;
  again <- consumed TT.COMMA ;;
  if again then this_fromLoop this tables joins else ret (tables, joins).

Definition parseFromClause : M node :=
  expect TT.FROM ;;;
  tj <- this_fromLoop this [] [] ;;
  ret (AST.from (fst tj) (snd tj)).

(** the alias after a table or a subquery of FROM, written twice in
    [parseTableReference] *)
Definition tableAlias : M (option string) :=
  hasAs <- matchType TT.AS ;;
  if hasAs then
    advance ;;;
    t <- expect TT.IDENTIFIER ;;
    ret (Some (value t))
  else
    isId <- matchType TT.IDENTIFIER ;;
    if isId then
      t <- currentToken "value" ;;
      if canBeAlias t then advance ;;; ret (Some (value t)) else ret None
    else ret None.

Definition regularTableReference : M node :=
  t <- expect TT.IDENTIFIER ;;
  alias <- tableAlias ;;
  ret (AST.table (value t) alias).

Definition parseTableReference : M node :=
  paren <- matchType TT.LEFT_PAREN ;;
  if paren then
    advance ;;;
    sel <- matchType TT.SELECT ;;
    if sel then
      query <- this_parseSelectStatement this ;;
      expect TT.RIGHT_PAREN ;;;
      alias <- tableAlias ;;
      ret (AST.subquery query alias)
    else
      backtrack ;;;
      regularTableReference
  else regularTableReference.

Definition parseJoinClause : M node :=
  let outer (base : string) : M string :=
    advance ;;;
    o <- matchType TT.OUTER ;;
    if o then advance ;;; ret (base ++ " OUTER") else ret base in
  isLeft <- matchType TT.LEFT ;;
  isRight <- matchType TT.RIGHT ;;
  isFull <- matchType TT.FULL ;;
  isCross <- matchType TT.CROSS ;;
  isInner <- matchType TT.INNER ;;
  joinType <-
    (if isLeft then outer "LEFT"
     else if isRight then outer "RIGHT"
     else if isFull then outer "FULL"
     else if isCross then advance ;;; ret "CROSS"
     else if isInner then advance ;;; ret "INNER"
     else ret "INNER") ;;
  expect TT.JOIN ;;;
  table <- this_parseTableReference this ;;
  condition <-
    whenM (negb (String.eqb joinType "CROSS"))
          (expect TT.ON ;;; this_parseExpression this) ;;
  ret (AST.join joinType table condition).

Definition parseWhereClause : M node :=
  expect TT.WHERE ;;;
  condition <- this_parseExpression this ;;
  ret condition.

(** [do { xs.push(this.parseExpression()) } while (this.consume(COMMA))],
    the loop of GROUP BY, of PARTITION BY and of a row of VALUES *)
Definition expressionLoop (columns : list node) : M (list node) :=
  e <- this_parseExpression this ;;
  let columns := (columns ++ [e])%list in
  again <- consumed TT.COMMA ;;
  if again then this_expressionLoop this columns else ret columns.

Definition parseGroupByClause : M node :=
  expect TT.GROUP ;;;
  expect TT.BY ;;;
  columns <- this_expressionLoop this [] ;;
  ret (AST.groupBy columns).

Definition parseHavingClause : M node :=
  expect TT.HAVING ;;;
  condition <- this_parseExpression this ;;
  ret (AST.having condition).

(** the [do ... while] of [parseOrderByClause] and of the ORDER BY of
    [parseOverClause] *)
Definition orderByLoop (columns : list node) : M (list node) :=
  column <- this_parseExpression this ;;
  dir <- matchAny [TT.ASC; TT.DESC] ;;
  direction <-
    (if dir then
       t <- currentToken "value" ;;
       advance ;;; ret (JsString.toUpperCase (value t))
     else ret "ASC") ;;
  let columns := (columns ++ [AST.orderByColumn column direction])%list in
  again <- consumed TT.COMMA ;;
  if again then this_orderByLoop this columns else ret columns.

Definition parseOrderByClause : M node :=
  expect TT.ORDER ;;;
  expect TT.BY ;;;
  columns <- this_orderByLoop this [] ;;
  ret (AST.orderBy columns).

Definition parseLimitClause : M node :=
  expect TT.LIMIT ;;;
  count <- this_parseExpression this ;;
  hasOffset <- matchType TT.OFFSET ;;
  offset <- whenM hasOffset (advance ;;; this_parseExpression this) ;;
  ret (AST.limit count offset).

(** the outer [do ... while] of [parseInsertStatement]: one row of VALUES
    per iteration *)
Definition valuesLoop (values : list node) : M (list node) :=
  expect TT.LEFT_PAREN ;;;
  valueList <- this_expressionLoop this [] ;;
  expect TT.RIGHT_PAREN ;;;
  let values := (values ++ [AST.valuesList valueList])%list in
  again <- consumed TT.COMMA ;;
  if again then this_valuesLoop this values else ret values.

Definition parseInsertStatement : M node :=
  expect TT.INSERT ;;;
  expect TT.INTO ;;;
  table <- this_parseTableReference this ;;
  paren <- matchType TT.LEFT_PAREN ;;
  columns <-
    (if paren then
       advance ;;;
       columns <- this_identifierLoop this [] ;;
       expect TT.RIGHT_PAREN ;;;
       ret columns
     else ret []) ;;
  expect TT.VALUES ;;;
  values <- this_valuesLoop this [] ;;
  ret (AST.insert table columns values).

(** the [do ... while] of [parseUpdateStatement] *)
Definition assignmentLoop (assignments : list node) : M (list node) :=
  t <- expect TT.IDENTIFIER ;;
  expect TT.EQUALS ;;;
  v <- this_parseExpression this ;;
  let assignments := (assignments ++ [AST.assignment (value t) v])%list in
  again <- consumed TT.COMMA ;;
  if again then this_assignmentLoop this assignments else ret assignments.

Definition parseUpdateStatement : M node :=
  expect TT.UPDATE ;;;
  table <- this_parseTableReference this ;;
  expect TT.SET ;;;
  assignments <- this_assignmentLoop this [] ;;
  whereClause <- optionalClause TT.WHERE (this_parseWhereClause this) ;;
  ret (AST.update table assignments whereClause).

Definition parseDeleteStatement : M node :=
  expect TT.DELETE ;;;
  expect TT.FROM ;;;
  table <- this_parseTableReference this ;;
  whereClause <- optionalClause TT.WHERE (this_parseWhereClause this) ;;
  ret (AST.delete table whereClause).

Definition parseExpression : M node := this_parseOrExpression this.

(** [while (this.matchAny(ops)) { operator = this.current().value;
    this.advance(); right = operand(); left = AST.binary(left, operator, right) }] *)
Definition binaryLoop (ops : list TokenType) (operand : M node)
           (again : node -> M node) (left : node) : M node :=
  more <- matchAny ops ;;
  if more then
    t <- currentToken "value" ;;
    advance ;;;
    right <- operand ;;
    again (AST.binary left (value t) right)
  else ret left.

Definition orLoop : node -> M node :=
  binaryLoop [TT.OR] (this_parseAndExpression this) (this_orLoop this).

Definition parseOrExpression : M node :=
  left <- this_parseAndExpression this ;;
  this_orLoop this left.

Definition andLoop : node -> M node :=
  binaryLoop [TT.AND] (this_parseEqualityExpression this) (this_andLoop this).

Definition parseAndExpression : M node :=
  left <- this_parseEqualityExpression this ;;
  this_andLoop this left.

Definition equalityLoop : node -> M node :=
  binaryLoop [TT.EQUALS; TT.NOT_EQUALS] (this_parseRelationalExpression this)
             (this_equalityLoop this).

Definition parseEqualityExpression : M node :=
  left <- this_parseRelationalExpression this ;;
  this_equalityLoop this left.

(** [while (this.match(COMMA)) { this.advance(); values.push(this.parseExpression()) }] *)
Definition inValuesLoop (values : list node) : M (list node) :=
  more <- matchType TT.COMMA ;;
  if more then
    advance ;;;
    e <- this_parseExpression this ;;
    this_inValuesLoop this (values ++ [e])%list
  else ret values.

(** the [while] of [parseRelationalExpression] *)
Definition relationalLoop (left : node) : M node :=
  more <- matchAny [ TT.LESS_THAN; TT.GREATER_THAN; TT.LESS_THAN_EQUALS;
                     TT.GREATER_THAN_EQUALS; TT.LIKE; TT.ILIKE; TT.IN;
                     TT.BETWEEN; TT.IS ] ;;
  if more then
    t <- currentToken "value" ;;
    let operator := value t in
    advance ;;;
    left <-
      (if String.eqb operator "IN" then
         expect TT.LEFT_PAREN ;;;
         sel <- matchType TT.SELECT ;;
         if sel then
           query <- this_parseSelectStatement this ;;
           expect TT.RIGHT_PAREN ;;;
           ret (AST.binary left operator (AST.subquery query None))
         else
           closing <- matchType TT.RIGHT_PAREN ;;
           values <-
             (if negb closing then
                e <- this_parseExpression this ;;
                this_inValuesLoop this [e]
              else ret []) ;;
           expect TT.RIGHT_PAREN ;;;
           ret (AST.binary left operator (AST.valuesList values))
       else if String.eqb operator "BETWEEN" then
         startValue <- this_parseAdditiveExpression this ;;
         expect TT.AND ;;;
         endValue <- this_parseAdditiveExpression this ;;
         ret (AST.binary left operator (AST.betweenRange startValue endValue))
       else if String.eqb operator "IS" then
         isNot <- matchType TT.NOT ;;
         isOperator <- (if isNot then advance ;;; ret "IS NOT" else ret "IS") ;;
         isNull <- matchType TT.NULL ;;
         if isNull then
           advance ;;;
           ret (AST.binary left isOperator (AST.literal LNull "NULL"))
         else
           e <- misplacedError ("Expected NULL after " ++ isOperator) ;;
           throw (ESQL e)
       else
         quantified <- matchAny [TT.ANY; TT.ALL] ;;
         if quantified then
           q <- currentToken "value" ;;
           let quantifier := value q in
           advance ;;;
           expect TT.LEFT_PAREN ;;;
           sel <- matchType TT.SELECT ;;
           if sel then
             query <- this_parseSelectStatement this ;;
             expect TT.RIGHT_PAREN ;;;
             let right := AST.subquery query None in
             ret (AST.binary left (operator ++ " " ++ quantifier) right)
           else
             e <- misplacedError ("Expected SELECT after " ++ quantifier) ;;
             throw (ESQL e)
         else
           right <- this_parseAdditiveExpression this ;;
           ret (AST.binary left operator right)) ;;
    this_relationalLoop this left
  else ret left.

Definition parseRelationalExpression : M node :=
  left <- this_parseAdditiveExpression this ;;
  this_relationalLoop this left.

Definition additiveLoop : node -> M node :=
  binaryLoop [TT.PLUS; TT.MINUS] (this_parseMultiplicativeExpression this)
             (this_additiveLoop this).

Definition parseAdditiveExpression : M node :=
  left <- this_parseMultiplicativeExpression this ;;
  this_additiveLoop this left.

Definition multiplicativeLoop : node -> M node :=
  binaryLoop [TT.MULTIPLY; TT.DIVIDE; TT.MODULO; TT.CONCAT]
             (this_parseUnaryExpression this) (this_multiplicativeLoop this).

Definition parseMultiplicativeExpression : M node :=
  left <- this_parseUnaryExpression this ;;
  this_multiplicativeLoop this left.

Definition parseUnaryExpression : M node :=
  prefix <- matchAny [TT.NOT; TT.MINUS; TT.PLUS] ;;
  if prefix then
    t <- currentToken "value" ;;
    advance ;;;
    operand <- this_parseUnaryExpression this ;;
    ret (AST.unary (value t) operand)
  else
    ex <- matchType TT.EXISTS ;;
    if ex then
      advance ;;;
      expect TT.LEFT_PAREN ;;;
      subquery <- this_parseSelectStatement this ;;
      expect TT.RIGHT_PAREN ;;;
      ret (AST.unary "EXISTS" subquery)
    else this_parsePrimaryExpression this.

(** the [do ... while] of the arguments of a function call *)
Definition argumentLoop (args : list node) : M (list node) :=
  star <- matchType TT.MULTIPLY ;;
  arg <-
    (if star then advance ;;; ret (AST.literal (LString "*") "STAR")
     else this_parseExpression this) ;;
  let args := (args ++ [arg])%list in
  again <- consumed TT.COMMA ;;
  if again then this_argumentLoop this args else ret args.

Definition parsePrimaryExpression : M node :=
  cur <- current ;;
  match cur with
  | None => throw (ESQL (SQLErr.unexpectedEnd lastLine lastColumn))
  | Some token =>
      if tokenIs token TT.LEFT_PAREN then
        advance ;;;
        sel <- matchType TT.SELECT ;;
        if sel then
          query <- this_parseSelectStatement this ;;
          expect TT.RIGHT_PAREN ;;;
          ret (AST.subquery query None)
        else
          expr <- this_parseExpression this ;;
          expect TT.RIGHT_PAREN ;;;
          ret expr
      else if tokenIs token TT.INTERVAL then
        advance ;;;
        v <- this_parseExpression this ;;
        isUnit <- matchAny [TT.YEAR; TT.MONTH; TT.DAY; TT.HOUR; TT.MINUTE; TT.SECOND] ;;
        unit <-
          (if isUnit then
             t <- currentToken "value" ;;
             advance ;;; ret (JsString.toUpperCase (value t))
           else
             isId <- matchType TT.IDENTIFIER ;;
             if isId then
               t <- currentToken "value" ;;
               let unitValue := JsString.toUpperCase (value t) in
               if JsString.includes intervalUnits unitValue
               then advance ;;; ret unitValue
               else ret "DAY"
             else ret "DAY") ;;
        ret (AST.interval v unit)
      else if tokenIs token TT.STRING then
        advance ;;; ret (AST.literal (LString (value token)) "string")
      else if tokenIs token TT.NUMBER then
        advance ;;;
        let v := if JsString.includesChar (value token) "."%char
                 then JsNumber.parseFloat (value token)
                 else JsNumber.parseInt (value token) in
        ret (AST.literal (LNumber v) "number")
      else if tokenIs token TT.BOOLEAN then
        advance ;;;
        ret (AST.literal
               (LBoolean (String.eqb (JsString.toLowerCase (value token)) "true"))
               "boolean")
      else if tokenIs token TT.NULL then
        advance ;;; ret (AST.literal LNull "null")
      else if tokenIs token TT.CASE then this_parseCaseExpression this
      else if tokenIs token TT.IDENTIFIER || isFunctionKeyword token then
        let name := value token in
        advance ;;;
        call <- matchType TT.LEFT_PAREN ;;
        if call then
          advance ;;;
          if String.eqb (JsString.toUpperCase name) "EXTRACT" then
            fieldToken <- currentToken "is" ;;
            if isOneOf fieldToken [ TT.IDENTIFIER; TT.YEAR; TT.MONTH; TT.DAY;
                                    TT.HOUR; TT.MINUTE; TT.SECOND ]
            then
              advance ;;;
              expect TT.FROM ;;;
              source <- this_parseExpression this ;;
              expect TT.RIGHT_PAREN ;;;
              ret (FunctionCall name
                     [AST.literal (LString (value fieldToken)) "string"; source]
                     false true)
            else throw (ESQL (SQLErr.unexpectedToken "date/time field"
                                (type fieldToken) (line fieldToken)
                                (column fieldToken)))
          else
            closing <- matchType TT.RIGHT_PAREN ;;
            da <-
              (if negb closing then
                 d <- matchType TT.DISTINCT ;;
                 (if d then advance else ret tt) ;;;
                 args <- this_argumentLoop this [] ;;
                 ret (d, args)
               else ret (false, [])) ;;
            expect TT.RIGHT_PAREN ;;;
            let func := FunctionCall name (snd da) (fst da) false in
            isOver <- matchType TT.OVER ;;
            if isOver then
              advance ;;;
              overClause <- this_parseOverClause this ;;
              ret (AST.windowFunction func overClause)
            else ret func
        else
          dot <- matchType TT.DOT ;;
          if dot then
            advance ;;;
            c <- expect TT.IDENTIFIER ;;
            ret (AST.column (value c) (Some name))
          else ret (AST.column name None)
      else throw (ESQL (SQLErr.unexpectedToken "expression"
                          (type token) (line token) (column token)))
  end.

(** the [while] of [parseCaseExpression] *)
Definition whenLoop (whenClauses : list node) : M (list node) :=
  more <- matchType TT.WHEN ;;
  if more then
    advance ;;;
    condition <- this_parseExpression this ;;
    expect TT.THEN ;;;
    result <- this_parseExpression this ;;
    this_whenLoop this (whenClauses ++ [AST.when condition result])%list
  else ret whenClauses.

Definition parseCaseExpression : M node :=
  expect TT.CASE ;;;
  searched <- matchType TT.WHEN ;;
  expression <- whenM (negb searched) (this_parseExpression this) ;;
  whenClauses <- this_whenLoop this [] ;;
  hasElse <- matchType TT.ELSE ;;
  elseClause <- whenM hasElse (advance ;;; this_parseExpression this) ;;
  expect TT.END ;;;
  ret (AST.case expression whenClauses elseClause).

Definition parseOverClause : M node :=
  expect TT.LEFT_PAREN ;;;
  hasPartition <- matchType TT.PARTITION ;;
  partitionBy <- whenM hasPartition
                   (advance ;;; expect TT.BY ;;; this_expressionLoop this []) ;;
  hasOrder <- matchType TT.ORDER ;;
  orderBy <- whenM hasOrder
               (advance ;;; expect TT.BY ;;; this_orderByLoop this []) ;;
  hasFrame <- matchAny [TT.ROWS; TT.RANGE] ;;
  frame <- whenM hasFrame (this_parseWindowFrame this) ;;
  expect TT.RIGHT_PAREN ;;;
  ret (AST.over partitionBy orderBy frame).

Definition parseWindowFrame : M node :=
  t <- currentToken "value" ;;
  let frameType := JsString.toUpperCase (value t) in
  advance ;;;
  between <- matchType TT.BETWEEN ;;
  if between then
    advance ;;;
    start <- this_parseFrameBound this ;;
    expect TT.AND ;;;
    end_ <- this_parseFrameBound this ;;
    ret (AST.windowFrame frameType start (Some end_))
  else
    start <- this_parseFrameBound this ;;
    ret (AST.windowFrame frameType start None).

(** [this.matchAny(PRECEDING, FOLLOWING) ? this.current().value.toUpperCase()
    : 'PRECEDING'], then [this.advance()] *)
Definition frameDirection : M string :=
  m <- matchAny [TT.PRECEDING; TT.FOLLOWING] ;;
  direction <-
    (if m then t <- currentToken "value" ;; ret (JsString.toUpperCase (value t))
     else ret "PRECEDING") ;;
  advance ;;;
  ret direction.

Definition parseFrameBound : M node :=
  unbounded <- matchType TT.UNBOUNDED ;;
  if unbounded then
    advance ;;;
    direction <- frameDirection ;;
    ret (FrameBound "UNBOUNDED" None None (Some direction))
  else
    cur <- matchType TT.CURRENT ;;
    if cur then
      advance ;;;
      expect TT.ROW ;;;
      ret (FrameBound "CURRENT_ROW" None None None)
    else
      interval <- matchType TT.INTERVAL ;;
      if interval then
        advance ;;;
        intervalValue <- this_parseExpression this ;;
        isUnit <- matchAny [TT.YEAR; TT.MONTH; TT.DAY; TT.HOUR; TT.MINUTE; TT.SECOND] ;;
        unit <-
          (if isUnit then t <- currentToken "value" ;; ret (JsString.toUpperCase (value t))
           else ret "DAY") ;;
        advance ;;;
        direction <- frameDirection ;;
        ret (FrameBound "INTERVAL" (Some intervalValue) (Some unit) (Some direction))
      else
        v <- this_parseExpression this ;;
        direction <- frameDirection ;;
        ret (FrameBound "OFFSET" (Some v) None (Some direction)).

End Methods.

(** the object on a stack that holds no further call: a call of a method
    is one call too many *)
Definition noThis : This :=
  mkThis overflow overflow overflow overflow overflow (fun _ => overflow)
         (fun _ => overflow) overflow overflow (fun _ => overflow) overflow
         (fun _ _ => overflow) (fun _ => overflow) overflow overflow overflow overflow
         (fun _ => overflow) overflow overflow (fun _ => overflow) overflow overflow
         (fun _ => overflow) overflow (fun _ => overflow) overflow overflow overflow
         (fun _ => overflow) overflow (fun _ => overflow) overflow (fun _ => overflow)
         overflow (fun _ => overflow) (fun _ => overflow) overflow (fun _ => overflow)
         overflow (fun _ => overflow) overflow overflow (fun _ => overflow) overflow
         (fun _ => overflow) overflow overflow overflow.

(** one more level of calls *)
Definition methods (this : This) : This :=
  {| this_parseStatement := parseStatement this;
     this_parseUnionStatement := parseUnionStatement this;
     this_parseUnionStatementWithoutOrderLimit := parseUnionStatementWithoutOrderLimit this;
     this_parseSelectStatementWithoutOrderLimit := parseSelectStatementWithoutOrderLimit this;
     this_parseWithStatement := parseWithStatement this;
     this_withLoop := withLoop this;
     this_identifierLoop := identifierLoop this;
     this_parseSelectStatement := parseSelectStatement this;
     this_parseSelectColumns := parseSelectColumns this;
     this_selectColumnsLoop := selectColumnsLoop this;
     this_parseFromClause := parseFromClause this;
     this_fromLoop := fromLoop this;
     this_joinLoop := joinLoop this;
     this_parseTableReference := parseTableReference this;
     this_parseJoinClause := parseJoinClause this;
     this_parseWhereClause := parseWhereClause this;
     this_parseGroupByClause := parseGroupByClause this;
     this_expressionLoop := expressionLoop this;
     this_parseHavingClause := parseHavingClause this;
     this_parseOrderByClause := parseOrderByClause this;
     this_orderByLoop := orderByLoop this;
     this_parseLimitClause := parseLimitClause this;
     this_parseInsertStatement := parseInsertStatement this;
     this_valuesLoop := valuesLoop this;
     this_parseUpdateStatement := parseUpdateStatement this;
     this_assignmentLoop := assignmentLoop this;
     this_parseDeleteStatement := parseDeleteStatement this;
     this_parseExpression := parseExpression this;
     this_parseOrExpression := parseOrExpression this;
     this_orLoop := orLoop this;
     this_parseAndExpression := parseAndExpression this;
     this_andLoop := andLoop this;
     this_parseEqualityExpression := parseEqualityExpression this;
     this_equalityLoop := equalityLoop this;
     this_parseRelationalExpression := parseRelationalExpression this;
     this_relationalLoop := relationalLoop this;
     this_inValuesLoop := inValuesLoop this;
     this_parseAdditiveExpression := parseAdditiveExpression this;
     this_additiveLoop := additiveLoop this;
     this_parseMultiplicativeExpression := parseMultiplicativeExpression this;
     this_multiplicativeLoop := multiplicativeLoop this;
     this_parseUnaryExpression := parseUnaryExpression this;
     this_parsePrimaryExpression := parsePrimaryExpression this;
     this_argumentLoop := argumentLoop this;
     this_parseCaseExpression := parseCaseExpression this;
     this_whenLoop := whenLoop this;
     this_parseOverClause := parseOverClause this;
     this_parseWindowFrame := parseWindowFrame this;
     this_parseFrameBound := parseFrameBound this |}.

(** the parser object on a stack that holds [fuel] nested calls *)
Fixpoint parser (fuel : nat) : This :=
  match fuel with
  | 0 => noThis
  | S fuel' => methods (parser fuel')
  end.

(** [parse()] *)
Definition parseTokens (fuel : nat) : Outcome node :=
  let run : M node :=
    cur <- current ;;
    pos <- getPosition ;;
    let empty :=
      match cur with
      | None => true
      | Some t => tokenIs t TT.EOF && (pos =? 0)
      end in
    if empty then throw (ESQL (mkSQLError "Empty input" (Code "EMPTY_INPUT") 1 1 []))
    else
      statement <- this_parseStatement (parser fuel) ;;
      cur <- current ;;
      match cur with
      | Some t =>
          if negb (tokenIs t TT.EOF) && strict options
          then throw (ESQL (SQLErr.unexpectedToken "end of statement"
                              (type t) (line t) (column t)))
          else ret statement
      | None => ret statement
      end in
  match run 0 with
  | Return (statement, _) => Return statement
  | Throw e => Throw e
  | NoFuel => NoFuel
  end.

End WithTokens.

(** [new Parser(tokens, options).parse()] on a stack that holds [fuel]
    nested calls of the parser: the call beyond them raises, and nothing
    between it and the caller of [parse] catches *)
Definition parse (fuel : nat) (tokens : list Token) (options : Options)
  : Outcome node :=
  match parseTokens (significant tokens) options fuel with
  | NoFuel => Throw stackOverflow
  | outcome => outcome
  end.

End Parser.

(* ===================================================================== *)
(** ** src/analyzer/query-analyzer.js *)
(* ===================================================================== *)

Module Analyzer.

(** The functions below branch on the constructor of a node where the
    source branches on its [type]: the two agree on every node whose [type]
    is the name of its class, that is on all nodes but a [WindowFrame] or a
    [FrameBound] made from a hand-written token whose text is a class name.
    The branches of the source on types that ast-nodes.js does not define
    (MemberExpression, ArrayExpression, JoinExpression, ...) have no node to
    apply to. *)

(** a value that [extractValue] returns *)
Inductive JsValue : Type :=
| VNull
| VString (s : string)
| VNumber (n : JsNumber.t)
| VBoolean (b : bool)
| VNode (n : node).

(** [`${v}`] *)
Definition display (v : JsValue) : string :=
  match v with
  | VNull => "null"
  | VString s => s
  | VNumber n => JsNumber.toString n
  | VBoolean b => if b then "true" else "false"
  | VNode _ => "[object Object]"
  end.

(** an element of [Array.prototype.join]: [null] joins as the empty text *)
Definition joined (v : JsValue) : string :=
  match v with
  | VNull => EmptyString
  | _ => display v
  end.

Definition ofLiteral (v : LitValue) : JsValue :=
  match v with
  | LString s => VString s
  | LNumber n => VNumber n
  | LBoolean b => VBoolean b
  | LNull => VNull
  end.

Definition orElse (o : option string) (d : string) : string :=
  match o with
  | Some s => if JsString.truthy s then s else d
  | None => d
  end.

(** [node.name] *)
Fixpoint nameOf (n : node) : option string :=
  match n with
  | CTEExpression name _ _ => Some name
  | FunctionCall name _ _ _ => Some name
  | Identifier name _ => Some name
  | TableReference name _ _ => Some name
  | ColumnReference name _ _ => Some name
  | Wildcard => Some "*"
  | Aliased n' _ => nameOf n'
  | _ => None
  end.

(** [extractFieldName(node)] for a node; [formatFunctionCall] is the case
    of a function call *)
Fixpoint extractFieldName (n : node) : string :=
  match n with
  | Identifier name _ => name
  | FunctionCall name args _ _ =>
      name ++ "(" ++ JsString.join ", " (map extractFieldName args) ++ ")"
  | Aliased n' _ => extractFieldName n'
  | _ => orElse (nameOf n) "unknown"
  end.

Definition formatFunctionCall (name : string) (args : list node) : string :=
  name ++ "(" ++ JsString.join ", " (map extractFieldName args) ++ ")".

(** [extractFieldName] on a column name held as a string *)
Definition extractFieldNameOfString (s : string) : option string :=
  if JsString.truthy s then Some "unknown" else None.

Definition optValue (f : node -> JsValue) (o : option node) : JsValue :=
  match o with Some n => f n | None => VNull end.

(** [extractValue(node)] *)
Fixpoint extractValue (n : node) : JsValue :=
  match n with
  | Literal v _ => ofLiteral v
  | Identifier name _ => VString name
  | ColumnReference name table _ =>
      match table with
      | Some t => if JsString.truthy t then VString (t ++ "." ++ name) else VString name
      | None => VString name
      end
  | TableReference name _ _ => VString name
  | BinaryExpression l op r =>
      VString (display (extractValue l) ++ " " ++ op ++ " " ++ display (extractValue r))
  | UnaryExpression op operand =>
      VString (op ++ " " ++ display (extractValue operand))
  | FunctionCall name args _ _ =>
      VString (name ++ "("
               ++ JsString.join ", " (map (fun a => joined (extractValue a)) args)
               ++ ")")
  | CaseExpression expression whenClauses elseClause =>
      let head :=
        match expression with
        | Some e => "CASE " ++ display (extractValue e)
        | None => "CASE"
        end in
      let whens :=
        String.concat EmptyString
          (map (fun w =>
                  match w with
                  | WhenClause c r =>
                      " WHEN " ++ display (extractValue c)
                      ++ " THEN " ++ display (extractValue r)
                  | _ => " WHEN null THEN null"
                  end) whenClauses) in
      let tail :=
        match elseClause with
        | Some e => " ELSE " ++ display (extractValue e)
        | None => EmptyString
        end in
      VString (head ++ whens ++ tail ++ " END")
  | WhenClause c r =>
      VString ("WHEN " ++ display (extractValue c) ++ " THEN " ++ display (extractValue r))
  | BetweenRange s e =>
      VString ("BETWEEN " ++ display (extractValue s) ++ " AND " ++ display (extractValue e))
  | ValuesList values =>
      VString ("(" ++ JsString.join ", " (map (fun a => joined (extractValue a)) values) ++ ")")
  | Assignment column v =>
      VString ((if JsString.truthy column then "unknown" else "null")
               ++ " = " ++ display (extractValue v))
  | WhereClause c => extractValue c
  | FromClause tables _ =>
      VString (JsString.join ", " (map (fun a => joined (extractValue a)) tables))
  | JoinClause joinType table condition =>
      VString (joinType ++ " " ++ display (extractValue table)
               ++ match condition with
                  | Some c => " ON " ++ display (extractValue c)
                  | None => EmptyString
                  end)
  | OrderByColumn column direction =>
      VString (display (extractValue column) ++ " " ++ direction)
  | LimitClause _ offset =>
      match offset with
      | Some _ => VString "LIMIT [object Object], [object Object]"
      | None => VString "LIMIT [object Object]"
      end
  | Interval v _ => VNode v
  | FrameBound kind v _ _ =>
      match v with
      | Some x => VNode x
      | None => VString ("[" ++ kind ++ "]")
      end
  | CTEExpression name _ _ => VString name
  | Wildcard => VString "*"
  | Aliased n' _ => extractValue n'
  | _ => VString ("[" ++ orElse (Some (nodeType n)) "Unknown" ++ "]")
  end.

Record Condition : Type := mkCondition {
  field : option string;
  operator : string;
  cvalue : JsValue;
  ctype : string
}.

(** [getConditionType(operator, _value)] *)
Definition getConditionType (operator : string) : string :=
  if JsString.includes ["="; "!="; "<>"] operator then "equality"
  else if JsString.includes [">"; "<"; ">="; "<="] operator then "comparison"
  else if JsString.includes ["LIKE"; "ILIKE"] operator then "pattern"
  else if String.eqb operator "IN" then "list"
  else if String.eqb operator "BETWEEN" then "range"
  else "other".

Definition leafOperators : list string :=
  ["="; "!="; "<>"; ">"; "<"; ">="; "<="; "LIKE"; "ILIKE"; "IN"; "BETWEEN"].

(** [traverseCondition(node)]: the conditions it pushes, in order *)
Fixpoint traverseCondition (n : node) : list Condition :=
  match n with
  | BinaryExpression l op r =>
      if JsString.includes leafOperators op then
        [ mkCondition (Some (extractFieldName l)) op (extractValue r)
                      (getConditionType op) ]
      else if JsString.includes ["AND"; "OR"] op then
        (traverseCondition l ++ traverseCondition r)%list
      else []
  | UnaryExpression op operand =>
      if String.eqb op "NOT" then traverseCondition operand else []
  | Aliased n' _ => traverseCondition n'
  | _ => []
  end.

Fixpoint unalias (n : node) : node :=
  match n with
  | Aliased n' _ => unalias n'
  | _ => n
  end.

(** [extractConditions(whereClause)] *)
Definition extractConditions (whereClause : option node) : list Condition :=
  match whereClause with
  | None => []
  | Some w =>
      match unalias w with
      | WhereClause condition => traverseCondition condition
      | _ => traverseCondition w
      end
  end.

(** the [expression] of a field: the text of a function call, or one of the
    two fixed labels of the source (texts outside the code units below 256,
    kept as constructors) *)
Inductive ExpressionText : Type :=
| Formatted (s : string)
| CaseLabel
| ComplexLabel.

Record FieldInfo : Type := mkFieldInfo {
  fname : option string;
  falias : option string;
  ftype : string;
  ftable : option string;
  fexpression : option ExpressionText;
  aggregation : option bool
}.

(** [isAggregateFunction(functionName)] *)
Definition isAggregateFunction (functionName : string) : bool :=
  JsString.includes ["COUNT"; "SUM"; "AVG"; "MAX"; "MIN"; "GROUP_CONCAT"]
                    (JsString.toUpperCase functionName).

(** the body of the [map] of [extractFields] *)
Definition fieldInfo (f : node) : FieldInfo :=
  let alias := getAlias f in
  match unalias f with
  | ColumnReference name table _ =>
      mkFieldInfo (Some name) alias "column" table None None
  | Identifier name _ =>
      mkFieldInfo (Some name) alias "column" None None None
  | FunctionCall name args _ _ =>
      mkFieldInfo (Some name) alias "function" None
                  (Some (Formatted (formatFunctionCall name args)))
                  (Some (isAggregateFunction name))
  | CaseExpression _ _ _ =>
      mkFieldInfo (Some (orElse alias "case_expression")) alias "case" None
                  (Some CaseLabel) None
  | _ =>
      mkFieldInfo (Some (orElse alias "expression")) alias "expression" None
                  (Some ComplexLabel) None
  end.

Definition extractFields (selectList : list node) : list FieldInfo :=
  map fieldInfo selectList.

(** an entry of [tables]: the object [{name, alias, schema}] that
    [extractTableInfo] builds, or the bare name that the facade stores for a
    statement that is not a SELECT *)
Inductive TableEntry : Type :=
| TableInfo (name : string) (alias schema : option string)
| TableName (name : string).

(** [extractTable(node)] *)
Definition extractTable (n : node) : list TableEntry :=
  match unalias n with
  | TableReference name _ schema => [TableInfo name (getAlias n) schema]
  | _ => []
  end.

(** [join.table]: a node, a text, or [null]/[undefined] *)
Inductive TableProperty : Type :=
| TableNode (n : node)
| TableText (s : string)
| TableAbsent.

Definition joinTable (j : node) : TableProperty :=
  let ofNode (o : option node) :=
    match o with Some t => TableNode t | None => TableAbsent end in
  let ofText (o : option string) :=
    match o with Some t => TableText t | None => TableAbsent end in
  match unalias j with
  | JoinClause _ table _ => TableNode table
  | InsertStatement table _ _ => ofNode table
  | UpdateStatement table _ _ => ofNode table
  | Identifier _ table => ofText table
  | ColumnReference _ table _ => ofText table
  | _ => TableAbsent
  end.

(** [join.condition] *)
Definition joinCondition (j : node) : option node :=
  match unalias j with
  | JoinClause _ _ condition => condition
  | WhenClause condition _ => Some condition
  | WhereClause condition => Some condition
  | HavingClause condition => Some condition
  | _ => None
  end.

(** [extractTableInfo(fromClause)] *)
Definition extractTableInfo (fromClause : option node) : list TableEntry :=
  match fromClause with
  | None => []
  | Some f =>
      match unalias f with
      | FromClause tables joins =>
          (flat_map extractTable tables
           ++ flat_map (fun j => match joinTable j with
                                 | TableNode t => extractTable t
                                 | _ => []
                                 end) joins)%list
      | _ => extractTable f
      end
  end.

Record JoinCondition : Type := mkJoinCondition {
  jleft : string;
  joperator : string;
  jright : string
}.

Record JoinInfo : Type := mkJoinInfo {
  jtype : string;
  jtable : option string;
  jalias : option string;
  jcondition : option JoinCondition
}.

(** [extractJoinCondition(condition)] *)
Definition extractJoinCondition (condition : node) : option JoinCondition :=
  match unalias condition with
  | BinaryExpression l op r =>
      Some (mkJoinCondition (extractFieldName l) op (extractFieldName r))
  | _ => None
  end.

(** the body of the [map] of [extractJoinInfo]; [type] is [join.type],
    the class name of the node *)
Definition joinInfo (j : node) : Outcome JoinInfo :=
  let condition :=
    match joinCondition j with
    | Some c => extractJoinCondition c
    | None => None
    end in
  match joinTable j with
  | TableNode table =>
      Return (mkJoinInfo (nodeType j) (nameOf table) (getAlias table) condition)
  | TableText _ => Return (mkJoinInfo (nodeType j) None None condition)
  | TableAbsent =>
      Throw (EJs "TypeError" "Cannot read properties of undefined (reading 'name')")
  end.

Fixpoint mapOutcome {A B : Type} (f : A -> Outcome B) (l : list A)
  : Outcome (list B) :=
  match l with
  | [] => Return []
  | x :: l' =>
      match f x with
      | Return y =>
          match mapOutcome f l' with
          | Return ys => Return (y :: ys)
          | Throw e => Throw e
          | NoFuel => NoFuel
          end
      | Throw e => Throw e
      | NoFuel => NoFuel
      end
  end.

(** [extractJoinInfo(joins)] *)
Definition extractJoinInfo (joins : list node) : Outcome (list JoinInfo) :=
  mapOutcome joinInfo joins.

Record OrderInfo : Type := mkOrderInfo {
  ofield : option string;
  odirection : string
}.

(** [extractOrderBy(orderBy)] *)
Definition extractOrderBy (orderBy : option node) : list OrderInfo :=
  match orderBy with
  | None => []
  | Some o =>
      match unalias o with
      | OrderByClause columns | GroupByClause columns
      | SelectStatement columns _ _ _ _ _ _ _ _ _ =>
          map (fun item =>
                 match unalias item with
                 | OrderByColumn column direction =>
                     mkOrderInfo (Some (extractFieldName column))
                                 (orElse (Some direction) "ASC")
                 | Assignment column _ =>
                     mkOrderInfo (extractFieldNameOfString column) "ASC"
                 | FrameBound _ _ _ direction =>
                     mkOrderInfo None (orElse direction "ASC")
                 | _ => mkOrderInfo None "ASC"
                 end) columns
      | InsertStatement _ columns _ | CTEExpression _ (Some columns) _ =>
          map (fun _ => mkOrderInfo None "ASC") columns
      | _ => []
      end
  end.

(** [extractGroupBy(groupBy)] *)
Definition extractGroupBy (groupBy : option node) : list (option string) :=
  match groupBy with
  | None => []
  | Some g =>
      match unalias g with
      | OrderByClause columns | GroupByClause columns
      | SelectStatement columns _ _ _ _ _ _ _ _ _ =>
          map (fun item => Some (extractFieldName item)) columns
      | InsertStatement _ columns _ | CTEExpression _ (Some columns) _ =>
          map extractFieldNameOfString columns
      | _ => []
      end
  end.

Record LimitInfo : Type := mkLimitInfo {
  lcount : JsValue;
  loffset : JsValue
}.

(** [extractLimit(limit)] *)
Definition extractLimit (limit : option node) : option LimitInfo :=
  match limit with
  | None => None
  | Some l =>
      match unalias l with
      | LimitClause count offset =>
          Some (mkLimitInfo (extractValue count) (optValue extractValue offset))
      | _ => None
      end
  end.

Record Analysis : Type := mkAnalysis {
  conditions : list Condition;
  fields : list FieldInfo;
  tables : list TableEntry;
  joins : list JoinInfo;
  orderBy : list OrderInfo;
  groupBy : list (option string);
  limit : option LimitInfo
}.

(** [analyzeSelectQuery(ast)]; the message of the error for another
    statement is a Chinese text in the source *)
Definition analyzeSelectQuery (ast : node) : Outcome Analysis :=
  match unalias ast with
  | SelectStatement columns from where_ groupBy having orderBy limit _ _ _ =>
      let joins :=
        match option_map unalias from with
        | Some (FromClause _ joins) => joins
        | _ => []
        end in
      match extractJoinInfo joins with
      | Return joinInfos =>
          Return (mkAnalysis (extractConditions where_)
                             (extractFields columns)
                             (extractTableInfo from)
                             joinInfos
                             (extractOrderBy orderBy)
                             (extractGroupBy groupBy)
                             (extractLimit limit))
      | Throw e => Throw e
      | NoFuel => NoFuel
      end
  | _ => Throw (EJs "Error" "only SELECT queries are analysed")
  end.

(** an entry of [factors]; the source renders the first four as the count
    followed by a fixed Chinese text, the last two as the SQL keywords *)
Inductive Factor : Type :=
| ConditionCount (n : nat)
| TableCount (n : nat)
| JoinCount (n : nat)
| AggregateCount (n : nat)
| HasGroupBy
| HasOrderBy.

Record Complexity : Type := mkComplexity {
  level : string;
  score : nat;
  factors : list Factor
}.

Definition isAggregate (f : FieldInfo) : bool :=
  match aggregation f with Some b => b | None => false end.

(** [if (test) { complexity.score += points; complexity.factors.push(f) }] *)
Definition addFactor (complexity : Complexity) (test : bool) (points : nat)
           (f : Factor) : Complexity :=
  if test
  then mkComplexity (level complexity) (score complexity + points)
                    (factors complexity ++ [f])%list
  else complexity.

(** the last statement: the level from the score *)
Definition setLevel (complexity : Complexity) : Complexity :=
  mkComplexity (if score complexity <=? 5 then "simple"
                else if score complexity <=? 15 then "medium"
                else "complex")
               (score complexity) (factors complexity).

(** [analyzeQueryComplexity(analysisResult)], statement by statement *)
Definition analyzeQueryComplexity (analysisResult : Analysis) : Complexity :=
  let complexity := mkComplexity "simple" 0 [] in
  let nConditions := length (conditions analysisResult) in
  let complexity :=
    addFactor complexity (0 <? nConditions) (nConditions * 2)
              (ConditionCount nConditions) in
  let nTables := length (tables analysisResult) in
  let complexity :=
    addFactor complexity (1 <? nTables) ((nTables - 1) * 3) (TableCount nTables) in
  let nJoins := length (joins analysisResult) in
  let complexity :=
    addFactor complexity (0 <? nJoins) (nJoins * 4) (JoinCount nJoins) in
  let aggregateFields := filter isAggregate (fields analysisResult) in
  let complexity :=
    addFactor complexity (0 <? length aggregateFields)
              (length aggregateFields * 2)
              (AggregateCount (length aggregateFields)) in
  let complexity :=
    addFactor complexity (0 <? length (groupBy analysisResult)) 3 HasGroupBy in
  let complexity :=
    addFactor complexity (0 <? length (orderBy analysisResult)) 2 HasOrderBy in
  setLevel complexity.

End Analyzer.

(* ===================================================================== *)
(** ** src/index.js *)
(* ===================================================================== *)

Module Facade.

(** the options that the facade, the lexer and the parser read *)
Record Options : Type := mkOptions {
  strict : bool;
  includeComments : bool;
  includeWhitespace : bool;
  includeTokens : bool
}.

(** [options = {}] *)
Definition noOptions : Options := mkOptions false false false false.

(** What the program itself passes where the SQL text is expected: a
    text, or the tree that [analyzeSQL] passes to [extractTables].  Other
    values ([null], a [String] object, ...) are not modelled. *)
Inductive JsArg : Type :=
| ArgString (s : string)
| ArgObject (n : node).

(** The nodes that [traverseAST] visits from a node, in the order of the
    visit: the node, then what its properties hold ([Object.values], in the
    order the properties were created).  Texts, numbers and booleans hold
    no node. *)
Fixpoint descendants (n : node) : list node :=
  let opt (o : option node) : list node :=
    match o with Some m => descendants m | None => [] end in
  let all (l : list node) : list node := flat_map descendants l in
  let optAll (o : option (list node)) : list node :=
    match o with Some l => flat_map descendants l | None => [] end in
  match n with
  | Aliased n' _ => descendants n'
  | SelectStatement columns from where_ groupBy having orderBy limit offset _ with_ =>
      n :: all columns ++ opt from ++ opt where_ ++ opt groupBy ++ opt having
        ++ opt orderBy ++ opt limit ++ opt offset ++ opt with_
  | InsertStatement table _ values => n :: opt table ++ all values
  | UpdateStatement table set where_ => n :: opt table ++ all set ++ opt where_
  | DeleteStatement from where_ => n :: opt from ++ opt where_
  | UnionStatement l r _ _ orderBy limit offset with_ =>
      n :: opt l ++ opt r ++ opt orderBy ++ opt limit ++ opt offset ++ opt with_
  | WithClause _ expressions => n :: all expressions
  | CTEExpression _ _ query => n :: descendants query
  | WindowFunction function over => n :: opt function ++ opt over
  | OverClause partitionBy orderBy frame =>
      n :: optAll partitionBy ++ optAll orderBy ++ opt frame
  | WindowFrame _ start end_ => n :: opt start ++ opt end_
  | FrameBound _ v _ _ => n :: opt v
  | BinaryExpression l _ r => n :: descendants l ++ descendants r
  | UnaryExpression _ operand => n :: descendants operand
  | FunctionCall _ args _ _ => n :: all args
  | CaseExpression expression whenClauses elseClause =>
      n :: opt expression ++ all whenClauses ++ opt elseClause
  | WhenClause c r => n :: descendants c ++ descendants r
  | FromClause tables joins => n :: all tables ++ all joins
  | WhereClause c => n :: descendants c
  | JoinClause _ table condition => n :: descendants table ++ opt condition
  | GroupByClause columns => n :: all columns
  | HavingClause c => n :: descendants c
  | OrderByClause columns => n :: all columns
  | OrderByColumn column _ => n :: descendants column
  | LimitClause count offset => n :: descendants count ++ opt offset
  | Assignment _ v => n :: descendants v
  | ValuesList values => n :: all values
  | BetweenRange s e => n :: descendants s ++ descendants e
  | Interval v _ => n :: descendants v
  | SubQuery query _ => n :: descendants query
  | Identifier _ _ | TableReference _ _ _ | ColumnReference _ _ _
  | Wildcard | Literal _ _ => [n]
  end%list.

(** [node.type === "TableReference" && node.name] *)
Definition tableNameOf (n : node) : option string :=
  match n with
  | TableReference name _ _ => if JsString.truthy name then Some name else None
  | _ => None
  end.

(** the test of [extractColumnsFromAST]; no node has a [parent] *)
Definition columnNameOf (n : node) : option string :=
  match n with
  | ColumnReference name _ _ => if JsString.truthy name then Some name else None
  | Identifier name _ => if JsString.truthy name then Some name else None
  | _ => None
  end.

Fixpoint collect {A : Type} (f : node -> option A) (l : list node) : list A :=
  match l with
  | [] => []
  | n :: l' =>
      match f n with
      | Some a => a :: collect f l'
      | None => collect f l'
      end
  end.

(** the elements of a [Set] in the order of their first [add] *)
Fixpoint distinct (seen : list string) (l : list string) : list string :=
  match l with
  | [] => []
  | x :: l' =>
      if JsString.includes seen x then distinct seen l'
      else x :: distinct (x :: seen) l'
  end.

(** [extractTablesFromAST(ast)] *)
Definition extractTablesFromAST (ast : node) : list string :=
  collect tableNameOf (descendants ast).

(** [extractColumnsFromAST(ast)] *)
Definition extractColumnsFromAST (ast : node) : list string :=
  distinct [] (collect columnNameOf (descendants ast)).

(** an element of [errors]: [error.toJSON()] of an [SQLError], or the
    object literal with [code], [message], [line] and [column] only *)
Record ErrorInfo : Type := mkErrorInfo {
  ename : option string;
  emessage : string;
  ecode : ErrorCode;
  eline : nat;
  ecolumn : nat;
  econtext : option (list (string * string))
}.

Definition toJSON (e : SQLError) : ErrorInfo :=
  mkErrorInfo (Some "SQLError") (message e) (code e) (err_line e) (err_column e)
              (Some (context e)).

Definition plainError (code : string) (msg : string) : ErrorInfo :=
  mkErrorInfo None msg (Code code) 0 0 None.

(** [error.message] *)
Definition exnMessage (e : Exn) : string :=
  match e with
  | ESQL err => message err
  | EJs _ msg => msg
  end.

Record ParseResult : Type := mkParseResult {
  success : bool;
  ast : option node;
  tables : list string;
  columns : list string;
  tokens : option (list Token);
  errors : list ErrorInfo
}.

Definition parseFailure (e : ErrorInfo) : ParseResult :=
  mkParseResult false None [] [] None [e].

(** the [catch] of [parseSQL] *)
Definition catchParse (e : Exn) : ParseResult :=
  match e with
  | ESQL err => parseFailure (toJSON err)
  | EJs _ msg => parseFailure (plainError "UNEXPECTED_ERROR" msg)
  end.

(** [parseSQL(sqlString, options)]; [fuel] is the budget of nested calls
    given to the parser, whose [RangeError] is caught here as any other
    exception *)
Definition parseSQL (fuel : nat) (sqlString : JsArg) (options : Options)
  : Outcome ParseResult :=
  match sqlString with
  | ArgObject _ =>
      Throw (ESQL (mkSQLError "Input must be a string" (Code "INVALID_INPUT") 0 0 []))
  | ArgString s =>
      match Lexer.tokenize s (Lexer.mkOptions (includeWhitespace options)
                                              (includeComments options)) with
      | Return toks =>
          match Parser.parse fuel toks (Parser.mkOptions (strict options)) with
          | Return tree =>
              Return (mkParseResult true (Some tree)
                                    (extractTablesFromAST tree)
                                    (extractColumnsFromAST tree)
                                    (if includeTokens options then Some toks else None)
                                    [])
          | Throw e => Return (catchParse e)
          | NoFuel => NoFuel
          end
      | Throw e => Return (catchParse e)
      | NoFuel => NoFuel
      end
  end.

Record ValidationResult : Type := mkValidationResult {
  valid : bool;
  verrors : list ErrorInfo
}.

(** [validateSQL(sqlString, options)] *)
Definition validateSQL (fuel : nat) (sqlString : JsArg) (options : Options)
  : Outcome ValidationResult :=
  match parseSQL fuel sqlString options with
  | Return result => Return (mkValidationResult (success result) (errors result))
  | Throw e =>
      Return (mkValidationResult false [plainError "VALIDATION_ERROR" (exnMessage e)])
  | NoFuel => NoFuel
  end.

(** [extractTables(sqlString)] *)
Definition extractTables (fuel : nat) (sqlString : JsArg) : Outcome (list string) :=
  match parseSQL fuel sqlString noOptions with
  | Return result =>
      if negb (success result) then Return []
      else
        match ast result with
        | Some tree => Return (distinct [] (collect tableNameOf (descendants tree)))
        | None => Return []
        end
  | Throw _ => Return []
  | NoFuel => NoFuel
  end.

(** What one visit of the [traverseAST] of [extractColumns] adds at the
    node [n], in the order of its five tests: the name of a column
    reference, the name of an identifier, [node.column] when it is a text,
    [node.column.name], and for each element of [node.columns] the element
    when it is a text, its [name] otherwise.  A name that is added is not
    empty; a text of [node.columns] is added as it is. *)
Definition columnsAt (n : node) : list string :=
  let named (o : option string) : list string :=
    match o with
    | Some s => if JsString.truthy s then [s] else []
    | None => []
    end in
  ((match n with ColumnReference name _ _ => named (Some name) | _ => [] end)
   ++ (match n with Identifier name _ => named (Some name) | _ => [] end)
   ++ (match n with Assignment column _ => named (Some column) | _ => [] end)
   ++ (match n with OrderByColumn column _ => named (Analyzer.nameOf column) | _ => [] end)
   ++ (match n with
       | SelectStatement columns _ _ _ _ _ _ _ _ _
       | GroupByClause columns | OrderByClause columns =>
           flat_map (fun col => named (Analyzer.nameOf col)) columns
       | InsertStatement _ columns _ => columns
       | CTEExpression _ (Some columns) _ => columns
       | _ => []
       end))%list.

(** [extractColumns(sqlString)] *)
Definition extractColumns (fuel : nat) (sqlString : JsArg) : Outcome (list string) :=
  match parseSQL fuel sqlString noOptions with
  | Return result =>
      if negb (success result) then Return []
      else
        match ast result with
        | Some tree => Return (distinct [] (flat_map columnsAt (descendants tree)))
        | None => Return []
        end
  | Throw _ => Return []
  | NoFuel => NoFuel
  end.

Record QueryInfo : Type := mkQueryInfo {
  qtype : string;
  sql : string
}.

Inductive AnalyzeResult : Type :=
| AnalyzeFailure (error : string) (query : QueryInfo)
| AnalyzeSuccess (query : QueryInfo) (analysis : Analyzer.Analysis)
                 (complexity : Analyzer.Complexity) (parsed : ParseResult).

(** the [catch] of [analyzeSQL]: it reads [sql.trim()], which is not a
    function when [sql] is not a text *)
Definition catchAnalyze (sqlArg : JsArg) (e : Exn) : Outcome AnalyzeResult :=
  match sqlArg with
  | ArgString s =>
      Return (AnalyzeFailure (exnMessage e) (mkQueryInfo "unknown" (JsString.trim s)))
  | ArgObject _ => Throw (EJs "TypeError" "sql.trim is not a function")
  end.

(** [analyzeSQL(sql, options)] *)
Definition analyzeSQL (fuel : nat) (sqlArg : JsArg) (options : Options)
  : Outcome AnalyzeResult :=
  match parseSQL fuel sqlArg options with
  | Throw e => catchAnalyze sqlArg e
  | NoFuel => NoFuel
  | Return parseResult =>
      let text := match sqlArg with ArgString s => s | ArgObject _ => EmptyString end in
      if negb (success parseResult) then
        let msg :=
          match errors parseResult with
          | e :: _ => if JsString.truthy (emessage e) then emessage e else "Parse failed"
          | [] => "Parse failed"
          end in
        Return (AnalyzeFailure msg (mkQueryInfo "unknown" (JsString.trim text)))
      else
        match ast parseResult with
        | None =>
            catchAnalyze sqlArg
              (EJs "TypeError" "Cannot read properties of null (reading 'type')")
        | Some tree =>
            if String.eqb (nodeType tree) "SelectStatement" then
              match Analyzer.analyzeSelectQuery tree with
              | Return analysis =>
                  Return (AnalyzeSuccess
                            (mkQueryInfo (nodeType tree) (JsString.trim text))
                            analysis
                            (Analyzer.analyzeQueryComplexity analysis)
                            parseResult)
              | Throw e => catchAnalyze sqlArg e
              | NoFuel => NoFuel
              end
            else
              match extractTables fuel (ArgObject tree) with
              | Return names =>
                  Return (AnalyzeSuccess
                            (mkQueryInfo (nodeType tree) (JsString.trim text))
                            (Analyzer.mkAnalysis [] [] (map Analyzer.TableName names)
                                                 [] [] [] None)
                            (Analyzer.mkComplexity "simple" 0 [])
                            parseResult)
              | Throw e => catchAnalyze sqlArg e
              | NoFuel => NoFuel
              end
        end
  end.

End Facade.

(* ===================================================================== *)
(** ** The shape of a parsed tree *)
(* ===================================================================== *)

Module Shape.

(** the classes of the nodes that the expression grammar returns *)
Definition isExpression (n : node) : bool :=
  match n with
  | BinaryExpression _ _ _ | UnaryExpression _ _ | FunctionCall _ _ _ _
  | WindowFunction _ _ | CaseExpression _ _ _ | ColumnReference _ _ _
  | Literal _ _ | Interval _ _ | SubQuery _ _ => true
  | _ => false
  end.

(** a SELECT node whose [orderBy] and [limit] are [null] *)
Definition plainSelect (n : node) : bool :=
  match n with
  | SelectStatement _ _ _ _ _ None None _ _ _ => true
  | _ => false
  end.

(** a UNION node whose [orderBy] and [limit] are [null] *)
Definition bareUnion (n : node) : bool :=
  match n with
  | UnionStatement _ _ _ _ None None _ _ => true
  | _ => false
  end.


(** What holds of each node of a parsed tree: the [where] of a statement
    is an expression node; the left side of a UNION is a SELECT without
    ORDER BY and LIMIT, and its right side is such a SELECT or a UNION
    without them. *)
Definition wellFormed (n : node) : bool :=
  match n with
  | SelectStatement _ _ (Some w) _ _ _ _ _ _ _ => isExpression w
  | UpdateStatement _ _ (Some w) => isExpression w
  | DeleteStatement _ (Some w) => isExpression w
  | UnionStatement (Some l) (Some r) _ _ _ _ _ _ =>
      plainSelect l && (plainSelect r || bareUnion r)
  | UnionStatement _ _ _ _ _ _ _ _ => false
  | _ => true
  end.

(** the immediate children of a node, in the order of its properties *)
Definition children (n : node) : list node :=
  let opt (o : option node) : list node :=
    match o with Some m => [m] | None => [] end in
  let optAll (o : option (list node)) : list node :=
    match o with Some l => l | None => [] end in
  match Analyzer.unalias n with
  | SelectStatement columns from where_ groupBy having orderBy limit offset _ with_ =>
      columns ++ opt from ++ opt where_ ++ opt groupBy ++ opt having
        ++ opt orderBy ++ opt limit ++ opt offset ++ opt with_
  | InsertStatement table _ values => opt table ++ values
  | UpdateStatement table set where_ => opt table ++ set ++ opt where_
  | DeleteStatement from where_ => opt from ++ opt where_
  | UnionStatement l r _ _ orderBy limit offset with_ =>
      opt l ++ opt r ++ opt orderBy ++ opt limit ++ opt offset ++ opt with_
  | WithClause _ expressions => expressions
  | CTEExpression _ _ query => [query]
  | WindowFunction function over => opt function ++ opt over
  | OverClause partitionBy orderBy frame =>
      optAll partitionBy ++ optAll orderBy ++ opt frame
  | WindowFrame _ start end_ => opt start ++ opt end_
  | FrameBound _ v _ _ => opt v
  | BinaryExpression l _ r => [l; r]
  | UnaryExpression _ operand => [operand]
  | FunctionCall _ args _ _ => args
  | CaseExpression expression whenClauses elseClause =>
      opt expression ++ whenClauses ++ opt elseClause
  | WhenClause c r => [c; r]
  | FromClause tables joins => tables ++ joins
  | WhereClause c => [c]
  | JoinClause _ table condition => table :: opt condition
  | GroupByClause columns => columns
  | HavingClause c => [c]
  | OrderByClause columns => columns
  | OrderByColumn column _ => [column]
  | LimitClause count offset => count :: opt offset
  | Assignment _ v => [v]
  | ValuesList values => values
  | BetweenRange s e => [s; e]
  | Interval v _ => [v]
  | SubQuery query _ => [query]
  | Identifier _ _ | TableReference _ _ _ | ColumnReference _ _ _
  | Wildcard | Literal _ _ | Aliased _ _ => []
  end%list.

(** every node that the traversal of the facade visits from [n] is well
    formed *)
Definition Good (n : node) : Prop :=
  Forall (fun m => wellFormed m = true) (Facade.descendants n).

Definition GoodOpt (o : option node) : Prop :=
  match o with Some n => Good n | None => True end.

End Shape.

(* ===================================================================== *)
(** * The vocabulary of the properties *)
(* ===================================================================== *)

(** ** What the readers of the lexer guarantee *)

Module LexerProps.
Import Lexer.

Definition isLexKind (c : ErrorCode) : Prop :=
  c = Code "LEXICAL_ERROR" \/ c = Code "UNTERMINATED_STRING".

Definition notEOF (t : Token) : Prop := type t <> TT.EOF.

(** how much of the input a scan leaves *)
Definition remaining (st : LexState) : nat := length (fst st).

(** what a reader that returns a token, or raises, guarantees on an input
    of [n] characters: the token is not the end marker, the error is
    lexical, and less than [n] characters are left *)
Definition readerOk (n : nat) (r : SQLError + (Token * LexState)) : Prop :=
  match r with
  | inl e => isLexKind (code e)
  | inr (t, st) => notEOF t /\ remaining st < n
  end.

Definition commentOk (n : nat) (r : option Token * LexState) : Prop :=
  match fst r with Some t => notEOF t | None => True end /\ remaining (snd r) < n.

(** the three outcomes of the claim *)
Definition tokenizeOk (o : Outcome (list Token)) : Prop :=
  match o with
  | Return toks =>
      exists front eof,
        toks = (front ++ [eof])%list /\ type eof = TT.EOF /\ Forall notEOF front
  | Throw e => exists err, e = ESQL err /\ isLexKind (code err)
  | NoFuel => False
  end.

End LexerProps.

(** ** Outcomes ordered by the budget of nested calls *)

Module Budget.
Import Parser.
Local Open Scope parser_scope.

(** [o2] is [o1] run with a larger budget: the same, unless [o1] ran out *)
Definition leO {A : Type} (o1 o2 : Outcome A) : Prop := o1 = NoFuel \/ o1 = o2.

Definition leM {A : Type} (m1 m2 : M A) : Prop := forall pos, leO (m1 pos) (m2 pos).

(** field by field: the methods of [t2] are those of [t1] with a larger budget *)
Record leThis (t1 t2 : This) : Prop := mkLeThis {
  le_parseStatement : leM (this_parseStatement t1) (this_parseStatement t2);
  le_parseUnionStatement : leM (this_parseUnionStatement t1) (this_parseUnionStatement t2);
  le_parseUnionStatementWithoutOrderLimit : leM (this_parseUnionStatementWithoutOrderLimit t1) (this_parseUnionStatementWithoutOrderLimit t2);
  le_parseSelectStatementWithoutOrderLimit : leM (this_parseSelectStatementWithoutOrderLimit t1) (this_parseSelectStatementWithoutOrderLimit t2);
  le_parseWithStatement : leM (this_parseWithStatement t1) (this_parseWithStatement t2);
  le_withLoop : forall a, leM (this_withLoop t1 a) (this_withLoop t2 a);
  le_identifierLoop : forall a, leM (this_identifierLoop t1 a) (this_identifierLoop t2 a);
  le_parseSelectStatement : leM (this_parseSelectStatement t1) (this_parseSelectStatement t2);
  le_parseSelectColumns : leM (this_parseSelectColumns t1) (this_parseSelectColumns t2);
  le_selectColumnsLoop : forall a, leM (this_selectColumnsLoop t1 a) (this_selectColumnsLoop t2 a);
  le_parseFromClause : leM (this_parseFromClause t1) (this_parseFromClause t2);
  le_fromLoop : forall a b, leM (this_fromLoop t1 a b) (this_fromLoop t2 a b);
  le_joinLoop : forall a, leM (this_joinLoop t1 a) (this_joinLoop t2 a);
  le_parseTableReference : leM (this_parseTableReference t1) (this_parseTableReference t2);
  le_parseJoinClause : leM (this_parseJoinClause t1) (this_parseJoinClause t2);
  le_parseWhereClause : leM (this_parseWhereClause t1) (this_parseWhereClause t2);
  le_parseGroupByClause : leM (this_parseGroupByClause t1) (this_parseGroupByClause t2);
  le_expressionLoop : forall a, leM (this_expressionLoop t1 a) (this_expressionLoop t2 a);
  le_parseHavingClause : leM (this_parseHavingClause t1) (this_parseHavingClause t2);
  le_parseOrderByClause : leM (this_parseOrderByClause t1) (this_parseOrderByClause t2);
  le_orderByLoop : forall a, leM (this_orderByLoop t1 a) (this_orderByLoop t2 a);
  le_parseLimitClause : leM (this_parseLimitClause t1) (this_parseLimitClause t2);
  le_parseInsertStatement : leM (this_parseInsertStatement t1) (this_parseInsertStatement t2);
  le_valuesLoop : forall a, leM (this_valuesLoop t1 a) (this_valuesLoop t2 a);
  le_parseUpdateStatement : leM (this_parseUpdateStatement t1) (this_parseUpdateStatement t2);
  le_assignmentLoop : forall a, leM (this_assignmentLoop t1 a) (this_assignmentLoop t2 a);
  le_parseDeleteStatement : leM (this_parseDeleteStatement t1) (this_parseDeleteStatement t2);
  le_parseExpression : leM (this_parseExpression t1) (this_parseExpression t2);
  le_parseOrExpression : leM (this_parseOrExpression t1) (this_parseOrExpression t2);
  le_orLoop : forall a, leM (this_orLoop t1 a) (this_orLoop t2 a);
  le_parseAndExpression : leM (this_parseAndExpression t1) (this_parseAndExpression t2);
  le_andLoop : forall a, leM (this_andLoop t1 a) (this_andLoop t2 a);
  le_parseEqualityExpression : leM (this_parseEqualityExpression t1) (this_parseEqualityExpression t2);
  le_equalityLoop : forall a, leM (this_equalityLoop t1 a) (this_equalityLoop t2 a);
  le_parseRelationalExpression : leM (this_parseRelationalExpression t1) (this_parseRelationalExpression t2);
  le_relationalLoop : forall a, leM (this_relationalLoop t1 a) (this_relationalLoop t2 a);
  le_inValuesLoop : forall a, leM (this_inValuesLoop t1 a) (this_inValuesLoop t2 a);
  le_parseAdditiveExpression : leM (this_parseAdditiveExpression t1) (this_parseAdditiveExpression t2);
  le_additiveLoop : forall a, leM (this_additiveLoop t1 a) (this_additiveLoop t2 a);
  le_parseMultiplicativeExpression : leM (this_parseMultiplicativeExpression t1) (this_parseMultiplicativeExpression t2);
  le_multiplicativeLoop : forall a, leM (this_multiplicativeLoop t1 a) (this_multiplicativeLoop t2 a);
  le_parseUnaryExpression : leM (this_parseUnaryExpression t1) (this_parseUnaryExpression t2);
  le_parsePrimaryExpression : leM (this_parsePrimaryExpression t1) (this_parsePrimaryExpression t2);
  le_argumentLoop : forall a, leM (this_argumentLoop t1 a) (this_argumentLoop t2 a);
  le_parseCaseExpression : leM (this_parseCaseExpression t1) (this_parseCaseExpression t2);
  le_whenLoop : forall a, leM (this_whenLoop t1 a) (this_whenLoop t2 a);
  le_parseOverClause : leM (this_parseOverClause t1) (this_parseOverClause t2);
  le_parseWindowFrame : leM (this_parseWindowFrame t1) (this_parseWindowFrame t2);
  le_parseFrameBound : leM (this_parseFrameBound t1) (this_parseFrameBound t2)
}.

End Budget.

(** ** The shape of what each method returns *)

Module Invariant.
Import Parser Shape.
Local Open Scope parser_scope.

(** what each method of an object returns, when it returns *)
Record Sound (t : This) : Prop := mkSound {
  ok_parseStatement : forall pos n p, this_parseStatement t pos = Return (n, p) ->
      Good n;
  ok_parseUnionStatement : forall pos n p, this_parseUnionStatement t pos = Return (n, p) ->
      Good n;
  ok_parseUnionStatementWithoutOrderLimit : forall pos n p, this_parseUnionStatementWithoutOrderLimit t pos = Return (n, p) ->
      Good n /\ plainSelect n || bareUnion n = true;
  ok_parseSelectStatementWithoutOrderLimit : forall pos n p, this_parseSelectStatementWithoutOrderLimit t pos = Return (n, p) ->
      Good n /\ plainSelect n = true;
  ok_parseWithStatement : forall pos n p, this_parseWithStatement t pos = Return (n, p) ->
      Good n;
  ok_withLoop : forall acc pos r p, this_withLoop t acc pos = Return (r, p) ->
      Forall Good acc -> Forall Good r;
  ok_parseSelectStatement : forall pos n p, this_parseSelectStatement t pos = Return (n, p) ->
      Good n /\ plainSelect n = true;
  ok_parseSelectColumns : forall pos r p, this_parseSelectColumns t pos = Return (r, p) ->
      Forall Good r;
  ok_selectColumnsLoop : forall acc pos r p, this_selectColumnsLoop t acc pos = Return (r, p) ->
      Forall Good acc -> Forall Good r;
  ok_parseFromClause : forall pos n p, this_parseFromClause t pos = Return (n, p) ->
      Good n;
  ok_fromLoop : forall a b pos r p, this_fromLoop t a b pos = Return (r, p) ->
      Forall Good a -> Forall Good b -> Forall Good (fst r) /\ Forall Good (snd r);
  ok_joinLoop : forall acc pos r p, this_joinLoop t acc pos = Return (r, p) ->
      Forall Good acc -> Forall Good r;
  ok_parseTableReference : forall pos n p, this_parseTableReference t pos = Return (n, p) ->
      Good n;
  ok_parseJoinClause : forall pos n p, this_parseJoinClause t pos = Return (n, p) ->
      Good n;
  ok_parseWhereClause : forall pos n p, this_parseWhereClause t pos = Return (n, p) ->
      Good n /\ isExpression n = true;
  ok_parseGroupByClause : forall pos n p, this_parseGroupByClause t pos = Return (n, p) ->
      Good n;
  ok_expressionLoop : forall acc pos r p, this_expressionLoop t acc pos = Return (r, p) ->
      Forall Good acc -> Forall Good r;
  ok_parseHavingClause : forall pos n p, this_parseHavingClause t pos = Return (n, p) ->
      Good n;
  ok_parseOrderByClause : forall pos n p, this_parseOrderByClause t pos = Return (n, p) ->
      Good n;
  ok_orderByLoop : forall acc pos r p, this_orderByLoop t acc pos = Return (r, p) ->
      Forall Good acc -> Forall Good r;
  ok_parseLimitClause : forall pos n p, this_parseLimitClause t pos = Return (n, p) ->
      Good n;
  ok_parseInsertStatement : forall pos n p, this_parseInsertStatement t pos = Return (n, p) ->
      Good n;
  ok_valuesLoop : forall acc pos r p, this_valuesLoop t acc pos = Return (r, p) ->
      Forall Good acc -> Forall Good r;
  ok_parseUpdateStatement : forall pos n p, this_parseUpdateStatement t pos = Return (n, p) ->
      Good n;
  ok_assignmentLoop : forall acc pos r p, this_assignmentLoop t acc pos = Return (r, p) ->
      Forall Good acc -> Forall Good r;
  ok_parseDeleteStatement : forall pos n p, this_parseDeleteStatement t pos = Return (n, p) ->
      Good n;
  ok_parseExpression : forall pos n p, this_parseExpression t pos = Return (n, p) ->
      Good n /\ isExpression n = true;
  ok_parseOrExpression : forall pos n p, this_parseOrExpression t pos = Return (n, p) ->
      Good n /\ isExpression n = true;
  ok_orLoop : forall l pos n p, this_orLoop t l pos = Return (n, p) ->
      Good l -> isExpression l = true -> Good n /\ isExpression n = true;
  ok_parseAndExpression : forall pos n p, this_parseAndExpression t pos = Return (n, p) ->
      Good n /\ isExpression n = true;
  ok_andLoop : forall l pos n p, this_andLoop t l pos = Return (n, p) ->
      Good l -> isExpression l = true -> Good n /\ isExpression n = true;
  ok_parseEqualityExpression : forall pos n p, this_parseEqualityExpression t pos = Return (n, p) ->
      Good n /\ isExpression n = true;
  ok_equalityLoop : forall l pos n p, this_equalityLoop t l pos = Return (n, p) ->
      Good l -> isExpression l = true -> Good n /\ isExpression n = true;
  ok_parseRelationalExpression : forall pos n p, this_parseRelationalExpression t pos = Return (n, p) ->
      Good n /\ isExpression n = true;
  ok_relationalLoop : forall l pos n p, this_relationalLoop t l pos = Return (n, p) ->
      Good l -> isExpression l = true -> Good n /\ isExpression n = true;
  ok_inValuesLoop : forall acc pos r p, this_inValuesLoop t acc pos = Return (r, p) ->
      Forall Good acc -> Forall Good r;
  ok_parseAdditiveExpression : forall pos n p, this_parseAdditiveExpression t pos = Return (n, p) ->
      Good n /\ isExpression n = true;
  ok_additiveLoop : forall l pos n p, this_additiveLoop t l pos = Return (n, p) ->
      Good l -> isExpression l = true -> Good n /\ isExpression n = true;
  ok_parseMultiplicativeExpression : forall pos n p, this_parseMultiplicativeExpression t pos = Return (n, p) ->
      Good n /\ isExpression n = true;
  ok_multiplicativeLoop : forall l pos n p, this_multiplicativeLoop t l pos = Return (n, p) ->
      Good l -> isExpression l = true -> Good n /\ isExpression n = true;
  ok_parseUnaryExpression : forall pos n p, this_parseUnaryExpression t pos = Return (n, p) ->
      Good n /\ isExpression n = true;
  ok_parsePrimaryExpression : forall pos n p, this_parsePrimaryExpression t pos = Return (n, p) ->
      Good n /\ isExpression n = true;
  ok_argumentLoop : forall acc pos r p, this_argumentLoop t acc pos = Return (r, p) ->
      Forall Good acc -> Forall Good r;
  ok_parseCaseExpression : forall pos n p, this_parseCaseExpression t pos = Return (n, p) ->
      Good n /\ isExpression n = true;
  ok_whenLoop : forall acc pos r p, this_whenLoop t acc pos = Return (r, p) ->
      Forall Good acc -> Forall Good r;
  ok_parseOverClause : forall pos n p, this_parseOverClause t pos = Return (n, p) ->
      Good n;
  ok_parseWindowFrame : forall pos n p, this_parseWindowFrame t pos = Return (n, p) ->
      Good n;
  ok_parseFrameBound : forall pos n p, this_parseFrameBound t pos = Return (n, p) ->
      Good n
}.

End Invariant.

(** ** Termination: every call returns or raises *)

Module Progress.
Import Parser.
Local Open Scope parser_scope.

(** [m], started at [pos], raises an error of its own or returns a result
    and a position that satisfy [Q]: the bound on the nested calls is not
    exceeded, and what is raised is not the error of the stack *)
Definition total {A : Type} (m : M A) (pos : nat) (Q : A -> nat -> Prop) : Prop :=
  match m pos with
  | Return (a, p) => Q a p
  | Throw e => e <> stackOverflow
  | NoFuel => False
  end.

(** the budget that a method of rank [rank] needs at [pos]: 12 nested
    calls for each token that is left, and [rank] more *)
Definition within (size pos rank fuel : nat) : Prop :=
  12 * (size - pos) + rank < fuel.

(** the position does not go back, nor beyond the end *)
Definition moves {A : Type} (size pos : nat) : A -> nat -> Prop :=
  fun _ p => pos <= p <= size.

(** at least one token is read *)
Definition consumes {A : Type} (size pos : nat) : A -> nat -> Prop :=
  fun _ p => pos < p <= size.

(** with a budget of [fuel] nested calls, each method called where the
    budget is within its need returns or raises *)
Record Live (size : nat) (t : This) (fuel : nat) : Prop := mkLive {
  live_parseStatement : forall pos, pos <= size -> within size pos 2 fuel ->
      total (this_parseStatement t) pos (moves size pos);
  live_parseUnionStatement : forall pos, pos <= size -> within size pos 1 fuel ->
      total (this_parseUnionStatement t) pos (moves size pos);
  live_parseUnionStatementWithoutOrderLimit : forall pos, pos <= size -> within size pos 1 fuel ->
      total (this_parseUnionStatementWithoutOrderLimit t) pos (moves size pos);
  live_parseSelectStatementWithoutOrderLimit : forall pos, pos <= size -> within size pos 0 fuel ->
      total (this_parseSelectStatementWithoutOrderLimit t) pos (moves size pos);
  live_parseWithStatement : forall pos, pos <= size -> within size pos 0 fuel ->
      total (this_parseWithStatement t) pos (moves size pos);
  live_withLoop : forall a0 pos, pos <= size -> within size pos 0 fuel ->
      total (this_withLoop t a0) pos (moves size pos);
  live_identifierLoop : forall a0 pos, pos <= size -> within size pos 0 fuel ->
      total (this_identifierLoop t a0) pos (moves size pos);
  live_parseSelectStatement : forall pos, pos <= size -> within size pos 0 fuel ->
      total (this_parseSelectStatement t) pos (moves size pos);
  live_parseSelectColumns : forall pos, pos <= size -> within size pos 11 fuel ->
      total (this_parseSelectColumns t) pos (moves size pos);
  live_selectColumnsLoop : forall a0 pos, pos <= size -> within size pos 10 fuel ->
      total (this_selectColumnsLoop t a0) pos (moves size pos);
  live_parseFromClause : forall pos, pos <= size -> within size pos 0 fuel ->
      total (this_parseFromClause t) pos (moves size pos);
  live_fromLoop : forall a0 a1 pos, pos <= size -> within size pos 2 fuel ->
      total (this_fromLoop t a0 a1) pos (moves size pos);
  live_joinLoop : forall a0 pos, pos <= size -> within size pos 1 fuel ->
      total (this_joinLoop t a0) pos (moves size pos);
  live_parseTableReference : forall pos, pos <= size -> within size pos 0 fuel ->
      total (this_parseTableReference t) pos (moves size pos);
  live_parseJoinClause : forall pos, pos <= size -> within size pos 0 fuel ->
      total (this_parseJoinClause t) pos (consumes size pos);
  live_parseWhereClause : forall pos, pos <= size -> within size pos 0 fuel ->
      total (this_parseWhereClause t) pos (moves size pos);
  live_parseGroupByClause : forall pos, pos <= size -> within size pos 0 fuel ->
      total (this_parseGroupByClause t) pos (moves size pos);
  live_expressionLoop : forall a0 pos, pos <= size -> within size pos 10 fuel ->
      total (this_expressionLoop t a0) pos (moves size pos);
  live_parseHavingClause : forall pos, pos <= size -> within size pos 0 fuel ->
      total (this_parseHavingClause t) pos (moves size pos);
  live_parseOrderByClause : forall pos, pos <= size -> within size pos 0 fuel ->
      total (this_parseOrderByClause t) pos (moves size pos);
  live_orderByLoop : forall a0 pos, pos <= size -> within size pos 10 fuel ->
      total (this_orderByLoop t a0) pos (moves size pos);
  live_parseLimitClause : forall pos, pos <= size -> within size pos 0 fuel ->
      total (this_parseLimitClause t) pos (moves size pos);
  live_parseInsertStatement : forall pos, pos <= size -> within size pos 0 fuel ->
      total (this_parseInsertStatement t) pos (moves size pos);
  live_valuesLoop : forall a0 pos, pos <= size -> within size pos 0 fuel ->
      total (this_valuesLoop t a0) pos (moves size pos);
  live_parseUpdateStatement : forall pos, pos <= size -> within size pos 0 fuel ->
      total (this_parseUpdateStatement t) pos (moves size pos);
  live_assignmentLoop : forall a0 pos, pos <= size -> within size pos 0 fuel ->
      total (this_assignmentLoop t a0) pos (moves size pos);
  live_parseDeleteStatement : forall pos, pos <= size -> within size pos 0 fuel ->
      total (this_parseDeleteStatement t) pos (moves size pos);
  live_parseExpression : forall pos, pos <= size -> within size pos 9 fuel ->
      total (this_parseExpression t) pos (moves size pos);
  live_parseOrExpression : forall pos, pos <= size -> within size pos 8 fuel ->
      total (this_parseOrExpression t) pos (moves size pos);
  live_orLoop : forall a0 pos, pos <= size -> within size pos 0 fuel ->
      total (this_orLoop t a0) pos (moves size pos);
  live_parseAndExpression : forall pos, pos <= size -> within size pos 7 fuel ->
      total (this_parseAndExpression t) pos (moves size pos);
  live_andLoop : forall a0 pos, pos <= size -> within size pos 0 fuel ->
      total (this_andLoop t a0) pos (moves size pos);
  live_parseEqualityExpression : forall pos, pos <= size -> within size pos 6 fuel ->
      total (this_parseEqualityExpression t) pos (moves size pos);
  live_equalityLoop : forall a0 pos, pos <= size -> within size pos 0 fuel ->
      total (this_equalityLoop t a0) pos (moves size pos);
  live_parseRelationalExpression : forall pos, pos <= size -> within size pos 5 fuel ->
      total (this_parseRelationalExpression t) pos (moves size pos);
  live_relationalLoop : forall a0 pos, pos <= size -> within size pos 0 fuel ->
      total (this_relationalLoop t a0) pos (moves size pos);
  live_inValuesLoop : forall a0 pos, pos <= size -> within size pos 0 fuel ->
      total (this_inValuesLoop t a0) pos (moves size pos);
  live_parseAdditiveExpression : forall pos, pos <= size -> within size pos 4 fuel ->
      total (this_parseAdditiveExpression t) pos (moves size pos);
  live_additiveLoop : forall a0 pos, pos <= size -> within size pos 0 fuel ->
      total (this_additiveLoop t a0) pos (moves size pos);
  live_parseMultiplicativeExpression : forall pos, pos <= size -> within size pos 3 fuel ->
      total (this_parseMultiplicativeExpression t) pos (moves size pos);
  live_multiplicativeLoop : forall a0 pos, pos <= size -> within size pos 0 fuel ->
      total (this_multiplicativeLoop t a0) pos (moves size pos);
  live_parseUnaryExpression : forall pos, pos <= size -> within size pos 2 fuel ->
      total (this_parseUnaryExpression t) pos (moves size pos);
  live_parsePrimaryExpression : forall pos, pos <= size -> within size pos 1 fuel ->
      total (this_parsePrimaryExpression t) pos (moves size pos);
  live_argumentLoop : forall a0 pos, pos <= size -> within size pos 10 fuel ->
      total (this_argumentLoop t a0) pos (moves size pos);
  live_parseCaseExpression : forall pos, pos <= size -> within size pos 0 fuel ->
      total (this_parseCaseExpression t) pos (moves size pos);
  live_whenLoop : forall a0 pos, pos <= size -> within size pos 0 fuel ->
      total (this_whenLoop t a0) pos (moves size pos);
  live_parseOverClause : forall pos, pos <= size -> within size pos 0 fuel ->
      total (this_parseOverClause t) pos (moves size pos);
  live_parseWindowFrame : forall pos, pos <= size -> within size pos 0 fuel ->
      total (this_parseWindowFrame t) pos (moves size pos);
  live_parseFrameBound : forall pos, pos <= size -> within size pos 10 fuel ->
      total (this_parseFrameBound t) pos (moves size pos)
}.

(** a budget of nested calls that is enough for [tokens] *)
Definition enough (tokens : list Token) : nat :=
  12 * length (significant tokens) + 3.

(** the answers of the facade when the stack of the parser ran out: the
    [catch] of [parseSQL] makes a failed result of the error, and
    [analyzeSQL] a failure of that result *)
Definition exhausted : Facade.ParseResult := Facade.catchParse stackOverflow.

Definition exhaustedAnalysis (s : string) : Facade.AnalyzeResult :=
  Facade.AnalyzeFailure (Facade.exnMessage stackOverflow)
                        (Facade.mkQueryInfo "unknown" (JsString.trim s)).

(** a budget that is enough for [parseSQL] on the text [s] *)
Definition budget (s : string) (o : Facade.Options) : nat :=
  match Lexer.tokenize s (Lexer.mkOptions (Facade.includeWhitespace o)
                                          (Facade.includeComments o)) with
  | Return toks => enough toks
  | _ => 0
  end.

End Progress.

(** ** Where the tokens lie in the input *)

Module Layout.
Import Lexer.

(** the cursor after the characters [cs] were read from [k] *)
Definition run (cs : list ascii) (k : Cursor) : Cursor :=
  fold_left (fun k c => advance c k) cs k.

(** the state [st'] is the state [st] after some characters were read *)
Definition reaches (st st' : LexState) : Prop :=
  exists mid, fst st = (mid ++ fst st')%list /\ snd st' = run mid (snd st).

(** the longest prefix of [cs] whose characters satisfy [p] *)
Fixpoint takeWhile (p : ascii -> bool) (cs : list ascii) : list ascii :=
  match cs with
  | c :: cs' => if p c then c :: takeWhile p cs' else []
  | [] => []
  end.

(** the line of the character that follows the text [pre]: one more than
    the number of line feeds in [pre] *)
Definition lineAfter (pre : list ascii) : nat :=
  S (length (filter JsString.isNewline pre)).

(** its column: one more than the number of characters of [pre] after its
    last line feed *)
Definition columnAfter (pre : list ascii) : nat :=
  S (length (takeWhile (fun c => negb (JsString.isNewline c)) (rev pre))).

(** the cursor [k] stands in [input] where [cs] is what is left to read *)
Definition at_ (input : list ascii) (st : LexState) : Prop :=
  exists pre,
    input = (pre ++ fst st)%list
    /\ position (snd st) = length pre
    /\ cline (snd st) = lineAfter pre
    /\ ccolumn (snd st) = columnAfter pre.

(** the token [t] was read between the cursors [k0] and [k1] *)
Definition spans (t : Token) (k0 k1 : Cursor) : Prop :=
  start t = position k0 /\ end_ t = position k1
  /\ line t = cline k0 /\ column t = ccolumn k0.

(** the tokens follow one another from the offset [from] on, without
    overlap *)
Fixpoint ordered (from : nat) (toks : list Token) : Prop :=
  match toks with
  | [] => True
  | t :: toks' => from <= start t /\ start t <= end_ t /\ ordered (end_ t) toks'
  end.

(** the tokens follow one another from the offset [from] on, without a
    gap *)
Fixpoint tiled (from : nat) (toks : list Token) : Prop :=
  match toks with
  | [] => True
  | t :: toks' => start t = from /\ start t <= end_ t /\ tiled (end_ t) toks'
  end.

(** the offset where the last token of [toks] ends, [from] when there is
    none *)
Fixpoint lastEnd (from : nat) (toks : list Token) : nat :=
  match toks with
  | [] => from
  | t :: toks' => lastEnd (end_ t) toks'
  end.

(** the three characters that open a quoted text *)
Definition isQuote (c : ascii) : bool :=
  Ascii.eqb c "'"%char || Ascii.eqb c JsString.dquote || Ascii.eqb c "`"%char.

Definition quotedText (mid : list ascii) : Prop :=
  match mid with
  | c :: _ => isQuote c = true
  | [] => False
  end.

(** the value of the token [t] read from the text [mid] is this text,
    unless [t] is a comment or [mid] opens with a quote *)
Definition sameText (t : Token) (mid : list ascii) : Prop :=
  type t = TT.COMMENT \/ quotedText mid \/ value t = JsString.ofList mid.

(** [input.slice(a, b)] for [a <= b] *)
Definition slice (input : list ascii) (a b : nat) : list ascii :=
  firstn (b - a) (skipn a input).

(** what holds of a token of the input [input]: it lies inside the input,
    it is not empty unless it is the end marker, which stands at the end,
    its line and column are those of its first character, and its value is
    the text it spans, unless it is a comment or a quoted text *)
Definition placed (input : list ascii) (t : Token) : Prop :=
  start t <= end_ t /\ end_ t <= length input
  /\ (type t = TT.EOF -> start t = length input)
  /\ (type t <> TT.EOF -> start t < end_ t)
  /\ line t = lineAfter (firstn (start t) input)
  /\ column t = columnAfter (firstn (start t) input)
  /\ sameText t (slice input (start t) (end_ t)).

(** the value [v] is the text read from [cs], which leaves [cs'] *)
Definition textOf (cs : list ascii) (v : string) (cs' : list ascii) : Prop :=
  exists mid, cs = (mid ++ cs')%list /\ v = JsString.ofList mid.

(** a scan of [readNumber]: the state it reached and the value it built *)
Definition scanned (cs : list ascii) (k : Cursor) (r : string * LexState) : Prop :=
  reaches (cs, k) (snd r) /\ textOf cs (fst r) (fst (snd r)).

(** the token [t] was read from a text that is the front of [cs] and
    leaves [cs'] *)
Definition readFrom (t : Token) (cs cs' : list ascii) : Prop :=
  exists mid, cs = (mid ++ cs')%list /\ sameText t mid.

(** what a reader returns lies between the cursor it started from and the
    one it leaves; what it raises carries the line and the column it
    started from *)
Definition traced (cs : list ascii) (k : Cursor)
           (r : SQLError + (Token * LexState)) : Prop :=
  match r with
  | inl e => err_line e = cline k /\ err_column e = ccolumn k
  | inr (t, st) =>
      reaches (cs, k) st /\ spans t k (snd st) /\ readFrom t cs (fst st)
  end.

Definition tracedOpt (cs : list ascii) (k : Cursor)
           (r : option Token * LexState) : Prop :=
  reaches (cs, k) (snd r)
  /\ match fst r with
     | Some t => spans t k (snd (snd r)) /\ type t = TT.COMMENT
     | None => True
     end.

(** the state of the main loop: the cursor stands in the input, the tokens
    read so far are in their places and end before the cursor, at the
    cursor when nothing is dropped *)
Definition loopOk (input : list ascii) (full : bool) (st : LexState)
           (acc : list Token) : Prop :=
  at_ input st /\ Forall (placed input) acc /\ ordered 0 acc
  /\ lastEnd 0 acc <= position (snd st)
  /\ (full = true -> tiled 0 acc /\ lastEnd 0 acc = position (snd st)).

(** what holds of an error raised on the input [input]: its line and
    column are those of a character of the input, or of its end *)
Definition raisedIn (input : list ascii) (e : SQLError) : Prop :=
  exists p,
    p <= length input
    /\ err_line e = lineAfter (firstn p input)
    /\ err_column e = columnAfter (firstn p input).

(** the outcome of the lexer on [input]; [full] says that white space and
    comments are kept *)
Definition laidOut (input : list ascii) (full : bool) (o : Outcome (list Token))
  : Prop :=
  match o with
  | Return toks =>
      Forall (placed input) toks /\ ordered 0 toks /\ (full = true -> tiled 0 toks)
  | Throw e => exists err, e = ESQL err /\ raisedIn input err
  | NoFuel => True
  end.

End Layout.

(** ** What the options of the lexer change *)

Module LexerOptions.

(** two outcomes of the lexer that hand the same tokens to the parser, or
    raise the same error *)
Definition agree (o1 o2 : Outcome (list Token)) : Prop :=
  match o1, o2 with
  | Return t1, Return t2 => Parser.significant t1 = Parser.significant t2
  | Throw e1, Throw e2 => e1 = e2
  | NoFuel, NoFuel => True
  | _, _ => False
  end.

(** a token that the parser drops *)
Definition insignificant (t : Token) : Prop :=
  isOneOf t [TT.WHITESPACE; TT.NEWLINE; TT.COMMENT] = true.

End LexerOptions.

(** ** The errors that the parser raises *)

Module Errors.
Import Parser.
Local Open Scope parser_scope.

(** [m], started at [pos], returns a result and a position that satisfy
    [Q], or raises an exception that satisfies [E] (or exhausts the budget) *)
Definition sure {A : Type} (m : M A) (pos : nat) (Q : A -> nat -> Prop)
           (E : Exn -> Prop) : Prop :=
  match m pos with
  | Return (a, p) => Q a p
  | Throw e => E e
  | NoFuel => True
  end.

(** the codes of the errors of the parser: three names, and the number
    that the two calls [new SQLError(msg, line, column)] leave as the code *)
Definition parserCode (c : ErrorCode) : Prop :=
  c = Code "EMPTY_INPUT" \/ c = Code "UNEXPECTED_END" \/ c = Code "UNEXPECTED_TOKEN"
  \/ exists n, c = CodeNumber n.

Definition parserError (e : Exn) : Prop :=
  exists err, e = ESQL err /\ parserCode (code err).

(** the token list ends with its end marker: a token that is not the end
    marker has a token after it *)
Definition closed (tokens : list Token) : Prop :=
  forall pos t,
    nth_error tokens pos = Some t -> type t <> TT.EOF -> S pos < length tokens.

Definition before {A : Type} (size : nat) : A -> nat -> Prop := fun _ p => p < size.
Definition upTo {A : Type} (size : nat) : A -> nat -> Prop := fun _ p => p <= size.

(** each method, called on a token of a closed list, stops on a token of
    the list when it returns, and raises nothing but the errors of the
    parser *)
Record Safe (size : nat) (t : This) : Prop := mkSafe {
  safe_parseStatement : forall pos, pos <= size ->
      sure (this_parseStatement t) pos (before size) parserError;
  safe_parseUnionStatement : forall pos, pos <= size ->
      sure (this_parseUnionStatement t) pos (before size) parserError;
  safe_parseUnionStatementWithoutOrderLimit : forall pos, pos <= size ->
      sure (this_parseUnionStatementWithoutOrderLimit t) pos (before size) parserError;
  safe_parseSelectStatementWithoutOrderLimit : forall pos, pos <= size ->
      sure (this_parseSelectStatementWithoutOrderLimit t) pos (before size) parserError;
  safe_parseWithStatement : forall pos, pos <= size ->
      sure (this_parseWithStatement t) pos (before size) parserError;
  safe_withLoop : forall a0 pos, pos <= size ->
      sure (this_withLoop t a0) pos (before size) parserError;
  safe_identifierLoop : forall a0 pos, pos <= size ->
      sure (this_identifierLoop t a0) pos (before size) parserError;
  safe_parseSelectStatement : forall pos, pos <= size ->
      sure (this_parseSelectStatement t) pos (before size) parserError;
  safe_parseSelectColumns : forall pos, pos <= size ->
      sure (this_parseSelectColumns t) pos (before size) parserError;
  safe_selectColumnsLoop : forall a0 pos, pos <= size ->
      sure (this_selectColumnsLoop t a0) pos (before size) parserError;
  safe_parseFromClause : forall pos, pos <= size ->
      sure (this_parseFromClause t) pos (before size) parserError;
  safe_fromLoop : forall a0 a1 pos, pos <= size ->
      sure (this_fromLoop t a0 a1) pos (before size) parserError;
  safe_joinLoop : forall a0 pos, pos < size ->
      sure (this_joinLoop t a0) pos (before size) parserError;
  safe_parseTableReference : forall pos, pos <= size ->
      sure (this_parseTableReference t) pos (before size) parserError;
  safe_parseJoinClause : forall pos, pos <= size ->
      sure (this_parseJoinClause t) pos (before size) parserError;
  safe_parseWhereClause : forall pos, pos <= size ->
      sure (this_parseWhereClause t) pos (before size) parserError;
  safe_parseGroupByClause : forall pos, pos <= size ->
      sure (this_parseGroupByClause t) pos (before size) parserError;
  safe_expressionLoop : forall a0 pos, pos <= size ->
      sure (this_expressionLoop t a0) pos (before size) parserError;
  safe_parseHavingClause : forall pos, pos <= size ->
      sure (this_parseHavingClause t) pos (before size) parserError;
  safe_parseOrderByClause : forall pos, pos <= size ->
      sure (this_parseOrderByClause t) pos (before size) parserError;
  safe_orderByLoop : forall a0 pos, pos <= size ->
      sure (this_orderByLoop t a0) pos (before size) parserError;
  safe_parseLimitClause : forall pos, pos <= size ->
      sure (this_parseLimitClause t) pos (before size) parserError;
  safe_parseInsertStatement : forall pos, pos <= size ->
      sure (this_parseInsertStatement t) pos (before size) parserError;
  safe_valuesLoop : forall a0 pos, pos <= size ->
      sure (this_valuesLoop t a0) pos (before size) parserError;
  safe_parseUpdateStatement : forall pos, pos <= size ->
      sure (this_parseUpdateStatement t) pos (before size) parserError;
  safe_assignmentLoop : forall a0 pos, pos <= size ->
      sure (this_assignmentLoop t a0) pos (before size) parserError;
  safe_parseDeleteStatement : forall pos, pos <= size ->
      sure (this_parseDeleteStatement t) pos (before size) parserError;
  safe_parseExpression : forall pos, pos <= size ->
      sure (this_parseExpression t) pos (before size) parserError;
  safe_parseOrExpression : forall pos, pos <= size ->
      sure (this_parseOrExpression t) pos (before size) parserError;
  safe_orLoop : forall a0 pos, pos < size ->
      sure (this_orLoop t a0) pos (before size) parserError;
  safe_parseAndExpression : forall pos, pos <= size ->
      sure (this_parseAndExpression t) pos (before size) parserError;
  safe_andLoop : forall a0 pos, pos < size ->
      sure (this_andLoop t a0) pos (before size) parserError;
  safe_parseEqualityExpression : forall pos, pos <= size ->
      sure (this_parseEqualityExpression t) pos (before size) parserError;
  safe_equalityLoop : forall a0 pos, pos < size ->
      sure (this_equalityLoop t a0) pos (before size) parserError;
  safe_parseRelationalExpression : forall pos, pos <= size ->
      sure (this_parseRelationalExpression t) pos (before size) parserError;
  safe_relationalLoop : forall a0 pos, pos < size ->
      sure (this_relationalLoop t a0) pos (before size) parserError;
  safe_inValuesLoop : forall a0 pos, pos < size ->
      sure (this_inValuesLoop t a0) pos (before size) parserError;
  safe_parseAdditiveExpression : forall pos, pos <= size ->
      sure (this_parseAdditiveExpression t) pos (before size) parserError;
  safe_additiveLoop : forall a0 pos, pos < size ->
      sure (this_additiveLoop t a0) pos (before size) parserError;
  safe_parseMultiplicativeExpression : forall pos, pos <= size ->
      sure (this_parseMultiplicativeExpression t) pos (before size) parserError;
  safe_multiplicativeLoop : forall a0 pos, pos < size ->
      sure (this_multiplicativeLoop t a0) pos (before size) parserError;
  safe_parseUnaryExpression : forall pos, pos <= size ->
      sure (this_parseUnaryExpression t) pos (before size) parserError;
  safe_parsePrimaryExpression : forall pos, pos <= size ->
      sure (this_parsePrimaryExpression t) pos (before size) parserError;
  safe_argumentLoop : forall a0 pos, pos <= size ->
      sure (this_argumentLoop t a0) pos (before size) parserError;
  safe_parseCaseExpression : forall pos, pos <= size ->
      sure (this_parseCaseExpression t) pos (before size) parserError;
  safe_whenLoop : forall a0 pos, pos < size ->
      sure (this_whenLoop t a0) pos (before size) parserError;
  safe_parseOverClause : forall pos, pos <= size ->
      sure (this_parseOverClause t) pos (before size) parserError;
  safe_parseWindowFrame : forall pos, pos < size ->
      sure (this_parseWindowFrame t) pos (upTo size) parserError;
  safe_parseFrameBound : forall pos, pos <= size ->
      sure (this_parseFrameBound t) pos (upTo size) parserError
}.

End Errors.

(** ** The grammar of the trees that the parser builds *)

Module Schema.
Import Parser Shape Errors.
Local Open Scope parser_scope.

Definition opt (p : node -> bool) (o : option node) : bool :=
  match o with Some n => p n | None => true end.

Definition some (p : node -> bool) (o : option node) : bool :=
  match o with Some n => p n | None => false end.

Definition none {A : Type} (o : option A) : bool :=
  match o with Some _ => false | None => true end.

Definition optList (p : node -> bool) (o : option (list node)) : bool :=
  match o with Some l => forallb p l | None => true end.

Definition nonEmpty {A : Type} (l : list A) : bool :=
  match l with [] => false | _ :: _ => true end.

Definition isSelect (n : node) : bool :=
  match n with SelectStatement _ _ _ _ _ _ _ _ _ _ => true | _ => false end.
Definition isUnion (n : node) : bool :=
  match n with UnionStatement _ _ _ _ _ _ _ _ => true | _ => false end.
Definition isQuery (n : node) : bool := isSelect n || isUnion n.
Definition isStatement (n : node) : bool :=
  match n with
  | SelectStatement _ _ _ _ _ _ _ _ _ _ | UnionStatement _ _ _ _ _ _ _ _
  | InsertStatement _ _ _ | UpdateStatement _ _ _ | DeleteStatement _ _ => true
  | _ => false
  end.
Definition isWithClause (n : node) : bool :=
  match n with WithClause _ _ => true | _ => false end.
Definition isCTE (n : node) : bool :=
  match n with CTEExpression _ _ _ => true | _ => false end.
Definition isFunctionCall (n : node) : bool :=
  match n with FunctionCall _ _ _ _ => true | _ => false end.
Definition isOverClause (n : node) : bool :=
  match n with OverClause _ _ _ => true | _ => false end.
Definition isWindowFrame (n : node) : bool :=
  match n with WindowFrame _ _ _ => true | _ => false end.
Definition isFrameBound (n : node) : bool :=
  match n with FrameBound _ _ _ _ => true | _ => false end.
Definition isWhenClause (n : node) : bool :=
  match n with WhenClause _ _ => true | _ => false end.
Definition isTable (n : node) : bool :=
  match n with TableReference _ _ _ | SubQuery _ _ => true | _ => false end.
Definition isFromClause (n : node) : bool :=
  match n with FromClause _ _ => true | _ => false end.
Definition isJoinClause (n : node) : bool :=
  match n with JoinClause _ _ _ => true | _ => false end.
Definition isGroupBy (n : node) : bool :=
  match n with GroupByClause _ => true | _ => false end.
Definition isHaving (n : node) : bool :=
  match n with HavingClause _ => true | _ => false end.
Definition isOrderBy (n : node) : bool :=
  match n with OrderByClause _ => true | _ => false end.
Definition isOrderByColumn (n : node) : bool :=
  match n with OrderByColumn _ _ => true | _ => false end.
Definition isLimit (n : node) : bool :=
  match n with LimitClause _ _ => true | _ => false end.
Definition isAssignment (n : node) : bool :=
  match n with Assignment _ _ => true | _ => false end.
Definition isValuesList (n : node) : bool :=
  match n with ValuesList _ => true | _ => false end.
Definition isBetweenRange (n : node) : bool :=
  match n with BetweenRange _ _ => true | _ => false end.

(** an item of the select list: the wildcard, or an expression, with its
    alias when it has one *)
Definition isColumnItem (n : node) : bool :=
  match Analyzer.unalias n with
  | Wildcard => true
  | m => isExpression m
  end.

(** the right side of a binary expression: an expression, the list of IN
    or the range of BETWEEN *)
Definition isOperand (n : node) : bool :=
  isExpression n || isValuesList n || isBetweenRange n.

Definition joinTypes : list string :=
  ["INNER"; "LEFT"; "LEFT OUTER"; "RIGHT"; "RIGHT OUTER"; "FULL"; "FULL OUTER";
   "CROSS"].

(** what the properties of a node hold, class by class *)
Definition schema (n : node) : bool :=
  match n with
  | SelectStatement columns from where_ groupBy having orderBy limit offset _ with_ =>
      nonEmpty columns && forallb isColumnItem columns
      && opt isFromClause from && opt isExpression where_
      && opt isGroupBy groupBy && opt isHaving having
      && opt isOrderBy orderBy && opt isLimit limit && none offset
      && opt isWithClause with_
  | InsertStatement table _ values =>
      some isTable table && nonEmpty values && forallb isValuesList values
  | UpdateStatement table set where_ =>
      some isTable table && nonEmpty set && forallb isAssignment set
      && opt isExpression where_
  | DeleteStatement from where_ => some isTable from && opt isExpression where_
  | UnionStatement l r unionType all orderBy limit offset with_ =>
      some isSelect l && some isQuery r
      && String.eqb unionType (if all then "UNION ALL" else "UNION")
      && opt isOrderBy orderBy && opt isLimit limit && none offset
      && opt isWithClause with_
  | WithClause _ expressions => nonEmpty expressions && forallb isCTE expressions
  | CTEExpression _ _ query => isQuery query
  | WindowFunction function over => some isFunctionCall function && some isOverClause over
  | OverClause partitionBy orderBy frame =>
      optList isExpression partitionBy && optList isOrderByColumn orderBy
      && opt isWindowFrame frame
  | WindowFrame _ start end_ => some isFrameBound start && opt isFrameBound end_
  | FrameBound _ v _ _ => opt isExpression v
  | BinaryExpression l _ r => isExpression l && isOperand r
  | UnaryExpression _ operand => isExpression operand || isSelect operand
  | FunctionCall _ args _ _ => forallb isExpression args
  | CaseExpression expression whenClauses elseClause =>
      opt isExpression expression && forallb isWhenClause whenClauses
      && opt isExpression elseClause
  | WhenClause c r => isExpression c && isExpression r
  | FromClause tables joins =>
      nonEmpty tables && forallb isTable tables && forallb isJoinClause joins
  | JoinClause joinType table condition =>
      isTable table && JsString.includes joinTypes joinType
      && match condition with
         | Some c => isExpression c && negb (String.eqb joinType "CROSS")
         | None => String.eqb joinType "CROSS"
         end
  | GroupByClause columns => nonEmpty columns && forallb isExpression columns
  | HavingClause c => isExpression c
  | OrderByClause columns => nonEmpty columns && forallb isOrderByColumn columns
  | OrderByColumn column _ => isExpression column
  | LimitClause count offset => isExpression count && opt isExpression offset
  | Assignment _ v => isExpression v
  | ValuesList values => forallb isExpression values
  | BetweenRange s e => isExpression s && isExpression e
  | Interval v _ => isExpression v
  | SubQuery query _ => isSelect query
  | TableReference _ _ _ | ColumnReference _ _ _ | Wildcard | Literal _ _ => true
  | Identifier _ _ | WhereClause _ | Aliased _ _ => false
  end.

(** every node that the traversal of the facade visits from [n] follows
    the grammar *)
Definition Typed (n : node) : Prop :=
  Forall (fun m => schema m = true) (Facade.descendants n).

Definition TypedOpt (o : option node) : Prop :=
  match o with Some n => Typed n | None => True end.

Definition TypedAll (o : option (list node)) : Prop :=
  match o with Some l => Forall Typed l | None => True end.

(** a list of nodes of one class, and a node of one class *)
Definition listOf (cls : node -> bool) (l : list node) : Prop :=
  Forall Typed l /\ forallb cls l = true.

Definition fullListOf (cls : node -> bool) (l : list node) : Prop :=
  listOf cls l /\ nonEmpty l = true.

Definition nodeOf (cls : node -> bool) (n : node) : Prop :=
  Typed n /\ cls n = true.

Definition any (e : Exn) : Prop := True.

(** what each method returns, when it returns: a tree that follows the
    grammar, of the class that its caller stores *)
Record Grammar (t : This) : Prop := mkGrammar {
  gr_parseStatement : forall pos, 
      sure (this_parseStatement t) pos (fun a _ => (nodeOf isStatement) a) any;
  gr_parseUnionStatement : forall pos, 
      sure (this_parseUnionStatement t) pos (fun a _ => (nodeOf isQuery) a) any;
  gr_parseUnionStatementWithoutOrderLimit : forall pos, 
      sure (this_parseUnionStatementWithoutOrderLimit t) pos (fun a _ => (nodeOf isQuery) a) any;
  gr_parseSelectStatementWithoutOrderLimit : forall pos, 
      sure (this_parseSelectStatementWithoutOrderLimit t) pos (fun a _ => (nodeOf isSelect) a) any;
  gr_parseWithStatement : forall pos, 
      sure (this_parseWithStatement t) pos (fun a _ => (nodeOf isQuery) a) any;
  gr_withLoop : forall a0 pos, listOf isCTE a0 -> 
      sure (this_withLoop t a0) pos (fun a _ => (fullListOf isCTE) a) any;
  gr_identifierLoop : forall a0 pos, 
      sure (this_identifierLoop t a0) pos (fun a _ => (fun _ => True) a) any;
  gr_parseSelectStatement : forall pos, 
      sure (this_parseSelectStatement t) pos (fun a _ => (nodeOf isSelect) a) any;
  gr_parseSelectColumns : forall pos, 
      sure (this_parseSelectColumns t) pos (fun a _ => (fullListOf isColumnItem) a) any;
  gr_selectColumnsLoop : forall a0 pos, listOf isColumnItem a0 -> 
      sure (this_selectColumnsLoop t a0) pos (fun a _ => (fullListOf isColumnItem) a) any;
  gr_parseFromClause : forall pos, 
      sure (this_parseFromClause t) pos (fun a _ => (nodeOf isFromClause) a) any;
  gr_fromLoop : forall a0 a1 pos, listOf isTable a0 -> listOf isJoinClause a1 -> 
      sure (this_fromLoop t a0 a1) pos (fun a _ => (fun r => fullListOf isTable (fst r) /\ listOf isJoinClause (snd r)) a) any;
  gr_joinLoop : forall a0 pos, listOf isJoinClause a0 -> 
      sure (this_joinLoop t a0) pos (fun a _ => (listOf isJoinClause) a) any;
  gr_parseTableReference : forall pos, 
      sure (this_parseTableReference t) pos (fun a _ => (nodeOf isTable) a) any;
  gr_parseJoinClause : forall pos, 
      sure (this_parseJoinClause t) pos (fun a _ => (nodeOf isJoinClause) a) any;
  gr_parseWhereClause : forall pos, 
      sure (this_parseWhereClause t) pos (fun a _ => (nodeOf isExpression) a) any;
  gr_parseGroupByClause : forall pos, 
      sure (this_parseGroupByClause t) pos (fun a _ => (nodeOf isGroupBy) a) any;
  gr_expressionLoop : forall a0 pos, listOf isExpression a0 -> 
      sure (this_expressionLoop t a0) pos (fun a _ => (fullListOf isExpression) a) any;
  gr_parseHavingClause : forall pos, 
      sure (this_parseHavingClause t) pos (fun a _ => (nodeOf isHaving) a) any;
  gr_parseOrderByClause : forall pos, 
      sure (this_parseOrderByClause t) pos (fun a _ => (nodeOf isOrderBy) a) any;
  gr_orderByLoop : forall a0 pos, listOf isOrderByColumn a0 -> 
      sure (this_orderByLoop t a0) pos (fun a _ => (fullListOf isOrderByColumn) a) any;
  gr_parseLimitClause : forall pos, 
      sure (this_parseLimitClause t) pos (fun a _ => (nodeOf isLimit) a) any;
  gr_parseInsertStatement : forall pos, 
      sure (this_parseInsertStatement t) pos (fun a _ => (nodeOf isStatement) a) any;
  gr_valuesLoop : forall a0 pos, listOf isValuesList a0 -> 
      sure (this_valuesLoop t a0) pos (fun a _ => (fullListOf isValuesList) a) any;
  gr_parseUpdateStatement : forall pos, 
      sure (this_parseUpdateStatement t) pos (fun a _ => (nodeOf isStatement) a) any;
  gr_assignmentLoop : forall a0 pos, listOf isAssignment a0 -> 
      sure (this_assignmentLoop t a0) pos (fun a _ => (fullListOf isAssignment) a) any;
  gr_parseDeleteStatement : forall pos, 
      sure (this_parseDeleteStatement t) pos (fun a _ => (nodeOf isStatement) a) any;
  gr_parseExpression : forall pos, 
      sure (this_parseExpression t) pos (fun a _ => (nodeOf isExpression) a) any;
  gr_parseOrExpression : forall pos, 
      sure (this_parseOrExpression t) pos (fun a _ => (nodeOf isExpression) a) any;
  gr_orLoop : forall a0 pos, nodeOf isExpression a0 -> 
      sure (this_orLoop t a0) pos (fun a _ => (nodeOf isExpression) a) any;
  gr_parseAndExpression : forall pos, 
      sure (this_parseAndExpression t) pos (fun a _ => (nodeOf isExpression) a) any;
  gr_andLoop : forall a0 pos, nodeOf isExpression a0 -> 
      sure (this_andLoop t a0) pos (fun a _ => (nodeOf isExpression) a) any;
  gr_parseEqualityExpression : forall pos, 
      sure (this_parseEqualityExpression t) pos (fun a _ => (nodeOf isExpression) a) any;
  gr_equalityLoop : forall a0 pos, nodeOf isExpression a0 -> 
      sure (this_equalityLoop t a0) pos (fun a _ => (nodeOf isExpression) a) any;
  gr_parseRelationalExpression : forall pos, 
      sure (this_parseRelationalExpression t) pos (fun a _ => (nodeOf isExpression) a) any;
  gr_relationalLoop : forall a0 pos, nodeOf isExpression a0 -> 
      sure (this_relationalLoop t a0) pos (fun a _ => (nodeOf isExpression) a) any;
  gr_inValuesLoop : forall a0 pos, listOf isExpression a0 -> 
      sure (this_inValuesLoop t a0) pos (fun a _ => (listOf isExpression) a) any;
  gr_parseAdditiveExpression : forall pos, 
      sure (this_parseAdditiveExpression t) pos (fun a _ => (nodeOf isExpression) a) any;
  gr_additiveLoop : forall a0 pos, nodeOf isExpression a0 -> 
      sure (this_additiveLoop t a0) pos (fun a _ => (nodeOf isExpression) a) any;
  gr_parseMultiplicativeExpression : forall pos, 
      sure (this_parseMultiplicativeExpression t) pos (fun a _ => (nodeOf isExpression) a) any;
  gr_multiplicativeLoop : forall a0 pos, nodeOf isExpression a0 -> 
      sure (this_multiplicativeLoop t a0) pos (fun a _ => (nodeOf isExpression) a) any;
  gr_parseUnaryExpression : forall pos, 
      sure (this_parseUnaryExpression t) pos (fun a _ => (nodeOf isExpression) a) any;
  gr_parsePrimaryExpression : forall pos, 
      sure (this_parsePrimaryExpression t) pos (fun a _ => (nodeOf isExpression) a) any;
  gr_argumentLoop : forall a0 pos, listOf isExpression a0 -> 
      sure (this_argumentLoop t a0) pos (fun a _ => (fullListOf isExpression) a) any;
  gr_parseCaseExpression : forall pos, 
      sure (this_parseCaseExpression t) pos (fun a _ => (nodeOf isExpression) a) any;
  gr_whenLoop : forall a0 pos, listOf isWhenClause a0 -> 
      sure (this_whenLoop t a0) pos (fun a _ => (listOf isWhenClause) a) any;
  gr_parseOverClause : forall pos, 
      sure (this_parseOverClause t) pos (fun a _ => (nodeOf isOverClause) a) any;
  gr_parseWindowFrame : forall pos, 
      sure (this_parseWindowFrame t) pos (fun a _ => (nodeOf isWindowFrame) a) any;
  gr_parseFrameBound : forall pos, 
      sure (this_parseFrameBound t) pos (fun a _ => (nodeOf isFrameBound) a) any
}.

End Schema.

(** ** The semicolon *)

Module Semicolon.
Import Parser Errors.
Local Open Scope parser_scope.

(** [m] and [m'], started at [pos], have the same outcome, and when they
    return, their result and position satisfy [Q] *)
Definition both {A : Type} (m m' : M A) (pos : nat) (Q : A -> nat -> Prop) : Prop :=
  m pos = m' pos
  /\ match m pos with
     | Return (a, p) => Q a p
     | _ => True
     end.

(** the token at the index [b] is a semicolon *)
Definition semicolonAt (tokens : list Token) (b : nat) : Prop :=
  exists t, nth_error tokens b = Some t /\ type t = TT.SEMICOLON.

(** up to the index [b], no token is the end marker and none opens a
    window frame *)
Definition plainUpTo (tokens : list Token) (b : nat) : Prop :=
  forall pos t,
    pos <= b -> nth_error tokens pos = Some t ->
    type t <> TT.EOF /\ isOneOf t [TT.ROWS; TT.RANGE] = false.

(** two lists hold the same tokens up to the index [b] *)
Definition agreeUpTo (tokens tokens' : list Token) (b : nat) : Prop :=
  forall pos, pos <= b -> nth_error tokens pos = nth_error tokens' pos.

(** each method but the two that read a window frame, called at a
    semicolon or before it on two lists that agree up to it, does the same
    on both and stops at this semicolon or before it when it returns; the
    two are not called *)
Record Same (b : nat) (t t' : This) : Prop := mkSame {
  same_parseStatement : forall pos, pos <= b ->
      both (this_parseStatement t) (this_parseStatement t') pos (upTo b);
  same_parseUnionStatement : forall pos, pos <= b ->
      both (this_parseUnionStatement t) (this_parseUnionStatement t') pos (upTo b);
  same_parseUnionStatementWithoutOrderLimit : forall pos, pos <= b ->
      both (this_parseUnionStatementWithoutOrderLimit t) (this_parseUnionStatementWithoutOrderLimit t') pos (upTo b);
  same_parseSelectStatementWithoutOrderLimit : forall pos, pos <= b ->
      both (this_parseSelectStatementWithoutOrderLimit t) (this_parseSelectStatementWithoutOrderLimit t') pos (upTo b);
  same_parseWithStatement : forall pos, pos <= b ->
      both (this_parseWithStatement t) (this_parseWithStatement t') pos (upTo b);
  same_withLoop : forall a0 pos, pos <= b ->
      both (this_withLoop t a0) (this_withLoop t' a0) pos (upTo b);
  same_identifierLoop : forall a0 pos, pos <= b ->
      both (this_identifierLoop t a0) (this_identifierLoop t' a0) pos (upTo b);
  same_parseSelectStatement : forall pos, pos <= b ->
      both (this_parseSelectStatement t) (this_parseSelectStatement t') pos (upTo b);
  same_parseSelectColumns : forall pos, pos <= b ->
      both (this_parseSelectColumns t) (this_parseSelectColumns t') pos (upTo b);
  same_selectColumnsLoop : forall a0 pos, pos <= b ->
      both (this_selectColumnsLoop t a0) (this_selectColumnsLoop t' a0) pos (upTo b);
  same_parseFromClause : forall pos, pos <= b ->
      both (this_parseFromClause t) (this_parseFromClause t') pos (upTo b);
  same_fromLoop : forall a0 a1 pos, pos <= b ->
      both (this_fromLoop t a0 a1) (this_fromLoop t' a0 a1) pos (upTo b);
  same_joinLoop : forall a0 pos, pos <= b ->
      both (this_joinLoop t a0) (this_joinLoop t' a0) pos (upTo b);
  same_parseTableReference : forall pos, pos <= b ->
      both (this_parseTableReference t) (this_parseTableReference t') pos (upTo b);
  same_parseJoinClause : forall pos, pos <= b ->
      both (this_parseJoinClause t) (this_parseJoinClause t') pos (upTo b);
  same_parseWhereClause : forall pos, pos <= b ->
      both (this_parseWhereClause t) (this_parseWhereClause t') pos (upTo b);
  same_parseGroupByClause : forall pos, pos <= b ->
      both (this_parseGroupByClause t) (this_parseGroupByClause t') pos (upTo b);
  same_expressionLoop : forall a0 pos, pos <= b ->
      both (this_expressionLoop t a0) (this_expressionLoop t' a0) pos (upTo b);
  same_parseHavingClause : forall pos, pos <= b ->
      both (this_parseHavingClause t) (this_parseHavingClause t') pos (upTo b);
  same_parseOrderByClause : forall pos, pos <= b ->
      both (this_parseOrderByClause t) (this_parseOrderByClause t') pos (upTo b);
  same_orderByLoop : forall a0 pos, pos <= b ->
      both (this_orderByLoop t a0) (this_orderByLoop t' a0) pos (upTo b);
  same_parseLimitClause : forall pos, pos <= b ->
      both (this_parseLimitClause t) (this_parseLimitClause t') pos (upTo b);
  same_parseInsertStatement : forall pos, pos <= b ->
      both (this_parseInsertStatement t) (this_parseInsertStatement t') pos (upTo b);
  same_valuesLoop : forall a0 pos, pos <= b ->
      both (this_valuesLoop t a0) (this_valuesLoop t' a0) pos (upTo b);
  same_parseUpdateStatement : forall pos, pos <= b ->
      both (this_parseUpdateStatement t) (this_parseUpdateStatement t') pos (upTo b);
  same_assignmentLoop : forall a0 pos, pos <= b ->
      both (this_assignmentLoop t a0) (this_assignmentLoop t' a0) pos (upTo b);
  same_parseDeleteStatement : forall pos, pos <= b ->
      both (this_parseDeleteStatement t) (this_parseDeleteStatement t') pos (upTo b);
  same_parseExpression : forall pos, pos <= b ->
      both (this_parseExpression t) (this_parseExpression t') pos (upTo b);
  same_parseOrExpression : forall pos, pos <= b ->
      both (this_parseOrExpression t) (this_parseOrExpression t') pos (upTo b);
  same_orLoop : forall a0 pos, pos <= b ->
      both (this_orLoop t a0) (this_orLoop t' a0) pos (upTo b);
  same_parseAndExpression : forall pos, pos <= b ->
      both (this_parseAndExpression t) (this_parseAndExpression t') pos (upTo b);
  same_andLoop : forall a0 pos, pos <= b ->
      both (this_andLoop t a0) (this_andLoop t' a0) pos (upTo b);
  same_parseEqualityExpression : forall pos, pos <= b ->
      both (this_parseEqualityExpression t) (this_parseEqualityExpression t') pos (upTo b);
  same_equalityLoop : forall a0 pos, pos <= b ->
      both (this_equalityLoop t a0) (this_equalityLoop t' a0) pos (upTo b);
  same_parseRelationalExpression : forall pos, pos <= b ->
      both (this_parseRelationalExpression t) (this_parseRelationalExpression t') pos (upTo b);
  same_relationalLoop : forall a0 pos, pos <= b ->
      both (this_relationalLoop t a0) (this_relationalLoop t' a0) pos (upTo b);
  same_inValuesLoop : forall a0 pos, pos <= b ->
      both (this_inValuesLoop t a0) (this_inValuesLoop t' a0) pos (upTo b);
  same_parseAdditiveExpression : forall pos, pos <= b ->
      both (this_parseAdditiveExpression t) (this_parseAdditiveExpression t') pos (upTo b);
  same_additiveLoop : forall a0 pos, pos <= b ->
      both (this_additiveLoop t a0) (this_additiveLoop t' a0) pos (upTo b);
  same_parseMultiplicativeExpression : forall pos, pos <= b ->
      both (this_parseMultiplicativeExpression t) (this_parseMultiplicativeExpression t') pos (upTo b);
  same_multiplicativeLoop : forall a0 pos, pos <= b ->
      both (this_multiplicativeLoop t a0) (this_multiplicativeLoop t' a0) pos (upTo b);
  same_parseUnaryExpression : forall pos, pos <= b ->
      both (this_parseUnaryExpression t) (this_parseUnaryExpression t') pos (upTo b);
  same_parsePrimaryExpression : forall pos, pos <= b ->
      both (this_parsePrimaryExpression t) (this_parsePrimaryExpression t') pos (upTo b);
  same_argumentLoop : forall a0 pos, pos <= b ->
      both (this_argumentLoop t a0) (this_argumentLoop t' a0) pos (upTo b);
  same_parseCaseExpression : forall pos, pos <= b ->
      both (this_parseCaseExpression t) (this_parseCaseExpression t') pos (upTo b);
  same_whenLoop : forall a0 pos, pos <= b ->
      both (this_whenLoop t a0) (this_whenLoop t' a0) pos (upTo b);
  same_parseOverClause : forall pos, pos <= b ->
      both (this_parseOverClause t) (this_parseOverClause t') pos (upTo b);
  same_parseWindowFrame : forall pos, False ->
      both (this_parseWindowFrame t) (this_parseWindowFrame t') pos (upTo b);
  same_parseFrameBound : forall pos, False ->
      both (this_parseFrameBound t) (this_parseFrameBound t') pos (upTo b)
}.

End Semicolon.

(** ** Texts and trees that the properties speak of *)

Module Notions.

(** a character of a text as it is written inside a string literal: a
    backslash goes before a quote and before a backslash *)
Definition escape (c : ascii) : list ascii :=
  if Ascii.eqb c "'"%char || Ascii.eqb c "\"%char then ["\"%char; c] else [c].

(** the text of a string literal that is left open *)
Definition openLiteral (body : list ascii) : list ascii :=
  "'"%char :: flat_map escape body.

(** the text of a string literal *)
Definition literal (body : list ascii) : list ascii :=
  (openLiteral body ++ ["'"%char])%list.

(** the JOIN clauses of a SELECT *)
Definition joinsOf (tree : node) : list node :=
  match tree with
  | SelectStatement _ (Some (FromClause _ joins)) _ _ _ _ _ _ _ _ => joins
  | _ => []
  end.

(** the five classes of statements *)
Definition statementTypes : list string :=
  ["SelectStatement"; "UnionStatement"; "InsertStatement"; "UpdateStatement";
   "DeleteStatement"].

(** the result of [tokenize], or no token *)
Definition lexed (input : string) (opts : Lexer.Options) : list Token :=
  match Lexer.tokenize input opts with
  | Return toks => toks
  | _ => []
  end.

(** the tree of a strict parse with a budget of 200, or a node that no
    parse returns *)
Definition parsed (toks : list Token) : node :=
  match Parser.parse 200 toks (Parser.mkOptions true) with
  | Return tree => tree
  | _ => Wildcard
  end.

(** the result of [parseSQL] with a budget of 200, or an empty failure *)
Definition resultOf (s : string) (o : Facade.Options) : Facade.ParseResult :=
  match Facade.parseSQL 200 (Facade.ArgString s) o with
  | Return r => r
  | _ => Facade.mkParseResult false None [] [] None []
  end.

(** the lexer options that keep white space and comments *)
Definition everything : Lexer.Options := Lexer.mkOptions true true.

(** a query on two lines, with a comment, a quoted text and a join *)
Definition twoLines : string :=
  JsString.ofList
    (JsString.toList "SELECT u.name, COUNT(o.id) AS n -- per user"
     ++ [JsString.newline]
     ++ JsString.toList "FROM users u LEFT JOIN orders o ON u.id = o.uid WHERE u.city = 'Oslo' ORDER BY n DESC")%list.

(** a text that the lexer refuses at its second line *)
Definition badSecondLine : string :=
  JsString.ofList
    (JsString.toList "SELECT a" ++ [JsString.newline] ++ JsString.toList "FROM t WHERE b = @x")%list.

(** a statement that stops short, as the lexer returns it *)
Definition selectFrom : list Token :=
  Eval vm_compute in lexed "SELECT a FROM" (Lexer.mkOptions false false).

(** a query with two joins, its tokens, its tree, what the facade returns
    on it and its analysis *)
Definition twoJoins : string :=
  "SELECT u.name, o.total FROM users u JOIN orders o ON u.id = o.uid CROSS JOIN regions WHERE o.total > 10".

Definition twoJoins_tokens : list Token :=
  Eval vm_compute in lexed twoJoins (Lexer.mkOptions false false).

Definition twoJoins_tree : node := Eval vm_compute in parsed twoJoins_tokens.

Definition twoJoins_parsed : Facade.ParseResult :=
  Eval vm_compute in resultOf twoJoins Facade.noOptions.

Definition twoJoins_analysis : Analyzer.Analysis :=
  Eval vm_compute in
    match Analyzer.analyzeSelectQuery twoJoins_tree with
    | Return a => a
    | _ => Analyzer.mkAnalysis [] [] [] [] [] [] None
    end.

(** a statement followed by two words, what the facade returns on it when
    it is not strict, and when it is *)
Definition trailing : string := "SELECT a FROM t WHERE b = 1 garbage more".

Definition trailing_accepted : Facade.ParseResult :=
  Eval vm_compute in resultOf trailing Facade.noOptions.

Definition trailing_refused : Facade.ParseResult :=
  Facade.parseFailure
    (Facade.toJSON (SQLErr.unexpectedToken "end of statement" TT.IDENTIFIER 1 29)).

(** the tokens of a statement, a semicolon, the tokens that follow them in
    [SELECT a FROM t; DROP x], and the tree of the statement *)
Definition selectA : list Token :=
  Eval vm_compute in removelast (lexed "SELECT a FROM t" (Lexer.mkOptions false false)).

Definition semicolon : Token := mkToken TT.SEMICOLON ";" 1 16 15 16.

Definition dropX : list Token :=
  Eval vm_compute in
    skipn 5 (lexed "SELECT a FROM t; DROP x" (Lexer.mkOptions false false)).

Definition selectA_tree : node :=
  Eval vm_compute in
    match Parser.parse 200 (selectA ++ [semicolon]) (Parser.mkOptions false) with
    | Return tree => tree
    | _ => Wildcard
    end.

(** a semicolon after the bound of a window frame *)
Definition framed : string := "SELECT SUM(x) OVER (ORDER BY y ROWS 1 ;) FROM t".

(** a query that names a table and a column twice, and what the facade
    returns on it *)
Definition selfJoin : string :=
  "SELECT a.id, b.id FROM t a JOIN t b ON a.id = b.parent ORDER BY a.id".

Definition selfJoin_parsed : Facade.ParseResult :=
  Eval vm_compute in resultOf selfJoin Facade.noOptions.

End Notions.

(** ** Observers and sample inputs *)

Module Examples.
Import Facade.

(** the condition types of a successful analysis, in order *)
Definition conditionTypes (r : AnalyzeResult) : list string :=
  match r with
  | AnalyzeSuccess _ a _ _ => map Analyzer.ctype (Analyzer.conditions a)
  | AnalyzeFailure _ _ => []
  end.

Definition conditionOperators (r : AnalyzeResult) : list string :=
  match r with
  | AnalyzeSuccess _ a _ _ => map Analyzer.operator (Analyzer.conditions a)
  | AnalyzeFailure _ _ => []
  end.

(** [result.success && result.ast.success] *)
Definition succeeded (r : AnalyzeResult) : bool :=
  match r with
  | AnalyzeSuccess _ _ _ p => success p
  | AnalyzeFailure _ _ => false
  end.

(** the tokens that the lexer hands to the parser, [[]] when it raises *)
Definition tokensOf (text : string) : list Token :=
  match Lexer.tokenize text (Lexer.mkOptions false false) with
  | Return toks => toks
  | _ => []
  end.

(** what follows the leading digits of a text is not a digit *)
Definition stopsDigits (rest : list ascii) : Prop :=
  match rest with
  | c :: _ => JsString.isDigit c = false
  | [] => True
  end.

(** the integer that a Number is, when it is one *)
Definition integerOf (x : JsNumber.t) : option Z :=
  match x with
  | JsNumber.Finite negative m e =>
      if (0 <=? e)%Z then Some (JsNumber.signed negative (m * 2 ^ e)) else None
  | _ => None
  end.

(** the statement SELECT [v], for a number [v] *)
Definition selectNumber (v : JsNumber.t) : node :=
  SelectStatement [Literal (LNumber v) "number"]
    None None None None None None None false None.

(** S6 of the specification *)
Definition s6 : string :=
  "SELECT id FROM a UNION ALL SELECT id FROM b ORDER BY id LIMIT 5".

Definition s6_left : node :=
  SelectStatement [ColumnReference "id" None None]
    (Some (FromClause [TableReference "a" None None] []))
    None None None None None None false None.

Definition s6_right : node :=
  SelectStatement [ColumnReference "id" None None]
    (Some (FromClause [TableReference "b" None None] []))
    None None None None None None false None.

Definition s6_order : node :=
  OrderByClause [OrderByColumn (ColumnReference "id" None None) "ASC"].

Definition s6_limit : node :=
  LimitClause (Literal (LNumber (JsNumber.ofZ 5)) "number") None.

Definition s6_tree : node :=
  UnionStatement (Some s6_left) (Some s6_right) "UNION ALL" true
    (Some s6_order) (Some s6_limit) None None.

(** a SELECT outside a chain, with an ORDER BY *)
Definition orderedSelect : string := "SELECT id FROM a ORDER BY id".

Definition orderedSelect_tree : node :=
  SelectStatement [ColumnReference "id" None None]
    (Some (FromClause [TableReference "a" None None] []))
    None None None (Some s6_order) None None false None.

(** S7 of the specification *)
Definition s7 : string :=
  "SELECT * FROM users WHERE email IS NOT NULL AND age BETWEEN 18 AND 65 AND name LIKE 'A%'".

Definition threeConditions : string :=
  "SELECT * FROM t WHERE a = 1 AND b = 2 AND c = 3".

Definition twoConditions : string :=
  "SELECT * FROM t WHERE a = 1 AND b = 2".

Definition twoConditions_analysis : Analyzer.Analysis :=
  match analyzeSQL 20 (ArgString twoConditions) noOptions with
  | Return (AnalyzeSuccess _ a _ _) => a
  | _ => Analyzer.mkAnalysis [] [] [] [] [] [] None
  end.

Definition twoConditions_parsed : ParseResult :=
  match parseSQL 20 (ArgString twoConditions) noOptions with
  | Return r => r
  | _ => mkParseResult false None [] [] None []
  end.

Definition deleteUsers : string := "DELETE FROM users WHERE id = 1".

Definition deleteUsers_where : node :=
  BinaryExpression (ColumnReference "id" None None) "="
                   (Literal (LNumber (JsNumber.ofZ 1)) "number").

Definition deleteUsers_tree : node :=
  DeleteStatement (Some (TableReference "users" None None)) (Some deleteUsers_where).

Definition deleteUsers_parsed : ParseResult :=
  mkParseResult true (Some deleteUsers_tree) ["users"] ["id"] None [].



Definition unterminatedComment : string :=
  "SELECT * FROM users /* unterminated comment".

Definition oneE3 : Token := mkToken TT.NUMBER "1e3" 1 1 0 3.

End Examples.

(** ** The clauses of a statement *)

Module Clauses.
Import Parser.

(** the token at [pos] is of the type [ty] *)
Definition isAt (tokens : list Token) (ty : TokenType) (pos : nat) : bool :=
  match nth_error tokens pos with
  | Some t => tokenIs t ty
  | None => false
  end.

(** The clause that the keyword [ty] opens, looked for at [p] and read by
    [m]: what [m] returns when the keyword is there, else [null] with the
    position unchanged.
    [let c = null; if (this.match(ty)) c = m()] *)
Definition clauseRead (tokens : list Token) (ty : TokenType) (m : M node)
           (p : nat) (c : option node) (p' : nat) : Prop :=
  if isAt tokens ty p
  then exists n, c = Some n /\ m p = Return (n, p')
  else c = None /\ p' = p.

(** the [orderBy] and the [limit] of a SELECT or UNION node *)
Definition orderByOf (n : node) : option node :=
  match n with
  | SelectStatement _ _ _ _ _ orderBy _ _ _ _ => orderBy
  | UnionStatement _ _ _ _ orderBy _ _ _ => orderBy
  | _ => None
  end.

Definition limitOf (n : node) : option node :=
  match n with
  | SelectStatement _ _ _ _ _ _ limit _ _ _ => limit
  | UnionStatement _ _ _ _ _ limit _ _ => limit
  | _ => None
  end.

(** the SELECT or UNION node [n] with [orderBy] and [limit] in the place
    of its own *)
Definition withOrderLimit (n : node) (orderBy limit : option node) : node :=
  match n with
  | SelectStatement c f w g h _ _ off d wi =>
      SelectStatement c f w g h orderBy limit off d wi
  | UnionStatement l r ut a _ _ off wi =>
      UnionStatement l r ut a orderBy limit off wi
  | _ => n
  end.




(** [stmt] is what one of the methods that read a WHERE clause returns
    from [pos], with the position [p] *)
Definition readsWhere (t : This) (pos : nat) (stmt : node) (p : nat) : Prop :=
  this_parseSelectStatement t pos = Return (stmt, p)
  \/ this_parseSelectStatementWithoutOrderLimit t pos = Return (stmt, p)
  \/ this_parseUpdateStatement t pos = Return (stmt, p)
  \/ this_parseDeleteStatement t pos = Return (stmt, p).

End Clauses.

(* ===================================================================== *)
(** * Properties *)
(* ===================================================================== *)

(** ** The lexer *)

Module LexerFacts.
Import Lexer LexerProps.

Lemma lexicalError_kind msg l c : isLexKind (code (SQLErr.lexicalError msg l c)).
Proof. left; reflexivity. Qed.

Lemma unterminatedString_kind l c : isLexKind (code (SQLErr.unterminatedString l c)).
Proof. right; reflexivity. Qed.

Lemma lookupKeyword_In table k t :
  lookupKeyword table k = Some t -> In t (map snd table).
Proof.
  induction table as [|[k' t'] table IH]; simpl; [discriminate|].
  destruct (String.eqb k k').
  - intros [= ->]. now left.
  - intros H. right. now apply IH.
Qed.

Lemma keyword_notEOF k t : lookupKeyword KEYWORDS k = Some t -> t <> TT.EOF.
Proof.
  intros H%lookupKeyword_In.
  assert (F : forallb (fun x => negb (String.eqb x TT.EOF)) (map snd KEYWORDS) = true)
    by (vm_compute; reflexivity).
  rewrite forallb_forall in F. specialize (F _ H).
  intros ->. discriminate F.
Qed.

Lemma readWhile_left p cs k v : remaining (snd (readWhile p cs k v)) <= length cs.
Proof.
  revert k v. induction cs as [|c cs IH]; intros k v; simpl; [unfold remaining; simpl; lia|].
  destruct (p c).
  - specialize (IH (advance c k) (v ++ JsString.ofChar c)). lia.
  - unfold remaining; simpl; lia.
Qed.

Lemma readWhile_progress p c cs k v :
  p c = true -> remaining (snd (readWhile p (c :: cs) k v)) < length (c :: cs).
Proof.
  intros H. simpl. rewrite H.
  pose proof (readWhile_left p cs (advance c k) (v ++ JsString.ofChar c)). lia.
Qed.

Lemma skipWhitespace_left cs k : remaining (skipWhitespace cs k) <= length cs.
Proof.
  revert k. induction cs as [|c cs IH]; intros k; simpl; [unfold remaining; simpl; lia|].
  destruct (JsString.isSpace c && negb (JsString.isNewline c)).
  - specialize (IH (advance c k)). lia.
  - unfold remaining; simpl; lia.
Qed.

Lemma skip_left st : remaining (skip st) <= remaining st.
Proof.
  destruct st as [[|c cs] k]; unfold skip, remaining; simpl; lia.
Qed.

Lemma skip_progress c cs k : remaining (skip (c :: cs, k)) < length (c :: cs).
Proof. unfold skip, remaining; simpl; lia. Qed.

Lemma readQuoted_bounded un q n :
  forall cs k v, length cs <= n -> remaining (snd (readQuoted un q cs k v)) <= length cs.
Proof.
  induction n as [|n IH]; intros cs k v L.
  - destruct cs; cbn [length] in L; [unfold remaining; cbn; lia | lia].
  - destruct cs as [|c cs]; [unfold remaining; cbn; lia|].
    cbn [readQuoted length] in *.
    destruct (Ascii.eqb c q); [unfold remaining; cbn; lia|].
    destruct (Ascii.eqb c "\"%char).
    + destruct cs as [|e cs]; [unfold remaining; cbn; lia|].
      cbn [length] in *.
      specialize (IH cs (advance e (advance c k)) (v ++ JsString.ofChar (un e))).
      lia.
    + specialize (IH cs (advance c k) (v ++ JsString.ofChar c)). lia.
Qed.

Lemma readQuoted_left un q cs k v : remaining (snd (readQuoted un q cs k v)) <= length cs.
Proof. apply (readQuoted_bounded un q (length cs)). lia. Qed.

Lemma readCommentBody_left cs k v : remaining (snd (readCommentBody cs k v)) <= length cs.
Proof.
  revert k v. induction cs as [|c cs IH]; intros k v; simpl; [unfold remaining; simpl; lia|].
  destruct (Ascii.eqb c "*"%char).
  - destruct cs as [|d cs].
    + simpl. unfold remaining; simpl; lia.
    + destruct (Ascii.eqb d "/"%char).
      * unfold remaining; simpl; lia.
      * specialize (IH (advance c k) (v ++ JsString.ofChar c)). simpl in *. lia.
  - specialize (IH (advance c k) (v ++ JsString.ofChar c)). lia.
Qed.

Lemma readIdentifier_ok c cs k :
  JsString.isIdentStart c = true ->
  readerOk (length (c :: cs)) (readIdentifier (c :: cs) k).
Proof.
  intros H. unfold readIdentifier. rewrite H. cbn [negb].
  assert (P : JsString.isIdentPart c = true)
    by (unfold JsString.isIdentPart; rewrite H; reflexivity).
  pose proof (readWhile_progress JsString.isIdentPart c cs k EmptyString P) as L.
  destruct (readWhile JsString.isIdentPart (c :: cs) k EmptyString) as [v [cs' k']].
  cbn [readerOk]. split; [|exact L].
  unfold notEOF, tokenAt; cbn [type].
  destruct (lookupKeyword KEYWORDS (JsString.toUpperCase v)) eqn:E.
  - now apply keyword_notEOF in E.
  - discriminate.
Qed.

Lemma readQuotedIdentifier_ok q c cs k :
  readerOk (length (c :: cs)) (readQuotedIdentifier q (c :: cs) k).
Proof.
  unfold readQuotedIdentifier, skip; cbn [fst snd].
  pose proof (readQuoted_left (fun e => e) q cs (advance c k) EmptyString) as L.
  destruct (readQuoted (fun e => e) q cs (advance c k) EmptyString) as [v [cs2 k2]].
  destruct cs2 as [|c2 cs2]; cbn [readerOk].
  - apply lexicalError_kind.
  - unfold remaining in *; cbn [fst snd length] in *. split; [discriminate | lia].
Qed.

Lemma readString_ok q c cs k :
  readerOk (length (c :: cs)) (readString q (c :: cs) k).
Proof.
  unfold readString, skip; cbn [fst snd].
  pose proof (readQuoted_left unescapeChar q cs (advance c k) EmptyString) as L.
  destruct (readQuoted unescapeChar q cs (advance c k) EmptyString) as [v [cs2 k2]].
  destruct cs2 as [|c2 cs2]; cbn [readerOk].
  - apply unterminatedString_kind.
  - unfold remaining in *; cbn [fst snd length] in *. split; [discriminate | lia].
Qed.

Lemma readNumber_ok c cs k :
  JsString.isDigit c = true ->
  readerOk (length (c :: cs)) (readNumber (c :: cs) k).
Proof.
  intros H. unfold readNumber.
  pose proof (readWhile_progress JsString.isDigit c cs k EmptyString H) as L1.
  destruct (readWhile JsString.isDigit (c :: cs) k EmptyString) as [v1 [cs1 k1]].
  unfold remaining in L1; cbn [fst snd] in L1.
  assert (L2 : forall r, r =
     match cs1 with
     | c0 :: d :: cs' =>
         if Ascii.eqb c0 "."%char && JsString.isDigit d
         then readWhile JsString.isDigit (d :: cs') (advance c0 k1) (v1 ++ JsString.ofChar c0)
         else (v1, (cs1, k1))
     | _ => (v1, (cs1, k1))
     end -> remaining (snd r) < length (c :: cs)).
  { intros r ->. destruct cs1 as [|c0 [|d cs']]; try (unfold remaining; cbn [fst snd]; lia).
    destruct (Ascii.eqb c0 "."%char && JsString.isDigit d).
    - pose proof (readWhile_left JsString.isDigit (d :: cs') (advance c0 k1)
                                 (v1 ++ JsString.ofChar c0)).
      eapply Nat.le_lt_trans; [exact H0 | cbn [length] in *; lia].
    - unfold remaining; cbn [fst snd]; lia. }
  specialize (L2 _ eq_refl).
  destruct (match cs1 with
     | c0 :: d :: cs' =>
         if Ascii.eqb c0 "."%char && JsString.isDigit d
         then readWhile JsString.isDigit (d :: cs') (advance c0 k1) (v1 ++ JsString.ofChar c0)
         else (v1, (cs1, k1))
     | _ => (v1, (cs1, k1))
     end) as [v2 [cs2 k2]].
  unfold remaining in L2; cbn [fst snd] in L2.
  destruct cs2 as [|c2 cs3].
  - cbn [readerOk]. split; [discriminate | unfold remaining; cbn [fst]; lia].
  - destruct (isExponentMark c2).
    + assert (L4 : forall r, r =
        match cs3 with
        | s :: cs' =>
            if isSign s
            then ((v2 ++ JsString.ofChar c2) ++ JsString.ofChar s, (cs', advance s (advance c2 k2)))
            else (v2 ++ JsString.ofChar c2, (cs3, advance c2 k2))
        | [] => (v2 ++ JsString.ofChar c2, (cs3, advance c2 k2))
        end -> remaining (snd r) <= length cs3).
      { intros r ->. destruct cs3 as [|s cs']; [unfold remaining; cbn; lia|].
        destruct (isSign s); unfold remaining; cbn [fst snd length]; lia. }
      specialize (L4 _ eq_refl).
      destruct (match cs3 with
        | s :: cs' =>
            if isSign s
            then ((v2 ++ JsString.ofChar c2) ++ JsString.ofChar s, (cs', advance s (advance c2 k2)))
            else (v2 ++ JsString.ofChar c2, (cs3, advance c2 k2))
        | [] => (v2 ++ JsString.ofChar c2, (cs3, advance c2 k2))
        end) as [v4 [cs4 k4]].
      unfold remaining in L4; cbn [fst snd] in L4.
      destruct cs4 as [|d cs5]; [apply lexicalError_kind|].
      destruct (JsString.isDigit d); [|apply lexicalError_kind].
      pose proof (readWhile_left JsString.isDigit (d :: cs5) k4 v4) as L5.
      destruct (readWhile JsString.isDigit (d :: cs5) k4 v4) as [v5 st5].
      cbn [readerOk snd] in *. split; [discriminate|].
      cbn [length] in *. lia.
    + cbn [readerOk]. split; [discriminate | unfold remaining; cbn [fst]; lia].
Qed.

Lemma readSingleLineComment_ok opts c cs k :
  commentOk (length (c :: cs)) (readSingleLineComment opts (c :: cs) k).
Proof.
  unfold readSingleLineComment.
  assert (L1 : forall st, st =
     (if Ascii.eqb c "-"%char then skip (skip (c :: cs, k)) else skip (c :: cs, k))
     -> remaining st < length (c :: cs)).
  { intros st ->. destruct (Ascii.eqb c "-"%char).
    - pose proof (skip_left (skip (c :: cs, k))).
      pose proof (skip_progress c cs k). lia.
    - apply skip_progress. }
  specialize (L1 _ eq_refl).
  destruct (if Ascii.eqb c "-"%char then skip (skip (c :: cs, k)) else skip (c :: cs, k))
    as [cs1 k1].
  pose proof (readWhile_left (fun c => negb (JsString.isNewline c)) cs1 k1 EmptyString) as L2.
  destruct (readWhile (fun c => negb (JsString.isNewline c)) cs1 k1 EmptyString)
    as [v [cs2 k2]].
  unfold remaining in *; cbn [fst snd] in *.
  destruct (includeComments opts); unfold commentOk, remaining; cbn [fst snd].
  - split; [discriminate | lia].
  - split; [exact I | lia].
Qed.

Lemma readMultiLineComment_ok opts c cs k :
  commentOk (length (c :: cs)) (readMultiLineComment opts (c :: cs) k).
Proof.
  unfold readMultiLineComment.
  pose proof (skip_left (skip (c :: cs, k))) as L0.
  pose proof (skip_progress c cs k) as L1.
  destruct (skip (skip (c :: cs, k))) as [cs1 k1].
  pose proof (readCommentBody_left cs1 k1 EmptyString) as L2.
  destruct (readCommentBody cs1 k1 EmptyString) as [v [cs2 k2]].
  unfold remaining in *; cbn [fst snd] in *.
  destruct (includeComments opts); unfold commentOk, remaining; cbn [fst snd].
  - split; [discriminate | lia].
  - split; [exact I | lia].
Qed.

Lemma readOperator_ok c cs k :
  readerOk (length (c :: cs)) (readOperator c cs k).
Proof.
  unfold readOperator.
  repeat match goal with
  | |- readerOk _ (if ?b then _ else _) => destruct b
  end;
  cbn [readerOk]; try apply lexicalError_kind;
  (split; [discriminate | unfold remaining; cbn [fst length]; destruct cs; cbn; lia]).
Qed.

Lemma readPunctuation_ok c cs k :
  readerOk (length (c :: cs)) (readPunctuation c cs k).
Proof.
  unfold readPunctuation.
  repeat match goal with
  | |- readerOk _ (if ?b then _ else _) => destruct b
  end;
  cbn [readerOk]; try apply lexicalError_kind;
  (split; [discriminate | unfold remaining; cbn [fst length]; lia]).
Qed.

Lemma Forall_push tokens t :
  Forall notEOF tokens -> notEOF t -> Forall notEOF (pushToken tokens t).
Proof.
  intros F H. unfold pushToken. apply Forall_app. split; [exact F|].
  constructor; [exact H | constructor].
Qed.

Lemma Forall_pushOpt tokens t :
  Forall notEOF tokens -> match t with Some x => notEOF x | None => True end ->
  Forall notEOF (pushOpt tokens t).
Proof.
  intros F H. destruct t; cbn [pushOpt]; [now apply Forall_push | exact F].
Qed.

Lemma tokenizeLoop_ok fuel opts :
  forall cs k tokens,
    length cs <= fuel -> Forall notEOF tokens ->
    tokenizeOk (tokenizeLoop fuel opts cs k tokens).
Proof.
  induction fuel as [|fuel IH]; intros cs k tokens L F.
  - destruct cs; [|simpl in L; lia].
    cbn [tokenizeLoop tokenizeOk]. exists tokens, (tokenAt TT.EOF EmptyString k k).
    repeat split; assumption.
  - destruct cs as [|char cs'].
    + cbn [tokenizeLoop tokenizeOk]. exists tokens, (tokenAt TT.EOF EmptyString k k).
      repeat split; assumption.
    + cbn [tokenizeLoop].
      assert (K : forall r, readerOk (length (char :: cs')) r ->
                tokenizeOk match r with
                  | inl e => Throw (ESQL e)
                  | inr (t, (cs1, k1)) =>
                      tokenizeLoop fuel opts cs1 k1 (pushToken tokens t)
                  end).
      { intros [e|[t [cs1 k1]]]; cbn [readerOk].
        - intros H. cbn [tokenizeOk]. now exists e.
        - intros [N Lt]. unfold remaining in Lt; cbn [fst] in Lt.
          apply IH; [lia | now apply Forall_push]. }
      assert (C : forall r, commentOk (length (char :: cs')) r ->
                tokenizeOk (let '(t, (cs1, k1)) := r in
                            tokenizeLoop fuel opts cs1 k1 (pushOpt tokens t))).
      { intros [t [cs1 k1]] [N Lt]. unfold remaining in Lt; cbn [fst snd] in *.
        apply IH; [lia | now apply Forall_pushOpt]. }
      destruct (JsString.isSpace char && negb (JsString.isNewline char)) eqn:Esp.
      { pose proof (skipWhitespace_left cs' (advance char k)) as Lw.
        assert (Ew : skipWhitespace (char :: cs') k = skipWhitespace cs' (advance char k))
          by (cbn [skipWhitespace]; rewrite Esp; reflexivity).
        rewrite Ew.
        destruct (skipWhitespace cs' (advance char k)) as [cs1 k1].
        unfold remaining in Lw; cbn [fst] in Lw. cbn [length] in L.
        destruct (includeWhitespace opts); apply IH; try lia; try assumption.
        apply Forall_push; [assumption | discriminate]. }
      destruct (JsString.isNewline char).
      { cbn [length] in L.
        destruct (includeWhitespace opts); apply IH; try lia; try assumption.
        apply Forall_push; [assumption | discriminate]. }
      destruct (Ascii.eqb char "-"%char && peekIs cs' "-"%char).
      { apply C, readSingleLineComment_ok. }
      destruct (Ascii.eqb char "#"%char).
      { apply C, readSingleLineComment_ok. }
      destruct (Ascii.eqb char "/"%char && peekIs cs' "*"%char).
      { apply C, readMultiLineComment_ok. }
      destruct (Ascii.eqb char "'"%char).
      { apply K, readString_ok. }
      destruct (Ascii.eqb char JsString.dquote || Ascii.eqb char "`"%char).
      { apply K, readQuotedIdentifier_ok. }
      destruct (JsString.isDigit char) eqn:Ed.
      { apply K, readNumber_ok, Ed. }
      destruct (JsString.isIdentStart char) eqn:Ei.
      { apply K, readIdentifier_ok, Ei. }
      destruct (JsString.includesChar "=<>!+-*/%|" char).
      { apply K, readOperator_ok. }
      destruct (JsString.includesChar ";,.()[]" char).
      { apply K, readPunctuation_ok. }
      cbn [tokenizeOk]. eexists; split; [reflexivity | apply lexicalError_kind].
Qed.

End LexerFacts.

(** ** The parser: the budget of nested calls *)

Module ParserFuel.
Import Parser Budget.
Local Open Scope parser_scope.

Lemma leO_refl {A : Type} (o : Outcome A) : leO o o.
Proof. now right. Qed.

Lemma leO_trans {A : Type} (o1 o2 o3 : Outcome A) : leO o1 o2 -> leO o2 o3 -> leO o1 o3.
Proof. intros [->| ->] H; [now left | exact H]. Qed.

Lemma leO_result {A : Type} (o1 o2 : Outcome A) : leO o1 o2 -> o1 <> NoFuel -> o2 = o1.
Proof. intros [->| ->] H; [contradiction | reflexivity]. Qed.

Lemma leM_refl {A : Type} (m : M A) : leM m m.
Proof. intros pos. apply leO_refl. Qed.

Lemma leM_bind {A B : Type} (m1 m2 : M A) (f1 f2 : A -> M B) :
  leM m1 m2 -> (forall a, leM (f1 a) (f2 a)) -> leM (bind m1 f1) (bind m2 f2).
Proof.
  intros Hm Hf pos. unfold bind.
  destruct (Hm pos) as [-> | ->]; [now left|].
  destruct (m2 pos) as [[a pos']| |]; [apply Hf | now right | now right].
Qed.

Lemma leM_overflow {A : Type} (m : M A) : leM overflow m.
Proof. intros pos. now left. Qed.

Ltac mono_step :=
  first
    [ apply leM_refl
    | assumption
    | match goal with
      | H : forall a, leM (?f a) _ |- leM (?f _) _ => apply H
      | H : forall a b, leM (?f a b) _ |- leM (?f _ _) _ => apply H
      end
    | apply leM_bind; [ | intros ? ]
    | match goal with
      | |- leM (if ?b then _ else _) (if ?b then _ else _) => destruct b
      | |- leM (match ?x with _ => _ end) (match ?x with _ => _ end) => destruct x
      | |- leM (whenM _ _) (whenM _ _) => unfold whenM
      | |- leM (optionalClause _ _ _) (optionalClause _ _ _) => unfold optionalClause
      | |- leM (binaryLoop _ _ _ _ _) (binaryLoop _ _ _ _ _) => unfold binaryLoop
      end ].

Ltac mono := cbv zeta; repeat mono_step.

Section Mono.
Variable tokens : list Token.

Lemma methods_mono (t1 t2 : This) :
  leThis t1 t2 -> leThis (methods tokens t1) (methods tokens t2).
Proof.
  intros []. constructor; cbn [methods
    this_parseStatement this_parseUnionStatement this_parseUnionStatementWithoutOrderLimit this_parseSelectStatementWithoutOrderLimit this_parseWithStatement this_withLoop this_identifierLoop this_parseSelectStatement this_parseSelectColumns this_selectColumnsLoop this_parseFromClause this_fromLoop this_joinLoop this_parseTableReference this_parseJoinClause this_parseWhereClause this_parseGroupByClause this_expressionLoop this_parseHavingClause this_parseOrderByClause this_orderByLoop this_parseLimitClause this_parseInsertStatement this_valuesLoop this_parseUpdateStatement this_assignmentLoop this_parseDeleteStatement this_parseExpression this_parseOrExpression this_orLoop this_parseAndExpression this_andLoop this_parseEqualityExpression this_equalityLoop this_parseRelationalExpression this_relationalLoop this_inValuesLoop this_parseAdditiveExpression this_additiveLoop this_parseMultiplicativeExpression this_multiplicativeLoop this_parseUnaryExpression this_parsePrimaryExpression this_argumentLoop this_parseCaseExpression this_whenLoop this_parseOverClause this_parseWindowFrame this_parseFrameBound];
  intros.
  - unfold parseStatement; mono.
  - unfold parseUnionStatement; mono.
  - unfold parseUnionStatementWithoutOrderLimit; mono.
  - unfold parseSelectStatementWithoutOrderLimit; mono.
  - unfold parseWithStatement; mono.
  - unfold withLoop; mono.
  - unfold identifierLoop; mono.
  - unfold parseSelectStatement; mono.
  - unfold parseSelectColumns; mono.
  - unfold selectColumnsLoop; mono.
  - unfold parseFromClause; mono.
  - unfold fromLoop; mono.
  - unfold joinLoop; mono.
  - unfold parseTableReference; mono.
  - unfold parseJoinClause; mono.
  - unfold parseWhereClause; mono.
  - unfold parseGroupByClause; mono.
  - unfold expressionLoop; mono.
  - unfold parseHavingClause; mono.
  - unfold parseOrderByClause; mono.
  - unfold orderByLoop; mono.
  - unfold parseLimitClause; mono.
  - unfold parseInsertStatement; mono.
  - unfold valuesLoop; mono.
  - unfold parseUpdateStatement; mono.
  - unfold assignmentLoop; mono.
  - unfold parseDeleteStatement; mono.
  - unfold parseExpression; mono.
  - unfold parseOrExpression; mono.
  - unfold orLoop; mono.
  - unfold parseAndExpression; mono.
  - unfold andLoop; mono.
  - unfold parseEqualityExpression; mono.
  - unfold equalityLoop; mono.
  - unfold parseRelationalExpression; mono.
  - unfold relationalLoop; mono.
  - unfold inValuesLoop; mono.
  - unfold parseAdditiveExpression; mono.
  - unfold additiveLoop; mono.
  - unfold parseMultiplicativeExpression; mono.
  - unfold multiplicativeLoop; mono.
  - unfold parseUnaryExpression; mono.
  - unfold parsePrimaryExpression; mono.
  - unfold argumentLoop; mono.
  - unfold parseCaseExpression; mono.
  - unfold whenLoop; mono.
  - unfold parseOverClause; mono.
  - unfold parseWindowFrame; mono.
  - unfold parseFrameBound; mono.
Qed.

Lemma noThis_least (t : This) : leThis noThis t.
Proof. constructor; intros; apply leM_overflow. Qed.

Lemma leThis_refl (t : This) : leThis t t.
Proof. constructor; intros; apply leM_refl. Qed.

Lemma parser_add (n k : nat) : leThis (parser tokens n) (parser tokens (k + n)).
Proof.
  induction n as [|n IH]; [apply noThis_least|].
  rewrite Nat.add_succ_r. cbn [parser]. now apply methods_mono.
Qed.

Lemma parser_mono (n m : nat) : n <= m -> leThis (parser tokens n) (parser tokens m).
Proof.
  intros L. replace m with ((m - n) + n) by lia. apply parser_add.
Qed.

End Mono.

Lemma parseTokens_mono (tokens : list Token) (options : Options) (n m : nat) :
  n <= m -> leO (parseTokens tokens options n) (parseTokens tokens options m).
Proof.
  intros L. unfold parseTokens.
  pose proof (parser_mono tokens n m L) as [].
  match goal with
  | |- leO (match ?a 0 with _ => _ end) (match ?b 0 with _ => _ end) =>
      assert (H : leM a b)
  end.
  { mono. }
  destruct (H 0) as [-> | ->]; [now left | now right].
Qed.

(** what [parse] returns is what its body returns *)
Lemma parse_Return (fuel : nat) (tokens : list Token) (options : Options) (tree : node) :
  parse fuel tokens options = Return tree <->
  parseTokens (significant tokens) options fuel = Return tree.
Proof.
  unfold parse. destruct (parseTokens _ _ _); split; congruence.
Qed.

(** what [parse] raises is what its body raises, or the error of the
    stack when the bound is exceeded *)
Lemma parse_Throw (fuel : nat) (tokens : list Token) (options : Options) (e : Exn) :
  parse fuel tokens options = Throw e ->
  parseTokens (significant tokens) options fuel = Throw e
  \/ (parseTokens (significant tokens) options fuel = NoFuel /\ e = stackOverflow).
Proof.
  unfold parse. destruct (parseTokens _ _ _); intros H;
    [discriminate H | left; exact H | right; split; [reflexivity | congruence]].
Qed.

Lemma parse_settled (fuel : nat) (tokens : list Token) (options : Options) :
  parse fuel tokens options <> NoFuel.
Proof. unfold parse. destruct (parseTokens _ _ _); discriminate. Qed.

(** on a deeper stack [parse] gives the same, unless the stack ran out *)
Lemma parse_mono (tokens : list Token) (options : Options) (n m : nat) :
  n <= m ->
  parse n tokens options = Throw stackOverflow
  \/ parse n tokens options = parse m tokens options.
Proof.
  intros L. unfold parse.
  destruct (parseTokens_mono (significant tokens) options n m L) as [-> | ->];
    [now left | now right].
Qed.

End ParserFuel.

(** ** The parser: the shape of what it builds *)

Module ShapeFacts.
Import Parser Shape Invariant.
Local Open Scope parser_scope.

Lemma descendants_children (n : node) :
  Facade.descendants n
  = (Analyzer.unalias n :: flat_map Facade.descendants (children n))%list.
Proof.
  induction n; try reflexivity;
    unfold children; cbn [Facade.descendants Analyzer.unalias];
    try (f_equal;
         repeat match goal with
                | o : option _ |- _ => destruct o
                end;
         cbn [flat_map app];
         rewrite ?flat_map_app, ?app_nil_r, <- ?app_assoc; cbn [flat_map app];
         rewrite ?app_nil_r; reflexivity).
  exact IHn.
Qed.

Lemma Good_iff (n : node) :
  Good n <-> wellFormed (Analyzer.unalias n) = true /\ Forall Good (children n).
Proof.
  unfold Good. rewrite descendants_children, Forall_cons_iff, Forall_flat_map.
  reflexivity.
Qed.

Lemma Good_node (n : node) :
  wellFormed (Analyzer.unalias n) = true -> Forall Good (children n) -> Good n.
Proof. intros. apply Good_iff. now split. Qed.

Lemma Good_root (n : node) : Good n -> wellFormed (Analyzer.unalias n) = true.
Proof. intros H. now apply Good_iff in H. Qed.

Lemma Good_children (n : node) : Good n -> Forall Good (children n).
Proof. intros H. now apply Good_iff in H. Qed.

Lemma Good_setAlias (e : node) (a : string) : Good e -> Good (setAlias e a).
Proof.
  intros H. destruct e; cbn [setAlias]; try exact H;
    apply Good_iff in H; apply Good_iff; exact H.
Qed.

Lemma Forall_snoc {A : Type} (P : A -> Prop) (l : list A) (x : A) :
  Forall P l -> P x -> Forall P (l ++ [x])%list.
Proof. intros. apply Forall_app. split; [assumption | now constructor]. Qed.

(** goals on lists of children *)
Ltac good_list :=
  repeat first
    [ assumption
    | exact I
    | apply Forall_nil
    | apply Forall_cons
    | apply Forall_app; split
    | match goal with
      | H : Forall Good ?l /\ _ |- Forall Good ?l => exact (proj1 H)
      | |- Forall Good (fst _) => cbn [fst]
      | |- Forall Good (snd _) => cbn [snd]
      end ].

Lemma Good_setWith (q w : node) : Good q -> Good w -> Good (setWith q w).
Proof.
  intros Hq Hw. destruct q; cbn [setWith]; try exact Hq;
    apply Good_iff in Hq; destruct Hq as [R C]; apply Good_node;
    cbn [Analyzer.unalias wellFormed children] in *; try exact R;
    rewrite !Forall_app in *; intuition; now constructor.
Qed.

Lemma Good_setOrderLimit (q : node) (o l : option node) :
  Good q -> GoodOpt o -> GoodOpt l -> Good (setOrderLimit q o l).
Proof.
  intros Hq Ho Hl. destruct q; cbn [setOrderLimit]; try exact Hq.
  apply Good_iff in Hq; destruct Hq as [R C]; apply Good_node;
    cbn [Analyzer.unalias wellFormed children] in *; try exact R.
  rewrite !Forall_app in *.
  destruct o, l; cbn [GoodOpt] in *; intuition; now constructor.
Qed.

Lemma bind_inv {A B : Type} (m : M A) (k : A -> M B) (pos : nat) (r : B * nat) :
  bind m k pos = Return r ->
  exists a p, m pos = Return (a, p) /\ k a p = Return r.
Proof.
  unfold bind. destruct (m pos) as [[a p]| |]; try discriminate.
  intros H. now exists a, p.
Qed.

Lemma ret_inv {A : Type} (a b : A) (pos p : nat) :
  ret a pos = Return (b, p) -> b = a /\ p = pos.
Proof. unfold ret. intros [= <- <-]. now split. Qed.

Ltac head_of t :=
  match t with
  | ?f _ => head_of f
  | _ => t
  end.

(** goals on the nodes that a method builds *)
Ltac good_step :=
  match goal with
  | |- _ => assumption
  | |- True => exact I
  | |- _ /\ _ => split
  | |- Forall Good [] => apply Forall_nil
  | |- Forall Good (_ :: _) => apply Forall_cons
  | |- Forall Good (_ ++ _)%list => apply Forall_app; split
  | |- Forall Good (fst _) => cbn [fst]
  | |- Forall Good (snd _) => cbn [snd]
  | |- Forall Good (if ?b then _ else _) => destruct b
  | |- Forall Good (match ?x with _ => _ end) => destruct x
  | |- GoodOpt (Some _) => cbn [GoodOpt]
  | |- GoodOpt None => exact I
  | |- Good (setAlias _ _) => apply Good_setAlias
  | |- Good (setWith _ _) => apply Good_setWith
  | |- Good (setOrderLimit _ _ _) => apply Good_setOrderLimit
  | |- Good (if ?b then _ else _) => destruct b
  | |- Good (match ?x with _ => _ end) => destruct x
  | |- Good ?n =>
      let h := head_of n in
      is_constructor h;
      apply Good_node; cbn [Analyzer.unalias wellFormed children app fst snd]
  | H : plainSelect ?x = true |- plainSelect ?x || _ = true => rewrite H; reflexivity
  | |- _ && _ = true => apply andb_true_intro; split
  | |- _ = true => reflexivity
  end.

Ltac good :=
  unfold AST.select, AST.insert, AST.update, AST.delete, AST.union, AST.with_,
    AST.cte, AST.windowFunction, AST.over, AST.windowFrame, AST.binary,
    AST.unary, AST.function, AST.case, AST.when, AST.table, AST.column,
    AST.wildcard, AST.literal, AST.from, AST.join, AST.groupBy, AST.having,
    AST.orderBy, AST.orderByColumn, AST.limit, AST.assignment, AST.valuesList,
    AST.betweenRange, AST.interval, AST.subquery in *;
  repeat good_step.

(** one step of the reading of a run that returned *)
Ltac run_step :=
  match goal with
  | H : bind _ _ _ = Return _ |- _ =>
      apply bind_inv in H; destruct H as (? & ? & ? & H)
  | H : ret _ _ = Return _ |- _ =>
      apply ret_inv in H; destruct H as [? ?]; subst
  | H : throw _ _ = Return _ |- _ => discriminate H
  | H : overflow _ = Return _ |- _ => discriminate H
  | H : (if ?b then _ else _) _ = Return _ |- _ => destruct b eqn:?
  | H : (match ?x with _ => _ end) _ = Return _ |- _ => destruct x eqn:?
  | H : whenM _ _ _ = Return _ |- _ => unfold whenM in H
  | H : optionalClause _ _ _ _ = Return _ |- _ => unfold optionalClause in H
  | H : binaryLoop _ _ _ _ _ _ = Return _ |- _ => unfold binaryLoop in H
  | H : regularTableReference _ _ = Return _ |- _ => unfold regularTableReference in H
  | H : current _ _ = Return _ |- _ => clear H
  | H : advance _ _ = Return _ |- _ => clear H
  | H : backtrack _ = Return _ |- _ => clear H
  | H : matchType _ _ _ = Return _ |- _ => clear H
  | H : matchAny _ _ _ = Return _ |- _ => clear H
  | H : consume _ _ _ = Return _ |- _ => clear H
  | H : consumed _ _ _ = Return _ |- _ => clear H
  | H : expect _ _ _ = Return _ |- _ => clear H
  | H : currentToken _ _ _ = Return _ |- _ => clear H
  | H : misplacedError _ _ _ = Return _ |- _ => clear H
  | H : tableAlias _ _ = Return _ |- _ => clear H
  | H : frameDirection _ _ = Return _ |- _ => clear H
  | H : this_identifierLoop _ _ _ = Return _ |- _ => clear H
  | H : _ = Return _, S : forall _, _ |- _ =>
      let N := fresh in
      first [ pose proof (S _ _ _ H) as N
            | pose proof (S _ _ _ _ H) as N
            | pose proof (S _ _ _ _ _ H) as N ];
      clear H
  | H : _ /\ _ |- _ => destruct H
  end.

(** the premises of what a loop guarantees *)
Ltac premise_step :=
  match goal with
  | H : ?A -> _ |- _ =>
      match type of A with
      | Prop => let X := fresh in assert (X : A) by good; specialize (H X)
      end
  end.

Ltac solve_method :=
  cbv zeta in *; repeat (first [run_step | premise_step]); good.

Section Step.
Variable tokens : list Token.


Lemma methods_sound (t : This) : Sound t -> Sound (methods tokens t).
Proof.
  intros []. constructor; cbn [methods
    this_parseStatement this_parseUnionStatement this_parseUnionStatementWithoutOrderLimit this_parseSelectStatementWithoutOrderLimit this_parseWithStatement this_withLoop this_identifierLoop this_parseSelectStatement this_parseSelectColumns this_selectColumnsLoop this_parseFromClause this_fromLoop this_joinLoop this_parseTableReference this_parseJoinClause this_parseWhereClause this_parseGroupByClause this_expressionLoop this_parseHavingClause this_parseOrderByClause this_orderByLoop this_parseLimitClause this_parseInsertStatement this_valuesLoop this_parseUpdateStatement this_assignmentLoop this_parseDeleteStatement this_parseExpression this_parseOrExpression this_orLoop this_parseAndExpression this_andLoop this_parseEqualityExpression this_equalityLoop this_parseRelationalExpression this_relationalLoop this_inValuesLoop this_parseAdditiveExpression this_additiveLoop this_parseMultiplicativeExpression this_multiplicativeLoop this_parseUnaryExpression this_parsePrimaryExpression this_argumentLoop this_parseCaseExpression this_whenLoop this_parseOverClause this_parseWindowFrame this_parseFrameBound];
  intros *; intros H; intros.
  - unfold parseStatement in H; solve_method.
  - unfold parseUnionStatement in H; solve_method.
  - unfold parseUnionStatementWithoutOrderLimit in H; solve_method.
  - unfold parseSelectStatementWithoutOrderLimit in H; solve_method.
  - unfold parseWithStatement in H; solve_method.
  - unfold withLoop in H; solve_method.
  - unfold parseSelectStatement in H; solve_method.
  - unfold parseSelectColumns in H; solve_method.
  - unfold selectColumnsLoop in H; solve_method.
  - unfold parseFromClause in H; solve_method.
  - unfold fromLoop in H; solve_method.
  - unfold joinLoop in H; solve_method.
  - unfold parseTableReference in H; solve_method.
  - unfold parseJoinClause in H; solve_method.
  - unfold parseWhereClause in H; solve_method.
  - unfold parseGroupByClause in H; solve_method.
  - unfold expressionLoop in H; solve_method.
  - unfold parseHavingClause in H; solve_method.
  - unfold parseOrderByClause in H; solve_method.
  - unfold orderByLoop in H; solve_method.
  - unfold parseLimitClause in H; solve_method.
  - unfold parseInsertStatement in H; solve_method.
  - unfold valuesLoop in H; solve_method.
  - unfold parseUpdateStatement in H; solve_method.
  - unfold assignmentLoop in H; solve_method.
  - unfold parseDeleteStatement in H; solve_method.
  - unfold parseExpression in H; solve_method.
  - unfold parseOrExpression in H; solve_method.
  - unfold orLoop in H; solve_method.
  - unfold parseAndExpression in H; solve_method.
  - unfold andLoop in H; solve_method.
  - unfold parseEqualityExpression in H; solve_method.
  - unfold equalityLoop in H; solve_method.
  - unfold parseRelationalExpression in H; solve_method.
  - unfold relationalLoop in H; solve_method.
  - unfold inValuesLoop in H; solve_method.
  - unfold parseAdditiveExpression in H; solve_method.
  - unfold additiveLoop in H; solve_method.
  - unfold parseMultiplicativeExpression in H; solve_method.
  - unfold multiplicativeLoop in H; solve_method.
  - unfold parseUnaryExpression in H; solve_method.
  - unfold parsePrimaryExpression in H; solve_method.
  - unfold argumentLoop in H; solve_method.
  - unfold parseCaseExpression in H; solve_method.
  - unfold whenLoop in H; solve_method.
  - unfold parseOverClause in H; solve_method.
  - unfold parseWindowFrame in H; solve_method.
  - unfold parseFrameBound in H; solve_method.
Qed.

Lemma noThis_sound : Sound noThis.
Proof. constructor; intros; discriminate. Qed.

Lemma parser_sound (fuel : nat) : Sound (parser tokens fuel).
Proof.
  induction fuel as [|fuel IH]; [apply noThis_sound|].
  cbn [parser]. now apply methods_sound.
Qed.

Lemma parseTokens_good (options : Options) (fuel : nat) (tree : node) :
  parseTokens tokens options fuel = Return tree -> Good tree.
Proof.
  unfold parseTokens. intros H.
  match type of H with
  | match ?run 0 with _ => _ end = _ => destruct (run 0) as [[n p]| |] eqn:E
  end; try discriminate.
  injection H as ->.
  pose proof (parser_sound fuel) as [].
  solve_method.
Qed.

End Step.

Lemma parse_good (fuel : nat) (tokens : list Token) (options : Options) (tree : node) :
  parse fuel tokens options = Return tree -> Good tree.
Proof. intros P. apply ParserFuel.parse_Return in P. revert P. apply parseTokens_good. Qed.


End ShapeFacts.

(** ** The parser: every call returns or raises *)

Module ProgressFacts.
Import Parser Progress.
Local Open Scope parser_scope.

Lemma total_bind {A B : Type} (m : M A) (k : A -> M B) (pos : nat)
      (Q : B -> nat -> Prop) :
  total m pos (fun a p => total (k a) p Q) -> total (bind m k) pos Q.
Proof. unfold total, bind. destruct (m pos) as [[a p]|e|]; auto. Qed.

Lemma total_ret {A : Type} (a : A) (pos : nat) (Q : A -> nat -> Prop) :
  Q a pos -> total (ret a) pos Q.
Proof. intros H. exact H. Qed.

Lemma total_throw {A : Type} (e : Exn) (pos : nat) (Q : A -> nat -> Prop) :
  e <> stackOverflow -> total (throw e) pos Q.
Proof. intros H. exact H. Qed.

Lemma typeError_own (property : string) : typeError property <> stackOverflow.
Proof. discriminate. Qed.

Lemma SQLError_own (e : SQLError) : ESQL e <> stackOverflow.
Proof. discriminate. Qed.

Lemma total_weaken {A : Type} (m : M A) (pos : nat) (P Q : A -> nat -> Prop) :
  total m pos P -> (forall a p, P a p -> Q a p) -> total m pos Q.
Proof. unfold total. destruct (m pos) as [[a p]|e|]; auto. Qed.

Section Primitives.
Variable tokens : list Token.
Let size := length tokens.

Lemma current_total (pos : nat) :
  total (current tokens) pos
        (fun o p => p = pos /\ match o with Some _ => pos < size | None => True end).
Proof.
  unfold total, current. split; [reflexivity|].
  destruct (nth_error tokens pos) eqn:E; [|exact I].
  apply nth_error_Some. congruence.
Qed.

Lemma advance_total (pos : nat) :
  total (advance tokens) pos
        (fun _ p => (pos < size /\ p = S pos) \/ (size <= pos /\ p = pos)).
Proof.
  unfold total, advance. fold size.
  destruct (Nat.ltb_spec pos size); [left | right]; split; auto.
Qed.

Lemma backtrack_total (pos : nat) :
  total backtrack pos (fun _ p => p = pos - 1).
Proof. reflexivity. Qed.

Lemma getPosition_total (pos : nat) :
  total getPosition pos (fun a p => a = pos /\ p = pos).
Proof. split; reflexivity. Qed.

Lemma matchType_total (ty : TokenType) (pos : nat) :
  total (matchType tokens ty) pos
        (fun b p => p = pos /\ if b then pos < size else True).
Proof.
  unfold matchType. apply total_bind.
  eapply total_weaken; [apply current_total|].
  intros o p [-> H]. apply total_ret. split; [reflexivity|].
  destruct o as [t|]; [|exact I]. destruct (tokenIs t ty); [exact H | exact I].
Qed.

Lemma matchAny_total (tys : list TokenType) (pos : nat) :
  total (matchAny tokens tys) pos
        (fun b p => p = pos /\ if b then pos < size else True).
Proof.
  unfold matchAny. apply total_bind.
  eapply total_weaken; [apply current_total|].
  intros o p [-> H]. apply total_ret. split; [reflexivity|].
  destruct o as [t|]; [|exact I]. destruct (isOneOf t tys); [exact H | exact I].
Qed.

Lemma consume_total (ty : TokenType) (pos : nat) :
  total (consume tokens ty) pos
        (fun o p => match o with
                    | Some _ => pos < size /\ p = S pos
                    | None => p = pos
                    end).
Proof.
  unfold total, consume, matchType, bind, current, ret, advance. fold size.
  destruct (nth_error tokens pos) as [t|] eqn:E; [|reflexivity].
  assert (L : pos < size) by (apply nth_error_Some; congruence).
  destruct (tokenIs t ty); [|reflexivity].
  pose proof L as L'. apply Nat.ltb_lt in L'. rewrite L', E. split; [exact L | reflexivity].
Qed.

Lemma consumed_total (ty : TokenType) (pos : nat) :
  total (consumed tokens ty) pos
        (fun b p => if b then pos < size /\ p = S pos else p = pos).
Proof.
  unfold consumed. apply total_bind.
  eapply total_weaken; [apply consume_total|].
  intros o p H. apply total_ret. destruct o; exact H.
Qed.

Lemma expect_total (ty : TokenType) (pos : nat) :
  total (expect tokens ty) pos (fun _ p => pos < size /\ p = S pos).
Proof.
  unfold expect. apply total_bind.
  eapply total_weaken; [apply current_total|].
  intros o p [-> H]. destruct o as [t|]; [|apply total_throw; discriminate].
  destruct (tokenIs t TT.EOF); [apply total_throw; discriminate|].
  destruct (negb (tokenIs t ty)); [apply total_throw; discriminate|].
  apply total_bind. eapply total_weaken; [apply advance_total|].
  intros u p A. cbv beta in A. apply total_ret. lia.
Qed.

Lemma currentToken_total (property : string) (pos : nat) :
  total (currentToken tokens property) pos (fun _ p => p = pos /\ pos < size).
Proof.
  unfold currentToken. apply total_bind.
  eapply total_weaken; [apply current_total|].
  intros o p [-> H]. destruct o as [t|]; [|apply total_throw; discriminate].
  apply total_ret. auto.
Qed.

Lemma misplacedError_total (msg : string) (pos : nat) :
  total (misplacedError tokens msg) pos (fun _ p => p = pos).
Proof.
  unfold misplacedError. apply total_bind.
  eapply total_weaken; [apply current_total|].
  intros o p [-> H]. apply total_ret. reflexivity.
Qed.

End Primitives.


(** what is known of the positions, in the form that [lia] reads *)
Ltac facts :=
  cbv beta iota in *;
  repeat match goal with
         | H : _ /\ _ |- _ => destruct H
         | H : True |- _ => clear H
         | H : ?p = _ |- _ => is_var p; subst p
         | H : _ \/ _ |- _ => destruct H; try (exfalso; lia)
         | H : (if ?b then _ else _) |- _ => destruct b
         | H : match ?o with Some _ => _ | None => _ end |- _ => destruct o
         end.

Ltac wp_prim L :=
  eapply total_weaken; [apply L | cbv beta; intros ? ? ?; facts].

Ltac wp_call L :=
  eapply total_weaken;
  [ eapply L; [lia | unfold within in *; lia]
  | cbv beta; intros ? ? ?; unfold moves, consumes in *; facts ].

(** one step of the run of a method body *)
Ltac wp_step IH :=
  cbv beta zeta;
  lazymatch goal with
  | |- total (bind _ _) _ _ => apply total_bind
  | |- total (ret _) _ _ => apply total_ret; cbv beta
  | |- total (throw _) _ _ => apply total_throw; discriminate
  | |- total (if ?b then _ else _) _ _ => destruct b; facts
  | |- total (match ?o with Some _ => _ | None => _ end) _ _ => destruct o; facts
  | |- total (whenM _ _) _ _ => unfold whenM
  | |- total (optionalClause _ _ _) _ _ => unfold optionalClause
  | |- total (binaryLoop _ _ _ _ _) _ _ => unfold binaryLoop
  | |- total (regularTableReference _) _ _ => unfold regularTableReference
  | |- total (tableAlias _) _ _ => unfold tableAlias
  | |- total (frameDirection _) _ _ => unfold frameDirection
  | |- total (current _) _ _ => wp_prim current_total
  | |- total (advance _) _ _ => wp_prim advance_total
  | |- total backtrack _ _ => wp_prim backtrack_total
  | |- total getPosition _ _ => wp_prim getPosition_total
  | |- total (matchType _ _) _ _ => wp_prim matchType_total
  | |- total (matchAny _ _) _ _ => wp_prim matchAny_total
  | |- total (consume _ _) _ _ => wp_prim consume_total
  | |- total (consumed _ _) _ _ => wp_prim consumed_total
  | |- total (expect _ _) _ _ => wp_prim expect_total
  | |- total (currentToken _ _) _ _ => wp_prim currentToken_total
  | |- total (misplacedError _ _) _ _ => wp_prim misplacedError_total
  | |- total (this_parseStatement _) _ _ => wp_call (live_parseStatement _ _ _ IH)
  | |- total (this_parseUnionStatement _) _ _ => wp_call (live_parseUnionStatement _ _ _ IH)
  | |- total (this_parseUnionStatementWithoutOrderLimit _) _ _ => wp_call (live_parseUnionStatementWithoutOrderLimit _ _ _ IH)
  | |- total (this_parseSelectStatementWithoutOrderLimit _) _ _ => wp_call (live_parseSelectStatementWithoutOrderLimit _ _ _ IH)
  | |- total (this_parseWithStatement _) _ _ => wp_call (live_parseWithStatement _ _ _ IH)
  | |- total (this_withLoop _ _) _ _ => wp_call (live_withLoop _ _ _ IH)
  | |- total (this_identifierLoop _ _) _ _ => wp_call (live_identifierLoop _ _ _ IH)
  | |- total (this_parseSelectStatement _) _ _ => wp_call (live_parseSelectStatement _ _ _ IH)
  | |- total (this_parseSelectColumns _) _ _ => wp_call (live_parseSelectColumns _ _ _ IH)
  | |- total (this_selectColumnsLoop _ _) _ _ => wp_call (live_selectColumnsLoop _ _ _ IH)
  | |- total (this_parseFromClause _) _ _ => wp_call (live_parseFromClause _ _ _ IH)
  | |- total (this_fromLoop _ _ _) _ _ => wp_call (live_fromLoop _ _ _ IH)
  | |- total (this_joinLoop _ _) _ _ => wp_call (live_joinLoop _ _ _ IH)
  | |- total (this_parseTableReference _) _ _ => wp_call (live_parseTableReference _ _ _ IH)
  | |- total (this_parseJoinClause _) _ _ => wp_call (live_parseJoinClause _ _ _ IH)
  | |- total (this_parseWhereClause _) _ _ => wp_call (live_parseWhereClause _ _ _ IH)
  | |- total (this_parseGroupByClause _) _ _ => wp_call (live_parseGroupByClause _ _ _ IH)
  | |- total (this_expressionLoop _ _) _ _ => wp_call (live_expressionLoop _ _ _ IH)
  | |- total (this_parseHavingClause _) _ _ => wp_call (live_parseHavingClause _ _ _ IH)
  | |- total (this_parseOrderByClause _) _ _ => wp_call (live_parseOrderByClause _ _ _ IH)
  | |- total (this_orderByLoop _ _) _ _ => wp_call (live_orderByLoop _ _ _ IH)
  | |- total (this_parseLimitClause _) _ _ => wp_call (live_parseLimitClause _ _ _ IH)
  | |- total (this_parseInsertStatement _) _ _ => wp_call (live_parseInsertStatement _ _ _ IH)
  | |- total (this_valuesLoop _ _) _ _ => wp_call (live_valuesLoop _ _ _ IH)
  | |- total (this_parseUpdateStatement _) _ _ => wp_call (live_parseUpdateStatement _ _ _ IH)
  | |- total (this_assignmentLoop _ _) _ _ => wp_call (live_assignmentLoop _ _ _ IH)
  | |- total (this_parseDeleteStatement _) _ _ => wp_call (live_parseDeleteStatement _ _ _ IH)
  | |- total (this_parseExpression _) _ _ => wp_call (live_parseExpression _ _ _ IH)
  | |- total (this_parseOrExpression _) _ _ => wp_call (live_parseOrExpression _ _ _ IH)
  | |- total (this_orLoop _ _) _ _ => wp_call (live_orLoop _ _ _ IH)
  | |- total (this_parseAndExpression _) _ _ => wp_call (live_parseAndExpression _ _ _ IH)
  | |- total (this_andLoop _ _) _ _ => wp_call (live_andLoop _ _ _ IH)
  | |- total (this_parseEqualityExpression _) _ _ => wp_call (live_parseEqualityExpression _ _ _ IH)
  | |- total (this_equalityLoop _ _) _ _ => wp_call (live_equalityLoop _ _ _ IH)
  | |- total (this_parseRelationalExpression _) _ _ => wp_call (live_parseRelationalExpression _ _ _ IH)
  | |- total (this_relationalLoop _ _) _ _ => wp_call (live_relationalLoop _ _ _ IH)
  | |- total (this_inValuesLoop _ _) _ _ => wp_call (live_inValuesLoop _ _ _ IH)
  | |- total (this_parseAdditiveExpression _) _ _ => wp_call (live_parseAdditiveExpression _ _ _ IH)
  | |- total (this_additiveLoop _ _) _ _ => wp_call (live_additiveLoop _ _ _ IH)
  | |- total (this_parseMultiplicativeExpression _) _ _ => wp_call (live_parseMultiplicativeExpression _ _ _ IH)
  | |- total (this_multiplicativeLoop _ _) _ _ => wp_call (live_multiplicativeLoop _ _ _ IH)
  | |- total (this_parseUnaryExpression _) _ _ => wp_call (live_parseUnaryExpression _ _ _ IH)
  | |- total (this_parsePrimaryExpression _) _ _ => wp_call (live_parsePrimaryExpression _ _ _ IH)
  | |- total (this_argumentLoop _ _) _ _ => wp_call (live_argumentLoop _ _ _ IH)
  | |- total (this_parseCaseExpression _) _ _ => wp_call (live_parseCaseExpression _ _ _ IH)
  | |- total (this_whenLoop _ _) _ _ => wp_call (live_whenLoop _ _ _ IH)
  | |- total (this_parseOverClause _) _ _ => wp_call (live_parseOverClause _ _ _ IH)
  | |- total (this_parseWindowFrame _) _ _ => wp_call (live_parseWindowFrame _ _ _ IH)
  | |- total (this_parseFrameBound _) _ _ => wp_call (live_parseFrameBound _ _ _ IH)
  | |- moves _ _ _ _ => unfold moves; lia
  | |- consumes _ _ _ _ => unfold consumes; lia
  | |- _ /\ _ => lia
  end.

Ltac wp IH := repeat wp_step IH.

Section Step.
Variable tokens : list Token.

Lemma methods_live (t : This) (fuel : nat) :
  Live (length tokens) t fuel -> Live (length tokens) (methods tokens t) (S fuel).
Proof.
  intros IH. constructor; cbn [methods
    this_parseStatement this_parseUnionStatement this_parseUnionStatementWithoutOrderLimit this_parseSelectStatementWithoutOrderLimit this_parseWithStatement this_withLoop this_identifierLoop this_parseSelectStatement this_parseSelectColumns this_selectColumnsLoop this_parseFromClause this_fromLoop this_joinLoop this_parseTableReference this_parseJoinClause this_parseWhereClause this_parseGroupByClause this_expressionLoop this_parseHavingClause this_parseOrderByClause this_orderByLoop this_parseLimitClause this_parseInsertStatement this_valuesLoop this_parseUpdateStatement this_assignmentLoop this_parseDeleteStatement this_parseExpression this_parseOrExpression this_orLoop this_parseAndExpression this_andLoop this_parseEqualityExpression this_equalityLoop this_parseRelationalExpression this_relationalLoop this_inValuesLoop this_parseAdditiveExpression this_additiveLoop this_parseMultiplicativeExpression this_multiplicativeLoop this_parseUnaryExpression this_parsePrimaryExpression this_argumentLoop this_parseCaseExpression this_whenLoop this_parseOverClause this_parseWindowFrame this_parseFrameBound];
  intros *; intros L W.
  - unfold parseStatement; wp IH.
  - unfold parseUnionStatement; wp IH.
  - unfold parseUnionStatementWithoutOrderLimit; wp IH.
  - unfold parseSelectStatementWithoutOrderLimit; wp IH.
  - unfold parseWithStatement; wp IH.
  - unfold withLoop; wp IH.
  - unfold identifierLoop; wp IH.
  - unfold parseSelectStatement; wp IH.
  - unfold parseSelectColumns; wp IH.
  - unfold selectColumnsLoop; wp IH.
  - unfold parseFromClause; wp IH.
  - unfold fromLoop; wp IH.
  - unfold joinLoop; wp IH.
  - unfold parseTableReference; wp IH.
  - unfold parseJoinClause; wp IH.
  - unfold parseWhereClause; wp IH.
  - unfold parseGroupByClause; wp IH.
  - unfold expressionLoop; wp IH.
  - unfold parseHavingClause; wp IH.
  - unfold parseOrderByClause; wp IH.
  - unfold orderByLoop; wp IH.
  - unfold parseLimitClause; wp IH.
  - unfold parseInsertStatement; wp IH.
  - unfold valuesLoop; wp IH.
  - unfold parseUpdateStatement; wp IH.
  - unfold assignmentLoop; wp IH.
  - unfold parseDeleteStatement; wp IH.
  - unfold parseExpression; wp IH.
  - unfold parseOrExpression; wp IH.
  - unfold orLoop; wp IH.
  - unfold parseAndExpression; wp IH.
  - unfold andLoop; wp IH.
  - unfold parseEqualityExpression; wp IH.
  - unfold equalityLoop; wp IH.
  - unfold parseRelationalExpression; wp IH.
  - unfold relationalLoop; wp IH.
  - unfold inValuesLoop; wp IH.
  - unfold parseAdditiveExpression; wp IH.
  - unfold additiveLoop; wp IH.
  - unfold parseMultiplicativeExpression; wp IH.
  - unfold multiplicativeLoop; wp IH.
  - unfold parseUnaryExpression; wp IH.
  - unfold parsePrimaryExpression; wp IH.
  - unfold argumentLoop; wp IH.
  - unfold parseCaseExpression; wp IH.
  - unfold whenLoop; wp IH.
  - unfold parseOverClause; wp IH.
  - unfold parseWindowFrame; wp IH.
  - unfold parseFrameBound; wp IH.
Qed.

Lemma noThis_live : Live (length tokens) noThis 0.
Proof. constructor; intros *; intros L W; unfold within in W; lia. Qed.

Lemma parser_live (fuel : nat) : Live (length tokens) (parser tokens fuel) fuel.
Proof.
  induction fuel as [|fuel IH]; [exact noThis_live|].
  exact (methods_live _ _ IH).
Qed.

Lemma parseTokens_total (options : Options) (fuel : nat) :
  12 * length tokens + 2 < fuel ->
  parseTokens tokens options fuel <> NoFuel
  /\ parseTokens tokens options fuel <> Throw stackOverflow.
Proof.
  intros W. pose proof (parser_live fuel) as IH.
  assert (L : 0 <= length tokens) by lia.
  assert (W0 : within (length tokens) 0 2 fuel) by (unfold within; lia).
  unfold parseTokens. cbv zeta.
  match goal with
  | |- match ?run 0 with _ => _ end <> NoFuel /\ _ =>
      assert (T : total run 0 (fun _ _ => True));
      [|unfold total in T; destruct (run 0) as [[a p]|e|];
        [split; discriminate | split; [discriminate | congruence] | exact (False_ind _ T)]]
  end.
  wp IH; exact I.
Qed.

End Step.

(** on a stack that holds [enough tokens] nested calls, [parse] does not
    raise the error of the stack *)
Lemma parse_total (fuel : nat) (tokens : list Token) (options : Options) :
  enough tokens <= fuel -> parse fuel tokens options <> Throw stackOverflow.
Proof.
  intros W. unfold parse.
  destruct (parseTokens_total (significant tokens) options fuel) as [N T].
  { unfold enough in W. lia. }
  destruct (parseTokens _ _ _); [discriminate | exact T | congruence].
Qed.

(** from [enough tokens] on, the budget does not matter *)
Lemma parse_settles (fuel : nat) (tokens : list Token) (options : Options) :
  enough tokens <= fuel ->
  parse fuel tokens options = parse (enough tokens) tokens options.
Proof.
  intros W.
  destruct (ParserFuel.parse_mono tokens options (enough tokens) fuel W) as [N | E].
  - exfalso. revert N. apply parse_total. apply Nat.le_refl.
  - symmetry. exact E.
Qed.

End ProgressFacts.

(** ** The facade: results do not depend on the budget *)

Module FacadeFacts.
Import Facade Budget ParserFuel Progress.

(** on a deeper stack [parseSQL] returns the same, unless the stack ran out *)
Lemma parseSQL_mono (s : JsArg) (o : Options) (n m : nat) :
  n <= m ->
  parseSQL n s o = Return exhausted \/ parseSQL n s o = parseSQL m s o.
Proof.
  intros L. unfold parseSQL. destruct s as [s|x]; [|now right].
  destruct (Lexer.tokenize s _) as [toks|e|]; try now right.
  destruct (parse_mono toks (Parser.mkOptions (strict o)) n m L) as [-> | ->];
    [now left | now right].
Qed.

Lemma extractTables_object (fuel : nat) (x : node) :
  extractTables fuel (ArgObject x) = Return [].
Proof. reflexivity. Qed.

Lemma analyzeSQL_exhausted (fuel : nat) (s : string) (o : Options) :
  parseSQL fuel (ArgString s) o = Return exhausted ->
  analyzeSQL fuel (ArgString s) o = Return (exhaustedAnalysis s).
Proof. intros P. unfold analyzeSQL. rewrite P. reflexivity. Qed.

Lemma analyzeSQL_mono (s : string) (o : Options) (n m : nat) :
  n <= m ->
  analyzeSQL n (ArgString s) o = Return (exhaustedAnalysis s)
  \/ analyzeSQL n (ArgString s) o = analyzeSQL m (ArgString s) o.
Proof.
  intros L.
  destruct (parseSQL_mono (ArgString s) o n m L) as [E | E].
  - left. now apply analyzeSQL_exhausted.
  - right. unfold analyzeSQL. rewrite E. reflexivity.
Qed.

(** an answer obtained on some stack is the answer on any deeper one, and a
    smaller stack gives it or the answer [d] of the stack that ran out *)
Lemma stable {A : Type} (f : nat -> A) (d : A) (n0 : nat) (r : A) :
  (forall n m, n <= m -> f n = d \/ f n = f m) ->
  f n0 = r -> r <> d ->
  forall n, (n0 <= n -> f n = r) /\ (f n = d \/ f n = r).
Proof.
  intros Mono E NF n.
  assert (G : n0 <= n -> f n = r).
  { intros L. destruct (Mono n0 n L) as [H | H]; congruence. }
  split; [exact G|].
  destruct (Nat.le_gt_cases n0 n) as [L | L]; [right; auto|].
  destruct (Mono n n0 (Nat.lt_le_incl _ _ L)) as [H | H]; [now left | right; congruence].
Qed.

(** the complexity of a successful analysis is that of its lists: for a
    statement that is not a SELECT the lists are empty and the record is
    the literal of the source *)
Lemma analyzeSQL_complexity (fuel : nat) (s : JsArg) (o : Options)
      (q : QueryInfo) (a : Analyzer.Analysis) (c : Analyzer.Complexity)
      (p : ParseResult) :
  analyzeSQL fuel s o = Return (AnalyzeSuccess q a c p) ->
  c = Analyzer.analyzeQueryComplexity a.
Proof.
  unfold analyzeSQL. intros H.
  destruct (parseSQL fuel s o) as [r|e|].
  - destruct (negb (success r)); [discriminate|].
    destruct (ast r) as [tree|].
    + destruct (String.eqb (nodeType tree) "SelectStatement").
      * destruct (Analyzer.analyzeSelectQuery tree) as [x|e|].
        -- now injection H as _ <- <- _.
        -- destruct s; discriminate.
        -- discriminate.
      * cbn in H. now injection H as _ <- <- _.
    + destruct s; discriminate.
  - destruct s; discriminate.
  - discriminate.
Qed.

(** with a budget that is enough, [parseSQL] returns on every text, and
    what it returns does not depend on the budget *)
Lemma parseSQL_settles (s : string) (o : Options) :
  exists r, forall fuel, budget s o <= fuel -> parseSQL fuel (ArgString s) o = Return r.
Proof.
  unfold parseSQL, budget.
  destruct (Lexer.tokenize s _) as [toks|e|] eqn:E.
  - destruct (Parser.parse (enough toks) toks (Parser.mkOptions (strict o)))
      as [tree|e|] eqn:P.
    + eexists. intros fuel W. rewrite (ProgressFacts.parse_settles _ _ _ W), P.
      reflexivity.
    + eexists. intros fuel W. rewrite (ProgressFacts.parse_settles _ _ _ W), P.
      reflexivity.
    + exfalso. revert P. apply ParserFuel.parse_settled.
  - eexists. intros fuel _. reflexivity.
  - exfalso.
    pose proof (LexerFacts.tokenizeLoop_ok
                  (length (JsString.toList s))
                  (Lexer.mkOptions (includeWhitespace o) (includeComments o))
                  (JsString.toList s) (Lexer.mkCursor 0 1 1) []) as T.
    unfold Lexer.tokenize in E. rewrite E in T. apply T; [lia | constructor].
Qed.

End FacadeFacts.

(** ** The analyzer *)

Module AnalyzerFacts.
Import Analyzer.

Lemma score_addFactor (c : Complexity) (t : bool) (p : nat) (f : Factor) :
  score (addFactor c t p f) = score c + (if t then p else 0).
Proof. destruct t; cbn; lia. Qed.

Lemma score_setLevel (c : Complexity) : score (setLevel c) = score c.
Proof. reflexivity. Qed.

Lemma level_setLevel (c : Complexity) :
  level (setLevel c)
  = (if score c <=? 5 then "simple" else if score c <=? 15 then "medium" else "complex").
Proof. reflexivity. Qed.

End AnalyzerFacts.

(** ** Numbers *)

Module NumberFacts.
Import Examples.

Lemma toList_ofList (cs : list ascii) : JsString.toList (JsString.ofList cs) = cs.
Proof. induction cs as [|c cs IH]; cbn; [reflexivity | now rewrite IH]. Qed.

Lemma digit_is_plain (c : ascii) :
  JsString.isDigit c = true ->
  JsString.isSpace c = false
  /\ Ascii.eqb c "-"%char = false /\ Ascii.eqb c "+"%char = false.
Proof.
  unfold JsString.isDigit, JsString.isSpace. intros H.
  apply andb_true_iff in H. destruct H as [H1 H2].
  apply Nat.leb_le in H1. apply Nat.leb_le in H2.
  repeat split.
  - destruct (Nat.leb_spec 9 (JsString.code c)), (Nat.leb_spec (JsString.code c) 13),
      (Nat.eqb_spec (JsString.code c) 32), (Nat.eqb_spec (JsString.code c) 160);
      cbn; try reflexivity; lia.
  - destruct (Ascii.eqb_spec c "-"%char) as [-> |]; [|reflexivity].
    cbn in H1. lia.
  - destruct (Ascii.eqb_spec c "+"%char) as [-> |]; [|reflexivity].
    cbn in H1. lia.
Qed.

Lemma spanDigits_leading (ds rest : list ascii) :
  forallb JsString.isDigit ds = true -> stopsDigits rest ->
  JsNumber.spanDigits (ds ++ rest)%list = (ds, rest).
Proof.
  intros D S. induction ds as [|d ds IH]; cbn [app].
  - destruct rest as [|c rest]; [reflexivity|].
    cbn in *. now rewrite S.
  - cbn in D. apply andb_true_iff in D. destruct D as [Dd D].
    cbn. rewrite Dd, (IH D). reflexivity.
Qed.

Lemma stripTwos_spec (fuel : nat) : forall m e : Z,
  (0 < m)%Z -> (m < 2 ^ Z.of_nat fuel)%Z ->
  Z.odd (fst (JsNumber.stripTwos fuel m e)) = true
  /\ (e <= snd (JsNumber.stripTwos fuel m e))%Z
  /\ m = (fst (JsNumber.stripTwos fuel m e)
          * 2 ^ (snd (JsNumber.stripTwos fuel m e) - e))%Z.
Proof.
  induction fuel as [|fuel IH]; intros m e Pm Bm.
  - cbn in Bm. lia.
  - cbn [JsNumber.stripTwos].
    destruct (Z.eqb_spec m 0) as [->|_]; [lia|].
    destruct (Z.even m) eqn:Ev.
    + apply Z.even_spec in Ev. destruct Ev as [h ->].
      replace (2 * h / 2)%Z with h by (rewrite Z.mul_comm, Z.div_mul; lia).
      rewrite Nat2Z.inj_succ, Z.pow_succ_r in Bm by lia.
      destruct (IH h (e + 1)%Z) as (O & L & V); [lia | lia |].
      split; [exact O|]. split; [lia|].
      set (m' := fst (JsNumber.stripTwos fuel h (e + 1))) in *.
      set (e' := snd (JsNumber.stripTwos fuel h (e + 1))) in *.
      replace (e' - e)%Z with (Z.succ (e' - (e + 1)))%Z by lia.
      rewrite Z.pow_succ_r by lia. lia.
    + cbn [fst snd]. rewrite <- Z.negb_even, Ev. split; [reflexivity|].
      split; [lia|]. rewrite Z.sub_diag. cbn. lia.
Qed.

Lemma make_exact (negative : bool) (n k : Z) :
  (0 < n)%Z -> (0 <= k)%Z ->
  integerOf (JsNumber.make negative (n * 2 ^ k) (- k)) = Some (JsNumber.signed negative n).
Proof.
  intros Pn Pk. unfold JsNumber.make.
  assert (Pm : (0 < n * 2 ^ k)%Z) by (apply Z.mul_pos_pos; [exact Pn | apply Z.pow_pos_nonneg; lia]).
  destruct (stripTwos_spec (S (Z.to_nat (Z.log2 (n * 2 ^ k)))) (n * 2 ^ k) (- k) Pm)
    as (O & L & V).
  { rewrite Nat2Z.inj_succ, Z2Nat.id by apply Z.log2_nonneg.
    apply Z.log2_spec. exact Pm. }
  destruct (JsNumber.stripTwos _ _ _) as [m' e']. cbn [fst snd] in *.
  cbn [integerOf].
  destruct (Z.leb_spec 0 e') as [Pe|Ne].
  - f_equal. f_equal.
    replace (e' - - k)%Z with (e' + k)%Z in V by lia.
    rewrite Z.pow_add_r in V by lia.
    assert (P2 : (0 < 2 ^ k)%Z) by (apply Z.pow_pos_nonneg; lia).
    nia.
  - exfalso.
    replace k with ((e' - - k) + (- e' - 1) + 1)%Z in V at 1 by lia.
    rewrite !Z.pow_add_r in V by lia.
    assert (P2 : (0 < 2 ^ (e' - - k))%Z) by (apply Z.pow_pos_nonneg; lia).
    assert (E : m' = (2 * (n * 2 ^ (- e' - 1)))%Z) by (cbn in V; nia).
    rewrite E, Z.odd_mul in O. cbn in O. discriminate O.
Qed.

Lemma nearest_exact (negative : bool) (n : Z) :
  (0 <= n <= 2 ^ 53)%Z ->
  integerOf (JsNumber.nearest negative n 1) = Some (JsNumber.signed negative n).
Proof.
  intros [Pn Bn]. unfold JsNumber.nearest.
  destruct (Z.eqb_spec n 0) as [->|Nz].
  { destruct negative; reflexivity. }
  assert (Hn : (0 < n)%Z) by lia.
  destruct (Z.eq_dec n (2 ^ 53)) as [->|Lt].
  { destruct negative; vm_compute; reflexivity. }
  assert (Bl : (Z.log2 n < 53)%Z) by (apply Z.log2_lt_pow2; lia).
  pose proof (Z.log2_nonneg n) as Pl.
  pose proof (Z.log2_spec n Hn) as [Lo Hi].
  assert (Bi : JsNumber.binade n 1 = Z.log2 n).
  { unfold JsNumber.binade, JsNumber.scaled. cbn [Z.log2]. rewrite Z.sub_0_r.
    destruct (Z.leb_spec 0 (Z.log2 n)); [|lia].
    destruct (Z.ltb_spec n (1 * 2 ^ Z.log2 n)); [lia | reflexivity]. }
  rewrite Bi. rewrite Z.max_l by lia.
  set (k := (52 - Z.log2 n)%Z).
  assert (Pk : (0 <= k)%Z) by (unfold k; lia).
  assert (P2 : (0 < 2 ^ k)%Z) by (apply Z.pow_pos_nonneg; lia).
  assert (Sc : exists d, JsNumber.scaled n 1 (Z.log2 n - 52) = (n * 2 ^ k * d, d)%Z
                         /\ (0 < d)%Z /\ (d = 1)%Z).
  { exists 1%Z. unfold JsNumber.scaled.
    destruct (Z.leb_spec 0 (Z.log2 n - 52)) as [G|G].
    - assert (K : k = 0%Z) by (unfold k; lia). rewrite K.
      replace (Z.log2 n - 52)%Z with 0%Z by lia. cbn. split; [f_equal; lia | lia].
    - replace (- (Z.log2 n - 52))%Z with k by (unfold k; lia).
      split; [f_equal; lia | lia]. }
  destruct Sc as (d & -> & Pd & ->).
  rewrite Z.mul_1_r, Z.div_1_r, Z.mod_1_r. cbn [Z.mul Z.ltb Z.compare].
  assert (Pm : (0 < n * 2 ^ k)%Z) by (apply Z.mul_pos_pos; assumption).
  destruct (Z.eqb_spec (n * 2 ^ k) 0) as [Z0|_]; [lia|].
  rewrite Z.log2_mul_pow2 by lia.
  destruct (Z.leb_spec 1024 (k + Z.log2 n + (Z.log2 n - 52))) as [G|_];
    [unfold k in G; lia|].
  replace (Z.log2 n - 52)%Z with (- k)%Z by (unfold k; lia).
  apply make_exact; assumption.
Qed.

Lemma ofZ_exact (z : Z) :
  (Z.abs z <= 2 ^ 53)%Z -> integerOf (JsNumber.ofZ z) = Some z.
Proof.
  intros B. unfold JsNumber.ofZ, JsNumber.ofDecimal. cbn [Z.leb Z.compare Z.pow].
  change (10 ^ 0)%Z with 1%Z. rewrite Z.mul_1_r.
  rewrite nearest_exact by lia.
  f_equal. unfold JsNumber.signed. destruct (Z.ltb_spec z 0); lia.
Qed.

Lemma digitsValue_nonneg (cs : list ascii) : forall acc : Z,
  (0 <= acc)%Z -> (0 <= JsNumber.digitsValue cs acc)%Z.
Proof.
  induction cs as [|c cs IH]; intros acc P; cbn [JsNumber.digitsValue]; [exact P|].
  apply IH. unfold JsNumber.digitValue. lia.
Qed.

Lemma ofZ_nonneg (z : Z) : (0 <= z)%Z -> JsNumber.ofZ z = JsNumber.ofDecimal false z 0.
Proof.
  intros P. unfold JsNumber.ofZ.
  destruct (Z.ltb_spec z 0); [lia|]. now rewrite Z.abs_eq.
Qed.

(** [parseInt] of a text that starts with digits, followed by what is not
    a digit, is the Number value for the integer that the digits write *)
Lemma parseInt_leading (d : ascii) (ds rest : list ascii) :
  forallb JsString.isDigit (d :: ds) = true -> stopsDigits rest ->
  JsNumber.parseInt (JsString.ofList ((d :: ds) ++ rest)%list)
  = JsNumber.ofZ (JsNumber.digitsValue (d :: ds) 0).
Proof.
  intros D S. unfold JsNumber.parseInt.
  rewrite toList_ofList.
  pose proof D as D'. cbn [forallb] in D'. apply andb_true_iff in D'.
  destruct D' as [Dd _].
  destruct (digit_is_plain d Dd) as (Sp & Mi & Pl).
  cbn [app JsString.dropSpaces]. rewrite Sp.
  unfold JsNumber.readSign. rewrite Mi, Pl.
  change (d :: (ds ++ rest)%list) with ((d :: ds) ++ rest)%list.
  rewrite (spanDigits_leading (d :: ds) rest D S).
  rewrite ofZ_nonneg by (apply digitsValue_nonneg; lia). reflexivity.
Qed.

(** the literal that [parsePrimaryExpression] makes of a NUMBER token
    whose text has no decimal point *)
Lemma number_without_point (tokens : list Token) (this : Parser.This) (pos : nat)
      (token : Token) :
  nth_error tokens pos = Some token ->
  type token = TT.NUMBER ->
  JsString.includesChar (value token) "."%char = false ->
  Parser.parsePrimaryExpression tokens this pos
  = Return (Literal (LNumber (JsNumber.parseInt (value token))) "number", S pos).
Proof.
  intros H T D.
  assert (L : pos < length tokens) by (apply nth_error_Some; congruence).
  unfold Parser.parsePrimaryExpression, Parser.bind, Parser.current,
    Parser.advance, Parser.ret, tokenIs.
  apply Nat.ltb_lt in L.
  rewrite H, T, D. cbn -[Nat.ltb length]. rewrite L. reflexivity.
Qed.

End NumberFacts.

(** ** The lexer: where the tokens lie *)

Module LayoutFacts.
Import Lexer LexerProps Layout.

Lemma run_app (a b : list ascii) (k : Cursor) : run (a ++ b) k = run b (run a k).
Proof. unfold run. apply fold_left_app. Qed.

Lemma position_advance (c : ascii) (k : Cursor) : position (advance c k) = S (position k).
Proof. unfold advance. destruct (JsString.isNewline c); reflexivity. Qed.

Lemma position_run (mid : list ascii) (k : Cursor) :
  position (run mid k) = position k + length mid.
Proof.
  revert k. induction mid as [|c mid IH]; intros k; cbn [run fold_left length].
  - lia.
  - change (fold_left (fun k c => advance c k) mid (advance c k))
      with (run mid (advance c k)).
    rewrite IH, position_advance. lia.
Qed.

Lemma reaches_refl (st : LexState) : reaches st st.
Proof. exists []. split; reflexivity. Qed.

Lemma reaches_trans (a b c : LexState) : reaches a b -> reaches b c -> reaches a c.
Proof.
  intros (m1 & E1 & R1) (m2 & E2 & R2). exists (m1 ++ m2)%list. split.
  - rewrite E1, E2. now rewrite app_assoc.
  - rewrite R2, R1. symmetry. apply run_app.
Qed.

Lemma reaches_step (c : ascii) (cs : list ascii) (k : Cursor) :
  reaches (c :: cs, k) (cs, advance c k).
Proof. exists [c]. split; reflexivity. Qed.

Lemma reaches_step2 (c d : ascii) (cs : list ascii) (k : Cursor) :
  reaches (c :: d :: cs, k) (cs, advance d (advance c k)).
Proof. exists [c; d]. split; reflexivity. Qed.

(** what a scan reads is what the position advanced by *)
Lemma reaches_position (st st' : LexState) :
  reaches st st' ->
  position (snd st') + length (fst st') = position (snd st) + length (fst st).
Proof.
  intros (mid & E & R). rewrite R, E, position_run, length_app. lia.
Qed.

Lemma skip_reaches (st : LexState) : reaches st (skip st).
Proof.
  destruct st as [[|c cs] k]; unfold skip; cbn [fst snd].
  - apply reaches_refl.
  - apply reaches_step.
Qed.

Lemma readWhile_reaches p cs k v : reaches (cs, k) (snd (readWhile p cs k v)).
Proof.
  revert k v. induction cs as [|c cs IH]; intros k v; cbn [readWhile].
  - apply reaches_refl.
  - destruct (p c); [|apply reaches_refl].
    eapply reaches_trans; [apply reaches_step | apply IH].
Qed.

Lemma skipWhitespace_reaches cs k : reaches (cs, k) (skipWhitespace cs k).
Proof.
  revert k. induction cs as [|c cs IH]; intros k; cbn [skipWhitespace].
  - apply reaches_refl.
  - destruct (JsString.isSpace c && negb (JsString.isNewline c)); [|apply reaches_refl].
    eapply reaches_trans; [apply reaches_step | apply IH].
Qed.

Lemma readQuoted_reaches_bounded un q n :
  forall cs k v, length cs <= n -> reaches (cs, k) (snd (readQuoted un q cs k v)).
Proof.
  induction n as [|n IH]; intros cs k v L.
  - destruct cs; cbn [length] in L; [apply reaches_refl | lia].
  - destruct cs as [|c cs]; [apply reaches_refl|].
    cbn [readQuoted length] in *.
    destruct (Ascii.eqb c q); [apply reaches_refl|].
    destruct (Ascii.eqb c "\"%char).
    + destruct cs as [|e cs]; [apply reaches_step|].
      cbn [length] in L.
      eapply reaches_trans; [apply reaches_step2 | apply IH; lia].
    + eapply reaches_trans; [apply reaches_step | apply IH; lia].
Qed.

Lemma readQuoted_reaches un q cs k v : reaches (cs, k) (snd (readQuoted un q cs k v)).
Proof. apply (readQuoted_reaches_bounded un q (length cs)). lia. Qed.

Lemma readCommentBody_reaches cs k v : reaches (cs, k) (snd (readCommentBody cs k v)).
Proof.
  revert k v. induction cs as [|c cs IH]; intros k v; cbn [readCommentBody].
  - apply reaches_refl.
  - destruct (Ascii.eqb c "*"%char).
    + destruct cs as [|d cs].
      * eapply reaches_trans; [apply reaches_step | apply IH].
      * destruct (Ascii.eqb d "/"%char).
        -- apply reaches_step2.
        -- eapply reaches_trans; [apply reaches_step | apply IH].
    + eapply reaches_trans; [apply reaches_step | apply IH].
Qed.

Lemma append_ofChar (v : string) (c : ascii) (s : string) :
  ((v ++ JsString.ofChar c) ++ s)%string = (v ++ String c s)%string.
Proof. induction v as [|a v IH]; cbn; [reflexivity | now rewrite IH]. Qed.

Lemma append_empty (v : string) : (v ++ EmptyString)%string = v.
Proof. induction v as [|a v IH]; cbn; [reflexivity | now rewrite IH]. Qed.

(** what [readWhile] adds to the value is what it reads *)
Lemma readWhile_text p cs k v :
  exists mid,
    cs = (mid ++ fst (snd (readWhile p cs k v)))%list
    /\ fst (readWhile p cs k v) = (v ++ JsString.ofList mid)%string.
Proof.
  revert k v. induction cs as [|c cs IH]; intros k v; cbn [readWhile].
  - exists []. cbn. now rewrite append_empty.
  - destruct (p c).
    + destruct (IH (advance c k) (v ++ JsString.ofChar c)%string) as (mid & E & V).
      exists (c :: mid). split; [cbn [app]; now rewrite <- E|].
      rewrite V. cbn [JsString.ofList]. apply append_ofChar.
    + exists []. cbn. now rewrite append_empty.
Qed.

Lemma readFrom_text (t : Token) (mid cs' : list ascii) :
  value t = JsString.ofList mid -> readFrom t (mid ++ cs') cs'.
Proof. intros V. exists mid. split; [reflexivity | right; right; exact V]. Qed.

(** a reader that starts on a quote and reads it *)
Lemma readFrom_quoted (t : Token) (c : ascii) (cs : list ascii) (k : Cursor)
      (st : LexState) :
  isQuote c = true -> reaches (c :: cs, k) st -> length (fst st) < length (c :: cs) ->
  readFrom t (c :: cs) (fst st).
Proof.
  intros Q (mid & E & _) L. cbn [fst] in E. exists mid. split; [exact E|].
  right; left. destruct mid as [|m mid].
  - cbn [app] in E. rewrite <- E in L. lia.
  - cbn [app] in E. injection E as <- _. exact Q.
Qed.

Lemma readFrom_comment (t : Token) (cs : list ascii) (st : LexState) (k : Cursor) :
  type t = TT.COMMENT -> reaches (cs, k) st -> readFrom t cs (fst st).
Proof. intros T (mid & E & _). exists mid. split; [exact E | now left]. Qed.

Lemma ofList_app (a b : list ascii) :
  JsString.ofList (a ++ b) = (JsString.ofList a ++ JsString.ofList b)%string.
Proof. induction a as [|c a IH]; cbn; [reflexivity | now rewrite IH]. Qed.

Lemma textOf_refl (cs : list ascii) : textOf cs EmptyString cs.
Proof. exists []. split; reflexivity. Qed.

Lemma textOf_char cs v c cs1 :
  textOf cs v (c :: cs1) -> textOf cs (v ++ JsString.ofChar c)%string cs1.
Proof.
  intros (mid & E & V). exists (mid ++ [c])%list. split.
  - rewrite E, <- app_assoc. reflexivity.
  - rewrite V, ofList_app. reflexivity.
Qed.

Lemma textOf_readWhile p cs v cs1 k :
  textOf cs v cs1 ->
  textOf cs (fst (readWhile p cs1 k v)) (fst (snd (readWhile p cs1 k v))).
Proof.
  intros (mid & E & V). destruct (readWhile_text p cs1 k v) as (m2 & E2 & V2).
  exists (mid ++ m2)%list. split.
  - rewrite E at 1. rewrite E2 at 1. now rewrite app_assoc.
  - rewrite V2, V, ofList_app. reflexivity.
Qed.

Lemma readFrom_textOf (t : Token) (cs cs' : list ascii) :
  textOf cs (value t) cs' -> readFrom t cs cs'.
Proof. intros (mid & E & V). exists mid. split; [exact E | right; right; exact V]. Qed.

Lemma spans_tokenAt ty v k0 k1 : spans (tokenAt ty v k0 k1) k0 k1.
Proof. repeat split. Qed.

Lemma readIdentifier_traced cs k : traced cs k (readIdentifier cs k).
Proof.
  unfold readIdentifier.
  destruct (negb _); [split; reflexivity|].
  pose proof (readWhile_reaches JsString.isIdentPart cs k EmptyString) as R.
  pose proof (textOf_readWhile JsString.isIdentPart cs EmptyString cs k
                               (textOf_refl cs)) as T.
  destruct (readWhile JsString.isIdentPart cs k EmptyString) as [v [cs' k']].
  cbn [traced fst snd] in *.
  split; [exact R | split; [apply spans_tokenAt | apply readFrom_textOf; exact T]].
Qed.

Lemma readQuotedIdentifier_traced q c cs k :
  isQuote c = true -> traced (c :: cs) k (readQuotedIdentifier q (c :: cs) k).
Proof.
  intros Q. pose proof (LexerFacts.readQuotedIdentifier_ok q c cs k) as Ok.
  revert Ok. unfold readQuotedIdentifier.
  pose proof (skip_reaches (c :: cs, k)) as R1.
  destruct (skip (c :: cs, k)) as [cs1 k1].
  pose proof (readQuoted_reaches (fun e => e) q cs1 k1 EmptyString) as R2.
  destruct (readQuoted (fun e => e) q cs1 k1 EmptyString) as [v [cs2 k2]].
  cbn [snd] in R2.
  destruct cs2 as [|c2 cs2]; [split; reflexivity|].
  pose proof (skip_reaches (c2 :: cs2, k2)) as R3.
  destruct (skip (c2 :: cs2, k2)) as [cs3 k3].
  cbn [traced readerOk snd fst]. intros [_ Lt].
  assert (R : reaches (c :: cs, k) (cs3, k3)).
  { eapply reaches_trans; [exact R1|]. eapply reaches_trans; [exact R2 | exact R3]. }
  split; [exact R | split; [apply spans_tokenAt|]].
  exact (readFrom_quoted _ c cs k (cs3, k3) Q R Lt).
Qed.

Lemma readString_traced q c cs k :
  isQuote c = true -> traced (c :: cs) k (readString q (c :: cs) k).
Proof.
  intros Q. pose proof (LexerFacts.readString_ok q c cs k) as Ok.
  revert Ok. unfold readString.
  pose proof (skip_reaches (c :: cs, k)) as R1.
  destruct (skip (c :: cs, k)) as [cs1 k1].
  pose proof (readQuoted_reaches unescapeChar q cs1 k1 EmptyString) as R2.
  destruct (readQuoted unescapeChar q cs1 k1 EmptyString) as [v [cs2 k2]].
  cbn [snd] in R2.
  destruct cs2 as [|c2 cs2]; [split; reflexivity|].
  pose proof (skip_reaches (c2 :: cs2, k2)) as R3.
  destruct (skip (c2 :: cs2, k2)) as [cs3 k3].
  cbn [traced readerOk snd fst]. intros [_ Lt].
  assert (R : reaches (c :: cs, k) (cs3, k3)).
  { eapply reaches_trans; [exact R1|]. eapply reaches_trans; [exact R2 | exact R3]. }
  split; [exact R | split; [apply spans_tokenAt|]].
  exact (readFrom_quoted _ c cs k (cs3, k3) Q R Lt).
Qed.

Lemma scanned_readWhile p cs k v cs1 k1 :
  scanned cs k (v, (cs1, k1)) -> scanned cs k (readWhile p cs1 k1 v).
Proof.
  intros [R T]. cbn [fst snd] in *. split.
  - eapply reaches_trans; [exact R | apply readWhile_reaches].
  - now apply textOf_readWhile.
Qed.

Lemma scanned_char cs k v c cs1 k1 :
  scanned cs k (v, (c :: cs1, k1)) ->
  scanned cs k ((v ++ JsString.ofChar c)%string, (cs1, advance c k1)).
Proof.
  intros [R T]. cbn [fst snd] in *. split.
  - eapply reaches_trans; [exact R | apply reaches_step].
  - now apply textOf_char.
Qed.

Lemma scanned_token cs k ty v st :
  scanned cs k (v, st) -> traced cs k (inr (tokenAt ty v k (snd st), st)).
Proof.
  intros [R T]. cbn [traced fst snd] in *.
  split; [exact R | split; [apply spans_tokenAt | apply readFrom_textOf; exact T]].
Qed.

Lemma readNumber_traced cs k : traced cs k (readNumber cs k).
Proof.
  unfold readNumber.
  assert (S0 : scanned cs k (EmptyString, (cs, k)))
    by (split; [apply reaches_refl | apply textOf_refl]).
  pose proof (scanned_readWhile JsString.isDigit _ _ _ _ _ S0) as S1.
  destruct (readWhile JsString.isDigit cs k EmptyString) as [v1 [cs1 k1]].
  match goal with
  | |- traced _ _ (match ?e with _ => _ end) =>
      assert (S2 : scanned cs k e);
      [ destruct cs1 as [|c0 [|d cs']]; try exact S1;
        destruct (Ascii.eqb c0 "."%char && JsString.isDigit d); [|exact S1];
        apply scanned_readWhile, scanned_char, S1
      | destruct e as [v2 [cs2 k2]] ]
  end.
  destruct cs2 as [|c cs3]; [exact (scanned_token _ _ _ _ _ S2)|].
  destruct (isExponentMark c); [|exact (scanned_token _ _ _ _ _ S2)].
  pose proof (scanned_char _ _ _ _ _ _ S2) as S3.
  cbv zeta.
  match goal with
  | |- traced _ _ (match ?e with _ => _ end) =>
      assert (S4 : scanned cs k e);
      [ destruct cs3 as [|s cs']; [exact S3|];
        destruct (isSign s); [apply scanned_char, S3 | exact S3]
      | destruct e as [v4 [cs4 k4]] ]
  end.
  destruct cs4 as [|d cs5]; [split; reflexivity|].
  destruct (JsString.isDigit d); [|split; reflexivity].
  pose proof (scanned_readWhile JsString.isDigit _ _ _ _ _ S4) as S5.
  destruct (readWhile JsString.isDigit (d :: cs5) k4 v4) as [v5 st5].
  exact (scanned_token _ _ _ _ _ S5).
Qed.

Lemma readSingleLineComment_traced opts cs k :
  tracedOpt cs k (readSingleLineComment opts cs k).
Proof.
  unfold readSingleLineComment.
  assert (R1 : forall st, st =
     match cs with
     | c :: _ => if Ascii.eqb c "-"%char then skip (skip (cs, k)) else skip (cs, k)
     | [] => skip (cs, k)
     end -> reaches (cs, k) st).
  { intros st ->. destruct cs as [|c cs']; [apply skip_reaches|].
    destruct (Ascii.eqb c "-"%char); [|apply skip_reaches].
    eapply reaches_trans; apply skip_reaches. }
  specialize (R1 _ eq_refl).
  destruct (match cs with
            | c :: _ => if Ascii.eqb c "-"%char then skip (skip (cs, k)) else skip (cs, k)
            | [] => skip (cs, k)
            end) as [cs1 k1].
  pose proof (readWhile_reaches (fun c => negb (JsString.isNewline c)) cs1 k1 EmptyString) as R2.
  destruct (readWhile (fun c => negb (JsString.isNewline c)) cs1 k1 EmptyString)
    as [v [cs2 k2]].
  cbn [snd] in R2.
  destruct (includeComments opts);
    (split; [|cbn; try (split; [apply spans_tokenAt | reflexivity]); exact I]);
    cbn [snd]; eapply reaches_trans; eassumption.
Qed.

Lemma readMultiLineComment_traced opts cs k :
  tracedOpt cs k (readMultiLineComment opts cs k).
Proof.
  unfold readMultiLineComment.
  assert (R1 : reaches (cs, k) (skip (skip (cs, k))))
    by (eapply reaches_trans; apply skip_reaches).
  destruct (skip (skip (cs, k))) as [cs1 k1].
  pose proof (readCommentBody_reaches cs1 k1 EmptyString) as R2.
  destruct (readCommentBody cs1 k1 EmptyString) as [v [cs2 k2]].
  cbn [snd] in R2.
  destruct (includeComments opts);
    (split; [|cbn; try (split; [apply spans_tokenAt | reflexivity]); exact I]);
    cbn [snd]; eapply reaches_trans; eassumption.
Qed.

Lemma readOperator_traced c cs k : traced (c :: cs) k (readOperator c cs k).
Proof.
  unfold readOperator. cbv zeta beta.
  destruct cs as [|d cs']; cbn [tl];
    repeat match goal with
           | |- traced _ _ (if Ascii.eqb d ?x then _ else _) =>
               destruct (Ascii.eqb_spec d x); [subst d|]
           | |- traced _ _ (if ?b then _ else _) => destruct b
           | |- traced _ _ (inl _) => split; reflexivity
           | |- traced _ _ (inr _) => split; [|split; [apply spans_tokenAt|]]
           end;
    cbn [snd fst];
    first [ apply reaches_step | apply reaches_step2
          | apply (readFrom_text _ [c]); reflexivity
          | apply (readFrom_text _ [c; _]); reflexivity ].
Qed.

Lemma readPunctuation_traced c cs k : traced (c :: cs) k (readPunctuation c cs k).
Proof.
  unfold readPunctuation. cbv zeta beta.
  repeat match goal with
         | |- traced _ _ (if ?b then _ else _) => destruct b
         | |- traced _ _ (inl _) => split; reflexivity
         | |- traced _ _ (inr _) => split; [|split; [apply spans_tokenAt|]]
         end;
    cbn [snd fst];
    first [ apply reaches_step | apply (readFrom_text _ [c]); reflexivity ].
Qed.

(** *** The cursor counts the lines and the columns *)

Lemma takeWhile_notNewline_cons (c : ascii) (l : list ascii) :
  takeWhile (fun c => negb (JsString.isNewline c)) (c :: l)
  = if JsString.isNewline c then []
    else c :: takeWhile (fun c => negb (JsString.isNewline c)) l.
Proof. cbn [takeWhile]. destruct (JsString.isNewline c); reflexivity. Qed.

Lemma at_advance (input : list ascii) (c : ascii) (cs : list ascii) (k : Cursor) :
  at_ input (c :: cs, k) -> at_ input (cs, advance c k).
Proof.
  intros (pre & E & P & L & C). cbn [fst snd] in *.
  exists (pre ++ [c])%list. cbn [fst snd].
  split; [rewrite E, <- app_assoc; reflexivity|].
  unfold lineAfter, columnAfter in *.
  rewrite length_app, filter_app, rev_app_distr, length_app.
  cbn [rev app length filter]. rewrite takeWhile_notNewline_cons.
  unfold advance. destruct (JsString.isNewline c); cbn [position cline ccolumn length];
    repeat split; lia.
Qed.

Lemma at_run (input : list ascii) (mid cs : list ascii) (k : Cursor) :
  at_ input ((mid ++ cs)%list, k) -> at_ input (cs, run mid k).
Proof.
  revert k. induction mid as [|c mid IH]; intros k A; [exact A|].
  cbn [run fold_left]. apply IH. apply at_advance. exact A.
Qed.

Lemma at_reaches (input : list ascii) (st st' : LexState) :
  at_ input st -> reaches st st' -> at_ input st'.
Proof.
  destruct st as [cs k], st' as [cs' k']. intros A (mid & E & R).
  cbn [fst snd] in *. subst. now apply at_run.
Qed.

Lemma at_start (input : list ascii) : at_ input (input, mkCursor 0 1 1).
Proof. exists []. repeat split. Qed.

(** what the cursor says of a position of the input *)
Lemma at_firstn (input : list ascii) (st : LexState) :
  at_ input st ->
  position (snd st) + length (fst st) = length input
  /\ cline (snd st) = lineAfter (firstn (position (snd st)) input)
  /\ ccolumn (snd st) = columnAfter (firstn (position (snd st)) input).
Proof.
  intros (pre & E & P & L & C).
  assert (F : firstn (position (snd st)) input = pre).
  { rewrite P, E. rewrite firstn_app, Nat.sub_diag, firstn_all. cbn. apply app_nil_r. }
  rewrite F. repeat split; try assumption.
  rewrite P, E, length_app. reflexivity.
Qed.

Lemma ordered_snoc (from : nat) (acc : list Token) (t : Token) :
  ordered from acc -> lastEnd from acc <= start t -> start t <= end_ t ->
  ordered from (acc ++ [t]) /\ lastEnd from (acc ++ [t]) = end_ t.
Proof.
  revert from. induction acc as [|a acc IH]; intros from O L S; cbn in *.
  - repeat split; assumption.
  - destruct O as (O1 & O2 & O3). destruct (IH _ O3 L S) as [I1 I2].
    repeat split; assumption.
Qed.

Lemma tiled_snoc (from : nat) (acc : list Token) (t : Token) :
  tiled from acc -> lastEnd from acc = start t -> start t <= end_ t ->
  tiled from (acc ++ [t]).
Proof.
  revert from. induction acc as [|a acc IH]; intros from O L S; cbn in *.
  - repeat split; [symmetry|]; assumption.
  - destruct O as (O1 & O2 & O3). repeat split; try assumption. now apply IH.
Qed.

Lemma slice_mid (pre mid rest : list ascii) :
  slice (pre ++ mid ++ rest) (length pre) (length pre + length mid) = mid.
Proof.
  unfold slice. rewrite skipn_app, skipn_all, Nat.sub_diag. cbn [skipn app].
  replace (length pre + length mid - length pre) with (length mid) by lia.
  rewrite firstn_app, Nat.sub_diag, firstn_all. cbn [firstn]. apply app_nil_r.
Qed.

(** a token read between two cursors of the input is in its place *)
Lemma placed_spans (input : list ascii) (t : Token) (st st' : LexState) :
  at_ input st -> reaches st st' -> spans t (snd st) (snd st') ->
  readFrom t (fst st) (fst st') ->
  notEOF t -> length (fst st') < length (fst st) ->
  placed input t /\ start t = position (snd st) /\ end_ t = position (snd st').
Proof.
  intros A R (S & E & L & C) (mid & Em & Tx) N Lt.
  pose proof (at_firstn _ _ A) as (P1 & L1 & C1).
  pose proof (at_firstn _ _ (at_reaches _ _ _ A R)) as (P2 & _ & _).
  assert (Sl : slice input (start t) (end_ t) = mid).
  { destruct A as (pre & Ei & Pp & _).
    assert (Ee : end_ t = length pre + length mid).
    { rewrite E. rewrite Em, length_app in P1. lia. }
    rewrite S, Pp, Ee, Ei, Em. apply slice_mid. }
  unfold placed. rewrite Sl. rewrite S, E, L, C.
  repeat split; try assumption; try lia.
  intros T. contradiction.
Qed.

Lemma raisedIn_at (input : list ascii) (st : LexState) (e : SQLError) :
  at_ input st -> err_line e = cline (snd st) -> err_column e = ccolumn (snd st) ->
  raisedIn input e.
Proof.
  intros A L C. pose proof (at_firstn _ _ A) as (P1 & L1 & C1).
  exists (position (snd st)). rewrite L, C. repeat split; try assumption. lia.
Qed.

Lemma loopOk_push input full st st' acc t :
  loopOk input full st acc -> reaches st st' -> spans t (snd st) (snd st') ->
  readFrom t (fst st) (fst st') ->
  notEOF t -> length (fst st') < length (fst st) ->
  loopOk input full st' (pushToken acc t).
Proof.
  intros (A & F & O & L & T) R S Tx N Lt.
  destruct (placed_spans _ _ _ _ A R S Tx N Lt) as (P & Es & Ee).
  assert (Se : start t <= end_ t) by apply P.
  destruct (ordered_snoc 0 acc t O) as [O' L']; [lia | exact Se |].
  unfold pushToken. repeat split.
  - eapply at_reaches; eassumption.
  - apply Forall_app. split; [exact F | constructor; [exact P | constructor]].
  - exact O'.
  - rewrite L'. lia.
  - destruct (T H) as [T1 T2]. apply tiled_snoc; [exact T1 | lia | exact Se].
  - rewrite L'. exact Ee.
Qed.

Lemma loopOk_drop input st st' acc :
  loopOk input false st acc -> reaches st st' -> loopOk input false st' acc.
Proof.
  intros (A & F & O & L & T) R.
  pose proof (reaches_position _ _ R) as P.
  assert (Le : length (fst st') <= length (fst st)).
  { destruct R as (mid & E & _). rewrite E, length_app. lia. }
  repeat split; try assumption; try discriminate.
  - eapply at_reaches; eassumption.
  - lia.
Qed.

Lemma loopOk_pushOpt input full cs k acc (r : option Token * LexState) :
  loopOk input full (cs, k) acc -> tracedOpt cs k r ->
  commentOk (length cs) r ->
  (full = true -> fst r <> None) ->
  loopOk input full (snd r) (pushOpt acc (fst r)).
Proof.
  intros Ok [R S] [N Lt] Full. destruct r as [[t|] st]; cbn [fst snd pushOpt] in *.
  - destruct S as [S Ty].
    eapply (loopOk_push _ _ (cs, k) st); try eassumption.
    eapply readFrom_comment; eassumption.
  - destruct full; [exfalso; now apply Full|].
    eapply loopOk_drop; eassumption.
Qed.

Lemma tokenizeLoop_laidOut input fuel opts :
  forall cs k acc,
    length cs <= fuel ->
    loopOk input (includeWhitespace opts && includeComments opts) (cs, k) acc ->
    laidOut input (includeWhitespace opts && includeComments opts)
            (tokenizeLoop fuel opts cs k acc).
Proof.
  set (full := includeWhitespace opts && includeComments opts).
  assert (Final : forall k acc, loopOk input full ([], k) acc ->
            laidOut input full
                    (Return (pushToken acc (tokenAt TT.EOF EmptyString k k)))).
  { intros k acc (A & F & O & L & T). cbn [laidOut].
    pose proof (at_firstn _ _ A) as (P1 & L1 & C1). cbn [fst snd length] in *.
    destruct (ordered_snoc 0 acc (tokenAt TT.EOF EmptyString k k) O) as [O' L'];
      [cbn; lia | cbn; lia |].
    unfold pushToken. repeat split.
    - apply Forall_app. split; [exact F|]. constructor; [|constructor].
      unfold placed. cbn. repeat split; try assumption; try lia.
      + intros N. now contradiction N.
      + right; right. unfold slice. now rewrite Nat.sub_diag.
    - exact O'.
    - intros H. destruct (T H) as [T1 T2]. apply tiled_snoc; cbn; [exact T1 | lia | lia]. }
  induction fuel as [|fuel IH]; intros cs k acc L Ok.
  - destruct cs; [|simpl in L; lia]. cbn [tokenizeLoop]. now apply Final.
  - destruct cs as [|char cs']; [cbn [tokenizeLoop]; now apply Final|].
    cbn [tokenizeLoop].
    assert (K : forall r, readerOk (length (char :: cs')) r ->
              traced (char :: cs') k r ->
              laidOut input full
                match r with
                | inl e => Throw (ESQL e)
                | inr (t, (cs1, k1)) =>
                    tokenizeLoop fuel opts cs1 k1 (pushToken acc t)
                end).
    { intros [e|[t [cs1 k1]]]; cbn [readerOk traced].
      - intros _ [El Ec]. cbn [laidOut]. exists e. split; [reflexivity|].
        destruct Ok as (A & _). eapply raisedIn_at; eassumption.
      - intros [N Lt] (R & S & Tx). unfold remaining in Lt; cbn [fst] in Lt.
        apply IH; [lia|].
        eapply (loopOk_push _ _ (char :: cs', k) (cs1, k1)); eassumption. }
    assert (C : forall r, commentOk (length (char :: cs')) r ->
              tracedOpt (char :: cs') k r ->
              (includeComments opts = true -> fst r <> None) ->
              laidOut input full
                      (let '(t, (cs1, k1)) := r in
                       tokenizeLoop fuel opts cs1 k1 (pushOpt acc t))).
    { intros r Co Tr Inc.
      assert (Ok' : loopOk input full (snd r) (pushOpt acc (fst r))).
      { eapply loopOk_pushOpt; try eassumption.
        intros Fu. apply Inc. unfold full in Fu. apply andb_true_iff in Fu. apply Fu. }
      destruct Co as [_ Lt]. destruct r as [t [cs1 k1]].
      unfold remaining in Lt; cbn [fst snd] in *. apply IH; [lia | exact Ok']. }
    assert (Drop : forall cs1 k1, includeWhitespace opts = false ->
              reaches (char :: cs', k) (cs1, k1) -> loopOk input full (cs1, k1) acc).
    { intros cs1 k1 W R. unfold full in *. rewrite W in *. cbn [andb] in *.
      eapply loopOk_drop; eassumption. }
    destruct (JsString.isSpace char && negb (JsString.isNewline char)) eqn:Esp.
    { pose proof (LexerFacts.skipWhitespace_left cs' (advance char k)) as Lw.
      pose proof (skipWhitespace_reaches (char :: cs') k) as Rw.
      assert (Ew : skipWhitespace (char :: cs') k = skipWhitespace cs' (advance char k))
        by (cbn [skipWhitespace]; rewrite Esp; reflexivity).
      rewrite Ew in *.
      destruct (skipWhitespace cs' (advance char k)) as [cs1 k1].
      unfold remaining in Lw; cbn [fst] in Lw. cbn [length] in L.
      destruct (includeWhitespace opts) eqn:W; apply IH; try lia.
      - eapply (loopOk_push _ _ (char :: cs', k) (cs1, k1)); try eassumption.
        + apply spans_tokenAt.
        + destruct Rw as (mid & Em & Rm). cbn [fst snd] in *.
          exists mid. split; [exact Em|]. right; right. cbn [tokenAt value].
          rewrite Rm, position_run, Em.
          replace (position k + length mid - position k) with (length mid) by lia.
          rewrite firstn_app, Nat.sub_diag, firstn_all. cbn [firstn].
          now rewrite app_nil_r.
        + discriminate.
        + cbn [fst length]. lia.
      - now apply Drop. }
    destruct (JsString.isNewline char) eqn:Enl.
    { cbn [length] in L.
      destruct (includeWhitespace opts) eqn:W; apply IH; try lia.
      - eapply (loopOk_push _ _ (char :: cs', k) (cs', advance char k)); try eassumption.
        + apply reaches_step.
        + apply spans_tokenAt.
        + apply (readFrom_text _ [char]). cbn.
          unfold JsString.isNewline in Enl. apply Ascii.eqb_eq in Enl. now subst.
        + discriminate.
        + cbn [fst length]. lia.
      - apply Drop; [reflexivity | apply reaches_step]. }
    assert (S1 : includeComments opts = true ->
                 fst (readSingleLineComment opts (char :: cs') k) <> None).
    { intros I. unfold readSingleLineComment. rewrite I.
      repeat match goal with
             | |- context [let '(_, _) := ?e in _] => destruct e
             end. discriminate. }
    assert (S2 : includeComments opts = true ->
                 fst (readMultiLineComment opts (char :: cs') k) <> None).
    { intros I. unfold readMultiLineComment. rewrite I.
      repeat match goal with
             | |- context [let '(_, _) := ?e in _] => destruct e
             end. discriminate. }
    destruct (Ascii.eqb char "-"%char && peekIs cs' "-"%char).
    { apply C; [apply LexerFacts.readSingleLineComment_ok
               | apply readSingleLineComment_traced | exact S1]. }
    destruct (Ascii.eqb char "#"%char).
    { apply C; [apply LexerFacts.readSingleLineComment_ok
               | apply readSingleLineComment_traced | exact S1]. }
    destruct (Ascii.eqb char "/"%char && peekIs cs' "*"%char).
    { apply C; [apply LexerFacts.readMultiLineComment_ok
               | apply readMultiLineComment_traced | exact S2]. }
    destruct (Ascii.eqb char "'"%char) eqn:Eq1.
    { apply K; [apply LexerFacts.readString_ok | apply readString_traced].
      unfold isQuote. now rewrite Eq1. }
    destruct (Ascii.eqb char JsString.dquote || Ascii.eqb char "`"%char) eqn:Eq2.
    { apply K; [apply LexerFacts.readQuotedIdentifier_ok
               | apply readQuotedIdentifier_traced].
      unfold isQuote. rewrite Eq1. exact Eq2. }
    destruct (JsString.isDigit char) eqn:Ed.
    { apply K; [apply LexerFacts.readNumber_ok, Ed | apply readNumber_traced]. }
    destruct (JsString.isIdentStart char) eqn:Ei.
    { apply K; [apply LexerFacts.readIdentifier_ok, Ei | apply readIdentifier_traced]. }
    destruct (JsString.includesChar "=<>!+-*/%|" char).
    { apply K; [apply LexerFacts.readOperator_ok | apply readOperator_traced]. }
    destruct (JsString.includesChar ";,.()[]" char).
    { apply K; [apply LexerFacts.readPunctuation_ok | apply readPunctuation_traced]. }
    cbn [laidOut]. eexists; split; [reflexivity|].
    destruct Ok as (A & _). eapply raisedIn_at; [exact A | reflexivity | reflexivity].
Qed.

Lemma tokenize_laidOut (input : string) (opts : Options) :
  laidOut (JsString.toList input) (includeWhitespace opts && includeComments opts)
          (tokenize input opts).
Proof.
  unfold tokenize. apply tokenizeLoop_laidOut; [lia|].
  repeat split; try constructor; try apply at_start; cbn; lia.
Qed.

End LayoutFacts.

(** ** The lexer: what its options change *)

Module LexerOptionsFacts.
Import Lexer LexerProps LexerOptions.

Lemma significant_push (acc : list Token) (t : Token) :
  Parser.significant (pushToken acc t)
  = (Parser.significant acc ++ Parser.significant [t])%list.
Proof. unfold Parser.significant, pushToken. apply filter_app. Qed.

Lemma significant_drop (acc : list Token) (t : Token) :
  insignificant t -> Parser.significant (pushToken acc t) = Parser.significant acc.
Proof.
  intros I. rewrite significant_push. unfold Parser.significant at 2.
  cbn [filter]. unfold insignificant in I. rewrite I. cbn. apply app_nil_r.
Qed.

Lemma significant_same (acc1 acc2 : list Token) (t : Token) :
  Parser.significant acc1 = Parser.significant acc2 ->
  Parser.significant (pushToken acc1 t) = Parser.significant (pushToken acc2 t).
Proof. intros E. rewrite !significant_push, E. reflexivity. Qed.

(** a comment reader leaves the same state whatever the options, and its
    token is a comment *)
Lemma readSingleLineComment_options o1 o2 cs k :
  snd (readSingleLineComment o1 cs k) = snd (readSingleLineComment o2 cs k)
  /\ forall t, fst (readSingleLineComment o1 cs k) = Some t -> insignificant t.
Proof.
  unfold readSingleLineComment.
  destruct (match cs with
            | c :: _ => if Ascii.eqb c "-"%char then skip (skip (cs, k)) else skip (cs, k)
            | [] => skip (cs, k)
            end) as [cs1 k1].
  destruct (readWhile _ cs1 k1 EmptyString) as [v [cs2 k2]].
  destruct (includeComments o1), (includeComments o2); cbn [fst snd];
    (split; [reflexivity|]); intros t [= <-] || intros t [=]; reflexivity.
Qed.

Lemma readMultiLineComment_options o1 o2 cs k :
  snd (readMultiLineComment o1 cs k) = snd (readMultiLineComment o2 cs k)
  /\ forall t, fst (readMultiLineComment o1 cs k) = Some t -> insignificant t.
Proof.
  unfold readMultiLineComment.
  destruct (skip (skip (cs, k))) as [cs1 k1].
  destruct (readCommentBody cs1 k1 EmptyString) as [v [cs2 k2]].
  destruct (includeComments o1), (includeComments o2); cbn [fst snd];
    (split; [reflexivity|]); intros t [= <-] || intros t [=]; reflexivity.
Qed.

Lemma significant_pushOpt (acc : list Token) (t : option Token) :
  (forall x, t = Some x -> insignificant x) ->
  Parser.significant (pushOpt acc t) = Parser.significant acc.
Proof.
  intros H. destruct t as [x|]; [|reflexivity].
  cbn [pushOpt]. apply significant_drop. now apply H.
Qed.

Lemma tokenizeLoop_options (o1 o2 : Options) (fuel : nat) :
  forall cs k acc1 acc2,
    Parser.significant acc1 = Parser.significant acc2 ->
    agree (tokenizeLoop fuel o1 cs k acc1) (tokenizeLoop fuel o2 cs k acc2).
Proof.
  induction fuel as [|fuel IH]; intros cs k acc1 acc2 E.
  - destruct cs; cbn [tokenizeLoop agree]; [now apply significant_same | exact I].
  - destruct cs as [|char cs']; [cbn [tokenizeLoop agree]; now apply significant_same|].
    cbn [tokenizeLoop].
    assert (K : forall r,
              agree match r with
                    | inl e => Throw (ESQL e)
                    | inr (t, (cs1, k1)) => tokenizeLoop fuel o1 cs1 k1 (pushToken acc1 t)
                    end
                    match r with
                    | inl e => Throw (ESQL e)
                    | inr (t, (cs1, k1)) => tokenizeLoop fuel o2 cs1 k1 (pushToken acc2 t)
                    end).
    { intros [e|[t [cs1 k1]]]; [reflexivity|]. apply IH. now apply significant_same. }
    assert (C : forall r1 r2 : option Token * LexState,
              snd r1 = snd r2 ->
              (forall t, fst r1 = Some t -> insignificant t) ->
              (forall t, fst r2 = Some t -> insignificant t) ->
              agree (let '(t, (cs1, k1)) := r1 in
                     tokenizeLoop fuel o1 cs1 k1 (pushOpt acc1 t))
                    (let '(t, (cs1, k1)) := r2 in
                     tokenizeLoop fuel o2 cs1 k1 (pushOpt acc2 t))).
    { intros [t1 [cs1 k1]] [t2 [cs2 k2]] S I1 I2. cbn [fst snd] in *.
      injection S as <- <-. apply IH.
      rewrite !significant_pushOpt; assumption. }
    destruct (JsString.isSpace char && negb (JsString.isNewline char)).
    { destruct (skipWhitespace (char :: cs') k) as [cs1 k1].
      destruct (includeWhitespace o1), (includeWhitespace o2); apply IH;
        rewrite ?significant_drop; try assumption; reflexivity. }
    destruct (JsString.isNewline char).
    { destruct (includeWhitespace o1), (includeWhitespace o2); apply IH;
        rewrite ?significant_drop; try assumption; reflexivity. }
    destruct (Ascii.eqb char "-"%char && peekIs cs' "-"%char).
    { apply C.
      - apply readSingleLineComment_options.
      - apply (readSingleLineComment_options o1 o1).
      - apply (readSingleLineComment_options o2 o2). }
    destruct (Ascii.eqb char "#"%char).
    { apply C.
      - apply readSingleLineComment_options.
      - apply (readSingleLineComment_options o1 o1).
      - apply (readSingleLineComment_options o2 o2). }
    destruct (Ascii.eqb char "/"%char && peekIs cs' "*"%char).
    { apply C.
      - apply readMultiLineComment_options.
      - apply (readMultiLineComment_options o1 o1).
      - apply (readMultiLineComment_options o2 o2). }
    destruct (Ascii.eqb char "'"%char); [apply K|].
    destruct (Ascii.eqb char JsString.dquote || Ascii.eqb char "`"%char); [apply K|].
    destruct (JsString.isDigit char); [apply K|].
    destruct (JsString.isIdentStart char); [apply K|].
    destruct (JsString.includesChar "=<>!+-*/%|" char); [apply K|].
    destruct (JsString.includesChar ";,.()[]" char); [apply K|].
    reflexivity.
Qed.

Lemma tokenize_options (input : string) (o1 o2 : Options) :
  agree (tokenize input o1) (tokenize input o2).
Proof. unfold tokenize. now apply tokenizeLoop_options. Qed.

End LexerOptionsFacts.

(** ** Blank input *)

Module BlankFacts.
Import Lexer LexerProps Layout LexerOptions.

Lemma tokenizeLoop_blank (fuel : nat) :
  forall cs k acc,
    forallb JsString.isSpace cs = true -> length cs <= fuel ->
    exists k',
      tokenizeLoop fuel (mkOptions false false) cs k acc
      = Return (pushToken acc (tokenAt TT.EOF EmptyString k' k')).
Proof.
  induction fuel as [|fuel IH]; intros cs k acc B L.
  - destruct cs; [|cbn in L; lia]. now exists k.
  - destruct cs as [|c cs']; [now exists k|].
    cbn [tokenizeLoop]. cbn [forallb] in B. apply andb_true_iff in B.
    destruct B as [Bc B]. rewrite Bc. cbn [andb includeWhitespace].
    destruct (JsString.isNewline c) eqn:N; cbn [negb].
    + apply IH; [exact B | cbn in L; lia].
    + pose proof (LayoutFacts.skipWhitespace_reaches (c :: cs') k) as (mid & E & _).
      pose proof (LexerFacts.skipWhitespace_left cs' (advance c k)) as Lw.
      assert (Ew : skipWhitespace (c :: cs') k = skipWhitespace cs' (advance c k))
        by (cbn [skipWhitespace]; rewrite Bc, N; reflexivity).
      rewrite Ew in *.
      destruct (skipWhitespace cs' (advance c k)) as [cs1 k1].
      unfold remaining in Lw. cbn [fst] in *.
      apply IH; [|cbn in L; lia].
      assert (Ball : forallb JsString.isSpace (c :: cs') = true)
        by (cbn [forallb]; now rewrite Bc, B).
      rewrite E, forallb_app in Ball. apply andb_true_iff in Ball. apply Ball.
Qed.

(** on a text of white space only, the parser gets the end marker alone *)
Lemma tokenize_blank (input : string) (opts : Options) :
  forallb JsString.isSpace (JsString.toList input) = true ->
  exists toks eof,
    tokenize input opts = Return toks
    /\ Parser.significant toks = [eof] /\ type eof = TT.EOF.
Proof.
  intros B.
  destruct (tokenizeLoop_blank (length (JsString.toList input))
              (JsString.toList input) (mkCursor 0 1 1) [] B (Nat.le_refl _))
    as [k' E].
  pose proof (LexerOptionsFacts.tokenize_options input opts (mkOptions false false)) as A.
  unfold tokenize in A at 2. rewrite E in A.
  destruct (tokenize input opts) as [toks|e|]; cbn [agree] in A; try contradiction.
  exists toks, (tokenAt TT.EOF EmptyString k' k'). repeat split. exact A.
Qed.

End BlankFacts.

(** ** The parser: the errors it raises *)

Module ErrorsFacts.
Import Parser Errors.
Local Open Scope parser_scope.

Lemma sure_bind {A B : Type} (m : M A) (k : A -> M B) (pos : nat)
      (Q : B -> nat -> Prop) (E : Exn -> Prop) :
  sure m pos (fun a p => sure (k a) p Q E) E -> sure (bind m k) pos Q E.
Proof. unfold sure, bind. destruct (m pos) as [[a p]|e|]; auto. Qed.

Lemma sure_ret {A : Type} (a : A) (pos : nat) (Q : A -> nat -> Prop) (E : Exn -> Prop) :
  Q a pos -> sure (ret a) pos Q E.
Proof. intros H. exact H. Qed.

Lemma sure_throw {A : Type} (e : Exn) (pos : nat) (Q : A -> nat -> Prop)
      (E : Exn -> Prop) :
  E e -> sure (throw e) pos Q E.
Proof. intros H. exact H. Qed.

Lemma sure_weaken {A : Type} (m : M A) (pos : nat) (P Q : A -> nat -> Prop)
      (E : Exn -> Prop) :
  sure m pos P E -> (forall a p, P a p -> Q a p) -> sure m pos Q E.
Proof. unfold sure. destruct (m pos) as [[a p]|e|]; auto. Qed.

Lemma parserError_end l c : parserError (ESQL (SQLErr.unexpectedEnd l c)).
Proof. eexists. split; [reflexivity|]. right; left. reflexivity. Qed.

Lemma parserError_token x a l c : parserError (ESQL (SQLErr.unexpectedToken x a l c)).
Proof. eexists. split; [reflexivity|]. right; right; left. reflexivity. Qed.

Lemma parserError_empty l c x :
  parserError (ESQL (mkSQLError "Empty input" (Code "EMPTY_INPUT") l c x)).
Proof. eexists. split; [reflexivity|]. left. reflexivity. Qed.

Lemma parserError_number (e : SQLError) :
  (exists n, code e = CodeNumber n) -> parserError (ESQL e).
Proof. intros H. exists e. split; [reflexivity|]. right; right; right. exact H. Qed.

Lemma includes_In (l : list string) (s : string) :
  JsString.includes l s = true -> In s l.
Proof.
  unfold JsString.includes. intros H. apply existsb_exists in H.
  destruct H as (x & I & E). apply String.eqb_eq in E. now subst.
Qed.

Section Primitives.
Variable tokens : list Token.
Hypothesis Closed : closed tokens.
Variable E : Exn -> Prop.

Lemma current_sure (pos : nat) :
  sure (current tokens) pos (fun o p => p = pos /\ nth_error tokens pos = o) E.
Proof. split; reflexivity. Qed.

Lemma advance_sure (pos : nat) :
  sure (advance tokens) pos
       (fun _ p => (pos < length tokens /\ p = S pos) \/ (length tokens <= pos /\ p = pos))
       E.
Proof.
  unfold sure, advance.
  destruct (Nat.ltb_spec pos (length tokens)); [left | right]; split; auto.
Qed.

Lemma backtrack_sure (pos : nat) : sure backtrack pos (fun _ p => p = pos - 1) E.
Proof. reflexivity. Qed.

Lemma getPosition_sure (pos : nat) :
  sure getPosition pos (fun a p => a = pos /\ p = pos) E.
Proof. split; reflexivity. Qed.

Lemma matchType_sure (ty : TokenType) (pos : nat) :
  sure (matchType tokens ty) pos
       (fun b p => p = pos
                   /\ if b then pos < length tokens
                                /\ (ty = TT.EOF \/ S pos < length tokens)
                      else True) E.
Proof.
  unfold sure, matchType, bind, current, ret. split; [reflexivity|].
  destruct (nth_error tokens pos) as [t|] eqn:N; [|exact I].
  destruct (tokenIs t ty) eqn:T; [|exact I].
  split; [apply nth_error_Some; congruence|].
  unfold tokenIs in T. apply String.eqb_eq in T.
  destruct (String.eqb_spec ty TT.EOF) as [Y|Y]; [now left | right].
  apply (Closed pos t N). congruence.
Qed.

Lemma matchAny_sure (tys : list TokenType) (pos : nat) :
  sure (matchAny tokens tys) pos
       (fun b p => p = pos
                   /\ if b then pos < length tokens
                                /\ (In TT.EOF tys \/ S pos < length tokens)
                      else True) E.
Proof.
  unfold sure, matchAny, bind, current, ret. split; [reflexivity|].
  destruct (nth_error tokens pos) as [t|] eqn:N; [|exact I].
  destruct (isOneOf t tys) eqn:T; [|exact I].
  split; [apply nth_error_Some; congruence|].
  unfold isOneOf in T. apply includes_In in T.
  destruct (String.eqb_spec (type t) TT.EOF) as [Y|Y]; [left; now rewrite <- Y | right].
  exact (Closed pos t N Y).
Qed.

Lemma consumed_sure (ty : TokenType) (pos : nat) :
  sure (consumed tokens ty) pos
       (fun b p => if b then pos < length tokens /\ p = S pos
                            /\ (ty = TT.EOF \/ S pos < length tokens)
                   else p = pos) E.
Proof.
  unfold sure, consumed, consume, matchType, bind, current, ret, advance.
  destruct (nth_error tokens pos) as [t|] eqn:N; [|reflexivity].
  assert (L : pos < length tokens) by (apply nth_error_Some; congruence).
  destruct (tokenIs t ty) eqn:T; [|reflexivity].
  pose proof L as L'. apply Nat.ltb_lt in L'. rewrite L', N.
  repeat split; try assumption.
  unfold tokenIs in T. apply String.eqb_eq in T.
  destruct (String.eqb_spec ty TT.EOF) as [Y|Y]; [now left | right].
  apply (Closed pos t N). congruence.
Qed.

Lemma currentToken_sure (property : string) (pos : nat) :
  pos < length tokens ->
  sure (currentToken tokens property) pos
       (fun t p => p = pos /\ nth_error tokens pos = Some t) E.
Proof.
  intros L. unfold sure, currentToken, bind, current, ret.
  destruct (nth_error tokens pos) as [t|] eqn:N; [split; reflexivity|].
  apply nth_error_None in N. lia.
Qed.

Lemma misplacedError_sure (msg : string) (pos : nat) :
  sure (misplacedError tokens msg) pos
       (fun e p => p = pos /\ exists n, code e = CodeNumber n) E.
Proof.
  unfold sure, misplacedError, bind, current, ret. split; [reflexivity|].
  eexists. reflexivity.
Qed.

Lemma tokenIs_next (pos : nat) (t : Token) (ty : TokenType) :
  nth_error tokens pos = Some t -> tokenIs t ty = true -> ty <> TT.EOF ->
  S pos < length tokens.
Proof.
  intros N T Y. unfold tokenIs in T. apply String.eqb_eq in T.
  apply (Closed pos t N). congruence.
Qed.

Lemma canBeAlias_next (pos : nat) (t : Token) :
  nth_error tokens pos = Some t -> canBeAlias t = true -> S pos < length tokens.
Proof.
  intros N C. apply (Closed pos t N). intros Y. unfold canBeAlias, tokenIs in C.
  rewrite Y in C. discriminate C.
Qed.

Lemma callable_next (pos : nat) (t : Token) :
  nth_error tokens pos = Some t ->
  tokenIs t TT.IDENTIFIER || isFunctionKeyword t = true -> S pos < length tokens.
Proof.
  intros N C. apply (Closed pos t N). intros Y.
  unfold isFunctionKeyword, tokenIs in C. rewrite Y in C. discriminate C.
Qed.

End Primitives.

Section PrimitivesOfParser.
Variable tokens : list Token.
Hypothesis Closed : closed tokens.

Lemma expect_sure (ty : TokenType) (pos : nat) :
  sure (expect tokens ty) pos
       (fun _ p => p = S pos /\ S pos < length tokens) parserError.
Proof.
  unfold sure, expect, bind, current, ret, advance, throw.
  destruct (nth_error tokens pos) as [t|] eqn:N; [|apply parserError_end].
  destruct (tokenIs t TT.EOF) eqn:T; [apply parserError_end|].
  destruct (negb (tokenIs t ty)); [apply parserError_token|].
  assert (L : pos < length tokens) by (apply nth_error_Some; congruence).
  pose proof L as L'. apply Nat.ltb_lt in L'. rewrite L'.
  split; [reflexivity|]. apply (Closed pos t N).
  intros Y. unfold tokenIs in T. rewrite Y in T. discriminate T.
Qed.

End PrimitivesOfParser.


Ltac sfacts :=
  cbv beta iota in *;
  repeat match goal with
         | H : _ /\ _ |- _ => destruct H
         | H : True |- _ => clear H
         | H : ?p = _ |- _ => is_var p; subst p
         | H : _ = TT.EOF \/ _ |- _ =>
             destruct H as [H|H]; [exfalso; cbv in H; discriminate H|]
         | H : In TT.EOF _ \/ _ |- _ =>
             destruct H as [H|H]; [exfalso; cbv in H; intuition discriminate|]
         | H : _ \/ _ |- _ => destruct H; try (exfalso; lia)
         | H : (if ?b then _ else _) |- _ => destruct b
         end.

Ltac sp_prim L :=
  eapply sure_weaken;
  [ eapply L; try eassumption; try lia
  | cbv beta; intros ? ? ?; sfacts ].

Ltac sp_call L :=
  eapply sure_weaken;
  [ eapply L; lia
  | cbv beta; intros ? ? ?; unfold before, upTo in *; sfacts ].

(** one step of the run of a method body *)
Ltac sp_step Closed IH :=
  cbv beta zeta;
  lazymatch goal with
  | |- sure (bind _ _) _ _ _ => apply sure_bind
  | |- sure (ret _) _ _ _ => apply sure_ret; cbv beta
  | |- sure (throw _) _ _ _ =>
      apply sure_throw;
      first [ apply parserError_end | apply parserError_token
            | apply parserError_empty
            | apply parserError_number; assumption ]
  | |- sure (if canBeAlias ?t then _ else _) _ _ _ =>
      let C := fresh "C" in
      destruct (canBeAlias t) eqn:C;
      [ match goal with
        | N : nth_error _ _ = Some t |- _ =>
            pose proof (canBeAlias_next _ Closed _ _ N C)
        end
      | ]
  | |- sure (if tokenIs ?t TT.IDENTIFIER || isFunctionKeyword ?t then _ else _) _ _ _ =>
      let C := fresh "C" in
      destruct (tokenIs t TT.IDENTIFIER || isFunctionKeyword t) eqn:C;
      [ match goal with
        | N : nth_error _ _ = Some t |- _ =>
            pose proof (callable_next _ Closed _ _ N C)
        end
      | ]
  | |- sure (if tokenIs ?t ?ty then _ else _) _ _ _ =>
      let C := fresh "C" in
      destruct (tokenIs t ty) eqn:C;
      [ match goal with
        | N : nth_error _ _ = Some t |- _ =>
            pose proof (tokenIs_next _ Closed _ _ _ N C ltac:(discriminate))
        end
      | ]
  | |- sure (if ?b then _ else _) _ _ _ => destruct b; sfacts
  | |- sure (match ?o with Some _ => _ | None => _ end) _ _ _ => destruct o; sfacts
  | |- sure (whenM _ _) _ _ _ => unfold whenM
  | |- sure (optionalClause _ _ _) _ _ _ => unfold optionalClause
  | |- sure (binaryLoop _ _ _ _ _) _ _ _ => unfold binaryLoop
  | |- sure (regularTableReference _) _ _ _ => unfold regularTableReference
  | |- sure (tableAlias _) _ _ _ => unfold tableAlias
  | |- sure (frameDirection _) _ _ _ => unfold frameDirection
  | |- sure (current _) _ _ _ => sp_prim current_sure
  | |- sure (advance _) _ _ _ => sp_prim advance_sure
  | |- sure backtrack _ _ _ => sp_prim backtrack_sure
  | |- sure getPosition _ _ _ => sp_prim getPosition_sure
  | |- sure (matchType _ _) _ _ _ => sp_prim matchType_sure
  | |- sure (matchAny _ _) _ _ _ => sp_prim matchAny_sure
  | |- sure (consumed _ _) _ _ _ => sp_prim consumed_sure
  | |- sure (expect _ _) _ _ _ => sp_prim expect_sure
  | |- sure (currentToken _ _) _ _ _ => sp_prim currentToken_sure
  | |- sure (misplacedError _ _) _ _ _ => sp_prim misplacedError_sure
  | |- sure (this_parseStatement _) _ _ _ => sp_call (safe_parseStatement _ _ IH)
  | |- sure (this_parseUnionStatement _) _ _ _ => sp_call (safe_parseUnionStatement _ _ IH)
  | |- sure (this_parseUnionStatementWithoutOrderLimit _) _ _ _ => sp_call (safe_parseUnionStatementWithoutOrderLimit _ _ IH)
  | |- sure (this_parseSelectStatementWithoutOrderLimit _) _ _ _ => sp_call (safe_parseSelectStatementWithoutOrderLimit _ _ IH)
  | |- sure (this_parseWithStatement _) _ _ _ => sp_call (safe_parseWithStatement _ _ IH)
  | |- sure (this_withLoop _ _) _ _ _ => sp_call (safe_withLoop _ _ IH)
  | |- sure (this_identifierLoop _ _) _ _ _ => sp_call (safe_identifierLoop _ _ IH)
  | |- sure (this_parseSelectStatement _) _ _ _ => sp_call (safe_parseSelectStatement _ _ IH)
  | |- sure (this_parseSelectColumns _) _ _ _ => sp_call (safe_parseSelectColumns _ _ IH)
  | |- sure (this_selectColumnsLoop _ _) _ _ _ => sp_call (safe_selectColumnsLoop _ _ IH)
  | |- sure (this_parseFromClause _) _ _ _ => sp_call (safe_parseFromClause _ _ IH)
  | |- sure (this_fromLoop _ _ _) _ _ _ => sp_call (safe_fromLoop _ _ IH)
  | |- sure (this_joinLoop _ _) _ _ _ => sp_call (safe_joinLoop _ _ IH)
  | |- sure (this_parseTableReference _) _ _ _ => sp_call (safe_parseTableReference _ _ IH)
  | |- sure (this_parseJoinClause _) _ _ _ => sp_call (safe_parseJoinClause _ _ IH)
  | |- sure (this_parseWhereClause _) _ _ _ => sp_call (safe_parseWhereClause _ _ IH)
  | |- sure (this_parseGroupByClause _) _ _ _ => sp_call (safe_parseGroupByClause _ _ IH)
  | |- sure (this_expressionLoop _ _) _ _ _ => sp_call (safe_expressionLoop _ _ IH)
  | |- sure (this_parseHavingClause _) _ _ _ => sp_call (safe_parseHavingClause _ _ IH)
  | |- sure (this_parseOrderByClause _) _ _ _ => sp_call (safe_parseOrderByClause _ _ IH)
  | |- sure (this_orderByLoop _ _) _ _ _ => sp_call (safe_orderByLoop _ _ IH)
  | |- sure (this_parseLimitClause _) _ _ _ => sp_call (safe_parseLimitClause _ _ IH)
  | |- sure (this_parseInsertStatement _) _ _ _ => sp_call (safe_parseInsertStatement _ _ IH)
  | |- sure (this_valuesLoop _ _) _ _ _ => sp_call (safe_valuesLoop _ _ IH)
  | |- sure (this_parseUpdateStatement _) _ _ _ => sp_call (safe_parseUpdateStatement _ _ IH)
  | |- sure (this_assignmentLoop _ _) _ _ _ => sp_call (safe_assignmentLoop _ _ IH)
  | |- sure (this_parseDeleteStatement _) _ _ _ => sp_call (safe_parseDeleteStatement _ _ IH)
  | |- sure (this_parseExpression _) _ _ _ => sp_call (safe_parseExpression _ _ IH)
  | |- sure (this_parseOrExpression _) _ _ _ => sp_call (safe_parseOrExpression _ _ IH)
  | |- sure (this_orLoop _ _) _ _ _ => sp_call (safe_orLoop _ _ IH)
  | |- sure (this_parseAndExpression _) _ _ _ => sp_call (safe_parseAndExpression _ _ IH)
  | |- sure (this_andLoop _ _) _ _ _ => sp_call (safe_andLoop _ _ IH)
  | |- sure (this_parseEqualityExpression _) _ _ _ => sp_call (safe_parseEqualityExpression _ _ IH)
  | |- sure (this_equalityLoop _ _) _ _ _ => sp_call (safe_equalityLoop _ _ IH)
  | |- sure (this_parseRelationalExpression _) _ _ _ => sp_call (safe_parseRelationalExpression _ _ IH)
  | |- sure (this_relationalLoop _ _) _ _ _ => sp_call (safe_relationalLoop _ _ IH)
  | |- sure (this_inValuesLoop _ _) _ _ _ => sp_call (safe_inValuesLoop _ _ IH)
  | |- sure (this_parseAdditiveExpression _) _ _ _ => sp_call (safe_parseAdditiveExpression _ _ IH)
  | |- sure (this_additiveLoop _ _) _ _ _ => sp_call (safe_additiveLoop _ _ IH)
  | |- sure (this_parseMultiplicativeExpression _) _ _ _ => sp_call (safe_parseMultiplicativeExpression _ _ IH)
  | |- sure (this_multiplicativeLoop _ _) _ _ _ => sp_call (safe_multiplicativeLoop _ _ IH)
  | |- sure (this_parseUnaryExpression _) _ _ _ => sp_call (safe_parseUnaryExpression _ _ IH)
  | |- sure (this_parsePrimaryExpression _) _ _ _ => sp_call (safe_parsePrimaryExpression _ _ IH)
  | |- sure (this_argumentLoop _ _) _ _ _ => sp_call (safe_argumentLoop _ _ IH)
  | |- sure (this_parseCaseExpression _) _ _ _ => sp_call (safe_parseCaseExpression _ _ IH)
  | |- sure (this_whenLoop _ _) _ _ _ => sp_call (safe_whenLoop _ _ IH)
  | |- sure (this_parseOverClause _) _ _ _ => sp_call (safe_parseOverClause _ _ IH)
  | |- sure (this_parseWindowFrame _) _ _ _ => sp_call (safe_parseWindowFrame _ _ IH)
  | |- sure (this_parseFrameBound _) _ _ _ => sp_call (safe_parseFrameBound _ _ IH)
  | |- before _ _ _ => unfold before; lia
  | |- upTo _ _ _ => unfold upTo; lia
  | |- _ < _ => lia
  | |- _ <= _ => lia
  end.

Ltac sp Closed IH := repeat sp_step Closed IH.

Section Step.
Variable tokens : list Token.
Hypothesis Closed : closed tokens.

Lemma methods_safe (t : This) :
  Safe (length tokens) t -> Safe (length tokens) (methods tokens t).
Proof.
  intros IH. constructor; cbn [methods
    this_parseStatement this_parseUnionStatement this_parseUnionStatementWithoutOrderLimit this_parseSelectStatementWithoutOrderLimit this_parseWithStatement this_withLoop this_identifierLoop this_parseSelectStatement this_parseSelectColumns this_selectColumnsLoop this_parseFromClause this_fromLoop this_joinLoop this_parseTableReference this_parseJoinClause this_parseWhereClause this_parseGroupByClause this_expressionLoop this_parseHavingClause this_parseOrderByClause this_orderByLoop this_parseLimitClause this_parseInsertStatement this_valuesLoop this_parseUpdateStatement this_assignmentLoop this_parseDeleteStatement this_parseExpression this_parseOrExpression this_orLoop this_parseAndExpression this_andLoop this_parseEqualityExpression this_equalityLoop this_parseRelationalExpression this_relationalLoop this_inValuesLoop this_parseAdditiveExpression this_additiveLoop this_parseMultiplicativeExpression this_multiplicativeLoop this_parseUnaryExpression this_parsePrimaryExpression this_argumentLoop this_parseCaseExpression this_whenLoop this_parseOverClause this_parseWindowFrame this_parseFrameBound];
  intros *; intros L.
  - unfold parseStatement; sp Closed IH.
  - unfold parseUnionStatement; sp Closed IH.
  - unfold parseUnionStatementWithoutOrderLimit; sp Closed IH.
  - unfold parseSelectStatementWithoutOrderLimit; sp Closed IH.
  - unfold parseWithStatement; sp Closed IH.
  - unfold withLoop; sp Closed IH.
  - unfold identifierLoop; sp Closed IH.
  - unfold parseSelectStatement; sp Closed IH.
  - unfold parseSelectColumns; sp Closed IH.
  - unfold selectColumnsLoop; sp Closed IH.
  - unfold parseFromClause; sp Closed IH.
  - unfold fromLoop; sp Closed IH.
  - unfold joinLoop; sp Closed IH.
  - unfold parseTableReference; sp Closed IH.
  - unfold parseJoinClause; sp Closed IH.
  - unfold parseWhereClause; sp Closed IH.
  - unfold parseGroupByClause; sp Closed IH.
  - unfold expressionLoop; sp Closed IH.
  - unfold parseHavingClause; sp Closed IH.
  - unfold parseOrderByClause; sp Closed IH.
  - unfold orderByLoop; sp Closed IH.
  - unfold parseLimitClause; sp Closed IH.
  - unfold parseInsertStatement; sp Closed IH.
  - unfold valuesLoop; sp Closed IH.
  - unfold parseUpdateStatement; sp Closed IH.
  - unfold assignmentLoop; sp Closed IH.
  - unfold parseDeleteStatement; sp Closed IH.
  - unfold parseExpression; sp Closed IH.
  - unfold parseOrExpression; sp Closed IH.
  - unfold orLoop; sp Closed IH.
  - unfold parseAndExpression; sp Closed IH.
  - unfold andLoop; sp Closed IH.
  - unfold parseEqualityExpression; sp Closed IH.
  - unfold equalityLoop; sp Closed IH.
  - unfold parseRelationalExpression; sp Closed IH.
  - unfold relationalLoop; sp Closed IH.
  - unfold inValuesLoop; sp Closed IH.
  - unfold parseAdditiveExpression; sp Closed IH.
  - unfold additiveLoop; sp Closed IH.
  - unfold parseMultiplicativeExpression; sp Closed IH.
  - unfold multiplicativeLoop; sp Closed IH.
  - unfold parseUnaryExpression; sp Closed IH.
  - unfold parsePrimaryExpression; sp Closed IH.
  - unfold argumentLoop; sp Closed IH.
  - unfold parseCaseExpression; sp Closed IH.
  - unfold whenLoop; sp Closed IH.
  - unfold parseOverClause; sp Closed IH.
  - unfold parseWindowFrame; sp Closed IH.
  - unfold parseFrameBound; sp Closed IH.
Qed.

Lemma noThis_safe : Safe (length tokens) noThis.
Proof. constructor; intros *; intros L; exact I. Qed.

Lemma parser_safe (fuel : nat) : Safe (length tokens) (parser tokens fuel).
Proof.
  induction fuel as [|fuel IH]; [exact noThis_safe|].
  exact (methods_safe _ IH).
Qed.

Lemma parseTokens_errors (options : Options) (fuel : nat) (e : Exn) :
  parseTokens tokens options fuel = Throw e -> parserError e.
Proof.
  pose proof (parser_safe fuel) as IH.
  unfold parseTokens. cbv zeta.
  match goal with
  | |- match ?run 0 with _ => _ end = _ -> _ =>
      assert (T : sure run 0 (fun _ _ => True) parserError);
      [|unfold sure in T; destruct (run 0) as [[a p]|x|];
        [discriminate | now intros [= <-] | discriminate]]
  end.
  sp Closed IH; exact I.
Qed.

End Step.

Lemma closed_snoc (front : list Token) (eof : Token) :
  type eof = TT.EOF -> closed (front ++ [eof]).
Proof.
  intros T pos t N Y. rewrite length_app. cbn [length].
  destruct (Nat.lt_ge_cases pos (length front)) as [L|L]; [lia|].
  exfalso. rewrite nth_error_app2 in N by exact L.
  destruct (pos - length front) as [|n]; cbn in N.
  - injection N as <-. contradiction.
  - destruct n; discriminate N.
Qed.

Lemma significant_snoc (front : list Token) (eof : Token) :
  type eof = TT.EOF ->
  significant (front ++ [eof]) = (significant front ++ [eof])%list.
Proof.
  intros T. unfold significant. rewrite filter_app. cbn [filter].
  unfold isOneOf. rewrite T. reflexivity.
Qed.

(** what the lexer returns is closed, before and after the parser filters it *)
Lemma closed_significant (toks front : list Token) (eof : Token) :
  toks = (front ++ [eof])%list -> type eof = TT.EOF -> closed (significant toks).
Proof.
  intros -> T. rewrite (significant_snoc _ _ T). now apply closed_snoc.
Qed.

(** [parse] raises the errors of the parser, and the error of the stack
    when the stack ran out *)
Lemma parse_errors (fuel : nat) (toks : list Token) (options : Options) (e : Exn) :
  closed (significant toks) -> parse fuel toks options = Throw e ->
  parserError e \/ e = stackOverflow.
Proof.
  intros C P. apply ParserFuel.parse_Throw in P. destruct P as [P | [_ ->]].
  - left. revert P. now apply parseTokens_errors.
  - now right.
Qed.

Lemma stackOverflow_foreign : ~ parserError stackOverflow.
Proof. intros (err & E & _). discriminate E. Qed.

Lemma parse_errors_enough (fuel : nat) (toks : list Token) (options : Options)
      (e : Exn) :
  closed (significant toks) -> Progress.enough toks <= fuel ->
  parse fuel toks options = Throw e -> parserError e.
Proof.
  intros C W P. destruct (parse_errors _ _ _ _ C P) as [H | ->]; [exact H|].
  exfalso. revert P. now apply ProgressFacts.parse_total.
Qed.

End ErrorsFacts.

(** ** The parser: the grammar of what it builds *)

Module SchemaFacts.
Import Parser Shape Errors Schema ErrorsFacts.
Local Open Scope parser_scope.

Lemma Typed_iff (n : node) :
  Typed n <-> schema (Analyzer.unalias n) = true /\ Forall Typed (children n).
Proof.
  unfold Typed. rewrite ShapeFacts.descendants_children, Forall_cons_iff, Forall_flat_map.
  reflexivity.
Qed.

Lemma Typed_node (n : node) :
  schema (Analyzer.unalias n) = true -> Forall Typed (children n) -> Typed n.
Proof. intros. apply Typed_iff. now split. Qed.

Lemma Typed_setAlias (e : node) (a : string) : Typed e -> Typed (setAlias e a).
Proof.
  intros H. destruct e; cbn [setAlias]; try exact H;
    apply Typed_iff in H; apply Typed_iff; exact H.
Qed.

Lemma isColumnItem_expression (e : node) :
  isExpression e = true -> isColumnItem e = true.
Proof. destruct e; intros H; try discriminate H; reflexivity. Qed.

Lemma isColumnItem_setAlias (e : node) (a : string) :
  isExpression e = true -> isColumnItem (setAlias e a) = true.
Proof. destruct e; intros H; try discriminate H; reflexivity. Qed.

Lemma isStatement_query (n : node) : isQuery n = true -> isStatement n = true.
Proof. destruct n; intros H; try discriminate H; reflexivity. Qed.

Lemma isQuery_select (n : node) : isSelect n = true -> isQuery n = true.
Proof. intros H. unfold isQuery. now rewrite H. Qed.

Ltac split_ands R :=
  repeat (apply andb_true_iff in R; let X := fresh in destruct R as [R X]).

Ltac use_trues :=
  repeat match goal with
         | H : ?x = true |- context [?x] => rewrite H
         end.

Lemma nodeOf_setWith (q w : node) :
  nodeOf isQuery q -> nodeOf isWithClause w -> nodeOf isQuery (setWith q w).
Proof.
  intros [Tq Cq] [Tw Cw].
  destruct q; try discriminate Cq; cbn [setWith]; (split; [|reflexivity]);
    apply Typed_iff in Tq; destruct Tq as [R C]; apply Typed_node;
    cbn [Analyzer.unalias schema children] in *;
    try (split_ands R; use_trues; cbn [opt andb]; exact Cw);
    rewrite !Forall_app in *; intuition; now constructor.
Qed.

Lemma nodeOf_setOrderLimit (q : node) (o l : option node) :
  nodeOf isSelect q ->
  TypedOpt o -> opt isOrderBy o = true -> TypedOpt l -> opt isLimit l = true ->
  nodeOf isQuery (setOrderLimit q o l).
Proof.
  intros [Tq Cq] To Co Tl Cl.
  destruct q; try discriminate Cq; cbn [setOrderLimit]. split; [|reflexivity].
  apply Typed_iff in Tq; destruct Tq as [R C]; apply Typed_node;
    cbn [Analyzer.unalias schema children] in *.
  - split_ands R. use_trues. reflexivity.
  - rewrite !Forall_app in *.
    destruct o, l; cbn [TypedOpt] in *; intuition; now constructor.
Qed.

Lemma sure_any {A : Type} (m : M A) (pos : nat) :
  sure m pos (fun _ _ => True) any.
Proof. unfold sure. destruct (m pos) as [[a p]|e|]; exact I. Qed.

Lemma forallb_snoc (p : node -> bool) (l : list node) (x : node) :
  forallb p l = true -> p x = true -> forallb p (l ++ [x]) = true.
Proof. intros H1 H2. rewrite forallb_app, H1. cbn. now rewrite H2. Qed.

Lemma nonEmpty_snoc {A : Type} (l : list A) (x : A) : nonEmpty (l ++ [x]) = true.
Proof. destruct l; reflexivity. Qed.

(** goals on booleans: the classes of the children *)
Ltac bsolve :=
  repeat first
    [ reflexivity
    | assumption
    | match goal with
      | H : ?x = true |- context [?x] => rewrite H
      | H : ?x = false |- context [?x] => rewrite H
      | |- forallb _ (_ ++ [_]) = true => apply forallb_snoc
      | |- nonEmpty (_ ++ [_]) = true => apply nonEmpty_snoc
      | |- isColumnItem (setAlias _ _) = true => apply isColumnItem_setAlias
      | H : isExpression ?e = true |- isColumnItem ?e = true =>
          apply isColumnItem_expression
      | H : isQuery ?a = true |- isStatement ?a = true => apply isStatement_query
      | H : isSelect ?a = true |- isQuery ?a = true => apply isQuery_select
      | |- context [if ?b then _ else _] => destruct b
      | |- context [match ?o with Some _ => _ | None => _ end] => destruct o
      end
    | progress cbn [schema opt some none optList nonEmpty forallb andb orb negb
                    Analyzer.unalias fst snd]
    | progress unfold isOperand, isQuery
    | progress rewrite ?orb_true_r, ?andb_true_r ].

(** goals on the trees that a method builds *)
Ltac typed_step :=
  match goal with
  | |- _ => assumption
  | |- True => exact I
  | |- any _ => exact I
  | |- _ /\ _ => split
  | |- nodeOf isQuery (setWith _ _) => apply nodeOf_setWith
  | |- nodeOf isQuery (setOrderLimit _ _ _) => apply nodeOf_setOrderLimit
  | |- nodeOf _ _ => unfold nodeOf
  | |- listOf _ _ => unfold listOf
  | |- fullListOf _ _ => unfold fullListOf
  | |- TypedOpt (Some _) => cbn [TypedOpt]
  | |- TypedOpt None => exact I
  | |- Forall Typed [] => apply Forall_nil
  | |- Forall Typed (_ :: _) => apply Forall_cons
  | |- Forall Typed (_ ++ _)%list => apply Forall_app; split
  | |- Forall Typed (fst _) => cbn [fst]
  | |- Forall Typed (snd _) => cbn [snd]
  | |- Typed (setAlias _ _) => apply Typed_setAlias
  | |- Typed (if ?b then _ else _) => destruct b
  | |- Typed (match ?x with _ => _ end) => destruct x
  | |- Forall Typed (if ?b then _ else _) => destruct b
  | |- Forall Typed (match ?x with _ => _ end) => destruct x
  | |- Typed ?n =>
      let h := ShapeFacts.head_of n in
      is_constructor h;
      apply Typed_node; [|cbn [Analyzer.unalias children app fst snd]]
  | |- _ = true => solve [bsolve]
  end.

Ltac typed :=
  unfold AST.select, AST.insert, AST.update, AST.delete, AST.union, AST.with_,
    AST.cte, AST.windowFunction, AST.over, AST.windowFrame, AST.binary,
    AST.unary, AST.function, AST.case, AST.when, AST.table, AST.column,
    AST.wildcard, AST.literal, AST.from, AST.join, AST.groupBy, AST.having,
    AST.orderBy, AST.orderByColumn, AST.limit, AST.assignment, AST.valuesList,
    AST.betweenRange, AST.interval, AST.subquery in *;
  repeat typed_step.

Ltac gfacts :=
  cbv beta in *;
  repeat match goal with
         | H : _ /\ _ |- _ => destruct H
         | H : True |- _ => clear H
         | H : nodeOf _ _ |- _ => destruct H
         | H : listOf _ _ |- _ => destruct H
         | H : fullListOf _ _ |- _ => destruct H
         end.

Ltac gp_any :=
  eapply sure_weaken; [apply sure_any | cbv beta; intros ? ? _].

Ltac gp_call L :=
  eapply sure_weaken;
  [ eapply L; typed
  | cbv beta; intros ? ? ?; gfacts ].

Ltac gp_if b :=
  let b' := eval cbv in b in
  lazymatch b' with
  | true => change b with true; cbv iota
  | false => change b with false; cbv iota
  | _ => destruct b eqn:?
  end.

(** one step of the run of a method body *)
Ltac gp_step IH :=
  cbv beta zeta;
  lazymatch goal with
  | |- sure (bind _ _) _ _ _ => apply sure_bind
  | |- sure (ret _) _ _ _ => apply sure_ret; cbv beta
  | |- sure (throw _) _ _ _ => exact I
  | |- sure (if ?b then _ else _) _ _ _ => gp_if b
  | |- sure (match ?o with Some _ => _ | None => _ end) _ _ _ => destruct o
  | |- sure (whenM _ _) _ _ _ => unfold whenM
  | |- sure (optionalClause _ _ _) _ _ _ => unfold optionalClause
  | |- sure (binaryLoop _ _ _ _ _) _ _ _ => unfold binaryLoop
  | |- sure (regularTableReference _) _ _ _ => unfold regularTableReference
  | |- sure (tableAlias _) _ _ _ => gp_any
  | |- sure (frameDirection _) _ _ _ => gp_any
  | |- sure (current _) _ _ _ => gp_any
  | |- sure (advance _) _ _ _ => gp_any
  | |- sure backtrack _ _ _ => gp_any
  | |- sure getPosition _ _ _ => gp_any
  | |- sure (matchType _ _) _ _ _ => gp_any
  | |- sure (matchAny _ _) _ _ _ => gp_any
  | |- sure (consumed _ _) _ _ _ => gp_any
  | |- sure (expect _ _) _ _ _ => gp_any
  | |- sure (currentToken _ _) _ _ _ => gp_any
  | |- sure (misplacedError _ _) _ _ _ => gp_any
  | |- sure (this_parseStatement _) _ _ _ => gp_call (gr_parseStatement _ IH)
  | |- sure (this_parseUnionStatement _) _ _ _ => gp_call (gr_parseUnionStatement _ IH)
  | |- sure (this_parseUnionStatementWithoutOrderLimit _) _ _ _ => gp_call (gr_parseUnionStatementWithoutOrderLimit _ IH)
  | |- sure (this_parseSelectStatementWithoutOrderLimit _) _ _ _ => gp_call (gr_parseSelectStatementWithoutOrderLimit _ IH)
  | |- sure (this_parseWithStatement _) _ _ _ => gp_call (gr_parseWithStatement _ IH)
  | |- sure (this_withLoop _ _) _ _ _ => gp_call (gr_withLoop _ IH)
  | |- sure (this_identifierLoop _ _) _ _ _ => gp_call (gr_identifierLoop _ IH)
  | |- sure (this_parseSelectStatement _) _ _ _ => gp_call (gr_parseSelectStatement _ IH)
  | |- sure (this_parseSelectColumns _) _ _ _ => gp_call (gr_parseSelectColumns _ IH)
  | |- sure (this_selectColumnsLoop _ _) _ _ _ => gp_call (gr_selectColumnsLoop _ IH)
  | |- sure (this_parseFromClause _) _ _ _ => gp_call (gr_parseFromClause _ IH)
  | |- sure (this_fromLoop _ _ _) _ _ _ => gp_call (gr_fromLoop _ IH)
  | |- sure (this_joinLoop _ _) _ _ _ => gp_call (gr_joinLoop _ IH)
  | |- sure (this_parseTableReference _) _ _ _ => gp_call (gr_parseTableReference _ IH)
  | |- sure (this_parseJoinClause _) _ _ _ => gp_call (gr_parseJoinClause _ IH)
  | |- sure (this_parseWhereClause _) _ _ _ => gp_call (gr_parseWhereClause _ IH)
  | |- sure (this_parseGroupByClause _) _ _ _ => gp_call (gr_parseGroupByClause _ IH)
  | |- sure (this_expressionLoop _ _) _ _ _ => gp_call (gr_expressionLoop _ IH)
  | |- sure (this_parseHavingClause _) _ _ _ => gp_call (gr_parseHavingClause _ IH)
  | |- sure (this_parseOrderByClause _) _ _ _ => gp_call (gr_parseOrderByClause _ IH)
  | |- sure (this_orderByLoop _ _) _ _ _ => gp_call (gr_orderByLoop _ IH)
  | |- sure (this_parseLimitClause _) _ _ _ => gp_call (gr_parseLimitClause _ IH)
  | |- sure (this_parseInsertStatement _) _ _ _ => gp_call (gr_parseInsertStatement _ IH)
  | |- sure (this_valuesLoop _ _) _ _ _ => gp_call (gr_valuesLoop _ IH)
  | |- sure (this_parseUpdateStatement _) _ _ _ => gp_call (gr_parseUpdateStatement _ IH)
  | |- sure (this_assignmentLoop _ _) _ _ _ => gp_call (gr_assignmentLoop _ IH)
  | |- sure (this_parseDeleteStatement _) _ _ _ => gp_call (gr_parseDeleteStatement _ IH)
  | |- sure (this_parseExpression _) _ _ _ => gp_call (gr_parseExpression _ IH)
  | |- sure (this_parseOrExpression _) _ _ _ => gp_call (gr_parseOrExpression _ IH)
  | |- sure (this_orLoop _ _) _ _ _ => gp_call (gr_orLoop _ IH)
  | |- sure (this_parseAndExpression _) _ _ _ => gp_call (gr_parseAndExpression _ IH)
  | |- sure (this_andLoop _ _) _ _ _ => gp_call (gr_andLoop _ IH)
  | |- sure (this_parseEqualityExpression _) _ _ _ => gp_call (gr_parseEqualityExpression _ IH)
  | |- sure (this_equalityLoop _ _) _ _ _ => gp_call (gr_equalityLoop _ IH)
  | |- sure (this_parseRelationalExpression _) _ _ _ => gp_call (gr_parseRelationalExpression _ IH)
  | |- sure (this_relationalLoop _ _) _ _ _ => gp_call (gr_relationalLoop _ IH)
  | |- sure (this_inValuesLoop _ _) _ _ _ => gp_call (gr_inValuesLoop _ IH)
  | |- sure (this_parseAdditiveExpression _) _ _ _ => gp_call (gr_parseAdditiveExpression _ IH)
  | |- sure (this_additiveLoop _ _) _ _ _ => gp_call (gr_additiveLoop _ IH)
  | |- sure (this_parseMultiplicativeExpression _) _ _ _ => gp_call (gr_parseMultiplicativeExpression _ IH)
  | |- sure (this_multiplicativeLoop _ _) _ _ _ => gp_call (gr_multiplicativeLoop _ IH)
  | |- sure (this_parseUnaryExpression _) _ _ _ => gp_call (gr_parseUnaryExpression _ IH)
  | |- sure (this_parsePrimaryExpression _) _ _ _ => gp_call (gr_parsePrimaryExpression _ IH)
  | |- sure (this_argumentLoop _ _) _ _ _ => gp_call (gr_argumentLoop _ IH)
  | |- sure (this_parseCaseExpression _) _ _ _ => gp_call (gr_parseCaseExpression _ IH)
  | |- sure (this_whenLoop _ _) _ _ _ => gp_call (gr_whenLoop _ IH)
  | |- sure (this_parseOverClause _) _ _ _ => gp_call (gr_parseOverClause _ IH)
  | |- sure (this_parseWindowFrame _) _ _ _ => gp_call (gr_parseWindowFrame _ IH)
  | |- sure (this_parseFrameBound _) _ _ _ => gp_call (gr_parseFrameBound _ IH)
  | |- _ => solve [typed]
  end.

Ltac gp IH := repeat gp_step IH.

Section Step.
Variable tokens : list Token.

Lemma methods_grammar (t : This) : Grammar t -> Grammar (methods tokens t).
Proof.
  intros IH. constructor; cbn [methods
    this_parseStatement this_parseUnionStatement this_parseUnionStatementWithoutOrderLimit this_parseSelectStatementWithoutOrderLimit this_parseWithStatement this_withLoop this_identifierLoop this_parseSelectStatement this_parseSelectColumns this_selectColumnsLoop this_parseFromClause this_fromLoop this_joinLoop this_parseTableReference this_parseJoinClause this_parseWhereClause this_parseGroupByClause this_expressionLoop this_parseHavingClause this_parseOrderByClause this_orderByLoop this_parseLimitClause this_parseInsertStatement this_valuesLoop this_parseUpdateStatement this_assignmentLoop this_parseDeleteStatement this_parseExpression this_parseOrExpression this_orLoop this_parseAndExpression this_andLoop this_parseEqualityExpression this_equalityLoop this_parseRelationalExpression this_relationalLoop this_inValuesLoop this_parseAdditiveExpression this_additiveLoop this_parseMultiplicativeExpression this_multiplicativeLoop this_parseUnaryExpression this_parsePrimaryExpression this_argumentLoop this_parseCaseExpression this_whenLoop this_parseOverClause this_parseWindowFrame this_parseFrameBound];
  intros *; intros.
  - unfold parseStatement; gfacts; gp IH.
  - unfold parseUnionStatement; gfacts; gp IH.
  - unfold parseUnionStatementWithoutOrderLimit; gfacts; gp IH.
  - unfold parseSelectStatementWithoutOrderLimit; gfacts; gp IH.
  - unfold parseWithStatement; gfacts; gp IH.
  - unfold withLoop; gfacts; gp IH.
  - unfold identifierLoop; gfacts; gp IH.
  - unfold parseSelectStatement; gfacts; gp IH.
  - unfold parseSelectColumns; gfacts; gp IH.
  - unfold selectColumnsLoop; gfacts; gp IH.
  - unfold parseFromClause; gfacts; gp IH.
  - unfold fromLoop; gfacts; gp IH.
  - unfold joinLoop; gfacts; gp IH.
  - unfold parseTableReference; gfacts; gp IH.
  - unfold parseJoinClause; gfacts; gp IH.
  - unfold parseWhereClause; gfacts; gp IH.
  - unfold parseGroupByClause; gfacts; gp IH.
  - unfold expressionLoop; gfacts; gp IH.
  - unfold parseHavingClause; gfacts; gp IH.
  - unfold parseOrderByClause; gfacts; gp IH.
  - unfold orderByLoop; gfacts; gp IH.
  - unfold parseLimitClause; gfacts; gp IH.
  - unfold parseInsertStatement; gfacts; gp IH.
  - unfold valuesLoop; gfacts; gp IH.
  - unfold parseUpdateStatement; gfacts; gp IH.
  - unfold assignmentLoop; gfacts; gp IH.
  - unfold parseDeleteStatement; gfacts; gp IH.
  - unfold parseExpression; gfacts; gp IH.
  - unfold parseOrExpression; gfacts; gp IH.
  - unfold orLoop; gfacts; gp IH.
  - unfold parseAndExpression; gfacts; gp IH.
  - unfold andLoop; gfacts; gp IH.
  - unfold parseEqualityExpression; gfacts; gp IH.
  - unfold equalityLoop; gfacts; gp IH.
  - unfold parseRelationalExpression; gfacts; gp IH.
  - unfold relationalLoop; gfacts; gp IH.
  - unfold inValuesLoop; gfacts; gp IH.
  - unfold parseAdditiveExpression; gfacts; gp IH.
  - unfold additiveLoop; gfacts; gp IH.
  - unfold parseMultiplicativeExpression; gfacts; gp IH.
  - unfold multiplicativeLoop; gfacts; gp IH.
  - unfold parseUnaryExpression; gfacts; gp IH.
  - unfold parsePrimaryExpression; gfacts; gp IH.
  - unfold argumentLoop; gfacts; gp IH.
  - unfold parseCaseExpression; gfacts; gp IH.
  - unfold whenLoop; gfacts; gp IH.
  - unfold parseOverClause; gfacts; gp IH.
  - unfold parseWindowFrame; gfacts; gp IH.
  - unfold parseFrameBound; gfacts; gp IH.
Qed.

Lemma noThis_grammar : Grammar noThis.
Proof. constructor; intros; exact I. Qed.

Lemma parser_grammar (fuel : nat) : Grammar (parser tokens fuel).
Proof.
  induction fuel as [|fuel IH]; [exact noThis_grammar|].
  exact (methods_grammar _ IH).
Qed.

Lemma parseTokens_grammar (options : Options) (fuel : nat) (tree : node) :
  parseTokens tokens options fuel = Return tree -> nodeOf isStatement tree.
Proof.
  pose proof (parser_grammar fuel) as IH.
  unfold parseTokens. cbv zeta.
  match goal with
  | |- match ?run 0 with _ => _ end = _ -> _ =>
      assert (T : sure run 0 (fun a _ => nodeOf isStatement a) any);
      [|unfold sure in T; destruct (run 0) as [[a p]|x|];
        [now intros [= <-] | discriminate | discriminate]]
  end.
  gp IH.
Qed.

End Step.

Lemma parse_grammar (fuel : nat) (toks : list Token) (options : Options) (tree : node) :
  parse fuel toks options = Return tree -> nodeOf isStatement tree.
Proof. intros P. apply ParserFuel.parse_Return in P. revert P. apply parseTokens_grammar. Qed.

End SchemaFacts.

(** ** The facade and the analyzer on what the lexer and the parser return *)

Module ResultFacts.
Import Facade Shape Errors Schema Notions.

Lemma tokenize_ok (input : string) (opts : Lexer.Options) :
  LexerProps.tokenizeOk (Lexer.tokenize input opts).
Proof.
  unfold Lexer.tokenize.
  apply (LexerFacts.tokenizeLoop_ok _ opts (JsString.toList input)
           (Lexer.mkCursor 0 1 1) []); [lia | constructor].
Qed.

Lemma tokenize_closed (input : string) (opts : Lexer.Options) (toks : list Token) :
  Lexer.tokenize input opts = Return toks -> closed (Parser.significant toks).
Proof.
  intros E. pose proof (tokenize_ok input opts) as T. rewrite E in T.
  destruct T as (front & eof & -> & Y & _).
  now apply (ErrorsFacts.closed_significant _ front eof).
Qed.

(** the two ways in which [parseSQL] returns on a text *)
Lemma parseSQL_cases (fuel : nat) (s : string) (o : Options) (r : ParseResult) :
  parseSQL fuel (ArgString s) o = Return r ->
  let lexed := Lexer.tokenize s (Lexer.mkOptions (includeWhitespace o)
                                                 (includeComments o)) in
  (exists toks tree,
      lexed = Return toks
      /\ Parser.parse fuel toks (Parser.mkOptions (strict o)) = Return tree
      /\ r = mkParseResult true (Some tree) (extractTablesFromAST tree)
                           (extractColumnsFromAST tree)
                           (if includeTokens o then Some toks else None) [])
  \/ (exists e,
         (lexed = Throw e
          \/ exists toks,
               lexed = Return toks
               /\ Parser.parse fuel toks (Parser.mkOptions (strict o)) = Throw e)
         /\ r = catchParse e).
Proof.
  unfold parseSQL. cbv zeta.
  destruct (Lexer.tokenize s _) as [toks|e|] eqn:L; [| |discriminate].
  - destruct (Parser.parse fuel toks _) as [tree|e|] eqn:P; [| |discriminate].
    + intros [= <-]. left. now exists toks, tree.
    + intros [= <-]. right. exists e. split; [|reflexivity]. right. now exists toks.
  - intros [= <-]. right. exists e. split; [now left | reflexivity].
Qed.

(** what a successful result holds *)
Lemma parseSQL_success (fuel : nat) (s : string) (o : Options) (r : ParseResult) :
  parseSQL fuel (ArgString s) o = Return r -> success r = true ->
  exists tree,
    ast r = Some tree /\ nodeOf isStatement tree
    /\ tables r = extractTablesFromAST tree
    /\ columns r = extractColumnsFromAST tree
    /\ errors r = [].
Proof.
  intros H S. destruct (parseSQL_cases _ _ _ _ H) as [(toks & tree & L & P & ->) | (e & _ & ->)].
  - exists tree. repeat split; try reflexivity;
      now apply (SchemaFacts.parse_grammar _ _ _ _ P).
  - destruct e; discriminate S.
Qed.

(** what a failed result holds: the error of the lexer or of the parser,
    or the error of the stack that ran out *)
Lemma parseSQL_failure (fuel : nat) (s : string) (o : Options) (r : ParseResult) :
  parseSQL fuel (ArgString s) o = Return r -> success r = false ->
  (exists err,
      r = parseFailure (toJSON err)
      /\ (LexerProps.isLexKind (code err) \/ parserCode (code err)))
  \/ r = Progress.exhausted.
Proof.
  intros H S. destruct (parseSQL_cases _ _ _ _ H) as [(toks & tree & L & P & ->) | (e & W & ->)].
  - discriminate S.
  - destruct W as [L | (toks & L & P)].
    + pose proof (tokenize_ok s (Lexer.mkOptions (includeWhitespace o) (includeComments o))) as T.
      rewrite L in T. destruct T as (err & -> & K).
      left. exists err. split; [reflexivity | now left].
    + apply ErrorsFacts.parse_errors in P; [|now apply (tokenize_closed _ _ _ L)].
      destruct P as [(err & -> & K) | ->]; [|now right].
      left. exists err. split; [reflexivity | now right].
Qed.

(** on a stack that is deep enough the result is not the one of the stack
    that ran out *)
Lemma parseSQL_enough (fuel : nat) (s : string) (o : Options) :
  Progress.budget s o <= fuel ->
  parseSQL fuel (ArgString s) o <> Return Progress.exhausted.
Proof.
  intros W H. destruct (parseSQL_cases _ _ _ _ H) as [(toks & tree & L & P & E) | (e & C & E)].
  - discriminate E.
  - unfold Progress.budget in W. destruct C as [L | (toks & L & P)].
    + pose proof (tokenize_ok s (Lexer.mkOptions (includeWhitespace o) (includeComments o))) as T.
      rewrite L in T. destruct T as (err & -> & K). discriminate E.
    + rewrite L in W.
      apply ErrorsFacts.parse_errors_enough in P;
        [|now apply (tokenize_closed _ _ _ L) | exact W].
      destruct P as (err & -> & K). discriminate E.
Qed.

Lemma In_distinct (l seen : list string) (x : string) :
  In x (distinct seen l) <-> In x l /\ ~ In x seen.
Proof.
  revert seen. induction l as [|y l IH]; intros seen; cbn [distinct].
  - cbn. tauto.
  - destruct (JsString.includes seen y) eqn:I.
    + apply ErrorsFacts.includes_In in I. rewrite IH. cbn [In].
      split; [tauto|]. intros [[-> | H] N]; [contradiction | tauto].
    + assert (N : ~ In y seen).
      { intros K.
        revert I. unfold JsString.includes.
        match goal with
        | |- existsb ?f seen = false -> _ =>
            intros I; assert (T : existsb f seen = true);
            [apply existsb_exists; exists y; split; [exact K|]; cbn; apply String.eqb_refl
            | congruence]
        end. }
      cbn [In]. rewrite IH. cbn [In].
      destruct (String.eqb_spec y x) as [-> | D]; [tauto|].
      split.
      * intros [E | [H K]]; [contradiction | tauto].
      * intros [[E | H] K]; [contradiction|]. right. split; [exact H|].
        intros [E | K']; [contradiction | contradiction].
Qed.

Lemma NoDup_distinct (l seen : list string) : NoDup (distinct seen l).
Proof.
  revert seen. induction l as [|y l IH]; intros seen; cbn [distinct].
  - constructor.
  - destruct (JsString.includes seen y); [apply IH|].
    constructor; [|apply IH]. rewrite In_distinct. cbn [In]. tauto.
Qed.

Lemma In_collect {A : Type} (f : node -> option A) (l : list node) (a : A) :
  In a (collect f l) <-> exists n, In n l /\ f n = Some a.
Proof.
  induction l as [|n l IH]; cbn [collect].
  - cbn. split; [tauto | intros (n & [] & _)].
  - destruct (f n) as [b|] eqn:F; cbn [In]; rewrite IH; split.
    + intros [<- | (m & I & E)]; [exists n | exists m]; auto.
    + intros (m & [<- | I] & E); [left; congruence | right; now exists m].
    + intros (m & I & E). exists m. auto.
    + intros (m & [<- | I] & E); [congruence | now exists m].
Qed.

(** a name that the test of [extractColumnsFromAST] keeps is one that the
    visit of [extractColumns] adds *)
Lemma columnNameOf_columnsAt (n : node) (x : string) :
  columnNameOf n = Some x -> In x (columnsAt n).
Proof.
  destruct n; cbn; try discriminate;
    destruct (JsString.truthy name); try discriminate;
    intros [= <-]; now left.
Qed.

Lemma isJoinClause_joinInfo (j : node) :
  isJoinClause j = true ->
  exists i, Analyzer.joinInfo j = Return i /\ Analyzer.jtype i = "JoinClause".
Proof.
  destruct j; try discriminate. intros _. eexists. split; reflexivity.
Qed.

Lemma extractJoinInfo_joins (joins : list node) :
  forallb isJoinClause joins = true ->
  exists l,
    Analyzer.extractJoinInfo joins = Return l
    /\ length l = length joins
    /\ Forall (fun i => Analyzer.jtype i = "JoinClause") l.
Proof.
  unfold Analyzer.extractJoinInfo.
  induction joins as [|j joins IH]; cbn [forallb Analyzer.mapOutcome]; intros H.
  - exists []. repeat split. constructor.
  - apply andb_true_iff in H. destruct H as [J H].
    destruct (isJoinClause_joinInfo j J) as (i & -> & T).
    destruct (IH H) as (l & -> & N & F).
    exists (i :: l). repeat split; [cbn; now rewrite N | now constructor].
Qed.

Lemma analyzeSelectQuery_typed (tree : node) :
  Typed tree -> isSelect tree = true ->
  exists a,
    Analyzer.analyzeSelectQuery tree = Return a
    /\ length (Analyzer.joins a) = length (joinsOf tree)
    /\ Forall (fun i => Analyzer.jtype i = "JoinClause") (Analyzer.joins a).
Proof.
  intros T S. destruct tree; try discriminate S. clear S.
  apply SchemaFacts.Typed_iff in T. destruct T as [Sc Ch].
  cbn [Analyzer.unalias schema] in Sc.
  repeat (apply andb_true_iff in Sc; destruct Sc as [Sc ?]).
  unfold Analyzer.analyzeSelectQuery. cbn [Analyzer.unalias joinsOf].
  destruct from as [f|].
  - destruct f; try discriminate. cbn [option_map Analyzer.unalias].
    assert (J : forallb isJoinClause joins = true).
    { unfold children in Ch. cbn [Analyzer.unalias] in Ch.
      rewrite !Forall_app in Ch. destruct Ch as (_ & F & _).
      apply Forall_inv in F. apply SchemaFacts.Typed_iff in F.
      destruct F as [F _]. cbn [Analyzer.unalias schema] in F.
      apply andb_true_iff in F. apply F. }
    destruct (extractJoinInfo_joins joins J) as (l & -> & N & F).
    eexists. split; [reflexivity|]. cbn. now split.
  - cbn [option_map Analyzer.extractJoinInfo Analyzer.mapOutcome].
    eexists. split; [reflexivity|]. cbn. split; [reflexivity | constructor].
Qed.

(** what [traverseCondition] pushes is a comparison of one of the eleven
    operators, with the category of its operator *)
Lemma traverseCondition_leaf (n : node) :
  Forall (fun c =>
            In (Analyzer.operator c) Analyzer.leafOperators
            /\ Analyzer.ctype c = Analyzer.getConditionType (Analyzer.operator c)
            /\ Analyzer.field c <> None)
         (Analyzer.traverseCondition n).
Proof.
  induction n; cbn [Analyzer.traverseCondition]; try constructor; try assumption.
  - destruct (JsString.includes Analyzer.leafOperators operator) eqn:L.
    + constructor; [|constructor].
      cbn [Analyzer.operator Analyzer.ctype Analyzer.field].
      split; [now apply ErrorsFacts.includes_In|]. split; [reflexivity | discriminate].
    + destruct (JsString.includes ["AND"; "OR"] operator); [|constructor].
      apply Forall_app. now split.
  - destruct (String.eqb operator "NOT"); [assumption | constructor].
Qed.

Lemma getConditionType_leaf (op : string) :
  In op Analyzer.leafOperators ->
  In (Analyzer.getConditionType op)
     ["equality"; "comparison"; "pattern"; "list"; "range"].
Proof.
  intros H. cbn in H.
  repeat (destruct H as [<- | H]; [cbn; auto 6|]). contradiction.
Qed.

Lemma child_descendants (n c x : node) :
  In c (children n) -> In x (descendants c) -> In x (descendants n).
Proof.
  intros C X. rewrite ShapeFacts.descendants_children. right.
  apply in_flat_map. now exists c.
Qed.

Lemma self_descendant (n : node) : In (Analyzer.unalias n) (descendants n).
Proof. rewrite ShapeFacts.descendants_children. now left. Qed.

Lemma extractTable_reference (n : node) (name : string) (alias schema : option string) :
  In (Analyzer.TableInfo name alias schema) (Analyzer.extractTable n) ->
  exists a, In (TableReference name a schema) (descendants n).
Proof.
  unfold Analyzer.extractTable. pose proof (self_descendant n) as S.
  destruct (Analyzer.unalias n); cbn [In]; try contradiction.
  intros [E | []]. injection E as E1 _ E3. subst. eexists. exact S.
Qed.

(** a table of [extractTableInfo] is a table reference under the FROM
    clause *)
Lemma extractTableInfo_reference (f : node) (name : string)
      (alias schema : option string) :
  In (Analyzer.TableInfo name alias schema) (Analyzer.extractTableInfo (Some f)) ->
  exists a, In (TableReference name a schema) (descendants f).
Proof.
  unfold Analyzer.extractTableInfo.
  destruct (Analyzer.unalias f) eqn:U;
    try (intros H; exact (extractTable_reference _ _ _ _ H)).
  intros H. apply in_app_or in H. destruct H as [H | H].
  - apply in_flat_map in H. destruct H as (t & I & H).
    destruct (extractTable_reference _ _ _ _ H) as [a R]. exists a.
    apply (child_descendants f t); [|exact R].
    unfold children. rewrite U. apply in_or_app. now left.
  - apply in_flat_map in H. destruct H as (j & I & H).
    destruct (Analyzer.joinTable j) as [t| |] eqn:J; try contradiction.
    destruct (extractTable_reference _ _ _ _ H) as [a R]. exists a.
    apply (child_descendants f j).
    + unfold children. rewrite U. apply in_or_app. now right.
    + apply (child_descendants j t); [|exact R].
      unfold Analyzer.joinTable in J. unfold children.
      destruct (Analyzer.unalias j); try discriminate J.
      * destruct table as [t'|]; [|discriminate J]. injection J as ->. now left.
      * destruct table as [t'|]; [|discriminate J]. injection J as ->. now left.
      * destruct table; discriminate J.
      * destruct table; discriminate J.
      * injection J as ->. now left.
Qed.

(** the parser reads the significant tokens only *)
Lemma parse_significant (fuel : nat) (t1 t2 : list Token) (o : Parser.Options) :
  Parser.significant t1 = Parser.significant t2 ->
  Parser.parse fuel t1 o = Parser.parse fuel t2 o.
Proof. unfold Parser.parse. now intros ->. Qed.

Lemma parse_empty (fuel : nat) (toks : list Token) (eof : Token) (o : Parser.Options) :
  Parser.significant toks = [eof] -> type eof = TT.EOF ->
  Parser.parse fuel toks o
  = Throw (ESQL (mkSQLError "Empty input" (Code "EMPTY_INPUT") 1 1 [])).
Proof.
  intros S T. unfold Parser.parse, Parser.parseTokens. rewrite S.
  cbv zeta. unfold Parser.bind, Parser.current, Parser.getPosition.
  cbn [nth_error]. unfold tokenIs. rewrite T. reflexivity.
Qed.

(** the strict mode changes the last test of [parse] only *)
Lemma parse_strict (fuel : nat) (toks : list Token) :
  match Parser.parse fuel toks (Parser.mkOptions false) with
  | Return tree =>
      Parser.parse fuel toks (Parser.mkOptions true) = Return tree
      \/ exists t,
           Parser.parse fuel toks (Parser.mkOptions true)
           = Throw (ESQL (SQLErr.unexpectedToken "end of statement" (type t)
                                                 (line t) (column t)))
           /\ In t toks /\ type t <> TT.EOF
  | other => Parser.parse fuel toks (Parser.mkOptions true) = other
  end.
Proof.
  unfold Parser.parse, Parser.parseTokens. cbv zeta.
  unfold Parser.bind, Parser.current, Parser.getPosition, Parser.ret, Parser.throw.
  destruct (nth_error (Parser.significant toks) 0) as [t0|];
    [destruct (tokenIs t0 TT.EOF && (0 =? 0)); [reflexivity|] | reflexivity].
  destruct (Parser.this_parseStatement _ 0) as [[st p]|e|]; try reflexivity.
  destruct (nth_error (Parser.significant toks) p) as [t|] eqn:N; [|now left].
  cbn [Parser.strict andb]. rewrite andb_false_r.
  destruct (tokenIs t TT.EOF) eqn:Y; cbn [negb]; [now left|].
  right. exists t. split; [reflexivity|]. split.
  - apply nth_error_In in N. unfold Parser.significant in N.
    now apply filter_In in N.
  - intros K. unfold tokenIs in Y. rewrite K in Y. discriminate Y.
Qed.

End ResultFacts.

(** ** The lexer: string literals and the last token *)

Module LiteralFacts.
Import Lexer Layout Notions.

Lemma lastEnd_snoc (front : list Token) (t : Token) (from : nat) :
  lastEnd from (front ++ [t]) = end_ t.
Proof.
  revert from. induction front as [|x front IH]; intros from; cbn; [reflexivity | apply IH].
Qed.

(** the loop of [readString] gives back a text that was escaped, and stops
    at what follows it when that is a quote or the end *)
Lemma readQuoted_escape (body rest : list ascii) (k : Cursor) (v : string) :
  match rest with c :: _ => c = "'"%char | [] => True end ->
  readQuoted unescapeChar "'"%char (flat_map escape body ++ rest) k v
  = ((v ++ JsString.ofList body)%string, (rest, run (flat_map escape body) k)).
Proof.
  intros R. revert k v. induction body as [|c body IH]; intros k v.
  - cbn [flat_map app JsString.ofList run fold_left].
    rewrite LayoutFacts.append_empty.
    destruct rest as [|q rest]; [reflexivity|]. subst q. reflexivity.
  - cbn [flat_map JsString.ofList]. unfold escape at 1 3.
    destruct (Ascii.eqb_spec c "'"%char) as [-> | Nq].
    + cbn [orb app readQuoted Ascii.eqb Bool.eqb andb]. cbn [run fold_left].
      rewrite IH. change (unescapeChar "'"%char) with "'"%char.
      now rewrite LayoutFacts.append_ofChar.
    + destruct (Ascii.eqb_spec c "\"%char) as [-> | Nb].
      * cbn [orb app readQuoted Ascii.eqb Bool.eqb andb]. cbn [run fold_left].
        rewrite IH. change (unescapeChar "\"%char) with "\"%char.
        now rewrite LayoutFacts.append_ofChar.
      * cbn [orb app readQuoted].
        destruct (Ascii.eqb_spec c "'"%char) as [? | _]; [contradiction|].
        destruct (Ascii.eqb_spec c "\"%char) as [? | _]; [contradiction|].
        cbn [run fold_left]. rewrite IH. now rewrite LayoutFacts.append_ofChar.
Qed.

Lemma tokenizeLoop_quote (fuel : nat) (opts : Options) (cs' : list ascii)
      (k : Cursor) (acc : list Token) :
  tokenizeLoop (S fuel) opts ("'"%char :: cs') k acc
  = match readString "'"%char ("'"%char :: cs') k with
    | inl e => Throw (ESQL e)
    | inr (t, (cs1, k1)) => tokenizeLoop fuel opts cs1 k1 (pushToken acc t)
    end.
Proof. reflexivity. Qed.

Lemma tokenizeLoop_end (fuel : nat) (opts : Options) (k : Cursor) (acc : list Token) :
  tokenizeLoop fuel opts [] k acc = Return (pushToken acc (tokenAt TT.EOF "" k k)).
Proof. destruct fuel; reflexivity. Qed.

End LiteralFacts.

(** ** The parser: what follows a semicolon is not read *)

Module SemicolonFacts.
Import Parser Errors Semicolon ErrorsFacts.
Local Open Scope parser_scope.

Lemma both_bind {A B : Type} (m m' : M A) (k k' : A -> M B) (pos : nat)
      (Q : B -> nat -> Prop) :
  both m m' pos (fun a p => both (k a) (k' a) p Q) -> both (bind m k) (bind m' k') pos Q.
Proof.
  unfold both, bind. intros [E H]. rewrite <- E.
  destruct (m pos) as [[a p]|e|]; [exact H | now split | now split].
Qed.

Lemma both_ret {A : Type} (a : A) (pos : nat) (Q : A -> nat -> Prop) :
  Q a pos -> both (ret a) (ret a) pos Q.
Proof. intros H. split; [reflexivity | exact H]. Qed.

Lemma both_throw {A : Type} (e : Exn) (pos : nat) (Q : A -> nat -> Prop) :
  both (throw e) (throw e) pos Q.
Proof. split; [reflexivity | exact I]. Qed.

Lemma both_weaken {A : Type} (m m' : M A) (pos : nat) (P Q : A -> nat -> Prop) :
  both m m' pos P -> (forall a p, P a p -> Q a p) -> both m m' pos Q.
Proof.
  unfold both. intros [E H] W. split; [exact E|].
  destruct (m pos) as [[a p]|e|]; auto.
Qed.

Section Primitives.
Variables tokens tokens' : list Token.
Variable b : nat.
Hypothesis Fence : semicolonAt tokens b.
Hypothesis Plain : plainUpTo tokens b.
Hypothesis Agree : agreeUpTo tokens tokens' b.

Lemma fence_type (pos : nat) (t : Token) :
  nth_error tokens pos = Some t -> type t <> TT.SEMICOLON -> pos <> b.
Proof.
  intros N Y ->. destruct Fence as (s & N' & T). congruence.
Qed.

Lemma fence_length : b < length tokens /\ b < length tokens'.
Proof.
  destruct Fence as (s & N & _). split; apply nth_error_Some.
  - congruence.
  - rewrite <- (Agree b (Nat.le_refl b)). congruence.
Qed.

Lemma fence_token (pos : nat) :
  pos <= b -> exists t, nth_error tokens pos = Some t.
Proof.
  intros L. destruct (nth_error tokens pos) as [t|] eqn:N; [now exists t|].
  apply nth_error_None in N. pose proof fence_length. lia.
Qed.

Lemma current_both (pos : nat) :
  pos <= b ->
  both (current tokens) (current tokens') pos
       (fun o p => p = pos /\ nth_error tokens pos = o /\ o <> None).
Proof.
  intros L. unfold both, current. rewrite (Agree pos L). split; [reflexivity|].
  rewrite <- (Agree pos L). repeat split.
  destruct (fence_token pos L) as [t ->]. discriminate.
Qed.

Lemma advance_both (pos : nat) :
  pos <= b -> both (advance tokens) (advance tokens') pos (fun _ p => p = S pos).
Proof.
  intros L. unfold both, advance. destruct fence_length as [L1 L2].
  assert (A1 : (pos <? length tokens) = true) by (apply Nat.ltb_lt; lia).
  assert (A2 : (pos <? length tokens') = true) by (apply Nat.ltb_lt; lia).
  rewrite A1, A2. split; reflexivity.
Qed.

Lemma backtrack_both (pos : nat) : both backtrack backtrack pos (fun _ p => p = pos - 1).
Proof. split; reflexivity. Qed.

Lemma getPosition_both (pos : nat) :
  both getPosition getPosition pos (fun a p => a = pos /\ p = pos).
Proof. split; [reflexivity | split; reflexivity]. Qed.

Lemma matchType_both (ty : TokenType) (pos : nat) :
  pos <= b ->
  both (matchType tokens ty) (matchType tokens' ty) pos
       (fun r p => p = pos /\ if r then ty = TT.SEMICOLON \/ pos <> b else True).
Proof.
  intros L. unfold both, matchType, bind, current, ret. rewrite <- (Agree pos L).
  split; [reflexivity|]. split; [reflexivity|].
  destruct (nth_error tokens pos) as [t|] eqn:N; [|exact I].
  destruct (tokenIs t ty) eqn:T; [|exact I].
  unfold tokenIs in T. apply String.eqb_eq in T.
  destruct (String.eqb_spec ty TT.SEMICOLON) as [Y|Y]; [now left | right].
  apply (fence_type pos t N). congruence.
Qed.

Lemma matchAny_both (tys : list TokenType) (pos : nat) :
  pos <= b ->
  both (matchAny tokens tys) (matchAny tokens' tys) pos
       (fun r p => p = pos
                   /\ if r then (In TT.SEMICOLON tys \/ pos <> b)
                                /\ exists t, nth_error tokens pos = Some t
                                             /\ isOneOf t tys = true
                      else True).
Proof.
  intros L. unfold both, matchAny, bind, current, ret. rewrite <- (Agree pos L).
  split; [reflexivity|]. split; [reflexivity|].
  destruct (nth_error tokens pos) as [t|] eqn:N; [|exact I].
  destruct (isOneOf t tys) eqn:T; [|exact I].
  split; [|now exists t].
  unfold isOneOf in T. apply includes_In in T.
  destruct (String.eqb_spec (type t) TT.SEMICOLON) as [Y|Y];
    [left; now rewrite <- Y | right].
  exact (fence_type pos t N Y).
Qed.

Lemma consumed_both (ty : TokenType) (pos : nat) :
  pos <= b ->
  both (consumed tokens ty) (consumed tokens' ty) pos
       (fun r p => if r then p = S pos /\ (ty = TT.SEMICOLON \/ pos <> b)
                   else p = pos).
Proof.
  intros L. unfold both, consumed, consume, matchType, bind, current, ret, advance.
  rewrite <- (Agree pos L). destruct fence_length as [L1 L2].
  assert (A1 : (pos <? length tokens) = true) by (apply Nat.ltb_lt; lia).
  assert (A2 : (pos <? length tokens') = true) by (apply Nat.ltb_lt; lia).
  destruct (nth_error tokens pos) as [t|] eqn:N; [|split; reflexivity].
  destruct (tokenIs t ty) eqn:T; [|split; reflexivity].
  rewrite <- (Agree pos L), N, A1, A2. split; [reflexivity|].
  split; [reflexivity|].
  unfold tokenIs in T. apply String.eqb_eq in T.
  destruct (String.eqb_spec ty TT.SEMICOLON) as [Y|Y]; [now left | right].
  apply (fence_type pos t N). congruence.
Qed.

Lemma expect_both (ty : TokenType) (pos : nat) :
  pos <= b ->
  both (expect tokens ty) (expect tokens' ty) pos
       (fun _ p => p = S pos /\ (ty = TT.SEMICOLON \/ pos <> b)).
Proof.
  intros L. unfold both, expect, bind, current, ret, advance, throw.
  rewrite <- (Agree pos L). destruct fence_length as [L1 L2].
  assert (A1 : (pos <? length tokens) = true) by (apply Nat.ltb_lt; lia).
  assert (A2 : (pos <? length tokens') = true) by (apply Nat.ltb_lt; lia).
  destruct (fence_token pos L) as [t N]. rewrite N.
  destruct (Plain pos t L N) as [NE _].
  assert (Y : tokenIs t TT.EOF = false).
  { unfold tokenIs. now apply String.eqb_neq. }
  rewrite Y. destruct (tokenIs t ty) eqn:T; cbn [negb]; [|split; reflexivity].
  rewrite A1, A2. split; [reflexivity|]. split; [reflexivity|].
  unfold tokenIs in T. apply String.eqb_eq in T.
  destruct (String.eqb_spec ty TT.SEMICOLON) as [K|K]; [now left | right].
  apply (fence_type pos t N). congruence.
Qed.

Lemma currentToken_both (property : string) (pos : nat) :
  pos <= b ->
  both (currentToken tokens property) (currentToken tokens' property) pos
       (fun t p => p = pos /\ nth_error tokens pos = Some t).
Proof.
  intros L. unfold both, currentToken, bind, current, ret, throw.
  rewrite <- (Agree pos L).
  destruct (nth_error tokens pos) as [t|] eqn:N; split; try reflexivity.
  split; reflexivity.
Qed.

Lemma misplacedError_both (msg : string) (pos : nat) :
  pos <= b ->
  both (misplacedError tokens msg) (misplacedError tokens' msg) pos (fun _ p => p = pos).
Proof.
  intros L. unfold both, misplacedError, bind, current, ret.
  rewrite <- (Agree pos L). split; reflexivity.
Qed.

Lemma tokenIs_fence (pos : nat) (t : Token) (ty : TokenType) :
  nth_error tokens pos = Some t -> tokenIs t ty = true -> ty <> TT.SEMICOLON ->
  pos <> b.
Proof.
  intros N T Y. unfold tokenIs in T. apply String.eqb_eq in T.
  apply (fence_type pos t N). congruence.
Qed.

Lemma canBeAlias_fence (pos : nat) (t : Token) :
  nth_error tokens pos = Some t -> canBeAlias t = true -> pos <> b.
Proof.
  intros N C. apply (fence_type pos t N). intros Y. unfold canBeAlias, tokenIs in C.
  rewrite Y in C. discriminate C.
Qed.

Lemma callable_fence (pos : nat) (t : Token) :
  nth_error tokens pos = Some t ->
  tokenIs t TT.IDENTIFIER || isFunctionKeyword t = true -> pos <> b.
Proof.
  intros N C. apply (fence_type pos t N). intros Y.
  unfold isFunctionKeyword, tokenIs in C. rewrite Y in C. discriminate C.
Qed.

Lemma isOneOf_fence (pos : nat) (t : Token) (tys : list TokenType) :
  nth_error tokens pos = Some t -> isOneOf t tys = true ->
  JsString.includes tys TT.SEMICOLON = false -> pos <> b.
Proof.
  intros N C Y. apply (fence_type pos t N). intros K.
  unfold isOneOf in C. rewrite K in C. congruence.
Qed.

Lemma noFrame_at (pos : nat) (t : Token) :
  pos <= b -> nth_error tokens pos = Some t ->
  isOneOf t [TT.ROWS; TT.RANGE] = true -> False.
Proof.
  intros L N C. destruct (Plain pos t L N) as [_ K]. congruence.
Qed.

End Primitives.

(** a window frame opens where no token opens one *)
Ltac noFrame Plain :=
  match goal with
  | N : nth_error _ ?p = Some ?t, C : isOneOf ?t [TT.ROWS; TT.RANGE] = true |- _ =>
      apply (noFrame_at _ _ Plain p t); [lia | exact N | exact C]
  end.

Ltac bfacts :=
  cbv beta iota in *;
  repeat match goal with
         | H : _ /\ _ |- _ => destruct H
         | H : exists _, _ |- _ => destruct H
         | H : True |- _ => clear H
         | H : ?p = _ |- _ => is_var p; subst p
         | H : _ = TT.SEMICOLON \/ _ |- _ =>
             destruct H as [H|H]; [exfalso; cbv in H; discriminate H|]
         | H : In TT.SEMICOLON _ \/ _ |- _ =>
             destruct H as [H|H]; [exfalso; cbv in H; intuition discriminate|]
         | H : _ \/ _ |- _ => destruct H; try (exfalso; lia)
         | H : (if ?b then _ else _) |- _ => destruct b
         end.

Ltac bp_prim L :=
  eapply both_weaken;
  [ eapply L; try eassumption; try lia
  | cbv beta; intros ? ? ?; bfacts ].

Ltac bp_call L :=
  eapply both_weaken;
  [ eapply L; lia
  | cbv beta; intros ? ? ?; unfold upTo in *; bfacts ].

(** one step of the run of a method body on the two lists *)
Ltac bp_step Fence Plain Agree IH :=
  cbv beta zeta;
  lazymatch goal with
  | |- both (bind _ _) (bind _ _) _ _ => apply both_bind
  | |- both (ret _) (ret _) _ _ => apply both_ret; cbv beta
  | |- both (throw _) (throw _) _ _ =>
      first [ apply both_throw | exfalso; congruence ]
  | |- both (if canBeAlias ?t then _ else _) _ _ _ =>
      let C := fresh "C" in
      destruct (canBeAlias t) eqn:C;
      [ match goal with
        | N : nth_error _ _ = Some t |- _ =>
            pose proof (canBeAlias_fence _ _ Fence _ _ N C)
        end
      | ]
  | |- both (if tokenIs ?t TT.IDENTIFIER || isFunctionKeyword ?t then _ else _) _ _ _ =>
      let C := fresh "C" in
      destruct (tokenIs t TT.IDENTIFIER || isFunctionKeyword t) eqn:C;
      [ match goal with
        | N : nth_error _ _ = Some t |- _ =>
            pose proof (callable_fence _ _ Fence _ _ N C)
        end
      | ]
  | |- both (if isOneOf ?t ?tys then _ else _) _ _ _ =>
      let C := fresh "C" in
      destruct (isOneOf t tys) eqn:C;
      [ match goal with
        | N : nth_error _ _ = Some t |- _ =>
            pose proof (isOneOf_fence _ _ Fence _ _ _ N C ltac:(reflexivity))
        end
      | ]
  | |- both (if tokenIs ?t ?ty then _ else _) _ _ _ =>
      let C := fresh "C" in
      destruct (tokenIs t ty) eqn:C;
      [ match goal with
        | N : nth_error _ _ = Some t |- _ =>
            pose proof (tokenIs_fence _ _ Fence _ _ _ N C ltac:(discriminate))
        end
      | ]
  | |- both (if ?b then _ else _) _ _ _ => destruct b; bfacts
  | |- both (match ?o with Some _ => _ | None => _ end) _ _ _ => destruct o; bfacts
  | |- both (whenM _ _) _ _ _ => unfold whenM
  | |- both (optionalClause _ _ _) _ _ _ => unfold optionalClause
  | |- both (binaryLoop _ _ _ _ _) _ _ _ => unfold binaryLoop
  | |- both (regularTableReference _) _ _ _ => unfold regularTableReference
  | |- both (tableAlias _) _ _ _ => unfold tableAlias
  | |- both (frameDirection _) _ _ _ => unfold frameDirection
  | |- both (current _) _ _ _ => bp_prim (current_both _ _ _ Fence Agree)
  | |- both (advance _) _ _ _ => bp_prim (advance_both _ _ _ Fence Agree)
  | |- both backtrack _ _ _ => bp_prim backtrack_both
  | |- both getPosition _ _ _ => bp_prim getPosition_both
  | |- both (matchType _ _) _ _ _ => bp_prim (matchType_both _ _ _ Fence Agree)
  | |- both (matchAny _ _) _ _ _ => bp_prim (matchAny_both _ _ _ Fence Agree)
  | |- both (consumed _ _) _ _ _ => bp_prim (consumed_both _ _ _ Fence Agree)
  | |- both (expect _ _) _ _ _ => bp_prim (expect_both _ _ _ Fence Plain Agree)
  | |- both (currentToken _ _) _ _ _ => bp_prim (currentToken_both _ _ _ Agree)
  | |- both (misplacedError _ _) _ _ _ => bp_prim (misplacedError_both _ _ _ Agree)
  | |- both (this_parseStatement _) _ _ _ => bp_call (same_parseStatement _ _ _ IH)
  | |- both (this_parseUnionStatement _) _ _ _ => bp_call (same_parseUnionStatement _ _ _ IH)
  | |- both (this_parseUnionStatementWithoutOrderLimit _) _ _ _ => bp_call (same_parseUnionStatementWithoutOrderLimit _ _ _ IH)
  | |- both (this_parseSelectStatementWithoutOrderLimit _) _ _ _ => bp_call (same_parseSelectStatementWithoutOrderLimit _ _ _ IH)
  | |- both (this_parseWithStatement _) _ _ _ => bp_call (same_parseWithStatement _ _ _ IH)
  | |- both (this_withLoop _ _) _ _ _ => bp_call (same_withLoop _ _ _ IH)
  | |- both (this_identifierLoop _ _) _ _ _ => bp_call (same_identifierLoop _ _ _ IH)
  | |- both (this_parseSelectStatement _) _ _ _ => bp_call (same_parseSelectStatement _ _ _ IH)
  | |- both (this_parseSelectColumns _) _ _ _ => bp_call (same_parseSelectColumns _ _ _ IH)
  | |- both (this_selectColumnsLoop _ _) _ _ _ => bp_call (same_selectColumnsLoop _ _ _ IH)
  | |- both (this_parseFromClause _) _ _ _ => bp_call (same_parseFromClause _ _ _ IH)
  | |- both (this_fromLoop _ _ _) _ _ _ => bp_call (same_fromLoop _ _ _ IH)
  | |- both (this_joinLoop _ _) _ _ _ => bp_call (same_joinLoop _ _ _ IH)
  | |- both (this_parseTableReference _) _ _ _ => bp_call (same_parseTableReference _ _ _ IH)
  | |- both (this_parseJoinClause _) _ _ _ => bp_call (same_parseJoinClause _ _ _ IH)
  | |- both (this_parseWhereClause _) _ _ _ => bp_call (same_parseWhereClause _ _ _ IH)
  | |- both (this_parseGroupByClause _) _ _ _ => bp_call (same_parseGroupByClause _ _ _ IH)
  | |- both (this_expressionLoop _ _) _ _ _ => bp_call (same_expressionLoop _ _ _ IH)
  | |- both (this_parseHavingClause _) _ _ _ => bp_call (same_parseHavingClause _ _ _ IH)
  | |- both (this_parseOrderByClause _) _ _ _ => bp_call (same_parseOrderByClause _ _ _ IH)
  | |- both (this_orderByLoop _ _) _ _ _ => bp_call (same_orderByLoop _ _ _ IH)
  | |- both (this_parseLimitClause _) _ _ _ => bp_call (same_parseLimitClause _ _ _ IH)
  | |- both (this_parseInsertStatement _) _ _ _ => bp_call (same_parseInsertStatement _ _ _ IH)
  | |- both (this_valuesLoop _ _) _ _ _ => bp_call (same_valuesLoop _ _ _ IH)
  | |- both (this_parseUpdateStatement _) _ _ _ => bp_call (same_parseUpdateStatement _ _ _ IH)
  | |- both (this_assignmentLoop _ _) _ _ _ => bp_call (same_assignmentLoop _ _ _ IH)
  | |- both (this_parseDeleteStatement _) _ _ _ => bp_call (same_parseDeleteStatement _ _ _ IH)
  | |- both (this_parseExpression _) _ _ _ => bp_call (same_parseExpression _ _ _ IH)
  | |- both (this_parseOrExpression _) _ _ _ => bp_call (same_parseOrExpression _ _ _ IH)
  | |- both (this_orLoop _ _) _ _ _ => bp_call (same_orLoop _ _ _ IH)
  | |- both (this_parseAndExpression _) _ _ _ => bp_call (same_parseAndExpression _ _ _ IH)
  | |- both (this_andLoop _ _) _ _ _ => bp_call (same_andLoop _ _ _ IH)
  | |- both (this_parseEqualityExpression _) _ _ _ => bp_call (same_parseEqualityExpression _ _ _ IH)
  | |- both (this_equalityLoop _ _) _ _ _ => bp_call (same_equalityLoop _ _ _ IH)
  | |- both (this_parseRelationalExpression _) _ _ _ => bp_call (same_parseRelationalExpression _ _ _ IH)
  | |- both (this_relationalLoop _ _) _ _ _ => bp_call (same_relationalLoop _ _ _ IH)
  | |- both (this_inValuesLoop _ _) _ _ _ => bp_call (same_inValuesLoop _ _ _ IH)
  | |- both (this_parseAdditiveExpression _) _ _ _ => bp_call (same_parseAdditiveExpression _ _ _ IH)
  | |- both (this_additiveLoop _ _) _ _ _ => bp_call (same_additiveLoop _ _ _ IH)
  | |- both (this_parseMultiplicativeExpression _) _ _ _ => bp_call (same_parseMultiplicativeExpression _ _ _ IH)
  | |- both (this_multiplicativeLoop _ _) _ _ _ => bp_call (same_multiplicativeLoop _ _ _ IH)
  | |- both (this_parseUnaryExpression _) _ _ _ => bp_call (same_parseUnaryExpression _ _ _ IH)
  | |- both (this_parsePrimaryExpression _) _ _ _ => bp_call (same_parsePrimaryExpression _ _ _ IH)
  | |- both (this_argumentLoop _ _) _ _ _ => bp_call (same_argumentLoop _ _ _ IH)
  | |- both (this_parseCaseExpression _) _ _ _ => bp_call (same_parseCaseExpression _ _ _ IH)
  | |- both (this_whenLoop _ _) _ _ _ => bp_call (same_whenLoop _ _ _ IH)
  | |- both (this_parseOverClause _) _ _ _ => bp_call (same_parseOverClause _ _ _ IH)
  | |- both (this_parseWindowFrame _) _ _ _ => exfalso; noFrame Plain
  | |- both (this_parseFrameBound _) _ _ _ => exfalso; noFrame Plain
  | |- upTo _ _ _ => unfold upTo; lia
  | |- _ < _ => lia
  | |- _ <= _ => lia
  end.

Ltac bp Fence Plain Agree IH := repeat bp_step Fence Plain Agree IH.

Section Step.
Variables tokens tokens' : list Token.
Variable b : nat.
Hypothesis Fence : semicolonAt tokens b.
Hypothesis Plain : plainUpTo tokens b.
Hypothesis Agree : agreeUpTo tokens tokens' b.

Lemma methods_same (t t' : This) :
  Same b t t' -> Same b (methods tokens t) (methods tokens' t').
Proof.
  intros IH. constructor; cbn [methods
    this_parseStatement this_parseUnionStatement this_parseUnionStatementWithoutOrderLimit this_parseSelectStatementWithoutOrderLimit this_parseWithStatement this_withLoop this_identifierLoop this_parseSelectStatement this_parseSelectColumns this_selectColumnsLoop this_parseFromClause this_fromLoop this_joinLoop this_parseTableReference this_parseJoinClause this_parseWhereClause this_parseGroupByClause this_expressionLoop this_parseHavingClause this_parseOrderByClause this_orderByLoop this_parseLimitClause this_parseInsertStatement this_valuesLoop this_parseUpdateStatement this_assignmentLoop this_parseDeleteStatement this_parseExpression this_parseOrExpression this_orLoop this_parseAndExpression this_andLoop this_parseEqualityExpression this_equalityLoop this_parseRelationalExpression this_relationalLoop this_inValuesLoop this_parseAdditiveExpression this_additiveLoop this_parseMultiplicativeExpression this_multiplicativeLoop this_parseUnaryExpression this_parsePrimaryExpression this_argumentLoop this_parseCaseExpression this_whenLoop this_parseOverClause this_parseWindowFrame this_parseFrameBound];
  intros *; intros L.
  - unfold parseStatement; bp Fence Plain Agree IH.
  - unfold parseUnionStatement; bp Fence Plain Agree IH.
  - unfold parseUnionStatementWithoutOrderLimit; bp Fence Plain Agree IH.
  - unfold parseSelectStatementWithoutOrderLimit; bp Fence Plain Agree IH.
  - unfold parseWithStatement; bp Fence Plain Agree IH.
  - unfold withLoop; bp Fence Plain Agree IH.
  - unfold identifierLoop; bp Fence Plain Agree IH.
  - unfold parseSelectStatement; bp Fence Plain Agree IH.
  - unfold parseSelectColumns; bp Fence Plain Agree IH.
  - unfold selectColumnsLoop; bp Fence Plain Agree IH.
  - unfold parseFromClause; bp Fence Plain Agree IH.
  - unfold fromLoop; bp Fence Plain Agree IH.
  - unfold joinLoop; bp Fence Plain Agree IH.
  - unfold parseTableReference; bp Fence Plain Agree IH.
  - unfold parseJoinClause; bp Fence Plain Agree IH.
  - unfold parseWhereClause; bp Fence Plain Agree IH.
  - unfold parseGroupByClause; bp Fence Plain Agree IH.
  - unfold expressionLoop; bp Fence Plain Agree IH.
  - unfold parseHavingClause; bp Fence Plain Agree IH.
  - unfold parseOrderByClause; bp Fence Plain Agree IH.
  - unfold orderByLoop; bp Fence Plain Agree IH.
  - unfold parseLimitClause; bp Fence Plain Agree IH.
  - unfold parseInsertStatement; bp Fence Plain Agree IH.
  - unfold valuesLoop; bp Fence Plain Agree IH.
  - unfold parseUpdateStatement; bp Fence Plain Agree IH.
  - unfold assignmentLoop; bp Fence Plain Agree IH.
  - unfold parseDeleteStatement; bp Fence Plain Agree IH.
  - unfold parseExpression; bp Fence Plain Agree IH.
  - unfold parseOrExpression; bp Fence Plain Agree IH.
  - unfold orLoop; bp Fence Plain Agree IH.
  - unfold parseAndExpression; bp Fence Plain Agree IH.
  - unfold andLoop; bp Fence Plain Agree IH.
  - unfold parseEqualityExpression; bp Fence Plain Agree IH.
  - unfold equalityLoop; bp Fence Plain Agree IH.
  - unfold parseRelationalExpression; bp Fence Plain Agree IH.
  - unfold relationalLoop; bp Fence Plain Agree IH.
  - unfold inValuesLoop; bp Fence Plain Agree IH.
  - unfold parseAdditiveExpression; bp Fence Plain Agree IH.
  - unfold additiveLoop; bp Fence Plain Agree IH.
  - unfold parseMultiplicativeExpression; bp Fence Plain Agree IH.
  - unfold multiplicativeLoop; bp Fence Plain Agree IH.
  - unfold parseUnaryExpression; bp Fence Plain Agree IH.
  - unfold parsePrimaryExpression; bp Fence Plain Agree IH.
  - unfold argumentLoop; bp Fence Plain Agree IH.
  - unfold parseCaseExpression; bp Fence Plain Agree IH.
  - unfold whenLoop; bp Fence Plain Agree IH.
  - unfold parseOverClause; bp Fence Plain Agree IH.
  - contradiction.
  - contradiction.
Qed.

Lemma noThis_same : Same b noThis noThis.
Proof.
  constructor; intros *; intros L; try contradiction; (split; [reflexivity | exact I]).
Qed.

Lemma parser_same (fuel : nat) : Same b (parser tokens fuel) (parser tokens' fuel).
Proof.
  induction fuel as [|fuel IH]; [exact noThis_same|].
  exact (methods_same _ _ IH).
Qed.

(** when it is not strict, [parse] does the same on the two lists *)
Lemma parseTokens_same (fuel : nat) :
  parseTokens tokens (mkOptions false) fuel = parseTokens tokens' (mkOptions false) fuel.
Proof.
  pose proof (parser_same fuel) as IH.
  unfold parseTokens. cbv zeta.
  match goal with
  | |- match ?run 0 with _ => _ end = match ?run' 0 with _ => _ end =>
      assert (T : both run run' 0 (fun _ _ => True));
      [|destruct T as [E _]; now rewrite E]
  end.
  assert (L : 0 <= b) by lia.
  apply both_bind. bp_prim (current_both _ _ _ Fence Agree).
  apply both_bind. bp_prim getPosition_both.
  match goal with |- both (if ?c then _ else _) _ _ _ => destruct c end;
    [apply both_throw|].
  apply both_bind. bp_call (same_parseStatement _ _ _ IH).
  apply both_bind. bp_prim (current_both _ _ _ Fence Agree).
  match goal with |- both (match ?o with _ => _ end) _ _ _ => destruct o as [t|] end.
  - cbn [strict]. rewrite andb_false_r. now apply both_ret.
  - now apply both_ret.
Qed.

End Step.

Section Strict.
Variable tokens : list Token.
Variable b : nat.
Hypothesis Fence : semicolonAt tokens b.
Hypothesis Plain : plainUpTo tokens b.

(** when it is strict, [parse] finds the semicolon, or a token before it,
    after the statement *)
Lemma parseTokens_fenced (fuel : nat) (tree : node) :
  parseTokens tokens (mkOptions true) fuel <> Return tree.
Proof.
  assert (Agree : agreeUpTo tokens tokens b) by (intros pos _; reflexivity).
  pose proof (parser_same tokens tokens b Fence Plain Agree fuel) as IH.
  unfold parseTokens. cbv zeta.
  match goal with
  | |- match ?run 0 with _ => _ end <> _ =>
      assert (T : both run run 0 (fun _ _ => False));
      [|destruct T as [_ T]; destruct (run 0) as [[a p]|x|];
        [contradiction | discriminate | discriminate]]
  end.
  assert (L : 0 <= b) by lia.
  apply both_bind. bp_prim (current_both _ _ _ Fence Agree).
  apply both_bind. bp_prim getPosition_both.
  match goal with |- both (if ?c then _ else _) _ _ _ => destruct c end;
    [apply both_throw|].
  apply both_bind. bp_call (same_parseStatement _ _ _ IH).
  apply both_bind. bp_prim (current_both _ _ _ Fence Agree).
  match goal with
  | N : nth_error tokens ?q = ?o |- both (match ?o with _ => _ end) _ _ _ =>
      destruct o as [t|]; [|congruence];
      destruct (Plain q t ltac:(assumption) N) as [NE _]
  end.
  assert (Y : tokenIs t TT.EOF = false) by (unfold tokenIs; now apply String.eqb_neq).
  rewrite Y. cbn [negb andb strict]. apply both_throw.
Qed.

End Strict.

(** the significant tokens of a list with a semicolon *)
Lemma significant_semicolon (pre rest : list Token) (semi : Token) :
  type semi = TT.SEMICOLON ->
  significant (pre ++ semi :: rest)
  = (significant pre ++ semi :: significant rest)%list.
Proof.
  intros S. unfold significant. rewrite filter_app. cbn [filter].
  unfold isOneOf. rewrite S. reflexivity.
Qed.

Lemma semicolon_fence (pre rest : list Token) (semi : Token) :
  type semi = TT.SEMICOLON ->
  Forall (fun t => type t <> TT.EOF /\ type t <> TT.ROWS /\ type t <> TT.RANGE) pre ->
  semicolonAt (significant pre ++ semi :: rest) (length (significant pre))
  /\ plainUpTo (significant pre ++ semi :: rest) (length (significant pre)).
Proof.
  intros S F. split.
  - exists semi. split; [|exact S].
    rewrite nth_error_app2 by lia. now rewrite Nat.sub_diag.
  - intros pos t L N.
    assert (K : type t <> TT.EOF /\ type t <> TT.ROWS /\ type t <> TT.RANGE).
    { destruct (Nat.lt_ge_cases pos (length (significant pre))) as [Lt|Ge].
      - rewrite nth_error_app1 in N by exact Lt. apply nth_error_In in N.
        unfold significant in N. apply filter_In in N.
        rewrite Forall_forall in F. now apply F.
      - assert (pos = length (significant pre)) by lia. subst pos.
        rewrite nth_error_app2, Nat.sub_diag in N by lia.
        injection N as <-. rewrite S. repeat split; discriminate. }
    destruct K as (K1 & K2 & K3). split; [exact K1|].
    unfold isOneOf, JsString.includes. cbn [existsb].
    destruct (String.eqb_spec (type t) TT.ROWS); [congruence|].
    destruct (String.eqb_spec (type t) TT.RANGE); [congruence|].
    reflexivity.
Qed.

(** what follows the first semicolon is not read *)
Lemma parse_after_semicolon (fuel : nat) (pre rest rest' : list Token) (semi : Token) :
  type semi = TT.SEMICOLON ->
  Forall (fun t => type t <> TT.EOF /\ type t <> TT.ROWS /\ type t <> TT.RANGE) pre ->
  parse fuel (pre ++ semi :: rest) (mkOptions false)
  = parse fuel (pre ++ semi :: rest') (mkOptions false).
Proof.
  intros S F. unfold parse. rewrite !(significant_semicolon _ _ _ S).
  destruct (semicolon_fence pre (significant rest) semi S F) as [Fence Plain].
  rewrite (parseTokens_same _ (significant pre ++ semi :: significant rest')%list
             (length (significant pre)) Fence Plain); [reflexivity|].
  intros pos L.
  destruct (Nat.lt_ge_cases pos (length (significant pre))) as [Lt|Ge].
  - now rewrite !nth_error_app1.
  - assert (pos = length (significant pre)) by lia. subst pos.
    now rewrite !nth_error_app2, Nat.sub_diag by lia.
Qed.

(** the strict mode accepts no list with a semicolon *)
Lemma parse_semicolon (fuel : nat) (pre rest : list Token) (semi : Token) (tree : node) :
  type semi = TT.SEMICOLON ->
  Forall (fun t => type t <> TT.EOF /\ type t <> TT.ROWS /\ type t <> TT.RANGE) pre ->
  parse fuel (pre ++ semi :: rest) (mkOptions true) <> Return tree.
Proof.
  intros S F. unfold parse. rewrite (significant_semicolon _ _ _ S).
  destruct (semicolon_fence pre (significant rest) semi S F) as [Fence Plain].
  pose proof (parseTokens_fenced _ (length (significant pre)) Fence Plain fuel tree) as N.
  destruct (parseTokens _ _ _); congruence.
Qed.

(** why a window frame is set apart: after its bound the parser skips a
    token, here the semicolon, and the strict mode accepts the text *)
Lemma semicolon_after_a_frame_bound :
  exists tree,
    parse 200 (Notions.lexed Notions.framed (Lexer.mkOptions false false))
          (mkOptions true)
    = Return tree.
Proof. eexists. vm_compute. reflexivity. Qed.

End SemicolonFacts.

(** ** The parser: where the clauses of a statement are read *)

Module ClauseFacts.
Import Parser Budget Clauses.
Local Open Scope parser_scope.

Lemma bind_Return {A B : Type} (m : M A) (k : A -> M B) (pos : nat) (r : B * nat) :
  bind m k pos = Return r ->
  exists a p, m pos = Return (a, p) /\ k a p = Return r.
Proof.
  unfold bind. destruct (m pos) as [[a p]| |]; try discriminate.
  intros H. now exists a, p.
Qed.

Section Tokens.
Variable tokens : list Token.

Lemma matchType_Return (ty : TokenType) (pos : nat) (b : bool) (p : nat) :
  matchType tokens ty pos = Return (b, p) -> p = pos /\ b = isAt tokens ty pos.
Proof.
  unfold matchType, bind, current, ret, isAt. intros [= <- <-].
  split; reflexivity.
Qed.

Lemma optionalClause_Return (ty : TokenType) (m : M node) (pos : nat)
      (o : option node) (p : nat) :
  optionalClause tokens ty m pos = Return (o, p) ->
  clauseRead tokens ty m pos o p.
Proof.
  unfold optionalClause, clauseRead. intros H.
  apply bind_Return in H. destruct H as (b & p0 & Mt & H).
  apply matchType_Return in Mt. destruct Mt as [-> ->].
  destruct (isAt tokens ty pos); cbn [whenM] in H.
  - apply bind_Return in H. destruct H as (n & p1 & Mn & H).
    injection H as <- <-. now exists n.
  - injection H as <- <-. split; reflexivity.
Qed.

Lemma optionalClause_le (ty : TokenType) (m m' : M node) :
  leM m m' -> leM (optionalClause tokens ty m) (optionalClause tokens ty m').
Proof.
  intros L. unfold optionalClause.
  apply ParserFuel.leM_bind; [apply ParserFuel.leM_refl|].
  intros b. destruct b; cbn [whenM]; [|apply ParserFuel.leM_refl].
  apply ParserFuel.leM_bind; [exact L | intros a; apply ParserFuel.leM_refl].
Qed.

(** an answer of a method is its answer with a larger budget *)
Lemma lift {A : Type} (m m' : M A) (pos : nat) (r : A * nat) :
  leM m m' -> m pos = Return r -> m' pos = Return r.
Proof. intros L H. destruct (L pos) as [N | E]; congruence. Qed.

Lemma parser_le (n m : nat) : n <= m -> leThis (parser tokens n) (parser tokens m).
Proof. apply ParserFuel.parser_mono. Qed.

(** the two methods that read a SELECT are one *)
Lemma select_same (n : nat) :
  this_parseSelectStatement (parser tokens n)
  = this_parseSelectStatementWithoutOrderLimit (parser tokens n).
Proof. destruct n; reflexivity. Qed.

(** what either of them returns holds no ORDER BY and no LIMIT *)
Lemma select_plain (n : nat) (pos : nat) (left : node) (p : nat) :
  this_parseSelectStatement (parser tokens n) pos = Return (left, p) ->
  Shape.plainSelect left = true.
Proof.
  intros H. destruct (ShapeFacts.parser_sound tokens n) as [].
  now destruct (ok_parseSelectStatement _ _ _ H).
Qed.

Lemma plain_withOrderLimit (left : node) :
  Shape.plainSelect left = true ->
  (forall o l, setOrderLimit left o l = withOrderLimit left o l)
  /\ withOrderLimit left None None = left
  /\ orderByOf left = None /\ limitOf left = None.
Proof.
  destruct left; try discriminate. cbn.
  destruct orderBy; [discriminate|]. destruct limit; [discriminate|]. auto.
Qed.

(** [parseUnionStatement] is [parseUnionStatementWithoutOrderLimit],
    followed by the ORDER BY and the LIMIT, which it puts on the node that
    the chain returned *)
Lemma union_attaches (fuel pos : nat) (tree : node) (p : nat) :
  this_parseUnionStatement (parser tokens fuel) pos = Return (tree, p) ->
  exists chain p1 p2 orderBy limit,
    this_parseUnionStatementWithoutOrderLimit (parser tokens fuel) pos
    = Return (chain, p1)
    /\ clauseRead tokens TT.ORDER (this_parseOrderByClause (parser tokens fuel))
                  p1 orderBy p2
    /\ clauseRead tokens TT.LIMIT (this_parseLimitClause (parser tokens fuel))
                  p2 limit p
    /\ orderByOf chain = None /\ limitOf chain = None
    /\ tree = withOrderLimit chain orderBy limit.
Proof.
  destruct fuel as [|n]; [discriminate|].
  cbn [parser methods this_parseUnionStatement this_parseUnionStatementWithoutOrderLimit].
  pose proof (parser_le n (S n) (Nat.le_succ_diag_r n)) as Le.
  cbn [parser] in Le.
  unfold parseUnionStatement, parseUnionStatementWithoutOrderLimit.
  rewrite <- select_same. intros H.
  apply bind_Return in H. destruct H as (left & p0 & Sel & H).
  pose proof (select_plain _ _ _ _ Sel) as Pl.
  destruct (plain_withOrderLimit left Pl) as (Set_ & Id & On & Ln).
  unfold bind at 1. rewrite Sel.
  apply bind_Return in H. destruct H as (isUnion & p0' & Mt & H).
  unfold bind at 1. rewrite Mt.
  destruct isUnion.
  - apply bind_Return in H. destruct H as ([] & pa & Ad & H).
    unfold bind at 1. rewrite Ad.
    apply bind_Return in H. destruct H as (all & pb & Al & H).
    unfold bind at 1. rewrite Al.
    apply bind_Return in H. destruct H as (right & p1 & Ri & H).
    unfold bind at 1. rewrite Ri.
    apply bind_Return in H. destruct H as (o & p2 & Or & H).
    apply bind_Return in H. destruct H as (l & p3 & Li & H).
    injection H as <- <-.
    exists (AST.union left right (if all then "UNION ALL" else "UNION") all None None),
      p1, p2, o, l.
    split; [reflexivity|].
    split; [exact (optionalClause_Return _ _ _ _ _ (lift _ _ _ _ (optionalClause_le _ _ _ (le_parseOrderByClause _ _ Le)) Or))|].
    split; [exact (optionalClause_Return _ _ _ _ _ (lift _ _ _ _ (optionalClause_le _ _ _ (le_parseLimitClause _ _ Le)) Li))|].
    repeat split.
  - apply bind_Return in H. destruct H as (o & p2 & Or & H).
    apply bind_Return in H. destruct H as (l & p3 & Li & H).
    exists left, p0', p2, o, l.
    split; [reflexivity|].
    split; [exact (optionalClause_Return _ _ _ _ _ (lift _ _ _ _ (optionalClause_le _ _ _ (le_parseOrderByClause _ _ Le)) Or))|].
    assert (E : p3 = p /\ tree = withOrderLimit left o l).
    { destruct (isSome o || isSome l) eqn:B; injection H as <- <-.
      - split; [reflexivity | apply Set_].
      - split; [reflexivity|]. destruct o, l; try discriminate B. now rewrite Id. }
    destruct E as [-> ->].
    split; [exact (optionalClause_Return _ _ _ _ _ (lift _ _ _ _ (optionalClause_le _ _ _ (le_parseLimitClause _ _ Le)) Li))|].
    repeat split; assumption.
Qed.

(** the tree that [parse] returns is the one that [parseStatement]
    returns from the first token *)
Lemma parseTokens_statement (options : Options) (fuel : nat) (tree : node) :
  parseTokens tokens options fuel = Return tree ->
  exists p, this_parseStatement (parser tokens fuel) 0 = Return (tree, p).
Proof.
  unfold parseTokens. cbv zeta. intros H.
  match type of H with
  | match ?run 0 with _ => _ end = _ => destruct (run 0) as [[n p]| |] eqn:E
  end; try discriminate.
  injection H as ->.
  apply bind_Return in E. destruct E as (cur & p0 & Cu & E).
  apply bind_Return in E. destruct E as (pos & p0' & Gp & E).
  match type of E with
  | (if ?c then _ else _) _ = _ => destruct c
  end; [discriminate|].
  apply bind_Return in E. destruct E as (statement & p1 & St & E).
  unfold current in Cu. injection Cu as <- <-.
  unfold getPosition in Gp. injection Gp as <- <-.
  exists p1. rewrite St. f_equal. f_equal.
  apply bind_Return in E. destruct E as (cur & p2 & Cu & E).
  destruct cur as [c|]; [|now injection E].
  destruct (negb (tokenIs c TT.EOF) && strict options); [discriminate|].
  now injection E.
Qed.

(** [parse] on a list that starts with SELECT is [parseUnionStatement] at
    its first token *)
Lemma parseTokens_select (options : Options) (fuel : nat) (tree : node) :
  parseTokens tokens options fuel = Return tree ->
  isAt tokens TT.SELECT 0 = true ->
  exists p, this_parseUnionStatement (parser tokens fuel) 0 = Return (tree, p).
Proof.
  intros H Sel. apply parseTokens_statement in H. destruct H as [p St].
  unfold isAt in Sel.
  destruct (nth_error tokens 0) as [t|] eqn:N; [|discriminate].
  destruct fuel as [|n]; [discriminate|].
  pose proof (parser_le n (S n) (Nat.le_succ_diag_r n)) as Le.
  cbn [parser methods this_parseStatement] in St.
  unfold parseStatement in St.
  apply bind_Return in St. destruct St as (cur & p2 & Cu & St).
  unfold current in Cu. rewrite N in Cu. injection Cu as <- <-.
  assert (W : tokenIs t TT.WITH = false).
  { unfold tokenIs in *. apply String.eqb_eq in Sel. rewrite Sel. reflexivity. }
  rewrite W, Sel in St.
  exists p. exact (lift _ _ _ _ (le_parseUnionStatement _ _ Le) St).
Qed.

(** ** The WHERE clause *)





Lemma readsWhere_le (t t' : This) (pos : nat) (stmt : node) (p : nat) :
  leThis t t' -> readsWhere t pos stmt p -> readsWhere t' pos stmt p.
Proof.
  intros Le [R | [R | [R | R]]]; [left | right; left | right; right; left | right; right; right].
  - exact (lift _ _ _ _ (le_parseSelectStatement _ _ Le) R).
  - exact (lift _ _ _ _ (le_parseSelectStatementWithoutOrderLimit _ _ Le) R).
  - exact (lift _ _ _ _ (le_parseUpdateStatement _ _ Le) R).
  - exact (lift _ _ _ _ (le_parseDeleteStatement _ _ Le) R).
Qed.






End Tokens.

End ClauseFacts.

(* ===================================================================== *)
(** * The claims *)
(* ===================================================================== *)

Module Claims.
Import Facade Examples Clauses.

(** ** C1 *)

Lemma s6_parses :
  Parser.parse 15 (tokensOf s6) (Parser.mkOptions false) = Return s6_tree.
Proof. vm_compute. reflexivity. Qed.

(** C1. In the tree of every statement that parses, each UNION node has a
    SELECT without ORDER BY and LIMIT on its left, and on its right such a
    SELECT or a UNION that carries neither.  [parseUnionStatement] reads
    the chain as [parseUnionStatementWithoutOrderLimit] does, which
    returns its outermost UNION, or the lone SELECT, with neither; then it
    reads the ORDER BY and the LIMIT that follow the chain, and returns
    that node with the two in the place of its [null]s, and nothing else
    changed.  It is the method that [parse] calls on a list that starts
    with SELECT. *)
Theorem union_chain_keeps_order_and_limit_outermost :
  (forall (fuel : nat) (tokens : list Token) (options : Parser.Options) (tree : node),
      Parser.parse fuel tokens options = Return tree ->
      forall m, In m (descendants tree) ->
      forall l r unionType all orderBy limit offset with_,
        m = UnionStatement l r unionType all orderBy limit offset with_ ->
        exists l' r',
          l = Some l' /\ r = Some r'
          /\ Shape.plainSelect l' = true
          /\ (Shape.plainSelect r' = true \/ Shape.bareUnion r' = true))
  /\ (forall (fuel : nat) (tokens : list Token) (pos : nat) (tree : node) (p : nat),
         Parser.this_parseUnionStatement (Parser.parser tokens fuel) pos
         = Return (tree, p) ->
         exists chain p1 p2 orderBy limit,
           Parser.this_parseUnionStatementWithoutOrderLimit
             (Parser.parser tokens fuel) pos
           = Return (chain, p1)
           /\ clauseRead tokens TT.ORDER
                         (Parser.this_parseOrderByClause (Parser.parser tokens fuel))
                         p1 orderBy p2
           /\ clauseRead tokens TT.LIMIT
                         (Parser.this_parseLimitClause (Parser.parser tokens fuel))
                         p2 limit p
           /\ orderByOf chain = None /\ limitOf chain = None
           /\ tree = withOrderLimit chain orderBy limit)
  /\ (forall (fuel : nat) (tokens : list Token) (options : Parser.Options)
             (tree : node),
         Parser.parse fuel tokens options = Return tree ->
         isAt (Parser.significant tokens) TT.SELECT 0 = true ->
         exists p,
           Parser.this_parseUnionStatement
             (Parser.parser (Parser.significant tokens) fuel) 0
           = Return (tree, p)).
Proof.
  split; [|split].
  - intros fuel tokens options tree P m I l r ut a ob lim off w ->.
    apply ShapeFacts.parse_good in P. unfold Shape.Good in P.
    rewrite Forall_forall in P. specialize (P _ I). cbn [Shape.wellFormed] in P.
    destruct l as [l'|], r as [r'|]; try discriminate.
    apply andb_true_iff in P. destruct P as [Pl Pr].
    apply orb_true_iff in Pr. now exists l', r'.
  - intros fuel tokens. apply ClauseFacts.union_attaches.
  - intros fuel tokens options tree P. apply ParserFuel.parse_Return in P.
    revert P. apply ClauseFacts.parseTokens_select.
Qed.

Lemma union_chain_keeps_order_and_limit_outermost_witness :
  (exists l' r',
      Some s6_left = Some l' /\ Some s6_right = Some r'
      /\ Shape.plainSelect l' = true
      /\ (Shape.plainSelect r' = true \/ Shape.bareUnion r' = true))
  /\ (exists chain p1 p2 orderBy limit,
         Parser.this_parseUnionStatementWithoutOrderLimit
           (Parser.parser (tokensOf s6) 15) 0
         = Return (chain, p1)
         /\ clauseRead (tokensOf s6) TT.ORDER
                       (Parser.this_parseOrderByClause (Parser.parser (tokensOf s6) 15))
                       p1 orderBy p2
         /\ clauseRead (tokensOf s6) TT.LIMIT
                       (Parser.this_parseLimitClause (Parser.parser (tokensOf s6) 15))
                       p2 limit 15
         /\ orderByOf chain = None /\ limitOf chain = None
         /\ s6_tree = withOrderLimit chain orderBy limit)
  /\ (exists chain p1 p2 orderBy limit,
         Parser.this_parseUnionStatementWithoutOrderLimit
           (Parser.parser (tokensOf orderedSelect) 15) 0
         = Return (chain, p1)
         /\ clauseRead (tokensOf orderedSelect) TT.ORDER
                       (Parser.this_parseOrderByClause
                          (Parser.parser (tokensOf orderedSelect) 15))
                       p1 orderBy p2
         /\ clauseRead (tokensOf orderedSelect) TT.LIMIT
                       (Parser.this_parseLimitClause
                          (Parser.parser (tokensOf orderedSelect) 15))
                       p2 limit 7
         /\ orderByOf chain = None /\ limitOf chain = None
         /\ orderedSelect_tree = withOrderLimit chain orderBy limit).
Proof.
  split; [|split].
  - apply (proj1 union_chain_keeps_order_and_limit_outermost
             15 (tokensOf s6) (Parser.mkOptions false) s6_tree s6_parses s6_tree
             (or_introl eq_refl)
             (Some s6_left) (Some s6_right) "UNION ALL" true
             (Some s6_order) (Some s6_limit) None None eq_refl).
  - apply (proj1 (proj2 union_chain_keeps_order_and_limit_outermost)
             15 (tokensOf s6) 0 s6_tree 15).
    vm_compute. reflexivity.
  - apply (proj1 (proj2 union_chain_keeps_order_and_limit_outermost)
             15 (tokensOf orderedSelect) 0 orderedSelect_tree 7).
    vm_compute. reflexivity.
Defined.

(** ** C2 *)

(** C2. The score of an analysis is 2 for each condition, 3 for each table
    after the first, 4 for each join, 2 for each field marked as an
    aggregate, 3 when there is a GROUP BY and 2 when there is an ORDER BY;
    up to 5 the level is simple, up to 15 medium, beyond that complex.  The
    complexity that [analyzeSQL] returns with an analysis is the one of
    that analysis. *)
Theorem complexity_score_and_level :
  (forall a : Analyzer.Analysis,
      let c := Analyzer.analyzeQueryComplexity a in
      Analyzer.score c
      = 0
        + 2 * length (Analyzer.conditions a)
        + 3 * (length (Analyzer.tables a) - 1)
        + 4 * length (Analyzer.joins a)
        + 2 * length (filter Analyzer.isAggregate (Analyzer.fields a))
        + (match Analyzer.groupBy a with [] => 0 | _ :: _ => 3 end)
        + (match Analyzer.orderBy a with [] => 0 | _ :: _ => 2 end)
      /\ Analyzer.level c
         = (if Analyzer.score c <=? 5 then "simple"
            else if Analyzer.score c <=? 15 then "medium"
            else "complex"))
  /\ (forall fuel s o q a c p,
         analyzeSQL fuel s o = Return (AnalyzeSuccess q a c p) ->
         c = Analyzer.analyzeQueryComplexity a).
Proof.
  split; [|exact FacadeFacts.analyzeSQL_complexity].
  intros a. cbv zeta. split; [|reflexivity].
  unfold Analyzer.analyzeQueryComplexity.
  rewrite AnalyzerFacts.score_setLevel, !AnalyzerFacts.score_addFactor.
  cbn [Analyzer.score].
  destruct (Nat.ltb_spec 0 (length (Analyzer.conditions a))),
    (Nat.ltb_spec 1 (length (Analyzer.tables a))),
    (Nat.ltb_spec 0 (length (Analyzer.joins a))),
    (Nat.ltb_spec 0 (length (filter Analyzer.isAggregate (Analyzer.fields a))));
    destruct (Analyzer.groupBy a), (Analyzer.orderBy a);
    cbn [length Nat.ltb Nat.leb]; lia.
Qed.

Lemma complexity_score_and_level_witness :
  Analyzer.score (Analyzer.analyzeQueryComplexity twoConditions_analysis) = 4
  /\ Analyzer.level (Analyzer.analyzeQueryComplexity twoConditions_analysis) = "simple"
  /\ exists q c p,
      analyzeSQL 20 (ArgString twoConditions) noOptions
      = Return (AnalyzeSuccess q twoConditions_analysis c p)
      /\ c = Analyzer.analyzeQueryComplexity twoConditions_analysis.
Proof.
  destruct (proj1 complexity_score_and_level twoConditions_analysis) as [S L].
  split; [rewrite S; vm_compute; reflexivity|].
  split; [rewrite L, S; vm_compute; reflexivity|].
  do 3 eexists.
  assert (E : analyzeSQL 20 (ArgString twoConditions) noOptions
              = Return (AnalyzeSuccess
                          (mkQueryInfo "SelectStatement" twoConditions)
                          twoConditions_analysis
                          (Analyzer.analyzeQueryComplexity twoConditions_analysis)
                          twoConditions_parsed))
    by (vm_compute; reflexivity).
  split; [exact E|].
  exact (proj2 complexity_score_and_level _ _ _ _ _ _ _ E).
Defined.

(** ** C3 *)

Lemma s7_with_any_budget (fuel : nat) :
  (20 <= fuel ->
   analyzeSQL fuel (ArgString s7) noOptions = analyzeSQL 20 (ArgString s7) noOptions)
  /\ (analyzeSQL fuel (ArgString s7) noOptions
      = Return (Progress.exhaustedAnalysis s7)
      \/ analyzeSQL fuel (ArgString s7) noOptions
         = analyzeSQL 20 (ArgString s7) noOptions).
Proof.
  apply (FacadeFacts.stable (fun n => analyzeSQL n (ArgString s7) noOptions)
           (Return (Progress.exhaustedAnalysis s7)) 20).
  - intros n m. apply FacadeFacts.analyzeSQL_mono.
  - reflexivity.
  - vm_compute. discriminate.
Qed.

(** C3, as stated, fails: however deep the stack, the analysis of S7 does
    not have the three condition types other, range, pattern. *)
Lemma s7_has_no_condition_for_is_not :
  ~ exists fuel r,
      analyzeSQL fuel (ArgString s7) noOptions = Return r
      /\ conditionTypes r = ["other"; "range"; "pattern"].
Proof.
  intros (fuel & r & E & T).
  destruct (s7_with_any_budget fuel) as [_ [S | S]];
    rewrite S in E; vm_compute in E; injection E as <-;
    vm_compute in T; discriminate T.
Qed.

(** C3, amended. S7 parses, and its analysis has exactly two conditions,
    of types range (the BETWEEN) and pattern (the LIKE), in that order; the
    IS NOT leaf gives no condition. *)
Theorem s7_has_two_conditions (fuel : nat) :
  20 <= fuel ->
  exists r,
    analyzeSQL fuel (ArgString s7) noOptions = Return r
    /\ succeeded r = true
    /\ conditionOperators r = ["BETWEEN"; "LIKE"]
    /\ conditionTypes r = ["range"; "pattern"].
Proof.
  intros L. destruct (s7_with_any_budget fuel) as [S _]. rewrite (S L).
  eexists. split; [vm_compute; reflexivity|].
  vm_compute. repeat split.
Qed.

Lemma s7_has_two_conditions_witness :
  20 <= 20
  /\ exists r,
      analyzeSQL 20 (ArgString s7) noOptions = Return r
      /\ succeeded r = true
      /\ conditionOperators r = ["BETWEEN"; "LIKE"]
      /\ conditionTypes r = ["range"; "pattern"].
Proof. split; [lia | apply (s7_has_two_conditions 20); lia]. Defined.

(** ** C4 *)

(** C4, as stated, fails: a SELECT on one table with three conditions and
    nothing else scores 6, which is medium. *)
Lemma plain_select_not_always_simple :
  exists q a c p,
    analyzeSQL 20 (ArgString threeConditions) noOptions
    = Return (AnalyzeSuccess q a c p)
    /\ qtype q = "SelectStatement"
    /\ length (Analyzer.tables a) <= 1
    /\ Analyzer.joins a = []
    /\ filter Analyzer.isAggregate (Analyzer.fields a) = []
    /\ Analyzer.groupBy a = []
    /\ Analyzer.orderBy a = []
    /\ length (Analyzer.conditions a) = 3
    /\ Analyzer.score c = 6
    /\ Analyzer.level c = "medium".
Proof.
  do 4 eexists. split; [vm_compute; reflexivity|].
  cbn. repeat split; lia.
Qed.

(** C4, amended. When [analyzeSQL] succeeds with an analysis that has at
    most one table, no join, no aggregate field, no GROUP BY and no ORDER
    BY, the score is twice the number of conditions: the level is simple
    with at most two conditions, medium with three to seven, complex
    beyond. *)
Theorem plain_select_level
        (fuel : nat) (s : JsArg) (o : Options)
        (q : QueryInfo) (a : Analyzer.Analysis) (c : Analyzer.Complexity)
        (p : ParseResult) :
  analyzeSQL fuel s o = Return (AnalyzeSuccess q a c p) ->
  length (Analyzer.tables a) <= 1 ->
  Analyzer.joins a = [] ->
  filter Analyzer.isAggregate (Analyzer.fields a) = [] ->
  Analyzer.groupBy a = [] ->
  Analyzer.orderBy a = [] ->
  let n := length (Analyzer.conditions a) in
  Analyzer.score c = 2 * n
  /\ Analyzer.level c
     = (if n <=? 2 then "simple" else if n <=? 7 then "medium" else "complex").
Proof.
  intros H Ht Hj Ha Hg Ho. cbv zeta.
  apply FacadeFacts.analyzeSQL_complexity in H. subst c.
  set (n := length (Analyzer.conditions a)).
  assert (E : Analyzer.score (Analyzer.analyzeQueryComplexity a) = 2 * n).
  { unfold Analyzer.analyzeQueryComplexity.
    rewrite AnalyzerFacts.score_setLevel, !AnalyzerFacts.score_addFactor.
    rewrite Hj, Ha, Hg, Ho. cbn [Analyzer.score length]. fold n.
    destruct (Nat.ltb_spec 0 n), (Nat.ltb_spec 1 (length (Analyzer.tables a)));
      cbn [Nat.ltb Nat.leb]; lia. }
  split; [exact E|].
  unfold Analyzer.analyzeQueryComplexity in *.
  rewrite AnalyzerFacts.level_setLevel. rewrite AnalyzerFacts.score_setLevel in E.
  rewrite E.
  destruct (Nat.leb_spec (2 * n) 5), (Nat.leb_spec n 2); try lia; try reflexivity.
  destruct (Nat.leb_spec (2 * n) 15), (Nat.leb_spec n 7); try lia; reflexivity.
Qed.

Lemma plain_select_level_witness :
  length (Analyzer.conditions twoConditions_analysis) = 2
  /\ Analyzer.score (Analyzer.analyzeQueryComplexity twoConditions_analysis) = 2 * 2
  /\ Analyzer.level (Analyzer.analyzeQueryComplexity twoConditions_analysis) = "simple".
Proof.
  split; [vm_compute; reflexivity|].
  apply (plain_select_level 20 (ArgString twoConditions) noOptions
           (mkQueryInfo "SelectStatement" twoConditions) twoConditions_analysis
           (Analyzer.analyzeQueryComplexity twoConditions_analysis)
           twoConditions_parsed);
    vm_compute; solve [reflexivity | lia].
Defined.

(** ** C5 *)

Lemma deleteUsers_analysis :
  analyzeSQL 15 (ArgString deleteUsers) noOptions
  = Return (AnalyzeSuccess (mkQueryInfo "DeleteStatement" deleteUsers)
              (Analyzer.mkAnalysis [] [] [] [] [] [] None)
              (Analyzer.mkComplexity "simple" 0 [])
              deleteUsers_parsed).
Proof. vm_compute. reflexivity. Qed.

(** C5. What the code does for a statement that is not a SELECT: the
    lists of the analysis are all empty, the list of tables too, whatever
    tables the statement names (the facade passes the tree where
    [extractTables] takes the SQL text). *)
Theorem non_select_analysis_is_empty
        (fuel : nat) (s : string) (o : Options)
        (q : QueryInfo) (a : Analyzer.Analysis) (c : Analyzer.Complexity)
        (p : ParseResult) :
  analyzeSQL fuel (ArgString s) o = Return (AnalyzeSuccess q a c p) ->
  qtype q <> "SelectStatement" ->
  a = Analyzer.mkAnalysis [] [] [] [] [] [] None.
Proof.
  unfold analyzeSQL. intros H N.
  destruct (parseSQL fuel (ArgString s) o) as [r|e|]; try discriminate.
  destruct (negb (success r)); [discriminate|].
  destruct (ast r) as [tree|]; [|discriminate].
  destruct (String.eqb (nodeType tree) "SelectStatement") eqn:E.
  - destruct (Analyzer.analyzeSelectQuery tree); try discriminate.
    injection H as <- _ _ _. apply String.eqb_eq in E. contradiction.
  - cbn in H. injection H as _ <- _ _. reflexivity.
Qed.

Lemma non_select_analysis_is_empty_witness :
  tables deleteUsers_parsed = ["users"]
  /\ Analyzer.mkAnalysis [] [] [] [] [] [] None
     = Analyzer.mkAnalysis [] [] [] [] [] [] None.
Proof.
  split; [reflexivity|].
  apply (non_select_analysis_is_empty 15 deleteUsers noOptions _ _ _ _
           deleteUsers_analysis).
  discriminate.
Defined.

(** ** C6 *)

(** C6. What the code does on a comment that is never closed: the lexer
    reads it to the end of the input and returns its tokens, whatever the
    options; it raises nothing. *)
Theorem unterminated_comment_is_accepted (opts : Lexer.Options) :
  exists toks,
    Lexer.tokenize unterminatedComment opts = Return toks
    /\ map type (Parser.significant toks)
       = [TT.SELECT; TT.MULTIPLY; TT.FROM; TT.IDENTIFIER; TT.EOF].
Proof.
  destruct opts as [[] []]; eexists;
    (split; [vm_compute; reflexivity | reflexivity]).
Qed.

(** ** C7 *)

(** C7. On every input the lexer returns a list of tokens that ends with
    its only EOF token, or raises an error of kind LEXICAL_ERROR or
    UNTERMINATED_STRING; it does nothing else. *)
Theorem tokenize_returns_tokens_or_lexical_error
        (input : string) (opts : Lexer.Options) :
  match Lexer.tokenize input opts with
  | Return toks =>
      exists front eof,
        toks = (front ++ [eof])%list
        /\ type eof = TT.EOF
        /\ Forall (fun t => type t <> TT.EOF) front
  | Throw e =>
      exists err,
        e = ESQL err
        /\ (code err = Code "LEXICAL_ERROR" \/ code err = Code "UNTERMINATED_STRING")
  | NoFuel => False
  end.
Proof.
  unfold Lexer.tokenize.
  apply (LexerFacts.tokenizeLoop_ok _ opts (JsString.toList input)
           (Lexer.mkCursor 0 1 1) []); [lia | constructor].
Qed.

(** ** C8 *)

(** C8. On every text and with every options, [parseSQL] and
    [validateSQL] return, and with a budget of nested calls that is enough
    what they return does not depend on the budget; [parseSQL] raises
    nothing, and [validateSQL] returns the [success] of its result as
    [valid] and its [errors] as [errors].  This holds with a smaller
    budget as well, where the result may be the failure that [parseSQL]
    makes of the error of the stack. *)
Theorem validate_agrees_with_parse (s : string) (o : Options) :
  (exists r,
      forall fuel, Progress.budget s o <= fuel ->
        parseSQL fuel (ArgString s) o = Return r
        /\ validateSQL fuel (ArgString s) o
           = Return (mkValidationResult (success r) (errors r)))
  /\ (forall fuel,
         match parseSQL fuel (ArgString s) o with
         | Return r =>
             validateSQL fuel (ArgString s) o
             = Return (mkValidationResult (success r) (errors r))
         | Throw _ => False
         | NoFuel => False
         end).
Proof.
  split.
  - destruct (FacadeFacts.parseSQL_settles s o) as [r R].
    exists r. intros fuel W. unfold validateSQL. rewrite (R fuel W). auto.
  - intros fuel. unfold validateSQL.
    destruct (parseSQL fuel (ArgString s) o) as [r|e|] eqn:E; try reflexivity.
    + unfold parseSQL in E.
      destruct (Lexer.tokenize s _); try discriminate.
      destruct (Parser.parse fuel _ _); discriminate.
    + unfold parseSQL in E.
      pose proof (ResultFacts.tokenize_ok s
                    (Lexer.mkOptions (includeWhitespace o) (includeComments o))) as T.
      destruct (Lexer.tokenize s _) as [toks|x|]; [|discriminate | exact T].
      destruct (Parser.parse fuel toks _) eqn:P; try discriminate.
      revert P. apply ParserFuel.parse_settled.
Qed.

(** ** C9 *)

(** C9. A NUMBER token whose text has no decimal point and starts with
    digits, followed by what is not a digit, becomes the literal of the
    integer that these digits write, as a Number: what follows the digits
    does not count.  As a Number the integer is itself up to 2^53 in
    magnitude and the nearest double beyond: 9007199254740993 is read as
    9007199254740992.  The lexer reads 1e3 and 1.0e3 as one NUMBER token
    each; the statement SELECT 1e3 holds the literal 1, and SELECT 1.0e3
    the literal 1000. *)
Theorem integer_literal_stops_at_first_non_digit :
  (forall (tokens : list Token) (this : Parser.This) (pos : nat) (token : Token)
          (d : ascii) (ds rest : list ascii),
      nth_error tokens pos = Some token ->
      type token = TT.NUMBER ->
      value token = JsString.ofList ((d :: ds) ++ rest)%list ->
      forallb JsString.isDigit (d :: ds) = true ->
      stopsDigits rest ->
      JsString.includesChar (value token) "."%char = false ->
      Parser.parsePrimaryExpression tokens this pos
      = Return (Literal (LNumber (JsNumber.ofZ (JsNumber.digitsValue (d :: ds) 0)))
                        "number", S pos))
  /\ (forall z : Z,
         (Z.abs z <= 2 ^ 53)%Z -> integerOf (JsNumber.ofZ z) = Some z)
  /\ Parser.parse 15 (tokensOf "SELECT 9007199254740993") (Parser.mkOptions false)
     = Return (selectNumber (JsNumber.ofZ 9007199254740992))
  /\ map type (tokensOf "1e3") = [TT.NUMBER; TT.EOF]
  /\ map value (tokensOf "1e3") = ["1e3"; EmptyString]
  /\ Parser.parse 15 (tokensOf "SELECT 1e3") (Parser.mkOptions false)
     = Return (selectNumber (JsNumber.ofZ 1))
  /\ map type (tokensOf "1.0e3") = [TT.NUMBER; TT.EOF]
  /\ map value (tokensOf "1.0e3") = ["1.0e3"; EmptyString]
  /\ Parser.parse 15 (tokensOf "SELECT 1.0e3") (Parser.mkOptions false)
     = Return (selectNumber (JsNumber.ofZ 1000)).
Proof.
  split; [|split].
  - intros tokens this pos token d ds rest H T V D S P.
    rewrite (NumberFacts.number_without_point tokens this pos token H T P).
    rewrite V, (NumberFacts.parseInt_leading d ds rest D S). reflexivity.
  - exact NumberFacts.ofZ_exact.
  - repeat split; vm_compute; reflexivity.
Qed.

Lemma integer_literal_stops_at_first_non_digit_witness :
  Parser.parsePrimaryExpression [oneE3] Parser.noThis 0
  = Return (Literal (LNumber (JsNumber.ofZ 1)) "number", 1)
  /\ integerOf (JsNumber.ofZ 1) = Some 1%Z.
Proof.
  split.
  - apply (proj1 integer_literal_stops_at_first_non_digit [oneE3] Parser.noThis 0 oneE3
             "1"%char [] ["e"%char; "3"%char]); reflexivity.
  - apply (proj1 (proj2 integer_literal_stops_at_first_non_digit) 1%Z). vm_compute.
    discriminate.
Defined.

(** ** C10 *)




End Claims.

(* ===================================================================== *)
(** * Further properties *)
(* ===================================================================== *)

Module Extras.
Import Notions.

(** ** The lexer *)

(** X1. The tokens that the lexer returns lie in the input one after the
    other, without overlap: each starts where the one before ends or
    later, none ends after the input, a token that is not the end marker
    spans at least one character, and the end marker stands at the end of
    the input. *)
Theorem tokens_follow_one_another
        (input : string) (opts : Lexer.Options) (toks : list Token) :
  Lexer.tokenize input opts = Return toks ->
  Layout.ordered 0 toks
  /\ Forall (fun t =>
               start t <= end_ t <= length (JsString.toList input)
               /\ (type t = TT.EOF -> start t = length (JsString.toList input))
               /\ (type t <> TT.EOF -> start t < end_ t)) toks.
Proof.
  intros E. pose proof (LayoutFacts.tokenize_laidOut input opts) as L.
  rewrite E in L. destruct L as (P & O & _). split; [exact O|].
  eapply Forall_impl; [|exact P].
  intros t (A & B & C & D & _). auto.
Qed.

Lemma tokens_follow_one_another_witness :
  Layout.ordered 0 (lexed twoLines everything)
  /\ Forall (fun t =>
               start t <= end_ t <= length (JsString.toList twoLines)
               /\ (type t = TT.EOF -> start t = length (JsString.toList twoLines))
               /\ (type t <> TT.EOF -> start t < end_ t))
            (lexed twoLines everything).
Proof.
  apply (tokens_follow_one_another twoLines everything). vm_compute. reflexivity.
Defined.

(** X2. The line of a token is one more than the number of line feeds
    before its first character, and its column is one more than the number
    of characters between the last of them and its first character. *)
Theorem token_line_and_column
        (input : string) (opts : Lexer.Options) (toks : list Token) :
  Lexer.tokenize input opts = Return toks ->
  Forall (fun t =>
            line t = Layout.lineAfter (firstn (start t) (JsString.toList input))
            /\ column t = Layout.columnAfter (firstn (start t) (JsString.toList input)))
         toks.
Proof.
  intros E. pose proof (LayoutFacts.tokenize_laidOut input opts) as L.
  rewrite E in L. destruct L as (P & _).
  eapply Forall_impl; [|exact P].
  intros t (_ & _ & _ & _ & A & B & _). auto.
Qed.

Lemma token_line_and_column_witness :
  Forall (fun t =>
            line t = Layout.lineAfter (firstn (start t) (JsString.toList twoLines))
            /\ column t = Layout.columnAfter (firstn (start t) (JsString.toList twoLines)))
         (lexed twoLines everything).
Proof.
  apply (token_line_and_column twoLines everything). vm_compute. reflexivity.
Defined.

(** X3. The value of a token is the text of the input between its start
    and its end, as it is written there, unless the token is a comment or
    the text opens with a quote: a keyword, a name, a number, an operator
    and a punctuation mark keep their spelling. *)
Theorem token_value_is_its_text
        (input : string) (opts : Lexer.Options) (toks : list Token) :
  Lexer.tokenize input opts = Return toks ->
  Forall (fun t =>
            let text := Layout.slice (JsString.toList input) (start t) (end_ t) in
            type t <> TT.COMMENT ->
            match text with c :: _ => Layout.isQuote c = false | [] => True end ->
            value t = JsString.ofList text)
         toks.
Proof.
  intros E. pose proof (LayoutFacts.tokenize_laidOut input opts) as L.
  rewrite E in L. destruct L as (P & _).
  eapply Forall_impl; [|exact P].
  intros t (_ & _ & _ & _ & _ & _ & [C | [Q | V]]) text N Q'.
  - contradiction.
  - exfalso. subst text. unfold Layout.quotedText in Q.
    destruct (Layout.slice _ _ _); [exact Q | congruence].
  - exact V.
Qed.

Lemma token_value_is_its_text_witness :
  Forall (fun t =>
            let text := Layout.slice (JsString.toList twoLines) (start t) (end_ t) in
            type t <> TT.COMMENT ->
            match text with c :: _ => Layout.isQuote c = false | [] => True end ->
            value t = JsString.ofList text)
         (lexed twoLines everything).
Proof.
  apply (token_value_is_its_text twoLines everything). vm_compute. reflexivity.
Defined.

(** X4. When white space and comments are kept, the tokens cover the
    input: the first starts at offset 0, each of the others starts where
    the one before ends, and the last ends at the end of the input. *)
Theorem kept_tokens_cover_the_input
        (input : string) (opts : Lexer.Options) (toks : list Token) :
  Lexer.includeWhitespace opts = true -> Lexer.includeComments opts = true ->
  Lexer.tokenize input opts = Return toks ->
  Layout.tiled 0 toks
  /\ Layout.lastEnd 0 toks = length (JsString.toList input).
Proof.
  intros W C E. pose proof (LayoutFacts.tokenize_laidOut input opts) as L.
  pose proof (ResultFacts.tokenize_ok input opts) as T.
  rewrite E in L, T. destruct L as (P & _ & F).
  rewrite W, C in F. split; [now apply F|].
  destruct T as (front & eof & -> & Y & _).
  rewrite LiteralFacts.lastEnd_snoc.
  apply Forall_app in P. destruct P as [_ P]. apply Forall_inv in P.
  destruct P as (A & B & Z & _). specialize (Z Y). lia.
Qed.

Lemma kept_tokens_cover_the_input_witness :
  Layout.tiled 0 (lexed twoLines everything)
  /\ Layout.lastEnd 0 (lexed twoLines everything)
     = length (JsString.toList twoLines).
Proof.
  apply (kept_tokens_cover_the_input twoLines everything);
    vm_compute; reflexivity.
Defined.

(** X5. An error of the lexer carries the line and the column of a place
    of the input, counted as for a token, and both are positive, so that
    its formatted message ends with them. *)
Theorem lexical_error_names_a_place
        (input : string) (opts : Lexer.Options) (e : Exn) :
  Lexer.tokenize input opts = Throw e ->
  exists err p,
    e = ESQL err
    /\ p <= length (JsString.toList input)
    /\ err_line err = Layout.lineAfter (firstn p (JsString.toList input))
    /\ err_column err = Layout.columnAfter (firstn p (JsString.toList input))
    /\ SQLErr.getFormattedMessage err
       = message err ++ " at line " ++ JsString.ofNat (err_line err)
         ++ ", column " ++ JsString.ofNat (err_column err).
Proof.
  intros E. pose proof (LayoutFacts.tokenize_laidOut input opts) as L.
  rewrite E in L. destruct L as (err & -> & p & B & Ln & Cl).
  exists err, p. repeat split; try assumption.
  unfold SQLErr.getFormattedMessage. rewrite Ln, Cl. reflexivity.
Qed.

Lemma lexical_error_names_a_place_witness :
  exists err p,
    ESQL (SQLErr.lexicalError "Unexpected character: @" 2 18) = ESQL err
    /\ p <= length (JsString.toList badSecondLine)
    /\ err_line err = Layout.lineAfter (firstn p (JsString.toList badSecondLine))
    /\ err_column err = Layout.columnAfter (firstn p (JsString.toList badSecondLine))
    /\ SQLErr.getFormattedMessage err
       = message err ++ " at line " ++ JsString.ofNat (err_line err)
         ++ ", column " ++ JsString.ofNat (err_column err).
Proof.
  apply (lexical_error_names_a_place badSecondLine everything).
  vm_compute. reflexivity.
Defined.

(** X6. The two options of the lexer change nothing of what the parser
    reads: with any two settings the lexer returns lists with the same
    tokens besides white space, line feeds and comments, or raises the
    same error. *)
Theorem lexer_options_keep_the_significant_tokens
        (input : string) (o1 o2 : Lexer.Options) :
  match Lexer.tokenize input o1, Lexer.tokenize input o2 with
  | Return t1, Return t2 => Parser.significant t1 = Parser.significant t2
  | Throw e1, Throw e2 => e1 = e2
  | _, _ => False
  end.
Proof.
  pose proof (LexerOptionsFacts.tokenize_options input o1 o2) as A.
  pose proof (ResultFacts.tokenize_ok input o1) as T1.
  pose proof (ResultFacts.tokenize_ok input o2) as T2.
  unfold LexerOptions.agree in A.
  destruct (Lexer.tokenize input o1), (Lexer.tokenize input o2);
    try exact A; try exact T1; exact T2.
Qed.

(** X7. A string literal gives back its text: when a backslash is written
    before every quote and every backslash of a text, and the result is
    put between quotes, the lexer returns one STRING token whose value is
    the text and which spans the whole literal, and the end marker. *)
Theorem string_literal_gives_back_its_text
        (body : list ascii) (opts : Lexer.Options) :
  exists eof,
    Lexer.tokenize (JsString.ofList (literal body)) opts
    = Return [mkToken TT.STRING (JsString.ofList body) 1 1 0 (length (literal body));
              eof]
    /\ type eof = TT.EOF.
Proof.
  unfold Lexer.tokenize. rewrite NumberFacts.toList_ofList.
  unfold literal, openLiteral. cbn [app length].
  rewrite LiteralFacts.tokenizeLoop_quote.
  unfold Lexer.readString, Lexer.skip. cbn [fst snd].
  rewrite (LiteralFacts.readQuoted_escape body ["'"%char]) by reflexivity.
  cbn [fst snd Lexer.pushToken app].
  rewrite LiteralFacts.tokenizeLoop_end. cbn [Lexer.pushToken app].
  eexists. split.
  - f_equal. apply f_equal2; [|reflexivity].
    unfold Lexer.tokenAt. cbn [Lexer.cline Lexer.ccolumn Lexer.position].
    f_equal. rewrite LayoutFacts.position_advance, LayoutFacts.position_run,
      LayoutFacts.position_advance.
    cbn [Lexer.position]. rewrite length_app. cbn [length]. lia.
  - reflexivity.
Qed.

(** X8. A string literal that is left open is refused: whatever the
    text that follows the opening quote, its quotes and backslashes
    written as above, the lexer raises UNTERMINATED_STRING with the line
    and the column of the opening quote. *)
Theorem open_string_literal_is_refused
        (body : list ascii) (opts : Lexer.Options) :
  Lexer.tokenize (JsString.ofList (openLiteral body)) opts
  = Throw (ESQL (mkSQLError "Unterminated string literal"
                            (Code "UNTERMINATED_STRING") 1 1 [])).
Proof.
  unfold Lexer.tokenize. rewrite NumberFacts.toList_ofList.
  unfold openLiteral. cbn [length].
  rewrite LiteralFacts.tokenizeLoop_quote.
  unfold Lexer.readString, Lexer.skip. cbn [fst snd].
  rewrite <- (app_nil_r (flat_map escape body)).
  rewrite (LiteralFacts.readQuoted_escape body []) by exact I.
  reflexivity.
Qed.

(** ** The parser *)

(** X9. On every list of tokens, with or without an end marker, [parse]
    returns a tree or raises an error of its own: a budget of twelve nested
    calls for each significant token and three more is enough for the
    stack not to run out, and from there on the result does not depend on
    the budget. *)
Theorem parse_returns_or_raises (toks : list Token) (options : Parser.Options) :
  exists r,
    (r <> NoFuel /\ r <> Throw Parser.stackOverflow)
    /\ forall fuel,
         12 * length (Parser.significant toks) + 3 <= fuel ->
         Parser.parse fuel toks options = r.
Proof.
  exists (Parser.parse (Progress.enough toks) toks options). split; [split|].
  - apply ParserFuel.parse_settled.
  - apply ProgressFacts.parse_total. apply Nat.le_refl.
  - intros fuel W. now apply ProgressFacts.parse_settles.
Qed.

(** X10. On a list of tokens that ends with the end marker, [parse]
    raises an SQLError whose code is EMPTY_INPUT, UNEXPECTED_END or
    UNEXPECTED_TOKEN, or a number, the line that two of its throw sites
    pass in the place of the code; or, when its calls nest deeper than the
    stack holds, the RangeError of the engine, which is not an SQLError.
    With a budget of twelve nested calls for each significant token and
    three more it is the SQLError.  No read of a property of a missing
    token raises a TypeError. *)
Theorem parser_raises_its_own_errors
        (fuel : nat) (front : list Token) (eof : Token)
        (options : Parser.Options) (e : Exn) :
  type eof = TT.EOF ->
  Parser.parse fuel (front ++ [eof]) options = Throw e ->
  ((exists err,
       e = ESQL err
       /\ (code err = Code "EMPTY_INPUT" \/ code err = Code "UNEXPECTED_END"
           \/ code err = Code "UNEXPECTED_TOKEN" \/ exists n, code err = CodeNumber n))
   \/ e = EJs "RangeError" "Maximum call stack size exceeded")
  /\ (12 * length (Parser.significant (front ++ [eof])) + 3 <= fuel ->
      exists err,
        e = ESQL err
        /\ (code err = Code "EMPTY_INPUT" \/ code err = Code "UNEXPECTED_END"
            \/ code err = Code "UNEXPECTED_TOKEN" \/ exists n, code err = CodeNumber n)).
Proof.
  intros Y P.
  assert (C : Errors.closed (Parser.significant (front ++ [eof])))
    by now apply (ErrorsFacts.closed_significant _ front eof).
  split.
  - exact (ErrorsFacts.parse_errors _ _ _ _ C P).
  - intros W. exact (ErrorsFacts.parse_errors_enough _ _ _ _ C W P).
Qed.

Lemma parser_raises_its_own_errors_witness :
  exists err,
    ESQL (SQLErr.unexpectedEnd 1 14) = ESQL err
    /\ (code err = Code "EMPTY_INPUT" \/ code err = Code "UNEXPECTED_END"
        \/ code err = Code "UNEXPECTED_TOKEN" \/ exists n, code err = CodeNumber n).
Proof.
  apply (parser_raises_its_own_errors 200 (removelast selectFrom)
           (last selectFrom (mkToken TT.EOF "" 0 0 0 0)) (Parser.mkOptions false));
    [vm_compute; reflexivity | vm_compute; reflexivity
    | apply Nat.leb_le; vm_compute; reflexivity].
Defined.

(** X11. Every tree that [parse] returns follows the grammar of the
    parser: its root is a statement of one of the five classes, and every
    node that a traversal visits holds, in each property, a node of the
    class that the grammar puts there. *)
Theorem parsed_tree_follows_the_grammar
        (fuel : nat) (toks : list Token) (options : Parser.Options) (tree : node) :
  Parser.parse fuel toks options = Return tree ->
  In (nodeType tree) statementTypes
  /\ Forall (fun n => Schema.schema n = true) (Facade.descendants tree).
Proof.
  intros P. apply SchemaFacts.parse_grammar in P. destruct P as [T S].
  split; [|exact T].
  destruct tree; try discriminate S; cbn; auto 6.
Qed.

Lemma parsed_tree_follows_the_grammar_witness :
  In (nodeType twoJoins_tree) statementTypes
  /\ Forall (fun n => Schema.schema n = true) (Facade.descendants twoJoins_tree).
Proof.
  apply (parsed_tree_follows_the_grammar 200 twoJoins_tokens (Parser.mkOptions true)).
  vm_compute. reflexivity.
Defined.

(** X12. When it is not strict, [parse] reads nothing after the first
    semicolon: the outcome is the same whatever the tokens that follow
    it.  This holds when no token before the semicolon is the end marker
    or opens a window frame with ROWS or RANGE, after whose bounds the
    parser skips a token unseen. *)
Theorem nothing_is_read_after_a_semicolon
        (fuel : nat) (pre rest rest' : list Token) (semi : Token) :
  type semi = TT.SEMICOLON ->
  Forall (fun t => type t <> TT.EOF /\ type t <> TT.ROWS /\ type t <> TT.RANGE) pre ->
  Parser.parse fuel (pre ++ semi :: rest) (Parser.mkOptions false)
  = Parser.parse fuel (pre ++ semi :: rest') (Parser.mkOptions false).
Proof. apply SemicolonFacts.parse_after_semicolon. Qed.

Lemma nothing_is_read_after_a_semicolon_witness :
  Parser.parse 200 (selectA ++ semicolon :: dropX) (Parser.mkOptions false)
  = Parser.parse 200 (selectA ++ semicolon :: []) (Parser.mkOptions false).
Proof.
  apply (nothing_is_read_after_a_semicolon 200 selectA dropX [] semicolon).
  - reflexivity.
  - repeat (constructor; [repeat split; discriminate|]). constructor.
Defined.

(** X13. In the strict mode [parse] accepts no list of tokens that holds
    a semicolon, be it the last token before the end marker: the parser
    reads no semicolon, so that it is a token that follows the statement.
    This holds when no token before the semicolon is the end marker or
    opens a window frame with ROWS or RANGE. *)
Theorem strict_mode_accepts_no_semicolon
        (fuel : nat) (pre rest : list Token) (semi : Token) (tree : node) :
  type semi = TT.SEMICOLON ->
  Forall (fun t => type t <> TT.EOF /\ type t <> TT.ROWS /\ type t <> TT.RANGE) pre ->
  Parser.parse fuel (pre ++ semi :: rest) (Parser.mkOptions true) <> Return tree.
Proof. apply SemicolonFacts.parse_semicolon. Qed.

Lemma strict_mode_accepts_no_semicolon_witness :
  Parser.parse 200 (selectA ++ semicolon :: dropX) (Parser.mkOptions true)
  <> Return selectA_tree.
Proof.
  apply (strict_mode_accepts_no_semicolon 200 selectA dropX semicolon).
  - reflexivity.
  - repeat (constructor; [repeat split; discriminate|]). constructor.
Defined.

(** ** The facade *)

(** X14. What [parseSQL] returns on a text is of one of two shapes.  A
    success holds a tree whose root is one of the five statements, and no
    error.  A failure holds no tree, no table, no column, no token and
    exactly one error: an SQLError of the lexer or of the parser, or, when
    the calls of the parser nest deeper than the stack holds, the
    UNEXPECTED_ERROR that the facade makes of the RangeError of the
    engine.  The facade makes no other UNEXPECTED_ERROR, and none with a
    budget of twelve nested calls for each significant token and three
    more. *)
Theorem parseSQL_result_is_a_tree_or_one_error
        (fuel : nat) (s : string) (o : Facade.Options) (r : Facade.ParseResult) :
  Facade.parseSQL fuel (Facade.ArgString s) o = Return r ->
  if Facade.success r then
    exists tree,
      Facade.ast r = Some tree /\ In (nodeType tree) statementTypes
      /\ Facade.errors r = []
  else
    Facade.ast r = None /\ Facade.tables r = [] /\ Facade.columns r = []
    /\ Facade.tokens r = None
    /\ exists e,
         Facade.errors r = [e]
         /\ ((Facade.ename e = Some "SQLError"
              /\ (In (Facade.ecode e)
                     [Code "LEXICAL_ERROR"; Code "UNTERMINATED_STRING";
                      Code "EMPTY_INPUT"; Code "UNEXPECTED_END";
                      Code "UNEXPECTED_TOKEN"]
                  \/ exists n, Facade.ecode e = CodeNumber n))
             \/ (e = Facade.mkErrorInfo None "Maximum call stack size exceeded"
                                        (Code "UNEXPECTED_ERROR") 0 0 None
                 /\ fuel < Progress.budget s o)).
Proof.
  intros H. destruct (Facade.success r) eqn:S.
  - destruct (ResultFacts.parseSQL_success _ _ _ _ H S) as (tree & A & [_ C] & _ & _ & E).
    exists tree. repeat split; try assumption.
    destruct tree; try discriminate C; cbn; auto 6.
  - destruct (ResultFacts.parseSQL_failure _ _ _ _ H S) as [(err & -> & K) | ->].
    + repeat split. exists (Facade.toJSON err). split; [reflexivity|]. left.
      split; [reflexivity|].
      cbn [Facade.toJSON Facade.ecode].
      destruct K as [[K | K] | [K | [K | [K | K]]]]; try (right; exact K);
        left; rewrite K; cbn; auto 6.
    + repeat split. eexists. split; [reflexivity|]. right. split; [reflexivity|].
      destruct (Nat.lt_ge_cases fuel (Progress.budget s o)) as [L | L]; [exact L|].
      exfalso. revert H. now apply ResultFacts.parseSQL_enough.
Qed.

Lemma parseSQL_result_is_a_tree_or_one_error_witness :
  if Facade.success trailing_refused then
    exists tree,
      Facade.ast trailing_refused = Some tree /\ In (nodeType tree) statementTypes
      /\ Facade.errors trailing_refused = []
  else
    Facade.ast trailing_refused = None /\ Facade.tables trailing_refused = []
    /\ Facade.columns trailing_refused = []
    /\ Facade.tokens trailing_refused = None
    /\ exists e,
         Facade.errors trailing_refused = [e]
         /\ ((Facade.ename e = Some "SQLError"
              /\ (In (Facade.ecode e)
                     [Code "LEXICAL_ERROR"; Code "UNTERMINATED_STRING";
                      Code "EMPTY_INPUT"; Code "UNEXPECTED_END";
                      Code "UNEXPECTED_TOKEN"]
                  \/ exists n, Facade.ecode e = CodeNumber n))
             \/ (e = Facade.mkErrorInfo None "Maximum call stack size exceeded"
                                        (Code "UNEXPECTED_ERROR") 0 0 None
                 /\ 200 < Progress.budget trailing
                             (Facade.mkOptions true false false false))).
Proof.
  apply (parseSQL_result_is_a_tree_or_one_error 200 trailing
           (Facade.mkOptions true false false false) trailing_refused).
  vm_compute. reflexivity.
Defined.

(** X15. A text of white space only, the empty text among them, is refused
    by [parseSQL] with the one error EMPTY_INPUT at line 1, column 1,
    with every budget and every options. *)
Theorem blank_text_is_empty_input (fuel : nat) (s : string) (o : Facade.Options) :
  forallb JsString.isSpace (JsString.toList s) = true ->
  Facade.parseSQL fuel (Facade.ArgString s) o
  = Return (Facade.parseFailure
              (Facade.mkErrorInfo (Some "SQLError") "Empty input" (Code "EMPTY_INPUT")
                                  1 1 (Some []))).
Proof.
  intros B.
  destruct (BlankFacts.tokenize_blank s
              (Lexer.mkOptions (Facade.includeWhitespace o) (Facade.includeComments o)) B)
    as (toks & eof & T & S & Y).
  unfold Facade.parseSQL. rewrite T.
  rewrite (ResultFacts.parse_empty fuel toks eof _ S Y). reflexivity.
Qed.

Lemma blank_text_is_empty_input_witness :
  Facade.parseSQL 0 (Facade.ArgString "   ") Facade.noOptions
  = Return (Facade.parseFailure
              (Facade.mkErrorInfo (Some "SQLError") "Empty input" (Code "EMPTY_INPUT")
                                  1 1 (Some []))).
Proof.
  apply (blank_text_is_empty_input 0 "   " Facade.noOptions). reflexivity.
Defined.

(** X16. The options [includeWhitespace], [includeComments] and
    [includeTokens] change nothing of a result of [parseSQL] but its
    [tokens]: with the same [strict] and the same budget, two calls on a
    text both return, with the same [success], tree, tables, columns and
    errors. *)
Theorem token_options_keep_the_result
        (fuel : nat) (s : string) (o1 o2 : Facade.Options) :
  Facade.strict o1 = Facade.strict o2 ->
  match Facade.parseSQL fuel (Facade.ArgString s) o1,
        Facade.parseSQL fuel (Facade.ArgString s) o2 with
  | Return r1, Return r2 =>
      Facade.success r1 = Facade.success r2 /\ Facade.ast r1 = Facade.ast r2
      /\ Facade.tables r1 = Facade.tables r2
      /\ Facade.columns r1 = Facade.columns r2
      /\ Facade.errors r1 = Facade.errors r2
  | _, _ => False
  end.
Proof.
  intros S. unfold Facade.parseSQL. rewrite S.
  pose proof (LexerOptionsFacts.tokenize_options s
                (Lexer.mkOptions (Facade.includeWhitespace o1) (Facade.includeComments o1))
                (Lexer.mkOptions (Facade.includeWhitespace o2) (Facade.includeComments o2)))
    as A.
  pose proof (ResultFacts.tokenize_ok s
                (Lexer.mkOptions (Facade.includeWhitespace o1) (Facade.includeComments o1)))
    as T1.
  unfold LexerOptions.agree in A.
  destruct (Lexer.tokenize s (Lexer.mkOptions (Facade.includeWhitespace o1) _))
    as [t1|e1|],
    (Lexer.tokenize s (Lexer.mkOptions (Facade.includeWhitespace o2) _))
    as [t2|e2|]; try contradiction.
  - rewrite (ResultFacts.parse_significant fuel t1 t2 _ A).
    destruct (Parser.parse fuel t2 _) as [tree|[err|name msg]|] eqn:P; cbn; auto.
    revert P. apply ParserFuel.parse_settled.
  - subst e2. destruct e1; cbn; auto.
Qed.

Lemma token_options_keep_the_result_witness :
  match Facade.parseSQL 200 (Facade.ArgString twoLines) (Facade.mkOptions false true true true),
        Facade.parseSQL 200 (Facade.ArgString twoLines) Facade.noOptions with
  | Return r1, Return r2 =>
      Facade.success r1 = Facade.success r2 /\ Facade.ast r1 = Facade.ast r2
      /\ Facade.tables r1 = Facade.tables r2
      /\ Facade.columns r1 = Facade.columns r2
      /\ Facade.errors r1 = Facade.errors r2
  | _, _ => False
  end.
Proof.
  apply (token_options_keep_the_result 200 twoLines
           (Facade.mkOptions false true true true) Facade.noOptions).
  reflexivity.
Defined.

(** X17. The strict mode only refuses what follows the statement.  With
    the same budget and the same other options, a strict call that
    succeeds returns what the call that is not strict returns, a failure
    of the call that is not strict is the failure of the strict call, and
    where the two differ the strict call fails with UNEXPECTED_TOKEN, at
    a token that is not the end marker. *)
Theorem strict_only_refuses_what_follows
        (fuel : nat) (s : string) (c w t : bool) (loose strict : Facade.ParseResult) :
  Facade.parseSQL fuel (Facade.ArgString s) (Facade.mkOptions false c w t) = Return loose ->
  Facade.parseSQL fuel (Facade.ArgString s) (Facade.mkOptions true c w t) = Return strict ->
  strict = loose
  \/ (Facade.success loose = true
      /\ exists actual l k,
           actual <> TT.EOF
           /\ strict
              = Facade.parseFailure
                  (Facade.toJSON (SQLErr.unexpectedToken "end of statement" actual l k))).
Proof.
  unfold Facade.parseSQL. cbn [Facade.strict Facade.includeWhitespace
                                Facade.includeComments Facade.includeTokens].
  destruct (Lexer.tokenize s _) as [toks|e|]; [| |discriminate].
  - pose proof (ResultFacts.parse_strict fuel toks) as P.
    destruct (Parser.parse fuel toks (Parser.mkOptions false)) as [tree|e|].
    + destruct P as [-> | (tok & -> & _ & N)].
      * intros [= <-] [= <-]. now left.
      * intros [= <-] [= <-]. right. split; [reflexivity|].
        now exists (type tok), (line tok), (column tok).
    + rewrite P. intros [= <-] [= <-]. now left.
    + discriminate.
  - intros [= <-] [= <-]. now left.
Qed.

Lemma strict_only_refuses_what_follows_witness :
  trailing_refused = trailing_accepted
  \/ (Facade.success trailing_accepted = true
      /\ exists actual l k,
           actual <> TT.EOF
           /\ trailing_refused
              = Facade.parseFailure
                  (Facade.toJSON (SQLErr.unexpectedToken "end of statement" actual l k))).
Proof.
  apply (strict_only_refuses_what_follows 200 trailing false false false);
    vm_compute; reflexivity.
Defined.

(** X18. [extractTables] returns the names that [parseSQL] reports in
    [tables], each of them once: [tables] keeps a name as often as the
    tree holds it, [extractTables] does not. *)
Theorem extractTables_is_tables_without_repeats
        (fuel : nat) (s : string) (r : Facade.ParseResult) :
  Facade.parseSQL fuel (Facade.ArgString s) Facade.noOptions = Return r ->
  exists names,
    Facade.extractTables fuel (Facade.ArgString s) = Return names
    /\ NoDup names
    /\ forall x, In x names <-> In x (Facade.tables r).
Proof.
  intros H. unfold Facade.extractTables. rewrite H.
  destruct (Facade.success r) eqn:S; cbn [negb].
  - destruct (ResultFacts.parseSQL_success _ _ _ _ H S) as (tree & -> & _ & -> & _).
    eexists. split; [reflexivity|]. split; [apply ResultFacts.NoDup_distinct|].
    intros x. rewrite ResultFacts.In_distinct. unfold Facade.extractTablesFromAST.
    cbn [In]. tauto.
  - destruct (ResultFacts.parseSQL_failure _ _ _ _ H S) as [(err & -> & _) | ->];
      (exists []; split; [reflexivity|]; split; [constructor | reflexivity]).
Qed.

Lemma extractTables_is_tables_without_repeats_witness :
  exists names,
    Facade.extractTables 200 (Facade.ArgString selfJoin) = Return names
    /\ NoDup names
    /\ forall x, In x names <-> In x (Facade.tables selfJoin_parsed).
Proof.
  apply (extractTables_is_tables_without_repeats 200 selfJoin selfJoin_parsed).
  vm_compute. reflexivity.
Defined.

(** X19. [extractColumns] returns every name that [parseSQL] reports in
    [columns], and no name twice. *)
Theorem extractColumns_holds_the_columns
        (fuel : nat) (s : string) (r : Facade.ParseResult) :
  Facade.parseSQL fuel (Facade.ArgString s) Facade.noOptions = Return r ->
  exists names,
    Facade.extractColumns fuel (Facade.ArgString s) = Return names
    /\ NoDup names
    /\ forall x, In x (Facade.columns r) -> In x names.
Proof.
  intros H. unfold Facade.extractColumns. rewrite H.
  destruct (Facade.success r) eqn:S; cbn [negb].
  - destruct (ResultFacts.parseSQL_success _ _ _ _ H S) as (tree & -> & _ & _ & -> & _).
    eexists. split; [reflexivity|]. split; [apply ResultFacts.NoDup_distinct|].
    intros x. unfold Facade.extractColumnsFromAST.
    rewrite !ResultFacts.In_distinct. intros [I _]. split; [|tauto].
    apply ResultFacts.In_collect in I. destruct I as (n & I & E).
    apply in_flat_map. exists n. split; [exact I|].
    now apply ResultFacts.columnNameOf_columnsAt.
  - destruct (ResultFacts.parseSQL_failure _ _ _ _ H S) as [(err & -> & _) | ->];
      (exists []; split; [reflexivity|]; split; [constructor | intros x []]).
Qed.

Lemma extractColumns_holds_the_columns_witness :
  exists names,
    Facade.extractColumns 200 (Facade.ArgString selfJoin) = Return names
    /\ NoDup names
    /\ forall x, In x (Facade.columns selfJoin_parsed) -> In x names.
Proof.
  apply (extractColumns_holds_the_columns 200 selfJoin selfJoin_parsed).
  vm_compute. reflexivity.
Defined.

(** X20. The columns that [parseSQL] reports are the names of the column
    references of the tree, those that are not empty: the parser builds no
    Identifier node, so that the other branch of the test of
    [extractColumnsFromAST] never applies. *)
Theorem columns_are_the_column_references
        (fuel : nat) (s : string) (o : Facade.Options) (r : Facade.ParseResult)
        (tree : node) :
  Facade.parseSQL fuel (Facade.ArgString s) o = Return r ->
  Facade.ast r = Some tree ->
  (forall name table, ~ In (Identifier name table) (Facade.descendants tree))
  /\ forall x,
       In x (Facade.columns r)
       <-> x <> EmptyString
           /\ exists table alias,
                In (ColumnReference x table alias) (Facade.descendants tree).
Proof.
  intros H A.
  assert (S : Facade.success r = true).
  { destruct (Facade.success r) eqn:S; [reflexivity|].
    destruct (ResultFacts.parseSQL_failure _ _ _ _ H S) as [(err & -> & _) | ->];
      discriminate A. }
  destruct (ResultFacts.parseSQL_success _ _ _ _ H S) as (tree' & A' & [T _] & _ & -> & _).
  assert (tree' = tree) by congruence. subst tree'. clear A'.
  assert (N : forall name table, ~ In (Identifier name table) (Facade.descendants tree)).
  { intros name table I. unfold Schema.Typed in T.
    rewrite Forall_forall in T. apply T in I. discriminate I. }
  split; [exact N|].
  intros x. unfold Facade.extractColumnsFromAST.
  rewrite ResultFacts.In_distinct, ResultFacts.In_collect. split.
  - intros [(n & I & E) _]. destruct n; try discriminate E.
    + exfalso. exact (N _ _ I).
    + cbn in E. destruct name as [|c name']; [discriminate E|].
      injection E as <-. split; [discriminate|]. now exists table, alias.
  - intros (Nx & table & alias & I). split; [|intros []].
    exists (ColumnReference x table alias). split; [exact I|].
    cbn. destruct x; [contradiction | reflexivity].
Qed.

Lemma columns_are_the_column_references_witness :
  (forall name table, ~ In (Identifier name table) (Facade.descendants twoJoins_tree))
  /\ forall x,
       In x (Facade.columns twoJoins_parsed)
       <-> x <> EmptyString
           /\ exists table alias,
                In (ColumnReference x table alias) (Facade.descendants twoJoins_tree).
Proof.
  apply (columns_are_the_column_references 200 twoJoins Facade.noOptions twoJoins_parsed);
    vm_compute; reflexivity.
Defined.

(** ** The analyzer *)

(** X21. On a text, [analyzeSQL] returns whenever [parseSQL] does, and
    raises nothing: it succeeds when [parseSQL] succeeds, with the whole
    result of [parseSQL] in its property [ast], the class of the tree as
    the type of the query, the trimmed text as its [sql] and the
    complexity of its analysis; it fails when [parseSQL] fails, with the
    type [unknown]. *)
Theorem analyzeSQL_follows_parseSQL
        (fuel : nat) (s : string) (o : Facade.Options) (p : Facade.ParseResult) :
  Facade.parseSQL fuel (Facade.ArgString s) o = Return p ->
  if Facade.success p then
    exists tree a,
      Facade.ast p = Some tree
      /\ Facade.analyzeSQL fuel (Facade.ArgString s) o
         = Return (Facade.AnalyzeSuccess
                     (Facade.mkQueryInfo (nodeType tree) (JsString.trim s)) a
                     (Analyzer.analyzeQueryComplexity a) p)
  else
    exists msg,
      Facade.analyzeSQL fuel (Facade.ArgString s) o
      = Return (Facade.AnalyzeFailure msg (Facade.mkQueryInfo "unknown" (JsString.trim s))).
Proof.
  intros H. unfold Facade.analyzeSQL. rewrite H.
  destruct (Facade.success p) eqn:S; cbn [negb].
  - destruct (ResultFacts.parseSQL_success _ _ _ _ H S) as (tree & A & [T C] & _).
    rewrite A. exists tree.
    destruct (String.eqb (nodeType tree) "SelectStatement") eqn:Q.
    + assert (Sel : Schema.isSelect tree = true)
        by (destruct tree; try discriminate C; try discriminate Q; reflexivity).
      destruct (ResultFacts.analyzeSelectQuery_typed tree T Sel) as (a & -> & _).
      exists a. split; reflexivity.
    + rewrite FacadeFacts.extractTables_object.
      exists (Analyzer.mkAnalysis [] [] [] [] [] [] None). split; reflexivity.
  - eexists. reflexivity.
Qed.

Lemma analyzeSQL_follows_parseSQL_witness :
  if Facade.success twoJoins_parsed then
    exists tree a,
      Facade.ast twoJoins_parsed = Some tree
      /\ Facade.analyzeSQL 200 (Facade.ArgString twoJoins) Facade.noOptions
         = Return (Facade.AnalyzeSuccess
                     (Facade.mkQueryInfo (nodeType tree) (JsString.trim twoJoins)) a
                     (Analyzer.analyzeQueryComplexity a) twoJoins_parsed)
  else
    exists msg,
      Facade.analyzeSQL 200 (Facade.ArgString twoJoins) Facade.noOptions
      = Return (Facade.AnalyzeFailure msg
                  (Facade.mkQueryInfo "unknown" (JsString.trim twoJoins))).
Proof.
  apply (analyzeSQL_follows_parseSQL 200 twoJoins Facade.noOptions twoJoins_parsed).
  vm_compute. reflexivity.
Defined.

(** X22. The analysis of a parsed SELECT has one entry of [joins] for each
    JOIN of the query, in their order, and the [type] of every entry is
    the class name JoinClause, whatever the kind of the join: the analyzer
    reads [join.type], and the kind is held by [join.joinType]. *)
Theorem join_entries_are_typed_JoinClause
        (fuel : nat) (toks : list Token) (options : Parser.Options)
        (tree : node) (a : Analyzer.Analysis) :
  Parser.parse fuel toks options = Return tree ->
  Analyzer.analyzeSelectQuery tree = Return a ->
  length (Analyzer.joins a) = length (joinsOf tree)
  /\ Forall (fun i => Analyzer.jtype i = "JoinClause") (Analyzer.joins a).
Proof.
  intros P A. apply SchemaFacts.parse_grammar in P. destruct P as [T C].
  assert (Sel : Schema.isSelect tree = true).
  { destruct tree; try discriminate C; try reflexivity; discriminate A. }
  destruct (ResultFacts.analyzeSelectQuery_typed tree T Sel) as (a' & A' & N & F).
  assert (a' = a) by congruence. subst a'. now split.
Qed.

Lemma join_entries_are_typed_JoinClause_witness :
  length (Analyzer.joins twoJoins_analysis) = length (joinsOf twoJoins_tree)
  /\ Forall (fun i => Analyzer.jtype i = "JoinClause") (Analyzer.joins twoJoins_analysis).
Proof.
  apply (join_entries_are_typed_JoinClause 200 twoJoins_tokens (Parser.mkOptions true));
    vm_compute; reflexivity.
Defined.

(** X23. Every table that the analysis of a statement lists under a name
    that is not empty is a table that [parseSQL] reports: the table
    references that [extractTableInfo] reads under FROM and under the
    joins are among those that the traversal of the facade visits. *)
Theorem analysis_tables_are_parsed_tables
        (fuel : nat) (s : string) (o : Facade.Options) (q : Facade.QueryInfo)
        (a : Analyzer.Analysis) (c : Analyzer.Complexity) (p : Facade.ParseResult)
        (name : string) (alias schema : option string) :
  Facade.analyzeSQL fuel (Facade.ArgString s) o
  = Return (Facade.AnalyzeSuccess q a c p) ->
  In (Analyzer.TableInfo name alias schema) (Analyzer.tables a) ->
  name <> EmptyString ->
  In name (Facade.tables p).
Proof.
  unfold Facade.analyzeSQL.
  destruct (Facade.parseSQL fuel (Facade.ArgString s) o) as [r|e|] eqn:H;
    [| discriminate | discriminate].
  destruct (Facade.success r) eqn:S; cbn [negb]; [|discriminate].
  destruct (ResultFacts.parseSQL_success _ _ _ _ H S) as (tree & A & _ & T & _).
  rewrite A.
  destruct (String.eqb (nodeType tree) "SelectStatement").
  - destruct (Analyzer.analyzeSelectQuery tree) as [x|e|] eqn:Q; try discriminate.
    intros [= _ <- _ <-] I N. rewrite T.
    unfold Analyzer.analyzeSelectQuery in Q.
    destruct (Analyzer.unalias tree) eqn:U; try discriminate Q.
    destruct (Analyzer.extractJoinInfo _); try discriminate Q.
    injection Q as <-. cbn [Analyzer.tables] in I.
    destruct from as [f|]; [|contradiction].
    destruct (ResultFacts.extractTableInfo_reference f _ _ _ I) as [al R].
    unfold Facade.extractTablesFromAST. apply ResultFacts.In_collect.
    exists (TableReference name al schema). split.
    + apply (ResultFacts.child_descendants tree f); [|exact R].
      unfold Shape.children. rewrite U. apply in_or_app. right.
      apply in_or_app. left. now left.
    + cbn. destruct name; [contradiction | reflexivity].
  - rewrite FacadeFacts.extractTables_object. intros [= _ <- _ _] I. destruct I.
Qed.

Lemma analysis_tables_are_parsed_tables_witness :
  In "orders" (Facade.tables twoJoins_parsed).
Proof.
  apply (analysis_tables_are_parsed_tables 200 twoJoins Facade.noOptions
           (Facade.mkQueryInfo "SelectStatement" twoJoins) twoJoins_analysis
           (Analyzer.analyzeQueryComplexity twoJoins_analysis) twoJoins_parsed
           "orders" (Some "o") None).
  - vm_compute. reflexivity.
  - vm_compute. auto.
  - discriminate.
Defined.

(** X24. Every condition that the analyzer extracts, from any tree, is a
    comparison by one of the eleven operators that it knows, on a field,
    and its type is one of [equality], [comparison], [pattern], [list]
    and [range]: the type [other] of [getConditionType] is never
    reported. *)
Theorem conditions_are_never_other (whereClause : option node) :
  Forall (fun c =>
            In (Analyzer.operator c) Analyzer.leafOperators
            /\ Analyzer.field c <> None
            /\ Analyzer.ctype c = Analyzer.getConditionType (Analyzer.operator c)
            /\ In (Analyzer.ctype c)
                  ["equality"; "comparison"; "pattern"; "list"; "range"])
         (Analyzer.extractConditions whereClause).
Proof.
  assert (K : forall n,
             Forall (fun c =>
                       In (Analyzer.operator c) Analyzer.leafOperators
                       /\ Analyzer.field c <> None
                       /\ Analyzer.ctype c = Analyzer.getConditionType (Analyzer.operator c)
                       /\ In (Analyzer.ctype c)
                             ["equality"; "comparison"; "pattern"; "list"; "range"])
                    (Analyzer.traverseCondition n)).
  { intros n. eapply Forall_impl; [|apply ResultFacts.traverseCondition_leaf].
    intros c (O & T & F). repeat split; try assumption.
    rewrite T. now apply ResultFacts.getConditionType_leaf. }
  unfold Analyzer.extractConditions. destruct whereClause as [w|]; [|constructor].
  destruct (Analyzer.unalias w); apply K.
Qed.

End Extras.
